(* ===== verification/_CoqProject ===== *)
-Q . S2P
Prelude.v
Timestamps.v
Names.v
Types.v
DeepCopy.v
BackupTypes.v
Objects.v
PodLib.v
Kube.v
Ownership.v
Controller.v
Utils.v
PodControl.v
Controls.v
Upgrade.v
Revisions.v
Control.v
Sync.v
Phases.v
Rounds.v
Settled.v
Quiet.v
Converge.v
Status.v
Metrics.v
Labels.v
Restoring.v
Storage.v
Restore.v
Operator.v
Backup.v
SideCar.v
GoText.v
GoFlag.v
Bootstrap.v
Archive.v
Utilities.v
Transfer.v
S3Store.v
Server.v
Spec.v
Operations.v
HttpServer.v
Clients.v
ClientSet.v
Fakes.v
Command.v
