(* ===== verification/Prelude.v ===== *)
(** * Galera operator: a verification library

    The operator keeps MariaDB Galera clusters running on Kubernetes.  A cluster
    is described by a [Galera] object; each time something changes, the
    controller fetches the object, the pods and the claims of the cluster, and
    calls [SyncGalera], which does one round: compare what is observed with what
    is specified, make a few API calls, write the status.  A second controller
    takes the backups that [GaleraBackup] objects ask for, and a restoration copies
    one of them to the pods of a new cluster; both talk to a side-car in the pods,
    which archives a directory and sends it to a storage.  Before MariaDB starts, an
    init container writes the configuration of the node.

    This library models these programs, from the handlers of the queue down to the
    names, labels and containers of the objects, the lines of the configuration and
    the entries of the archives, and proves what they may do and must not do.

    ** Parts of the program and files of the library

    The sources are under [src/pkg/]; [cluster/] is [controllers/cluster/].

    - [Prelude]: Go's errors and results ([outcome]: a value, an error, a panic,
      or too few random draws or turns of a loop), [int32] with its wrap-around, the
      iteration over a map, functions of the package [strings], hints and tactics.
    - [Timestamps]: the format of the dates in the names of backups.
    - [Names]: [apis/apigalera/v1beta2/constants.go] and the functions of
      [cluster/galera_utils.go] and [galera/utils.go] that build names and parse
      them back.
    - [Types]: [apis/apigalera/v1beta2/galera_types.go]; specification, status,
      conditions and their methods.  [BackupTypes]: the same for backups, and the
      documents that the operator and the side-car exchange.
    - [Objects]: the Kubernetes objects, with the fields the code uses.
    - [PodLib]: [galera/pod.go], [claim.go], [service.go], [utils.go] and
      [pod_disruption_budget.go]; the builders of these objects.
    - [Kube]: the API calls, the requests to a side-car, the work queue, the
      commands run in containers, [retry] and the monads [M] and [SM] in which the
      operations are written.
    - [Ownership]: [cluster/galera_claim_control.go] and
      [client/listers/apigalera/v1beta2/expansion.go]; who owns pods and claims.
    - [Controller]: [cluster/galera_controller.go]; the handlers of the informers,
      the workers, adoption and [syncHandler].
    - [Utils]: the rest of [cluster/galera_utils.go].
    - [PodControl]: [cluster/galera_pod_control.go]; the interface as a class of
      operations ([GaleraPodControl]), its contract as a class of laws
      ([GaleraPodControlLaws]), the implementation and the instance of the laws.
    - [Controls]: [cluster/galera_service_control.go],
      [galera_pod_disruption_budget_control.go], [galera_secret_control.go],
      [galera_storage_control.go] and [galera_status_updater.go].
    - [Upgrade]: [cluster/galera_upgrade_config_control.go].
    - [Revisions]: the revision history, in [cluster/galera_utils.go] and
      [cluster/galera_control.go].
    - [Control] and [Sync]: [cluster/galera_control.go]; the steps of a round,
      then [runGalera], [scheduleGaleraRestore], [syncGalera],
      [updateGaleraStatus] and [SyncGalera].
    - [Phases], [Rounds], [Settled], [Quiet], [Converge], [Status], [Labels], [Restoring]:
      theorems on rounds.
    - [Storage]: [backup/]; the methods, the S3 provider and [BackupHandler].
    - [Restore]: [cluster/galera_restore_control.go].
    - [Operator]: the controller with the control; theorems on the two together, and
      with the restorations that they start.
    - [Backup]: [controllers/backup/]; the controller of backups.
    - [Metrics]: [cluster/metrics.go] and [controllers/backup/metrics.go].
    - [SideCar], [S3Store] and [Archive]: the handlers of the side-car, the provider by
      which they reach the storage ([storage-provider/s3/provider.go]) and its archives
      ([utils/targzip/targzip.go]), in [src/galera-images/galera-backup/pkg/].
    - [Utilities]: [utils/tar/tar.go], [utils/gzip/gzip.go] and [DestFile], the archives that
      the side-car does not use.
    - [GoText], [GoFlag] and [Bootstrap]: [src/galera-images/galera-bootstrap/main.go],
      and what it uses of [fmt], [regexp] and [flag].
    - [Transfer]: [Storage], [SideCar] and [Archive] put together: a pod with its
      side-car, its files and the bucket of the storage.
    - [Server]: the REST server of the side-car, in [pkg/models] and [pkg/restapi]:
      documents, parameters, operations, routes.  [Spec]: [restapi/embedded_spec.go], the
      document that the server publishes.  [Operations]: the answer and the URLs of each
      operation in [restapi/operations], and the rest of the API that routes them.
    - [HttpServer]: [restapi/server.go] and the [main] of the side-car: options, sockets,
      servers, shutdown.
    - [DeepCopy]: [apis/apigalera/v1beta2/zz_generated.deepcopy.go], on a memory.
    - [Clients] and [ClientSet]: [src/pkg/client/]; typed clients and how they are made,
      factory of informers, listers.  [Fakes]: the fake clients of [clientset/versioned].
    - [Command]: [src/cmd/galera-operator/main.go], the constructors of the two
      controllers and their [Run], [src/pkg/utils/signals] and [probe].

    [Control] and [Sync] call the pod control through its class only, so that
    their theorems hold for every implementation that has the laws; they call
    [Controls], [Upgrade] and [Revisions] directly, since what is proved depends
    on the calls these make.  [Controller] calls the control through the class
    [GaleraControlInterface]; [Operator] instantiates it.

    ** How state and effects are represented

    The operator keeps no state between two rounds: what persists is in the
    cluster.  The cluster is an [Env]: for each kind of call, an arbitrary
    function from the trace of the calls made so far, and the arguments, to a
    response.  [M A] takes an [Env] and a history, and returns an outcome and
    the events it adds.  Since the responses are arbitrary, a theorem over every
    [Env] covers everything other actors do between two calls: pods that vanish,
    conflicts, listers that are out of date, errors at any point.  [SM A] adds
    the [GaleraStatus] that the source passes by pointer; on an error or a panic
    the status is what it was at that point, as the callers of the source see it.

    The order in which Go iterates over a map is a response too ([EvMapOrder]),
    as are the clock and the random generator.  A nil pointer that is
    dereferenced, an index out of range and a write to a nil map are [Panic];
    [Fatalf], which ends the operator, is recorded in the trace ([fatal]).

    Goroutines: the copies of a restoration, which it waits for, run one after the
    other, in the arbitrary order in which they end; the goroutine of a backup and those
    by which a restoration deletes, which nothing waits for, are returned as computations
    that run at any later time; the goroutines of the side-car, which share a map, are the
    steps of a relation, interleaved with the requests; so are the servers of the side-car
    and its shutdown ([HttpServer]), and the informers, the workers, what these leave
    behind and the main goroutine of the operator ([Command]), whose process may also end
    by [Fatalf] or a panic.

    A pod in a list is a pointer in the source, and two pointers are compared in
    some places.  Here they are equal when the pods are: the pods of a namespace
    have distinct names and the code holds one copy of each.  [DeepCopy] is the
    identity: [DeepCopy], on a memory, proves that a copy means the same as the original,
    and that neither sees what is written to the other.  Kubernetes structs
    that the code only copies and compares are [Opaque] values.

    ** What is a parameter

    - [PodUtil]: the readiness test of Kubernetes.
    - [ApiMachinery]: keys of the queue, selectors, aggregates of errors; its laws
      are those of the documentation.
    - [RefManager]: the base manager of owners of Kubernetes; its laws say what it
      does with an object that is owned, foreign or an orphan.
    - [RetryLib]: the retry on conflict of [client-go]; its laws ([RetryLaws])
      are those of the documentation: the function is run at least once, again
      only after a conflict, and the last error is returned.
    - [RevisionLib]: the history package of Kubernetes, codecs, strategic merge
      patch; its laws ([RevisionLaws]) are those of the documentation: the
      sections of a patch are the ones it was made from, revisions are sorted
      by number, and those equal to one are the ones the equality selects.
    - [Regexp]: regular expressions that are not literal names of options.
    - [OpenAPI]: the packages of go-openapi; its laws ([OpenAPILaws]) say which
      requests are routed, and that what is written in JSON is read back.
    - [Net], [Tls], [Kubelet] and the parser of options of the side-car, with their laws
      ([HttpServer]); the deep copies of the structs of Kubernetes ([DeepCopy]).
    - the REST client, the informers and the indexers of client-go ([Clients]), its
      constructors ([ClientSet]) and its recorder of actions ([Fakes]).
    - [S3Sdk]: the SDK of S3; its laws ([S3SdkLaws]) say what an upload leaves in a bucket
      and what a download reads.
    - [Formats]: the bytes of tar and gzip ([Utilities]); an archive is read back.
    - the responses of the [Env].

    Each class has an instance the witnesses use.

    ** Bounds and fuel

    Every recursion is structural.  [createUniquePodName] loops until a random
    suffix is free; the model draws from a list, and [createUniquePodName_spec]
    shows that it returns as soon as one suffix of the list is free.  The loops
    that poll a side-car take the number of their turns: [Store_waits] and
    [Retrieve_waits] show that they return at the turn at which the side-car gives
    the answer they wait for, whatever the bound beyond it, and that without such
    an answer every bound is exhausted.  A worker runs a given number of items.
    Numbers of replicas are [int32] values with Go's wrap-around ([i32], [len32]).
    The retries of [RetryLaws] have no bound; the instance used for evaluation
    makes at most four steps, those of the default backoff of [client-go].

    ** What the theorems show

    - Safety of a round ([Rounds], [Control], [PodControl]): a ready member is
      deleted only after its own node has said that it is synced; no ready
      member is deleted while replicas are missing; at most one pod is created,
      and nothing is deleted in a round that adds a member; at most one node is
      upgraded at a time; a pod is created after its claims.
    - Progress ([Settled], [Quiet], [Converge]): a cluster that lacks members gets one, so
      that it is complete after as many rounds as members were missing; one that has all
      its members is left alone, and when its services, budget, revisions and recorded
      status are up to date the operator writes nothing at all.
    - The controller ([Controller], [Ownership], [Operator]): a change wakes up
      exactly the clusters it concerns, no key is forgotten, a claim is adopted only
      for a Galera that is still there, a reconciliation and the restoration that it
      starts delete only pods of the cluster that is reconciled, and two operators of
      different scopes never share a cluster.
    - Phases and status ([Phases], [Status]): the phases as a step relation;
      [syncGalera] refines it, phases never go back, and so does what is
      recorded, whatever the cluster answers; a cluster that is being deleted
      is left alone.
    - Backups and restorations ([Storage], [Backup], [Restore], [SideCar],
      [Archive]): a backup is started once, as long as the lister is not older than
      what was recorded; what its status records, which pods a restoration deletes, when
      the polling loops end; every interleaving of the
      side-car keeps the states and the jobs in agreement, and what the operator
      reads from them; a directory that is archived and extracted is the same
      ([archive_roundtrip]), a compressed file too ([gzip_roundtrip]).
    - The same parts put together ([Transfer], [Server]): from the calls of the
      operator alone, what is backed up is what is restored; a request of the
      operator, as JSON over HTTP, reaches the handler that [Transfer] supposes, and
      one that the side-car refuses changes nothing; the calls of the S3 provider are
      the steps that [Transfer] supposes ([S3Store]).
    - What the side-car publishes ([Spec], [Operations]): its answers and the documents it
      accepts are those of its Swagger document, and the URLs of its operations are the
      ones that the operator asks.
    - The counters ([Metrics]): which values they have together, whatever the cluster
      answers.
    - The process of the side-car ([HttpServer]): it listens where the operator looks for
      it, it serves until a signal, and then it stops, without waiting for ever.
    - The clients ([ClientSet], [Fakes]): what each client is configured with, and that a
      fake client means what the client it replaces means.
    - The process of the operator ([Command], [Clients]): it starts without deadlock,
      its workers run only on caches that have synced, how it may end, and what it watches and
      records is limited to its namespace unless it is cluster wide.
    - The configuration of a node ([Bootstrap]): the seven passes over the file are
      equivalent to one rewriting of its lines, and the init container that the
      operator builds gives the configuration that it means.
    - Behaviour of each step on every branch ([Control], [Labels], [Restoring],
      [Revisions], [Upgrade], [Controls], [PodLib], [Utils]).
    - Round trips and bounds on names ([Names]), revisions ([Revisions]), and
      the refinement of a map by the conditions ([Types]).
    - Behaviours that surprise: [promotion_lost], [created_pod_membership],
      [restore_pod_not_deleted], [IsPrimary_non_primary],
      [backup_claim_not_checked], [adoption_blocked], [failed_backup_hangs],
      [failure_never_recorded], [backup_report], [s3provider_settings],
      [password_mangled], [partial_archive], [tail_kept], [shutdown_abandoned],
      [ipv6_missed], [deletion_counted_again], [suffix_not_escaped].

    ** What is not modelled

    - Informers, caches and the work queue belong to client-go; what they answer is
      arbitrary.  The command has no leader election.  The server that exposes the
      counters is net/http.
    - Locks: an operation that holds one is a step.  Writing to a file does not fail, and
      there are no links or devices among the files.
    - The options and the text that print the version of the side-car; the authenticators
      of go-openapi, which no operation uses; the constructors that only store their
      arguments.
    - Unit and end-to-end tests: the second need a cluster, and the first check examples of
      what is proved here.
    - Logs are left out; metrics and events are in the trace.
    - Outputs of commands are strings of bytes; [strings.TrimSpace], the regular
      expressions and the formats are those of ASCII. *)
From Stdlib Require Export ZArith Lia Ascii.
From stdpp Require Export base option list strings gmap fin_maps sets pretty.

#[global] Open Scope string_scope.
#[global] Open Scope list_scope.
#[global] Open Scope Z_scope.

(** stdpp blocks the reduction of string concatenation; here it reduces when
    its first argument is a constructor. *)
#[global] Arguments String.append !_ _ / : simpl nomatch.

(** ** Hint databases of the development

    [galera] collects the lemmas that [eauto with galera] may use on any
    component; [galera_rw] the equations of the string and list helpers. *)
Create HintDb galera.
Create Rewrite HintDb galera_rw.

(** ** Errors and results of Go code *)

(** What the code asks of an error value: [apierrors.IsNotFound],
    [apierrors.IsAlreadyExists], [apierrors.IsInvalid] and the conflict test of
    client-go's retry package.  Everything built with [fmt.Errorf] or
    [errors.New] is [OtherError]. *)
Inductive ekind := NotFound | AlreadyExists | Conflict | Invalid | OtherError.

#[global] Instance ekind_eq_dec : EqDecision ekind.
Proof. solve_decision. Defined.

Record error := mkError { err_kind : ekind; err_msg : string }.

#[global] Instance error_eq_dec : EqDecision error.
Proof. solve_decision. Defined.

(** [fmt.Errorf] and [errors.New] *)
Definition errorf (msg : string) : error := mkError OtherError msg.

(** Result of a Go call that may return an error, panic (nil dereference, index
    out of range, failed type assertion), or run out of the fuel that bounds
    the loops whose end depends on the environment. *)
Inductive outcome (A : Type) :=
| Ok (a : A)
| Err (e : error)
| Panic
| OutOfFuel.
Arguments Ok {A} a.
Arguments Err {A} e.
Arguments Panic {A}.
Arguments OutOfFuel {A}.

#[global] Instance outcome_eq_dec `{EqDecision A} : EqDecision (outcome A).
Proof. solve_decision. Defined.

#[global] Instance outcome_ret : MRet outcome := λ A, @Ok A.
#[global] Instance outcome_bind : MBind outcome := λ A B f o,
  match o with
  | Ok a => f a
  | Err e => Err e
  | Panic => Panic
  | OutOfFuel => OutOfFuel
  end.

Definition is_ok {A} (o : outcome A) : bool :=
  match o with Ok _ => true | _ => false end.

(** Dereferencing a pointer: nil panics. *)
Definition deref {A} (o : option A) : outcome A :=
  match o with Some a => Ok a | None => Panic end.

(** ** Machine integers: Go's int32 *)

Definition i32 (z : Z) : Z := (z + 2147483648) mod 4294967296 - 2147483648.

Definition i32_range (z : Z) : Prop := -2147483648 ≤ z < 2147483648.

Lemma i32_id z : i32_range z → i32 z = z.
Proof. unfold i32, i32_range. intros. rewrite Z.mod_small; lia. Qed.

Lemma i32_in_range z : i32_range (i32 z).
Proof.
  unfold i32, i32_range.
  pose proof (Z.mod_pos_bound (z + 2147483648) 4294967296 ltac:(lia)). lia.
Qed.

Lemma i32_idemp z : i32 (i32 z) = i32 z.
Proof. apply i32_id, i32_in_range. Qed.

#[export] Hint Resolve i32_in_range : galera.

(** [int32(len(l))] *)
Definition len32 {A} (l : list A) : Z := i32 (Z.of_nat (length l)).

Lemma len32_small {A} (l : list A) :
  Z.of_nat (length l) < 2147483648 → len32 l = Z.of_nat (length l).
Proof. intros. apply i32_id. unfold i32_range. lia. Qed.

(** ** Iteration order of Go's maps

    The order is unspecified: [shuffle] picks the elements one after the other
    by the indices it is given, so that every permutation is reached. *)
Fixpoint shuffle {A} (idx : list nat) (l : list A) : list A :=
  match idx with
  | [] => l
  | i :: idx' =>
      match l !! (i `mod` length l)%nat with
      | None => l
      | Some x => x :: shuffle idx' (delete (i `mod` length l)%nat l)
      end
  end.

Lemma shuffle_perm {A} idx (l : list A) : shuffle idx l ≡ₚ l.
Proof.
  revert l. induction idx as [|i idx IH]; intros l; cbn; [done|].
  destruct (l !! (i `mod` length l)%nat) as [x|] eqn:E; [|done].
  rewrite IH. symmetry. by apply delete_Permutation.
Qed.

(** ** Strings of bytes *)

Fixpoint str_forall (P : ascii → bool) (s : string) : bool :=
  match s with
  | "" => true
  | String c s' => P c && str_forall P s'
  end.

(** The last occurrence of [c]: what precedes it and what follows it. *)
Fixpoint rsplit (c : ascii) (s : string) : option (string * string) :=
  match s with
  | "" => None
  | String x s' =>
      match rsplit c s' with
      | Some (p, q) => Some (String x p, q)
      | None => if decide (x = c) then Some ("", s') else None
      end
  end.

(** [s[:n]] for [n <= len(s)], and [s[n:]]. *)
Fixpoint str_take (n : nat) (s : string) : string :=
  match n, s with
  | S n', String c s' => String c (str_take n' s')
  | _, _ => ""
  end.

Fixpoint str_drop (n : nat) (s : string) : string :=
  match n, s with
  | S n', String _ s' => str_drop n' s'
  | _, _ => s
  end.

(** [strings.HasPrefix] and [strings.TrimPrefix] *)
Fixpoint HasPrefix (s p : string) : bool :=
  match p, s with
  | "", _ => true
  | String a p', String b s' => bool_decide (a = b) && HasPrefix s' p'
  | _, _ => false
  end.

Definition TrimPrefix (s p : string) : string :=
  if HasPrefix s p then str_drop (String.length p) s else s.

(** [strings.Contains], and the suffix test. *)
Fixpoint Contains (s sub : string) : bool :=
  HasPrefix s sub || match s with "" => false | String _ s' => Contains s' sub end.

Definition HasSuffix (s suf : string) : bool :=
  (String.length suf <=? String.length s)%nat &&
  bool_decide (str_drop (String.length s - String.length suf) s = suf).

Definition newline : ascii := "010"%char.

(** What follows the last newline. *)
Definition last_line (s : string) : string :=
  match rsplit newline s with Some (_, l) => l | None => s end.

(** The lines of a text, without their newline. *)
Fixpoint lines (s : string) : list string :=
  match s with
  | "" => [""]
  | String c s' =>
      if decide (c = newline) then "" :: lines s'
      else match lines s' with
           | l :: ls => String c l :: ls
           | [] => [String c ""]
           end
  end.

Definition is_upper (c : ascii) : bool :=
  let n := nat_of_ascii c in (65 <=? n)%nat && (n <=? 90)%nat.
Definition is_lower (c : ascii) : bool :=
  let n := nat_of_ascii c in (97 <=? n)%nat && (n <=? 122)%nat.
Definition is_digit (c : ascii) : bool :=
  let n := nat_of_ascii c in (48 <=? n)%nat && (n <=? 57)%nat.

Definition lower_char (c : ascii) : ascii :=
  if is_upper c then ascii_of_nat (nat_of_ascii c + 32) else c.
Definition upper_char (c : ascii) : ascii :=
  if is_lower c then ascii_of_nat (nat_of_ascii c - 32) else c.

(** [strings.ToLower] on ASCII text *)
Fixpoint ToLower (s : string) : string :=
  match s with "" => "" | String c s' => String (lower_char c) (ToLower s') end.

(** [strings.ToUpper] on ASCII text *)
Fixpoint ToUpper (s : string) : string :=
  match s with "" => "" | String c s' => String (upper_char c) (ToUpper s') end.

(** [strings.Title] on a text of one word, the only use of it *)
Definition Title (s : string) : string :=
  match s with "" => "" | String c s' => String (upper_char c) s' end.

(** [strings.Join] *)
Fixpoint Join (l : list string) (sep : string) : string :=
  match l with
  | [] => ""
  | [s] => s
  | s :: l' => s +:+ sep +:+ Join l' sep
  end.

(** ** Lemmas on strings *)

Lemma str_app_nil_r s : s +:+ "" = s.
Proof. induction s; cbn; congruence. Qed.

Lemma str_app_assoc s t u : (s +:+ t) +:+ u = s +:+ (t +:+ u).
Proof. induction s; cbn; congruence. Qed.

Lemma str_app_cons c s t : String c s +:+ t = String c (s +:+ t).
Proof. reflexivity. Qed.

Lemma str_length_app s t :
  String.length (s +:+ t) = (String.length s + String.length t)%nat.
Proof. induction s; cbn; congruence. Qed.

Lemma str_take_length n s : String.length (str_take n s) = (n `min` String.length s)%nat.
Proof. revert n; induction s; intros [|n]; cbn; auto. Qed.

Lemma str_take_ge n s : (String.length s ≤ n)%nat → str_take n s = s.
Proof.
  revert n; induction s; intros [|n] H; cbn in *; auto; try lia.
  f_equal. apply IHs. lia.
Qed.

Lemma str_drop_0 s : str_drop 0 s = s.
Proof. by destruct s. Qed.

Lemma str_take_app s t : str_take (String.length s) (s +:+ t) = s.
Proof. induction s as [|c s IH]; cbn; [by destruct t|by rewrite IH]. Qed.

Lemma str_drop_app s t : str_drop (String.length s) (s +:+ t) = t.
Proof. induction s; cbn; auto using str_drop_0. Qed.

Lemma str_drop_length n s : String.length (str_drop n s) = (String.length s - n)%nat.
Proof. revert n; induction s; intros [|n]; cbn; auto. Qed.

Lemma str_app_inv_head s t u : s +:+ t = s +:+ u → t = u.
Proof. induction s; cbn; [done|]. intros [=]. auto. Qed.

Lemma HasPrefix_app p s : HasPrefix (p +:+ s) p = true.
Proof.
  induction p; cbn; [by destruct s|]. by rewrite bool_decide_eq_true_2, IHp.
Qed.

Lemma TrimPrefix_app p s : TrimPrefix (p +:+ s) p = s.
Proof. unfold TrimPrefix. by rewrite HasPrefix_app, str_drop_app. Qed.

Lemma Contains_app p s t : Contains (p +:+ s +:+ t) s = true.
Proof.
  induction p; cbn; [|by rewrite IHp, orb_true_r].
  pose proof (HasPrefix_app s t) as H. by destruct (s +:+ t); cbn in *; rewrite H.
Qed.

Lemma str_forall_app P s t : str_forall P (s +:+ t) = str_forall P s && str_forall P t.
Proof. induction s; cbn; [done|]. by rewrite IHs, andb_assoc. Qed.

Lemma str_forall_take P n s : str_forall P s = true → str_forall P (str_take n s) = true.
Proof.
  revert n; induction s; intros [|n]; cbn; auto.
  rewrite !andb_true_iff. intros []; auto.
Qed.

Lemma str_forall_impl (P Q : ascii → bool) s :
  (∀ c, P c = true → Q c = true) → str_forall P s = true → str_forall Q s = true.
Proof.
  intros HPQ. induction s; cbn; auto.
  rewrite !andb_true_iff. intros []; auto.
Qed.

(** Positive numbers as texts, for the instances that write their data in binary *)
Fixpoint bits (p : positive) : string :=
  match p with
  | xH => ""
  | xO p => String "0" (bits p)
  | xI p => String "1" (bits p)
  end.

Fixpoint unbits (s : string) : positive :=
  match s with
  | "" => xH
  | String c s => if decide (c = "0"%char) then xO (unbits s) else xI (unbits s)
  end.

Lemma unbits_bits p : unbits (bits p) = p.
Proof. induction p; cbn [bits unbits]; try case_decide; congruence. Qed.

Definition not_char (c : ascii) : ascii → bool := λ x, negb (bool_decide (x = c)).

Lemma rsplit_none c s : str_forall (not_char c) s = true → rsplit c s = None.
Proof.
  induction s; cbn; auto. unfold not_char at 1.
  rewrite andb_true_iff, negb_true_iff, bool_decide_eq_false.
  intros [Hne Hs]. rewrite (IHs Hs). by rewrite decide_False.
Qed.

Lemma rsplit_app c p q :
  str_forall (not_char c) q = true → rsplit c (p +:+ String c q) = Some (p, q).
Proof.
  intros Hq. induction p; cbn.
  - rewrite (rsplit_none c q Hq). by rewrite decide_True.
  - by rewrite IHp.
Qed.

Lemma rsplit_some c s p q :
  rsplit c s = Some (p, q) →
  s = p +:+ String c q ∧ str_forall (not_char c) q = true.
Proof.
  revert p q. induction s as [|x s IH]; cbn; [done|]. intros p q.
  destruct (rsplit c s) as [[p' q']|] eqn:E.
  - intros [= <- <-]. destruct (IH p' q' eq_refl) as [-> Hq]. done.
  - case_decide; [|done]. intros [= <- <-]. subst. split; [done|].
    clear IH. induction s as [|y s IH]; cbn in *; [done|].
    destruct (rsplit c s) as [[]|]; [done|]. case_decide; [done|].
    unfold not_char at 1. rewrite bool_decide_eq_false_2 by done. by apply IH.
Qed.

Lemma last_line_single s : str_forall (not_char newline) s = true → last_line s = s.
Proof. intros H. unfold last_line. by rewrite (rsplit_none _ _ H). Qed.

#[export] Hint Rewrite str_app_nil_r str_app_assoc str_length_app
  HasPrefix_app TrimPrefix_app : galera_rw.

(** ** Lemmas on lists *)

Lemma filter_filter_length {A} (P Q : A → Prop) `{∀ x, Decision (P x), ∀ x, Decision (Q x)} l :
  (length (filter P (filter Q l)) ≤ length (filter P l))%nat.
Proof.
  induction l as [|x l IH]; [done|]. rewrite (filter_cons Q).
  destruct (decide (Q x)); rewrite ?(filter_cons P); destruct (decide (P x)); cbn; lia.
Qed.

Lemma Forall_filter {A} (P Q : A → Prop) `{∀ x, Decision (Q x)} l :
  Forall P l → Forall P (filter Q l).
Proof. rewrite !Forall_forall. intros H' x [_ Hx]%list_elem_of_filter. auto. Qed.

(** An element that is not in the first of two lists splits the second. *)
Lemma app_split_right {A} (la lb l1 l2 : list A) x :
  la ++ lb = l1 ++ x :: l2 → x ∉ la → ∃ l1', l1 = la ++ l1' ∧ lb = l1' ++ x :: l2.
Proof.
  intros [(k & -> & Hk)|(k & -> & ->)]%app_eq_inv Hx; [|by eauto].
  destruct k as [|y k]; cbn in Hk; [exists []; by rewrite !app_nil_r|].
  injection Hk as <- _. destruct Hx. set_solver.
Qed.

(** ** Tactics *)

(** Case analysis on every [match] and [if] of the goal or of a hypothesis,
    discarding contradictory branches. *)
Ltac cases_goal :=
  repeat (case_match; simplify_eq/=; try done).

Ltac cases_in H :=
  repeat (match type of H with
          | context [match ?x with _ => _ end] => destruct x eqn:?
          end; simplify_eq/=; try done).

(** Split conjunctions and solve what [done] or [lia] closes. *)
Ltac conj_done := repeat split; try done; try lia; auto with galera.
