(* ===== verification/Timestamps.v ===== *)
(** * Time stamps

    [time.Unix(t, 0).UTC().Format("20060102150405")] of the standard library: the
    calendar date of a number of seconds since 1970, in fourteen digits, and that
    two instants of the same length have different texts. *)
From S2P Require Import Prelude.

(** ** Definitions *)

(** The date of a day counted from 1970-01-01 *)
Definition civil (day : Z) : Z * Z * Z :=
  let z := day + 719468 in
  let era := z / 146097 in
  let doe := z mod 146097 in
  let yoe := (doe - doe / 1460 + doe / 36524 - doe / 146096) / 365 in
  let doy := doe - (365 * yoe + yoe / 4 - yoe / 100) in
  let mp := (5 * doy + 2) / 153 in
  let d := doy - (153 * mp + 2) / 5 + 1 in
  let m := if decide (mp < 10) then mp + 3 else mp - 9 in
  let y := yoe + era * 400 + (if decide (m ≤ 2) then 1 else 0) in
  (y, m, d).

Definition digit (n : Z) : string := String (ascii_of_nat (48 + Z.to_nat (n mod 10))) "".

(** A number in [k] decimal digits *)
Fixpoint digits (k : nat) (n : Z) : string :=
  match k with
  | O => ""
  | S k' => digits k' (n / 10) +:+ digit n
  end.

Definition format (t : Z) : string :=
  let '(y, m, d) := civil (t / 86400) in
  digits 4 y +:+ digits 2 m +:+ digits 2 d +:+ digits 2 (t mod 86400 / 3600)
  +:+ digits 2 (t mod 3600 / 60) +:+ digits 2 (t mod 60).

Example format_epoch : format 0 = "19700101000000".
Proof. reflexivity. Qed.
Example format_leap : format 951782400 = "20000229000000".
Proof. reflexivity. Qed.
Example format_2024 : format 1735689599 = "20241231235959".
Proof. reflexivity. Qed.

(** ** The date determines the day *)

(** A decidable fact on an interval of [2 ^ k] numbers *)
Fixpoint checked (f : Z → bool) (k : nat) (lo : Z) : bool :=
  match k with
  | O => f lo
  | S k' => checked f k' lo && checked f k' (lo + 2 ^ Z.of_nat k')
  end.

Lemma checked_spec f k lo z :
  checked f k lo = true → lo ≤ z < lo + 2 ^ Z.of_nat k → f z = true.
Proof.
  revert lo. induction k as [|k IH]; intros lo.
  - cbn [checked]. intros Hf Hz. change (2 ^ Z.of_nat 0) with 1 in Hz. by replace z with lo by lia.
  - rewrite Nat2Z.inj_succ, Z.pow_succ_r by lia. intros [H1 H2]%andb_true_iff Hz.
    destruct (decide (z < lo + 2 ^ Z.of_nat k)); [apply (IH lo)|apply (IH _ H2)]; [done|lia|lia].
Qed.

(** The year and the day of the year of a day of an era *)
Definition year_of_era (doe : Z) : Z := (doe - doe / 1460 + doe / 36524 - doe / 146096) / 365.
Definition day_of_year (doe : Z) : Z :=
  let yoe := year_of_era doe in doe - (365 * yoe + yoe / 4 - yoe / 100).

(** The days of the years of an era, before the division of [year_of_era] *)
Definition leapless (doe : Z) : Z := doe - doe / 1460 + doe / 36524 - doe / 146096.

Lemma leapless_step doe : 0 ≤ doe < 146096 → leapless doe ≤ leapless (doe + 1).
Proof.
  intros Hd. unfold leapless. destruct (decide (doe = 146095)) as [->|Hne]; [by vm_compute|].
  rewrite (Z.div_small doe 146096), (Z.div_small (doe + 1) 146096) by lia.
  Z.to_euclidean_division_equations. lia.
Qed.

Lemma year_of_era_mono d d' : 0 ≤ d → d ≤ d' < 146097 → year_of_era d ≤ year_of_era d'.
Proof.
  intros Hd [Hle Hlt]. apply Z.div_le_mono; [lia|]. change (leapless d ≤ leapless d').
  replace d' with (d + Z.of_nat (Z.to_nat (d' - d))) in * by lia.
  generalize dependent (Z.to_nat (d' - d)). intros k _ Hlt. induction k as [|k IH].
  - by rewrite Z.add_0_r.
  - etrans; [apply IH; lia|]. replace (d + Z.of_nat (S k)) with (d + Z.of_nat k + 1) by lia.
    apply leapless_step. lia.
Qed.

(** The first day of a year *)
Definition start_of (yoe : Z) : Z := 365 * yoe + yoe / 4 - yoe / 100.

Definition year_ok (yoe : Z) : bool :=
  implb (yoe <? 399)
    ((year_of_era (start_of (yoe + 1)) =? yoe + 1) && (year_of_era (start_of (yoe + 1) - 1) =? yoe)
     && (0 <? start_of (yoe + 1)) && (start_of (yoe + 1) <? 146097)
     && (start_of (yoe + 1) - start_of yoe <=? 366)).

Lemma year_bounds yoe : 0 ≤ yoe < 399 →
  year_of_era (start_of (yoe + 1)) = yoe + 1 ∧ year_of_era (start_of (yoe + 1) - 1) = yoe ∧
  0 < start_of (yoe + 1) < 146097 ∧ start_of (yoe + 1) - start_of yoe ≤ 366.
Proof.
  intros Hy. assert (checked year_ok 9 0 = true) as Hc by (vm_compute; reflexivity).
  assert (year_ok yoe = true) as Hok.
  { apply (checked_spec year_ok 9 0 yoe Hc). change (2 ^ Z.of_nat 9) with 512. lia. }
  unfold year_ok in Hok. assert (yoe <? 399 = true) as Hlt by lia. rewrite Hlt in Hok.
  cbn [implb] in Hok. lia.
Qed.

Lemma year_of_era_bounds doe :
  0 ≤ doe < 146097 → 0 ≤ year_of_era doe < 400 ∧ 0 ≤ day_of_year doe ≤ 365.
Proof.
  intros Hd. assert (0 ≤ year_of_era doe < 400) as Hy.
  { pose proof (year_of_era_mono 0 doe ltac:(lia) ltac:(lia)) as H0.
    pose proof (year_of_era_mono doe 146096 ltac:(lia) ltac:(lia)) as H1.
    change (year_of_era 0) with 0 in H0. change (year_of_era 146096) with 399 in H1. lia. }
  split; [done|]. change (day_of_year doe) with (doe - start_of (year_of_era doe)).
  set (yoe := year_of_era doe) in *.
  assert (start_of yoe ≤ doe).
  { destruct (decide (yoe = 0)) as [->|]; [change (start_of 0) with 0; lia|].
    destruct (year_bounds (yoe - 1) ltac:(lia)) as (_ & E & Hs & _).
    replace (yoe - 1 + 1) with yoe in * by lia. destruct (decide (start_of yoe ≤ doe)); [done|].
    pose proof (year_of_era_mono doe (start_of yoe - 1) ltac:(lia) ltac:(lia)). lia. }
  destruct (decide (yoe = 399)) as [E|].
  { rewrite E in *. change (start_of 399) with 145731 in *. lia. }
  destruct (year_bounds yoe ltac:(lia)) as (E & _ & Hs & Hl).
  enough (doe < start_of (yoe + 1)) by lia. destruct (decide (doe < start_of (yoe + 1))); [done|].
  pose proof (year_of_era_mono (start_of (yoe + 1)) doe ltac:(lia) ltac:(lia)). lia.
Qed.

(** The month and the day of a day of the year that starts in March *)
Definition month_of (doy : Z) : Z :=
  let mp := (5 * doy + 2) / 153 in if decide (mp < 10) then mp + 3 else mp - 9.
Definition day_of_month (doy : Z) : Z := let mp := (5 * doy + 2) / 153 in doy - (153 * mp + 2) / 5 + 1.

(** The inverse of the two *)
Definition day_of_date (m d : Z) : Z :=
  (153 * (if decide (2 < m) then m - 3 else m + 9) + 2) / 5 + d - 1.

Definition day_of (date : Z * Z * Z) : Z :=
  let '(y, m, d) := date in
  let y' := y - (if decide (m ≤ 2) then 1 else 0) in
  let era := y' / 400 in
  let yoe := y' mod 400 in
  era * 146097 + yoe * 365 + yoe / 4 - yoe / 100 + day_of_date m d - 719468.

Definition month_ok (doy : Z) : bool :=
  implb (doy <=? 365)
    ((1 <=? month_of doy) && (month_of doy <=? 12) && (1 <=? day_of_month doy)
     && (day_of_month doy <=? 31) && (day_of_date (month_of doy) (day_of_month doy) =? doy)).

Lemma month_of_bounds doy : 0 ≤ doy ≤ 365 →
  1 ≤ month_of doy ≤ 12 ∧ 1 ≤ day_of_month doy ≤ 31 ∧
  day_of_date (month_of doy) (day_of_month doy) = doy.
Proof.
  intros Hd. assert (checked month_ok 9 0 = true) as Hc by (vm_compute; reflexivity).
  assert (month_ok doy = true) as Hok.
  { apply (checked_spec month_ok 9 0 doy Hc). change (2 ^ Z.of_nat 9) with 512. lia. }
  unfold month_ok in Hok. assert (doy <=? 365 = true) as Hle by lia. rewrite Hle in Hok.
  cbn [implb] in Hok. lia.
Qed.

Lemma civil_fields day :
  ∃ era doe, day + 719468 = 146097 * era + doe ∧ 0 ≤ doe < 146097 ∧
    civil day = (year_of_era doe + era * 400 + (if decide (month_of (day_of_year doe) ≤ 2) then 1 else 0),
                 month_of (day_of_year doe), day_of_month (day_of_year doe)).
Proof.
  exists ((day + 719468) / 146097), ((day + 719468) mod 146097). split_and!; [apply Z.div_mod; lia|apply Z.mod_pos_bound; lia..|reflexivity].
Qed.

Lemma day_of_civil day : day_of (civil day) = day.
Proof.
  destruct (civil_fields day) as (era & doe & Hz & Hdoe & ->).
  destruct (year_of_era_bounds doe Hdoe) as [Hy Hd]. destruct (month_of_bounds _ Hd) as (Hm & Hdm & E).
  unfold day_of. set (m := month_of (day_of_year doe)) in *. set (d := day_of_month (day_of_year doe)) in *.
  assert (day_of_year doe = doe - (365 * year_of_era doe + year_of_era doe / 4 - year_of_era doe / 100))
    as Hdoy by reflexivity.
  set (yoe := year_of_era doe) in *. set (doy := day_of_year doe) in *. clearbody yoe doy m d.
  set (leap := if decide (m ≤ 2) then 1 else 0).
  replace (yoe + era * 400 + leap - leap) with (yoe + era * 400) by lia.
  rewrite Z.div_add, Z.mod_add, Z.div_small, Z.mod_small by lia. lia.
Qed.

(** ** Digits *)

Lemma str_app_inj_length s1 s2 t1 t2 :
  String.length s1 = String.length s2 → s1 +:+ t1 = s2 +:+ t2 → s1 = s2 ∧ t1 = t2.
Proof.
  revert s2. induction s1 as [|c s1 IH]; intros [|c' s2] Hl E; cbn in *; try done.
  injection E as -> E. injection Hl as Hl. destruct (IH s2 Hl E) as [-> ->]. done.
Qed.

Lemma digits_length k n : String.length (digits k n) = k.
Proof. revert n. induction k as [|k IH]; intros n; cbn; [done|]. rewrite str_length_app, IH. cbn. lia. Qed.

Lemma digit_inj n n' : digit n = digit n' → n mod 10 = n' mod 10.
Proof.
  unfold digit. intros [= E].
  pose proof (Z.mod_pos_bound n 10 ltac:(lia)). pose proof (Z.mod_pos_bound n' 10 ltac:(lia)).
  apply (f_equal nat_of_ascii) in E. rewrite !nat_ascii_embedding in E by lia. lia.
Qed.

Lemma digits_inj k n n' :
  0 ≤ n < 10 ^ Z.of_nat k → 0 ≤ n' < 10 ^ Z.of_nat k → digits k n = digits k n' → n = n'.
Proof.
  revert n n'. induction k as [|k IH]; intros n n'; [cbn; lia|].
  rewrite Nat2Z.inj_succ, Z.pow_succ_r by lia. cbn [digits]. intros Hn Hn' E.
  apply str_app_inj_length in E as [E1 E2%digit_inj]; [|by rewrite !digits_length].
  set (p := 10 ^ Z.of_nat k) in *. clearbody p.
  apply IH in E1; Z.to_euclidean_division_equations; lia.
Qed.

Lemma six_fields a b c d e f a' b' c' d' e' f' :
  digits 4 a +:+ digits 2 b +:+ digits 2 c +:+ digits 2 d +:+ digits 2 e +:+ digits 2 f
    = digits 4 a' +:+ digits 2 b' +:+ digits 2 c' +:+ digits 2 d' +:+ digits 2 e' +:+ digits 2 f' →
  digits 4 a = digits 4 a' ∧ digits 2 b = digits 2 b' ∧ digits 2 c = digits 2 c' ∧
  digits 2 d = digits 2 d' ∧ digits 2 e = digits 2 e' ∧ digits 2 f = digits 2 f'.
Proof.
  intros (? & (? & (? & (? & (? & ?)%str_app_inj_length)%str_app_inj_length)%str_app_inj_length)
    %str_app_inj_length)%str_app_inj_length; by rewrite ?digits_length.
Qed.

Lemma civil_bounds day :
  0 ≤ day < 2932897 →
  let '(y, m, d) := civil day in 0 ≤ y < 10000 ∧ 0 ≤ m < 100 ∧ 0 ≤ d < 100.
Proof.
  intros Hday. destruct (civil_fields day) as (era & doe & Hz & Hdoe & ->).
  destruct (year_of_era_bounds doe Hdoe) as [Hy Hd]. destruct (month_of_bounds _ Hd) as (Hm & Hdm & _).
  split_and!; try lia; [case_decide; lia|].
  assert (era ≤ 24) by lia. destruct (decide (era = 24)) as [->|]; [|case_decide; lia].
  assert (doe ≤ 146036) as Hle by lia.
  destruct (decide (year_of_era doe = 399)) as [E|]; [|case_decide; lia].
  assert (day_of_year doe = doe - 145731) as Edoy by (unfold day_of_year; by rewrite E).
  rewrite Edoy in *. rewrite E. case_decide as Hc; [exfalso|lia]. revert Hc. unfold month_of.
  repeat case_decide; intros; Z.to_euclidean_division_equations; lia.
Qed.

Lemma time_of_day t :
  t mod 86400 = t mod 86400 / 3600 * 3600 + t mod 3600 / 60 * 60 + t mod 60 ∧
  0 ≤ t mod 86400 / 3600 < 100 ∧ 0 ≤ t mod 3600 / 60 < 100 ∧ 0 ≤ t mod 60 < 100.
Proof. Z.to_euclidean_division_equations. lia. Qed.

(** Two instants before the year 10000 that have the same text are equal. *)
Lemma format_inj t t' :
  0 ≤ t < 253402300800 → 0 ≤ t' < 253402300800 → format t = format t' → t = t'.
Proof.
  intros Ht Ht'. unfold format.
  pose proof (civil_bounds (t / 86400) ltac:(Z.to_euclidean_division_equations; lia)) as Hb.
  pose proof (civil_bounds (t' / 86400) ltac:(Z.to_euclidean_division_equations; lia)) as Hb'.
  pose proof (day_of_civil (t / 86400)) as Hc. pose proof (day_of_civil (t' / 86400)) as Hc'.
  destruct (civil (t / 86400)) as [[y m] d], (civil (t' / 86400)) as [[y' m'] d'].
  destruct (time_of_day t) as (E & H1 & H2 & H3), (time_of_day t') as (E' & H1' & H2' & H3').
  intros (Ey & Em & Ed & E1 & E2 & E3)%six_fields.
  apply digits_inj in Ey as ->, Em as ->, Ed as ->, E1, E2, E3; try (cbn; lia).
  rewrite Hc in Hc'. pose proof (Z.div_mod t 86400 ltac:(lia)). pose proof (Z.div_mod t' 86400 ltac:(lia)).
  lia.
Qed.

Lemma format_length t : String.length (format t) = 14%nat.
Proof.
  unfold format. destruct (civil (t / 86400)) as [[y m] d]. by rewrite !str_length_app, !digits_length.
Qed.
