(* ===== verification/Names.v ===== *)
(** * Names of pods, claims, services and budgets

    Models [pkg/apis/apigalera/v1beta2/constants.go] (limits, prefixes and
    suffixes of names), the naming part of
    [pkg/controllers/cluster/galera_utils.go] (the regular expression that
    extracts the parent Galera and the suffix from a name, and the functions
    that build names), [buildName] of [pkg/galera/utils.go], [getServiceName]
    and [getPDBName].  The theorems show that built names are parsed back to
    the Galera and suffix they were built from, that names stay below the
    limit Kubernetes imposes, and what happens to the names of Galera objects
    longer than [MaxNameLength]. *)
From S2P Require Import Prelude.

(** ** Constants *)

Definition MaxK8SNameLength : nat := 63.
Definition RandomSuffixLength : nat := 5.
Definition ClaimPrefix : string := "pvc-".
Definition BackupClaimPrefix : string := "pvcbkp-".
Definition MaxNameLength : nat := MaxK8SNameLength - RandomSuffixLength - 1 - 7.
Definition ServiceWriterSuffix : string := "-writer-svc".
Definition MaxServiceWriterLength : nat := MaxK8SNameLength - String.length ServiceWriterSuffix.
Definition ServiceWriterBackupSuffix : string := "-writer-bkp-svc".
Definition MaxServiceWriterBackupLength : nat :=
  MaxK8SNameLength - String.length ServiceWriterBackupSuffix.
Definition ServiceReaderSuffix : string := "-reader-svc".
Definition MaxServiceReaderLength : nat := MaxK8SNameLength - String.length ServiceReaderSuffix.
Definition ServiceSpecialSuffix : string := "-special-svc".
Definition MaxServiceSpecialLength : nat := MaxK8SNameLength - String.length ServiceSpecialSuffix.
Definition ServiceMonitorSuffix : string := "-monitor-svc".
Definition MaxServiceMonitorLength : nat := MaxK8SNameLength - String.length ServiceMonitorSuffix.
Definition HeadlessServiceSuffix : string := "-hl-svc".
Definition MaxHeadlessServiceLength : nat := MaxK8SNameLength - String.length HeadlessServiceSuffix.
Definition PodDisruptionBudgetSuffix : string := "-pdb".
Definition MaxPodDisruptionBudgetLength : nat :=
  MaxK8SNameLength - String.length PodDisruptionBudgetSuffix.

(** ** Parsing *)

(** the class [[0-9a-z]] *)
Definition is_suffix_char (c : ascii) : bool := is_digit c || is_lower c.

(** [FindStringSubmatch] on [galeraParentRegex], an unanchored greedy group, a
    dash, and a group of one or more characters of the class at the end: the
    class has no dash, so the last dash is the one that matches; the dot does not match a newline, so the leftmost match starts after the last
    newline that precedes that dash. *)
Definition galeraParentRegex (name : string) : option (string * string) :=
  match rsplit "-" name with
  | Some (p, q) =>
      if negb (bool_decide (q = "")) && str_forall is_suffix_char q
      then Some (last_line p, q)
      else None
  | None => None
  end.

(** The functions on a pod or a claim only read its name. *)
Definition getPodParentNameAndSuffix (podName : string) : string * string :=
  match galeraParentRegex podName with
  | None => ("", "")
  | Some (parent, suffix) => (parent, suffix)
  end.

Definition getPodParentName (podName : string) : string :=
  (getPodParentNameAndSuffix podName).1.

Definition getPodSuffix (podName : string) : string :=
  (getPodParentNameAndSuffix podName).2.

Definition getClaimParentNameAndSuffix (claimName : string) : string * string * bool :=
  match galeraParentRegex claimName with
  | None => ("", "", false)
  | Some (parent, suffix) =>
      if HasPrefix parent ClaimPrefix
      then (TrimPrefix parent ClaimPrefix, suffix, false)
      else if HasPrefix parent BackupClaimPrefix
      then (TrimPrefix parent BackupClaimPrefix, suffix, true)
      else ("", "", false)
  end.

Definition getClaimParentName (claimName : string) : string :=
  (getClaimParentNameAndSuffix claimName).1.1.

Definition getClaimSuffix (claimName : string) : string :=
  (getClaimParentNameAndSuffix claimName).1.2.

Definition getClaimSuffixAndBackup (claimName : string) : string * bool :=
  ((getClaimParentNameAndSuffix claimName).1.2, (getClaimParentNameAndSuffix claimName).2).

(** ** Building *)

Definition buildPodName (name suffix : string) : string := name +:+ "-" +:+ suffix.

Definition getPodName (galeraName suffix : string) : string :=
  let clusterName :=
    if (MaxNameLength <? String.length galeraName)%nat
    then str_take MaxNameLength galeraName else galeraName in
  buildPodName clusterName suffix.

(** [utilrand.String] draws the next suffix; [draws] is what its successive
    calls return.  The loop of the source ends with the first draw that is not
    in [existing]; it has no bound, and running out of draws is [OutOfFuel]. *)
Fixpoint drawSuffix (existing draws : list string) : outcome string :=
  match draws with
  | [] => OutOfFuel
  | s :: draws' =>
      if bool_decide (s ∈ existing) then drawSuffix existing draws' else Ok s
  end.

Definition createUniquePodName (clusterName : string) (existing available draws : list string)
    : outcome string :=
  suffix ← match available with
           | s :: _ => Ok s
           | [] => drawSuffix existing draws
           end;
  let clusterName :=
    if (MaxNameLength <? String.length clusterName)%nat
    then str_take MaxNameLength clusterName else clusterName in
  Ok (buildPodName clusterName suffix).

Definition buildName (name prefix : string) : string :=
  let l := Z.of_nat MaxK8SNameLength - Z.of_nat (String.length prefix)
           - Z.of_nat (String.length name) in
  let t := if l <? 0 then - l else 0 in
  prefix +:+ str_drop (Z.to_nat t) name.

Definition BuildClaimNameForGalera (podName : string) : string := buildName podName ClaimPrefix.

Definition BuildBackupClaimNameForGalera (podName : string) : string :=
  buildName podName BackupClaimPrefix.

Definition getPersistentVolumeClaimName (galeraName suffix : string) : string :=
  BuildClaimNameForGalera (getPodName galeraName suffix).

Definition getPersistentVolumeClaimNameForPod (podName : string) : string :=
  BuildClaimNameForGalera podName.

Definition getBackupPersistentVolumeClaimName (galeraName suffix : string) : string :=
  BuildBackupClaimNameForGalera (getPodName galeraName suffix).

Definition isPodMemberOf (galeraName podName : string) : bool :=
  bool_decide (getPodParentName podName = galeraName).

Definition isClaimMemberOf (galeraName claimName : string) : bool :=
  bool_decide (getClaimParentName claimName = galeraName).

Definition getServiceName (clusterName suffix : string) (max : nat) : string :=
  (if (max <? String.length clusterName)%nat then str_take max clusterName else clusterName)
  +:+ suffix.

Definition getPDBName (clusterName : string) : string :=
  (if (MaxPodDisruptionBudgetLength <? String.length clusterName)%nat
   then str_take MaxPodDisruptionBudgetLength clusterName else clusterName)
  +:+ PodDisruptionBudgetSuffix.

#[global] Arguments galeraParentRegex : simpl never.
#[global] Arguments getPodName : simpl never.
#[global] Arguments buildName : simpl never.
#[global] Arguments BuildClaimNameForGalera : simpl never.
#[global] Arguments BuildBackupClaimNameForGalera : simpl never.
#[global] Arguments getServiceName : simpl never.
#[global] Arguments getPDBName : simpl never.

(** ** Well-formed names *)

(** What [utilrand.String] and hence every suffix looks like. *)
Definition wf_suffix (s : string) : Prop :=
  s ≠ "" ∧ str_forall is_suffix_char s = true.

(** A name the dot of the regular expression matches from end to end. *)
Definition wf_name (s : string) : Prop := str_forall (not_char newline) s = true.

#[global] Instance wf_suffix_dec s : Decision (wf_suffix s).
Proof. unfold wf_suffix. apply _. Defined.

(** ** Lemmas *)

Lemma suffix_char_not_dash c : is_suffix_char c = true → not_char "-" c = true.
Proof.
  unfold not_char. intros H. rewrite bool_decide_eq_false_2; [done|].
  intros ->. discriminate H.
Qed.

Lemma galeraParentRegex_build p q :
  wf_name p → wf_suffix q → galeraParentRegex (buildPodName p q) = Some (p, q).
Proof.
  intros Hp [Hne Hq]. unfold galeraParentRegex, buildPodName. cbn.
  rewrite rsplit_app.
  - rewrite (bool_decide_eq_false_2 _ Hne), Hq. cbn. by rewrite last_line_single.
  - eapply str_forall_impl, Hq. apply suffix_char_not_dash.
Qed.

Lemma wf_name_app s t : wf_name s → wf_name t → wf_name (s +:+ t).
Proof. unfold wf_name. rewrite str_forall_app. by intros -> ->. Qed.

Lemma wf_name_take n s : wf_name s → wf_name (str_take n s).
Proof. apply str_forall_take. Qed.

#[export] Hint Resolve wf_name_app wf_name_take : galera.

Lemma drawSuffix_fresh existing draws s :
  drawSuffix existing draws = Ok s → (s ∉ existing) ∧ s ∈ draws.
Proof.
  induction draws as [|d draws IH]; cbn; [done|].
  case_bool_decide; intros Hd.
  - destruct (IH Hd). split; [done|]. by constructor.
  - simplify_eq. split; [done|]. by constructor.
Qed.

Lemma drawSuffix_progress existing draws s :
  s ∈ draws → s ∉ existing → ∃ s', drawSuffix existing draws = Ok s'.
Proof.
  induction draws as [|d draws IH]; intros Hin Hnot; [by apply elem_of_nil in Hin|].
  cbn. case_bool_decide; [|eauto].
  apply elem_of_cons in Hin as [->|Hin]; [done|]. auto.
Qed.

Lemma buildName_short name prefix :
  (String.length prefix + String.length name ≤ MaxK8SNameLength)%nat →
  buildName name prefix = prefix +:+ name.
Proof.
  unfold buildName, MaxK8SNameLength. intros H.
  destruct (Z.ltb_spec (Z.of_nat 63 - Z.of_nat (String.length prefix)
                        - Z.of_nat (String.length name)) 0); [lia|].
  by rewrite str_drop_0.
Qed.

Lemma buildName_length name prefix :
  (String.length prefix ≤ MaxK8SNameLength)%nat →
  (String.length (buildName name prefix) ≤ MaxK8SNameLength)%nat.
Proof.
  unfold buildName, MaxK8SNameLength. intros Hp.
  rewrite str_length_app, str_drop_length.
  destruct (Z.ltb_spec (Z.of_nat 63 - Z.of_nat (String.length prefix)
                        - Z.of_nat (String.length name)) 0); lia.
Qed.

Lemma capped_length m s :
  (String.length (if (m <? String.length s)%nat then str_take m s else s) ≤ m)%nat.
Proof. destruct (Nat.ltb_spec m (String.length s)); [rewrite str_take_length|]; lia. Qed.

Lemma buildPodName_length p q :
  String.length (buildPodName p q) = (String.length p + 1 + String.length q)%nat.
Proof. unfold buildPodName. rewrite !str_length_app. cbn. lia. Qed.

Lemma getPodName_length cluster s :
  (String.length s ≤ RandomSuffixLength)%nat →
  (String.length (getPodName cluster s) ≤ MaxK8SNameLength - 7)%nat.
Proof.
  intros. unfold getPodName. rewrite buildPodName_length.
  pose proof (capped_length MaxNameLength cluster).
  unfold MaxNameLength, RandomSuffixLength, MaxK8SNameLength in *. lia.
Qed.

Lemma getPodName_short g s :
  (String.length g ≤ MaxNameLength)%nat → getPodName g s = buildPodName g s.
Proof.
  intros H. unfold getPodName. destruct (Nat.ltb_spec MaxNameLength (String.length g)); [lia|done].
Qed.


Lemma parse_pod_name name suffix :
  wf_name name → wf_suffix suffix →
  getPodParentNameAndSuffix (buildPodName name suffix) = (name, suffix).
Proof.
  intros Hn Hs. unfold getPodParentNameAndSuffix. by rewrite galeraParentRegex_build.
Qed.

Section claim_names.
Context (name suffix : string).
Context (Hname : wf_name name) (Hsuffix : wf_suffix suffix).
Context (Hln : (String.length name ≤ MaxNameLength)%nat).
Context (Hls : (String.length suffix ≤ RandomSuffixLength)%nat).

Lemma parse_prefixed_claim p :
  (String.length p ≤ 7)%nat → wf_name p →
  galeraParentRegex (buildName (getPodName name suffix) p) = Some (p +:+ name, suffix).
Proof.
  intros Hp Hwp. rewrite getPodName_short by done. rewrite buildName_short.
  - rewrite <- galeraParentRegex_build; [|auto with galera|done].
    f_equal. unfold buildPodName. by rewrite !str_app_assoc.
  - rewrite buildPodName_length.
    unfold MaxNameLength, RandomSuffixLength, MaxK8SNameLength in *. lia.
Qed.

Lemma parse_data_claim :
  getClaimParentNameAndSuffix (getPersistentVolumeClaimName name suffix) = (name, suffix, false).
Proof.
  unfold getClaimParentNameAndSuffix, getPersistentVolumeClaimName, BuildClaimNameForGalera.
  rewrite parse_prefixed_claim by (done || (cbn; lia)). by rewrite HasPrefix_app, TrimPrefix_app.
Qed.

Lemma parse_backup_claim :
  getClaimParentNameAndSuffix (getBackupPersistentVolumeClaimName name suffix)
    = (name, suffix, true).
Proof.
  unfold getClaimParentNameAndSuffix, getBackupPersistentVolumeClaimName,
    BuildBackupClaimNameForGalera.
  rewrite parse_prefixed_claim by (done || (cbn; lia)). cbn. by destruct name.
Qed.
End claim_names.

(** ** Properties *)

(** A pod name built from a Galera name and a suffix is parsed back to
    exactly that name and suffix, whatever dashes the Galera name has. *)
Theorem pod_name_roundtrip (name suffix : string) :
  wf_name name → wf_suffix suffix →
  getPodParentNameAndSuffix (buildPodName name suffix) = (name, suffix).
Proof. apply parse_pod_name. Qed.

Lemma pod_name_roundtrip_witness :
  getPodParentNameAndSuffix (buildPodName "my-gal-7" "t2h97") = ("my-gal-7", "t2h97").
Proof. apply (pod_name_roundtrip "my-gal-7" "t2h97"); [reflexivity|]. split; [discriminate|reflexivity]. Defined.

(** The data claim and the backup claim of a pod of a Galera are both
    parsed back to the Galera and the suffix, and the flag tells which of the
    two it is; hence the two claims never have the same name. *)
Theorem claim_name_roundtrip (name suffix : string) :
  wf_name name → wf_suffix suffix →
  (String.length name ≤ MaxNameLength)%nat →
  (String.length suffix ≤ RandomSuffixLength)%nat →
  getClaimParentNameAndSuffix (getPersistentVolumeClaimName name suffix) = (name, suffix, false) ∧
  getClaimParentNameAndSuffix (getBackupPersistentVolumeClaimName name suffix) = (name, suffix, true) ∧
  getPersistentVolumeClaimName name suffix ≠ getBackupPersistentVolumeClaimName name suffix.
Proof.
  intros Hn Hs Hln Hls.
  pose proof (parse_data_claim name suffix Hn Hs Hln Hls) as H1.
  pose proof (parse_backup_claim name suffix Hn Hs Hln Hls) as H2.
  split_and!; [done..|]. intros E. rewrite E, H2 in H1. done.
Qed.

Lemma claim_name_roundtrip_witness :
  getClaimParentNameAndSuffix (getPersistentVolumeClaimName "gal" "t2h97") = ("gal", "t2h97", false) ∧
  getClaimParentNameAndSuffix (getBackupPersistentVolumeClaimName "gal" "t2h97") = ("gal", "t2h97", true) ∧
  getPersistentVolumeClaimName "gal" "t2h97" ≠ getBackupPersistentVolumeClaimName "gal" "t2h97".
Proof.
  apply (claim_name_roundtrip "gal" "t2h97"); [reflexivity| |cbv; lia|cbv; lia].
  split; [discriminate|reflexivity].
Defined.

(** [createUniquePodName] reuses the first suffix of an unused claim when
    there is one; otherwise it returns a name whose suffix no existing pod has,
    and it does return one as soon as the random source yields a suffix that is
    not taken.  The name is within the limit of Kubernetes, and so are the names
    of its claims. *)
Theorem createUniquePodName_spec (cluster : string) (existing available draws : list string) :
  (∀ s l, available = s :: l →
     createUniquePodName cluster existing available draws = Ok (getPodName cluster s)) ∧
  (available = [] →
     (∀ s, s ∈ draws → s ∉ existing →
        is_ok (createUniquePodName cluster existing available draws) = true) ∧
     (∀ n, createUniquePodName cluster existing available draws = Ok n →
        ∃ s, n = getPodName cluster s ∧ (s ∉ existing) ∧ s ∈ draws ∧
             (String.length s ≤ RandomSuffixLength →
              String.length n ≤ MaxK8SNameLength - 7 ∧
              BuildClaimNameForGalera n = ClaimPrefix +:+ n ∧
              BuildBackupClaimNameForGalera n = BackupClaimPrefix +:+ n)%nat)).
Proof.
  split; [by intros s l ->|]. intros ->. split.
  - intros s Hin Hnot. unfold createUniquePodName.
    destruct (drawSuffix_progress existing draws s Hin Hnot) as [s' ->]. done.
  - unfold createUniquePodName. intros n.
    destruct (drawSuffix existing draws) as [s| | |] eqn:E; cbn; try done.
    intros [= Hname]. change (getPodName cluster s = n) in Hname. subst n.
    destruct (drawSuffix_fresh _ _ _ E) as [Hn Hd].
    exists s. split_and!; [done..|]. intros Hls.
    pose proof (getPodName_length cluster s Hls) as Hl. unfold MaxK8SNameLength in Hl.
    unfold BuildClaimNameForGalera, BuildBackupClaimNameForGalera, ClaimPrefix, BackupClaimPrefix.
    rewrite !buildName_short by (unfold MaxK8SNameLength; cbn [String.length]; lia). done.
Qed.

Lemma createUniquePodName_spec_witness :
  createUniquePodName "gal" ["t2h97"] [] ["t2h97"; "zkkzv"] = Ok "gal-zkkzv" ∧
  is_ok (createUniquePodName "gal" ["t2h97"] [] ["t2h97"; "zkkzv"]) = true.
Proof.
  split; [reflexivity|].
  refine (proj1 (proj2 (createUniquePodName_spec "gal" ["t2h97"] [] ["t2h97"; "zkkzv"]) eq_refl)
            "zkkzv" _ _).
  - set_solver.
  - intros H. apply list_elem_of_singleton in H. discriminate H.
Defined.

(** A Galera whose name is longer than [MaxNameLength] never owns the pods
    the operator creates for it: the name of the pod is built from the truncated
    name, and [isPodMemberOf] compares the parent parsed from it with the full
    one; the same holds of its claims.  Up to [MaxNameLength] they are members. *)
Theorem created_pod_membership (name suffix : string) :
  wf_name name → wf_suffix suffix →
  (String.length suffix ≤ RandomSuffixLength)%nat →
  isPodMemberOf name (getPodName name suffix)
    = bool_decide (String.length name ≤ MaxNameLength)%nat ∧
  isClaimMemberOf name (getPersistentVolumeClaimName name suffix)
    = bool_decide (String.length name ≤ MaxNameLength)%nat.
Proof.
  intros Hn Hs Hls.
  set (short := if (MaxNameLength <? String.length name)%nat
                then str_take MaxNameLength name else name).
  assert (Hl : (String.length short ≤ MaxNameLength)%nat) by apply capped_length.
  assert (Hshort : short = name ↔ (String.length name ≤ MaxNameLength)%nat).
  { split; [congruence|]. intros H. unfold short.
    destruct (Nat.ltb_spec MaxNameLength (String.length name)); [lia|done]. }
  assert (Hws : wf_name short) by (unfold short; case_match; auto with galera).
  split; apply bool_decide_ext; rewrite <- Hshort.
  - unfold getPodParentName, getPodName. fold short. by rewrite parse_pod_name.
  - replace (getPersistentVolumeClaimName name suffix)
      with (getPersistentVolumeClaimName short suffix).
    + unfold getClaimParentName. by rewrite parse_data_claim.
    + unfold getPersistentVolumeClaimName. f_equal. by rewrite (getPodName_short short).
Qed.

Lemma created_pod_membership_witness :
  isPodMemberOf "gal" (getPodName "gal" "t2h97") = true ∧
  isPodMemberOf "a-galera-cluster-name-that-is-longer-than-fifty-chars"
    (getPodName "a-galera-cluster-name-that-is-longer-than-fifty-chars" "t2h97") = false.
Proof.
  split.
  - refine (eq_trans (proj1 (created_pod_membership "gal" "t2h97" _ _ _)) _);
      [reflexivity|split; [discriminate|reflexivity]|cbv; lia|reflexivity].
  - refine (eq_trans (proj1 (created_pod_membership
      "a-galera-cluster-name-that-is-longer-than-fifty-chars" "t2h97" _ _ _)) _);
      [reflexivity|split; [discriminate|reflexivity]|cbv; lia|reflexivity].
Defined.

(** C40: the name of a service or of a disruption budget is never longer than
    what Kubernetes accepts, and keeps its suffix, after the name of the cluster when it
    is short enough and after its first characters when it is not. *)
Theorem derived_names_bounded (cluster : string) :
  (∀ suffix max, (max, suffix) ∈
     [(MaxServiceWriterLength, ServiceWriterSuffix);
      (MaxServiceWriterBackupLength, ServiceWriterBackupSuffix);
      (MaxServiceReaderLength, ServiceReaderSuffix);
      (MaxServiceSpecialLength, ServiceSpecialSuffix);
      (MaxServiceMonitorLength, ServiceMonitorSuffix);
      (MaxHeadlessServiceLength, HeadlessServiceSuffix)] →
     String.length (getServiceName cluster suffix max) ≤ MaxK8SNameLength ∧
     ∃ p, getServiceName cluster suffix max = p +:+ suffix ∧
          (String.length cluster ≤ max → p = cluster) ∧
          (max < String.length cluster → p = str_take max cluster))%nat ∧
  (String.length (getPDBName cluster) ≤ MaxK8SNameLength ∧
   ∃ p, getPDBName cluster = p +:+ PodDisruptionBudgetSuffix ∧
        (String.length cluster ≤ MaxPodDisruptionBudgetLength → p = cluster) ∧
        (MaxPodDisruptionBudgetLength < String.length cluster →
         p = str_take MaxPodDisruptionBudgetLength cluster))%nat.
Proof.
  assert (Hcap : ∀ max, (String.length cluster ≤ max →
      (if (max <? String.length cluster)%nat then str_take max cluster else cluster) = cluster)%nat ∧
    (max < String.length cluster →
      (if (max <? String.length cluster)%nat then str_take max cluster else cluster) = str_take max cluster)%nat).
  { intros max. destruct (Nat.ltb_spec max (String.length cluster)); split; (done || lia). }
  split.
  - intros suffix max Hin. unfold getServiceName. rewrite str_length_app.
    pose proof (capped_length max cluster) as Hc.
    split.
    + revert Hc. generalize (if (max <? String.length cluster)%nat then str_take max cluster else cluster).
      intros q Hc.
      rewrite !elem_of_cons, elem_of_nil in Hin. destruct_or! Hin; simplify_eq; cbn in *;
        unfold MaxK8SNameLength; lia.
    + eexists. split; [done|]. apply Hcap.
  - unfold getPDBName. split; [|eexists; split; [done|apply Hcap]]. rewrite str_length_app.
    pose proof (capped_length MaxPodDisruptionBudgetLength cluster).
    unfold MaxPodDisruptionBudgetLength, MaxK8SNameLength in *. cbn in *. lia.
Qed.

Lemma derived_names_bounded_witness :
  (String.length (getServiceName "gal" ServiceReaderSuffix MaxServiceReaderLength)
     ≤ MaxK8SNameLength)%nat.
Proof.
  refine (proj1 (proj1 (derived_names_bounded "gal") ServiceReaderSuffix MaxServiceReaderLength _)).
  set_solver.
Defined.
