(* ===== verification/Types.v ===== *)
(** * The API types of the operator

    Models [pkg/apis/apigalera/v1beta2]: the Galera object, its specification
    and status with the methods on conditions, the constants used as labels, and
    the Kubernetes objects the operator builds and reads, with the fields the
    code uses.  A struct of Kubernetes that the code only copies and compares
    (resources, affinity, security context, ...) is an [Opaque] value. *)
From S2P Require Import Prelude.

(** ** Constants *)

Definition GaleraCRDResourceKind : string := "Galera".
Definition GaleraBackupCRDResourceKind : string := "GaleraBackup".
Definition BootstrapContainerName : string := "bootstrap".
Definition GaleraContainerName : string := "galera".
Definition MetricContainerName : string := "metric".
Definition BackupContainerName : string := "backup".
Definition GaleraClusterName : string := "galera.v1beta2.sql.databases/galera-name".
Definition GaleraClusterNamespace : string := "galera.v1beta2.sql.databases/galera-namespace".
Definition DataVolumeName : string := "galera-data".
Definition DataVolumeMountPath : string := "/var/lib/mysql".
Definition BackupVolumeName : string := "galera-backup".
Definition BackupVolumeMountPath : string := "/var/backup".
Definition BootstrapVolumeName : string := "bootstrap".
Definition BootstrapVolumeMountPath : string := "/bootstrap".
Definition RestoreVolumeName : string := "restore".
Definition ConfigMapVolumeName : string := "configmap".
Definition ConfigMapVolumeMountPath : string := "/configmap".
Definition GaleraAnnotationScope : string := "galera.v1beta2.sql.databases/scope".
Definition GaleraAnnotationClusterWide : string := "clusterwide".
Definition GaleraRevisionLabel : string := "galera.v1beta2.sql.databases/controller-revision-hash".
Definition GaleraStateLabel : string := "galera.v1beta2.sql.databases/state".
Definition StateCluster : string := "cluster".
Definition StateStandalone : string := "standalone".
Definition GaleraRoleLabel : string := "galera.v1beta2.sql.databases/role".
Definition GaleraBackupLabel : string := "galera.v1beta2.sql.databases/backup".
Definition GaleraReaderLabel : string := "galera.v1beta2.sql.databases/reader".
Definition RoleWriter : string := "writer".
Definition RoleBackupWriter : string := "backup-writer".
Definition RoleSpecial : string := "special".
Definition Backup : string := "backup".
Definition Reader : string := "reader".
Definition Restore : string := "restore".
Definition DefaultRevisionHistoryLimit : Z := 10.
Definition MySQLPort : Z := 3306.
Definition StateSnapshotTransfertPort : Z := 4444.
Definition IncrementalStateTransferPort : Z := 4568.
Definition GaleraReplicationPort : Z := 4567.
Definition GaleraMetrics : Z := 9104.
Definition BackupAPIPort : Z := 8080.

(** ** Status *)

Definition GaleraPhase := string.
Definition GaleraPhaseNone : GaleraPhase := "".
Definition GaleraPhaseRunning : GaleraPhase := "Running".
Definition GaleraPhaseBackuping : GaleraPhase := "Running&Backuping".
Definition GaleraPhaseCreating : GaleraPhase := "Creating".
Definition GaleraPhaseScheduleRestore : GaleraPhase := "ScheduleRestore".
Definition GaleraPhaseCopyRestore : GaleraPhase := "CopyRestore".
Definition GaleraPhaseRestoring : GaleraPhase := "Restoring".
Definition GaleraPhaseFailed : GaleraPhase := "Failed".

Definition GaleraConditionType := string.
Definition GaleraConditionReady : GaleraConditionType := "Ready".
Definition GaleraConditionFailed : GaleraConditionType := "Failed".
Definition GaleraConditionScaling : GaleraConditionType := "Scaling".
Definition GaleraConditionUpgrading : GaleraConditionType := "Upgrading".
Definition GaleraConditionRestoring : GaleraConditionType := "Restoring".

Definition ConditionTrue : string := "True".

(** A time is an opaque reading of the clock. *)
Record GaleraCondition := mkCondition {
  cond_Type : GaleraConditionType;
  cond_Status : string;
  cond_LastTransitionTime : Z;
  cond_Reason : string;
  cond_Message : string }.

#[global] Instance GaleraCondition_eq_dec : EqDecision GaleraCondition.
Proof. solve_decision. Defined.

Record MembersStatus := mkMembers {
  mem_Ready : list string;
  mem_Unready : list string;
  mem_Writer : string;
  mem_BackupWriter : string;
  mem_Backup : string;
  mem_Special : string }.

#[global] Instance MembersStatus_eq_dec : EqDecision MembersStatus.
Proof. solve_decision. Defined.

Record GaleraStatus := mkStatus {
  st_ObservedGeneration : Z;
  st_Phase : GaleraPhase;
  st_ServiceWriter : string;
  st_ServiceWriterBackup : string;
  st_ServiceReader : string;
  st_ServiceSpecial : string;
  st_HeadlessService : string;
  st_ServiceMonitor : string;
  st_PodDisruptionBudgetName : string;
  st_Replicas : Z;
  st_Members : MembersStatus;
  st_CurrentRevision : string;
  st_CurrentReplicas : Z;
  st_NextRevision : string;
  st_NextReplicas : Z;
  st_CollisionCount : option Z;
  st_Conditions : list GaleraCondition }.

#[global] Instance GaleraStatus_eq_dec : EqDecision GaleraStatus.
Proof. solve_decision. Defined.

(** Field updates *)
Definition with_mem_Ready (x : list string) (m : MembersStatus) : MembersStatus :=
  mkMembers x m.(mem_Unready) m.(mem_Writer) m.(mem_BackupWriter) m.(mem_Backup) m.(mem_Special).
Definition with_mem_Unready (x : list string) (m : MembersStatus) : MembersStatus :=
  mkMembers m.(mem_Ready) x m.(mem_Writer) m.(mem_BackupWriter) m.(mem_Backup) m.(mem_Special).
Definition with_mem_Writer (x : string) (m : MembersStatus) : MembersStatus :=
  mkMembers m.(mem_Ready) m.(mem_Unready) x m.(mem_BackupWriter) m.(mem_Backup) m.(mem_Special).
Definition with_mem_BackupWriter (x : string) (m : MembersStatus) : MembersStatus :=
  mkMembers m.(mem_Ready) m.(mem_Unready) m.(mem_Writer) x m.(mem_Backup) m.(mem_Special).
Definition with_mem_Backup (x : string) (m : MembersStatus) : MembersStatus :=
  mkMembers m.(mem_Ready) m.(mem_Unready) m.(mem_Writer) m.(mem_BackupWriter) x m.(mem_Special).
Definition with_mem_Special (x : string) (m : MembersStatus) : MembersStatus :=
  mkMembers m.(mem_Ready) m.(mem_Unready) m.(mem_Writer) m.(mem_BackupWriter) m.(mem_Backup) x.
Definition with_ObservedGeneration (x : Z) (s : GaleraStatus) : GaleraStatus :=
  mkStatus x s.(st_Phase) s.(st_ServiceWriter) s.(st_ServiceWriterBackup) s.(st_ServiceReader)
    s.(st_ServiceSpecial) s.(st_HeadlessService) s.(st_ServiceMonitor)
    s.(st_PodDisruptionBudgetName) s.(st_Replicas) s.(st_Members) s.(st_CurrentRevision)
    s.(st_CurrentReplicas) s.(st_NextRevision) s.(st_NextReplicas) s.(st_CollisionCount)
    s.(st_Conditions).
Definition with_Phase (x : GaleraPhase) (s : GaleraStatus) : GaleraStatus :=
  mkStatus s.(st_ObservedGeneration) x s.(st_ServiceWriter) s.(st_ServiceWriterBackup)
    s.(st_ServiceReader) s.(st_ServiceSpecial) s.(st_HeadlessService) s.(st_ServiceMonitor)
    s.(st_PodDisruptionBudgetName) s.(st_Replicas) s.(st_Members) s.(st_CurrentRevision)
    s.(st_CurrentReplicas) s.(st_NextRevision) s.(st_NextReplicas) s.(st_CollisionCount)
    s.(st_Conditions).
Definition with_ServiceWriter (x : string) (s : GaleraStatus) : GaleraStatus :=
  mkStatus s.(st_ObservedGeneration) s.(st_Phase) x s.(st_ServiceWriterBackup)
    s.(st_ServiceReader) s.(st_ServiceSpecial) s.(st_HeadlessService) s.(st_ServiceMonitor)
    s.(st_PodDisruptionBudgetName) s.(st_Replicas) s.(st_Members) s.(st_CurrentRevision)
    s.(st_CurrentReplicas) s.(st_NextRevision) s.(st_NextReplicas) s.(st_CollisionCount)
    s.(st_Conditions).
Definition with_ServiceWriterBackup (x : string) (s : GaleraStatus) : GaleraStatus :=
  mkStatus s.(st_ObservedGeneration) s.(st_Phase) s.(st_ServiceWriter) x s.(st_ServiceReader)
    s.(st_ServiceSpecial) s.(st_HeadlessService) s.(st_ServiceMonitor)
    s.(st_PodDisruptionBudgetName) s.(st_Replicas) s.(st_Members) s.(st_CurrentRevision)
    s.(st_CurrentReplicas) s.(st_NextRevision) s.(st_NextReplicas) s.(st_CollisionCount)
    s.(st_Conditions).
Definition with_ServiceReader (x : string) (s : GaleraStatus) : GaleraStatus :=
  mkStatus s.(st_ObservedGeneration) s.(st_Phase) s.(st_ServiceWriter) s.(st_ServiceWriterBackup)
    x s.(st_ServiceSpecial) s.(st_HeadlessService) s.(st_ServiceMonitor)
    s.(st_PodDisruptionBudgetName) s.(st_Replicas) s.(st_Members) s.(st_CurrentRevision)
    s.(st_CurrentReplicas) s.(st_NextRevision) s.(st_NextReplicas) s.(st_CollisionCount)
    s.(st_Conditions).
Definition with_ServiceSpecial (x : string) (s : GaleraStatus) : GaleraStatus :=
  mkStatus s.(st_ObservedGeneration) s.(st_Phase) s.(st_ServiceWriter) s.(st_ServiceWriterBackup)
    s.(st_ServiceReader) x s.(st_HeadlessService) s.(st_ServiceMonitor)
    s.(st_PodDisruptionBudgetName) s.(st_Replicas) s.(st_Members) s.(st_CurrentRevision)
    s.(st_CurrentReplicas) s.(st_NextRevision) s.(st_NextReplicas) s.(st_CollisionCount)
    s.(st_Conditions).
Definition with_HeadlessService (x : string) (s : GaleraStatus) : GaleraStatus :=
  mkStatus s.(st_ObservedGeneration) s.(st_Phase) s.(st_ServiceWriter) s.(st_ServiceWriterBackup)
    s.(st_ServiceReader) s.(st_ServiceSpecial) x s.(st_ServiceMonitor)
    s.(st_PodDisruptionBudgetName) s.(st_Replicas) s.(st_Members) s.(st_CurrentRevision)
    s.(st_CurrentReplicas) s.(st_NextRevision) s.(st_NextReplicas) s.(st_CollisionCount)
    s.(st_Conditions).
Definition with_ServiceMonitor (x : string) (s : GaleraStatus) : GaleraStatus :=
  mkStatus s.(st_ObservedGeneration) s.(st_Phase) s.(st_ServiceWriter) s.(st_ServiceWriterBackup)
    s.(st_ServiceReader) s.(st_ServiceSpecial) s.(st_HeadlessService) x
    s.(st_PodDisruptionBudgetName) s.(st_Replicas) s.(st_Members) s.(st_CurrentRevision)
    s.(st_CurrentReplicas) s.(st_NextRevision) s.(st_NextReplicas) s.(st_CollisionCount)
    s.(st_Conditions).
Definition with_PodDisruptionBudgetName (x : string) (s : GaleraStatus) : GaleraStatus :=
  mkStatus s.(st_ObservedGeneration) s.(st_Phase) s.(st_ServiceWriter) s.(st_ServiceWriterBackup)
    s.(st_ServiceReader) s.(st_ServiceSpecial) s.(st_HeadlessService) s.(st_ServiceMonitor) x
    s.(st_Replicas) s.(st_Members) s.(st_CurrentRevision) s.(st_CurrentReplicas)
    s.(st_NextRevision) s.(st_NextReplicas) s.(st_CollisionCount) s.(st_Conditions).
Definition with_Replicas (x : Z) (s : GaleraStatus) : GaleraStatus :=
  mkStatus s.(st_ObservedGeneration) s.(st_Phase) s.(st_ServiceWriter) s.(st_ServiceWriterBackup)
    s.(st_ServiceReader) s.(st_ServiceSpecial) s.(st_HeadlessService) s.(st_ServiceMonitor)
    s.(st_PodDisruptionBudgetName) x s.(st_Members) s.(st_CurrentRevision) s.(st_CurrentReplicas)
    s.(st_NextRevision) s.(st_NextReplicas) s.(st_CollisionCount) s.(st_Conditions).
Definition with_Members (x : MembersStatus) (s : GaleraStatus) : GaleraStatus :=
  mkStatus s.(st_ObservedGeneration) s.(st_Phase) s.(st_ServiceWriter) s.(st_ServiceWriterBackup)
    s.(st_ServiceReader) s.(st_ServiceSpecial) s.(st_HeadlessService) s.(st_ServiceMonitor)
    s.(st_PodDisruptionBudgetName) s.(st_Replicas) x s.(st_CurrentRevision)
    s.(st_CurrentReplicas) s.(st_NextRevision) s.(st_NextReplicas) s.(st_CollisionCount)
    s.(st_Conditions).
Definition with_CurrentRevision (x : string) (s : GaleraStatus) : GaleraStatus :=
  mkStatus s.(st_ObservedGeneration) s.(st_Phase) s.(st_ServiceWriter) s.(st_ServiceWriterBackup)
    s.(st_ServiceReader) s.(st_ServiceSpecial) s.(st_HeadlessService) s.(st_ServiceMonitor)
    s.(st_PodDisruptionBudgetName) s.(st_Replicas) s.(st_Members) x s.(st_CurrentReplicas)
    s.(st_NextRevision) s.(st_NextReplicas) s.(st_CollisionCount) s.(st_Conditions).
Definition with_CurrentReplicas (x : Z) (s : GaleraStatus) : GaleraStatus :=
  mkStatus s.(st_ObservedGeneration) s.(st_Phase) s.(st_ServiceWriter) s.(st_ServiceWriterBackup)
    s.(st_ServiceReader) s.(st_ServiceSpecial) s.(st_HeadlessService) s.(st_ServiceMonitor)
    s.(st_PodDisruptionBudgetName) s.(st_Replicas) s.(st_Members) s.(st_CurrentRevision) x
    s.(st_NextRevision) s.(st_NextReplicas) s.(st_CollisionCount) s.(st_Conditions).
Definition with_NextRevision (x : string) (s : GaleraStatus) : GaleraStatus :=
  mkStatus s.(st_ObservedGeneration) s.(st_Phase) s.(st_ServiceWriter) s.(st_ServiceWriterBackup)
    s.(st_ServiceReader) s.(st_ServiceSpecial) s.(st_HeadlessService) s.(st_ServiceMonitor)
    s.(st_PodDisruptionBudgetName) s.(st_Replicas) s.(st_Members) s.(st_CurrentRevision)
    s.(st_CurrentReplicas) x s.(st_NextReplicas) s.(st_CollisionCount) s.(st_Conditions).
Definition with_NextReplicas (x : Z) (s : GaleraStatus) : GaleraStatus :=
  mkStatus s.(st_ObservedGeneration) s.(st_Phase) s.(st_ServiceWriter) s.(st_ServiceWriterBackup)
    s.(st_ServiceReader) s.(st_ServiceSpecial) s.(st_HeadlessService) s.(st_ServiceMonitor)
    s.(st_PodDisruptionBudgetName) s.(st_Replicas) s.(st_Members) s.(st_CurrentRevision)
    s.(st_CurrentReplicas) s.(st_NextRevision) x s.(st_CollisionCount) s.(st_Conditions).
Definition with_CollisionCount (x : option Z) (s : GaleraStatus) : GaleraStatus :=
  mkStatus s.(st_ObservedGeneration) s.(st_Phase) s.(st_ServiceWriter) s.(st_ServiceWriterBackup)
    s.(st_ServiceReader) s.(st_ServiceSpecial) s.(st_HeadlessService) s.(st_ServiceMonitor)
    s.(st_PodDisruptionBudgetName) s.(st_Replicas) s.(st_Members) s.(st_CurrentRevision)
    s.(st_CurrentReplicas) s.(st_NextRevision) s.(st_NextReplicas) x s.(st_Conditions).
Definition with_Conditions (x : list GaleraCondition) (s : GaleraStatus) : GaleraStatus :=
  mkStatus s.(st_ObservedGeneration) s.(st_Phase) s.(st_ServiceWriter) s.(st_ServiceWriterBackup)
    s.(st_ServiceReader) s.(st_ServiceSpecial) s.(st_HeadlessService) s.(st_ServiceMonitor)
    s.(st_PodDisruptionBudgetName) s.(st_Replicas) s.(st_Members) s.(st_CurrentRevision)
    s.(st_CurrentReplicas) s.(st_NextRevision) s.(st_NextReplicas) s.(st_CollisionCount) x.

(** The zero value of the struct *)
Definition emptyMembers : MembersStatus := mkMembers [] [] "" "" "" "".
Definition emptyStatus : GaleraStatus :=
  mkStatus 0 GaleraPhaseNone "" "" "" "" "" "" "" 0 emptyMembers "" 0 "" 0 None [].

(** [status.Members.X = v] *)
Definition with_Writer (x : string) (s : GaleraStatus) := with_Members (with_mem_Writer x s.(st_Members)) s.
Definition with_BackupWriter (x : string) (s : GaleraStatus) :=
  with_Members (with_mem_BackupWriter x s.(st_Members)) s.
Definition with_Backup (x : string) (s : GaleraStatus) := with_Members (with_mem_Backup x s.(st_Members)) s.
Definition with_Special (x : string) (s : GaleraStatus) := with_Members (with_mem_Special x s.(st_Members)) s.
Definition with_Ready_Unready (r u : list string) (s : GaleraStatus) :=
  with_Members (with_mem_Unready u (with_mem_Ready r s.(st_Members))) s.

(** ** Methods on conditions

    The methods of the source write the receiver; here they return it.  Those
    that create a condition take the reading of the clock [metav1.Now()]. *)

Fixpoint findCondition (t : GaleraConditionType) (i : Z) (l : list GaleraCondition)
    : Z * option GaleraCondition :=
  match l with
  | [] => (-1, None)
  | c :: l' => if decide (t = c.(cond_Type)) then (i, Some c) else findCondition t (i + 1) l'
  end.

Definition getGaleraCondition (status : GaleraStatus) (t : GaleraConditionType)
    : Z * option GaleraCondition :=
  findCondition t 0 status.(st_Conditions).

Definition newGaleraCondition (condType : GaleraConditionType) (status reason message : string)
    (now : Z) : GaleraCondition :=
  mkCondition condType status now reason message.

Definition IsCreated (gs : option GaleraStatus) : bool := bool_decide (gs ≠ None).

Definition IsRunning (gs : option GaleraStatus) : bool :=
  match gs with
  | None => false
  | Some s => bool_decide (s.(st_Phase) = GaleraPhaseRunning)
  end.

Definition IsReady (gs : option GaleraStatus) : bool :=
  match gs with
  | None => false
  | Some s =>
      if decide (s.(st_Phase) = GaleraPhaseRunning)
      then match getGaleraCondition s GaleraConditionReady with
           | (_, Some _) => true
           | (_, None) => false
           end
      else false
  end.

Definition IsFailed (gs : option GaleraStatus) : bool :=
  match gs with
  | None => false
  | Some s => bool_decide (s.(st_Phase) = GaleraPhaseFailed)
  end.

Definition IsUpgrading (gs : option GaleraStatus) : bool :=
  match gs with
  | None => false
  | Some s =>
      match getGaleraCondition s GaleraConditionUpgrading with
      | (_, None) => false
      | (_, Some _) => true
      end
  end.

Definition setGaleraCondition (c : GaleraCondition) (gs : GaleraStatus) : GaleraStatus :=
  match getGaleraCondition gs c.(cond_Type) with
  | (pos, Some cp) =>
      if decide (cp.(cond_Status) = c.(cond_Status) ∧ cp.(cond_Reason) = c.(cond_Reason) ∧
                 cp.(cond_Message) = c.(cond_Message))
      then gs
      else with_Conditions (<[Z.to_nat pos := c]> gs.(st_Conditions)) gs
  | (_, None) => with_Conditions (gs.(st_Conditions) ++ [c]) gs
  end.

Definition ClearCondition (t : GaleraConditionType) (gs : GaleraStatus) : GaleraStatus :=
  match getGaleraCondition gs t with
  | (pos, _) =>
      if decide (pos = -1) then gs
      else with_Conditions (take (Z.to_nat pos) gs.(st_Conditions)
                            ++ drop (S (Z.to_nat pos)) gs.(st_Conditions)) gs
  end.

Definition scalingMsg (from to : Z) : string :=
  "Current cluster size: " +:+ pretty from +:+ ", desired cluster size: " +:+ pretty to.

Definition SetScalingUpCondition (from to now : Z) (gs : GaleraStatus) : GaleraStatus :=
  setGaleraCondition
    (newGaleraCondition GaleraConditionScaling ConditionTrue "Scaling up" (scalingMsg from to) now) gs.

Definition SetScalingDownCondition (from to now : Z) (gs : GaleraStatus) : GaleraStatus :=
  setGaleraCondition
    (newGaleraCondition GaleraConditionScaling ConditionTrue "Scaling down" (scalingMsg from to) now) gs.

Definition SetFailedCondition (now : Z) (gs : GaleraStatus) : GaleraStatus :=
  ClearCondition GaleraConditionReady
    (setGaleraCondition
       (newGaleraCondition GaleraConditionFailed ConditionTrue
          "Disaster recovery" "Majority is down. Recovering from backup" now) gs).

Definition SetUpgradingCondition (to : string) (now : Z) (gs : GaleraStatus) : GaleraStatus :=
  setGaleraCondition
    (newGaleraCondition GaleraConditionUpgrading ConditionTrue
       "Cluster upgrading" ("upgrading to " +:+ to) now) gs.

Definition SetReadyCondition (now : Z) (gs : GaleraStatus) : GaleraStatus :=
  setGaleraCondition
    (newGaleraCondition GaleraConditionReady ConditionTrue "Cluster ready" "" now) gs.

Definition SetRestoringCondition (restore : string) (now : Z) (gs : GaleraStatus) : GaleraStatus :=
  setGaleraCondition
    (newGaleraCondition GaleraConditionRestoring ConditionTrue
       "Restoring cluster" ("restoring from " +:+ restore) now) gs.

(** ** Specification *)

(** A struct of Kubernetes the operator only copies and compares. *)
Definition Opaque := string.

Record EnvVar := mkEnvVar { env_Name : string; env_Value : string; env_ValueFrom : option string }.

Record MetricSpec := mkMetric {
  metric_Image : string;
  metric_Port : option Z;
  metric_Env : list EnvVar;
  metric_Resources : Opaque }.

Record PodTemplate := mkPodTemplate {
  pt_Tolerations : list Opaque;
  pt_NodeSelector : gmap string string;
  pt_Affinity : option Opaque;
  pt_CredentialsSecret : option string;
  pt_Image : string;
  pt_Resources : Opaque;
  pt_Env : list EnvVar;
  pt_MycnfConfigMap : option string;
  pt_Metric : option MetricSpec;
  pt_PriorityClassName : string;
  pt_SecurityContext : option Opaque }.

Record SpecialSpec := mkSpecial {
  sp_SpecialResources : option Opaque;
  sp_GaleraSpecialEnv : list EnvVar;
  sp_MycnfSpecialConfigMap : option string }.

Record S3StorageProvider := mkS3 {
  s3_Region : string;
  s3_Endpoint : string;
  s3_Bucket : string;
  s3_ForcePathStyle : bool;
  s3_CredentialsSecret : option string }.

Record RestoreSpec := mkRestore {
  rs_Name : string;
  rs_StorageProviderType : string;
  rs_S3 : option S3StorageProvider }.

(** [corev1.PersistentVolumeClaimSpec]; a nil slice and an empty one are
    different for [reflect.DeepEqual]. *)
Record PVCSpec := mkPVCSpec {
  pvc_AccessModes : option (list string);
  pvc_Selector : option Opaque;
  pvc_Resources : Opaque;
  pvc_StorageClassName : option string;
  pvc_VolumeMode : option string }.

Record GaleraSpec := mkSpec {
  spec_Replicas : option Z;
  spec_Pod : option PodTemplate;
  spec_PersistentVolumeClaimSpec : PVCSpec;
  spec_Special : option SpecialSpec;
  spec_Restore : option RestoreSpec;
  spec_RevisionHistoryLimit : option Z }.

(** A map of Go that may be nil *)
Abbreviation labels_t := (option (gmap string string)).

Record Galera := mkGalera {
  g_Name : string;
  g_Namespace : string;
  g_UID : string;
  g_Labels : labels_t;
  g_Annotations : gmap string string;
  g_Generation : Z;
  g_DeletionTimestamp : bool;
  g_Spec : GaleraSpec;
  g_Status : GaleraStatus }.

Definition with_Spec (x : GaleraSpec) (g : Galera) : Galera :=
  mkGalera g.(g_Name) g.(g_Namespace) g.(g_UID) g.(g_Labels) g.(g_Annotations) g.(g_Generation)
    g.(g_DeletionTimestamp) x g.(g_Status).
Definition with_Status (x : GaleraStatus) (g : Galera) : Galera :=
  mkGalera g.(g_Name) g.(g_Namespace) g.(g_UID) g.(g_Labels) g.(g_Annotations) g.(g_Generation)
    g.(g_DeletionTimestamp) g.(g_Spec) x.

(** [metav1.OwnerReference] *)
Record OwnerReference := mkOwner {
  own_APIVersion : string;
  own_Kind : string;
  own_Name : string;
  own_UID : string;
  own_Controller : option bool }.

Definition SchemeGroupVersion : string := "sql.databases/v1beta2".

Definition AsOwner (g : Galera) : OwnerReference :=
  mkOwner SchemeGroupVersion GaleraCRDResourceKind g.(g_Name) g.(g_UID) (Some true).

(** ** Conditions as a map from types to conditions *)

(** The abstract view of the conditions of a status: what a condition type maps
    to. *)
Definition condMap (gs : GaleraStatus) : gmap GaleraConditionType GaleraCondition :=
  list_to_map ((λ c, (c.(cond_Type), c)) <$> gs.(st_Conditions)).

(** At most one condition of each type *)
Definition wf_conditions (gs : GaleraStatus) : Prop :=
  NoDup (cond_Type <$> gs.(st_Conditions)).

(** [c] says what [c'] says, whenever it was set. *)
Definition same_content (c c' : GaleraCondition) : Prop :=
  c.(cond_Type) = c'.(cond_Type) ∧ c.(cond_Status) = c'.(cond_Status) ∧
  c.(cond_Reason) = c'.(cond_Reason) ∧ c.(cond_Message) = c'.(cond_Message).

Lemma findCondition_spec t i l :
  match findCondition t i l with
  | (p, Some c) => ∃ l1 l2, l = l1 ++ c :: l2 ∧ p = i + Z.of_nat (length l1) ∧
                            c.(cond_Type) = t ∧ t ∉ (cond_Type <$> l1)
  | (p, None) => p = -1 ∧ t ∉ (cond_Type <$> l)
  end.
Proof.
  revert i. induction l as [|c l IH]; intros i; cbn; [split; set_solver|].
  case_decide as Ht.
  - exists [], l. cbn. split_and!; [done|lia|done|set_solver].
  - specialize (IH (i + 1)). destruct (findCondition t (i + 1) l) as [p [c'|]].
    + destruct IH as (l1 & l2 & -> & -> & ? & ?). exists (c :: l1), l2. cbn.
      split_and!; [done|lia|done|set_solver].
    + destruct IH. split; [done|set_solver].
Qed.

Definition kv (l : list GaleraCondition) : gmap GaleraConditionType GaleraCondition :=
  list_to_map ((λ c, (c.(cond_Type), c)) <$> l).

#[global] Arguments kv : simpl never.

Lemma kv_cons c l : kv (c :: l) = <[c.(cond_Type) := c]> (kv l).
Proof. reflexivity. Qed.

Lemma kv_app_insert c l1 l2 :
  c.(cond_Type) ∉ (cond_Type <$> l1) →
  kv (l1 ++ c :: l2) = <[c.(cond_Type) := c]> (kv (l1 ++ l2)).
Proof.
  induction l1 as [|x l1 IH]; cbn; intros Hn; [done|].
  change (x :: l1 ++ c :: l2) with (x :: (l1 ++ c :: l2)).
  rewrite (kv_cons x (l1 ++ c :: l2)), IH, (kv_cons x (l1 ++ l2)) by set_solver.
  apply insert_insert_ne. set_solver.
Qed.

Lemma kv_not_elem t l : t ∉ (cond_Type <$> l) → kv l !! t = None.
Proof.
  intros H. unfold kv. apply not_elem_of_list_to_map. by rewrite <- list_fmap_compose.
Qed.

Lemma condMap_kv gs : condMap gs = kv gs.(st_Conditions).
Proof. reflexivity. Qed.

Lemma getGaleraCondition_lookup gs t : (getGaleraCondition gs t).2 = condMap gs !! t.
Proof.
  unfold getGaleraCondition. rewrite condMap_kv.
  pose proof (findCondition_spec t 0 gs.(st_Conditions)) as H.
  destruct (findCondition t 0 _) as [p [c|]]; cbn.
  - destruct H as (l1 & l2 & -> & _ & <- & Hn). rewrite kv_app_insert by done.
    by rewrite lookup_insert_eq.
  - destruct H as [_ Hn]. by rewrite kv_not_elem.
Qed.

Lemma insert_found {A} (x y : A) l1 l2 :
  <[Z.to_nat (0 + Z.of_nat (length l1)) := y]> (l1 ++ x :: l2) = l1 ++ y :: l2.
Proof. rewrite Z.add_0_l, Nat2Z.id. by rewrite insert_app_r_alt, Nat.sub_diag by lia. Qed.

Lemma delete_found {A} (x : A) l1 l2 :
  take (Z.to_nat (0 + Z.of_nat (length l1))) (l1 ++ x :: l2) ++
  drop (S (Z.to_nat (0 + Z.of_nat (length l1)))) (l1 ++ x :: l2) = l1 ++ l2.
Proof.
  rewrite Z.add_0_l, Nat2Z.id, take_app_length, drop_app_ge by lia.
  by replace (S (length l1) - length l1)%nat with 1%nat by lia.
Qed.

(** The two updates, on the list that holds the conditions. *)
Lemma setGaleraCondition_cases c gs :
  (∃ l1 l2 cp, gs.(st_Conditions) = l1 ++ cp :: l2 ∧ cp.(cond_Type) = c.(cond_Type) ∧
     (c.(cond_Type) ∉ (cond_Type <$> l1)) ∧
     (same_content cp c ∧ setGaleraCondition c gs = gs ∨
      ¬ same_content cp c ∧ setGaleraCondition c gs = with_Conditions (l1 ++ c :: l2) gs)) ∨
  (c.(cond_Type) ∉ (cond_Type <$> gs.(st_Conditions))) ∧
  setGaleraCondition c gs = with_Conditions (gs.(st_Conditions) ++ [c]) gs.
Proof.
  unfold setGaleraCondition, getGaleraCondition.
  pose proof (findCondition_spec c.(cond_Type) 0 gs.(st_Conditions)) as H.
  destruct (findCondition _ 0 _) as [p [cp|]]; [left|right; tauto].
  destruct H as (l1 & l2 & E & -> & Ht & Hn).
  exists l1, l2, cp. split_and!; [done..|]. rewrite E, insert_found.
  unfold same_content. case_decide; [left|right]; tauto.
Qed.

Lemma ClearCondition_cases t gs :
  (∃ l1 l2 cp, gs.(st_Conditions) = l1 ++ cp :: l2 ∧ cp.(cond_Type) = t ∧
     (t ∉ (cond_Type <$> l1)) ∧ ClearCondition t gs = with_Conditions (l1 ++ l2) gs) ∨
  (t ∉ (cond_Type <$> gs.(st_Conditions))) ∧ ClearCondition t gs = gs.
Proof.
  unfold ClearCondition, getGaleraCondition.
  pose proof (findCondition_spec t 0 gs.(st_Conditions)) as H.
  destruct (findCondition t 0 _) as [p [cp|]].
  - left. destruct H as (l1 & l2 & E & -> & Ht & Hn).
    exists l1, l2, cp. split_and!; [done..|]. rewrite E, delete_found.
    by rewrite decide_False by lia.
  - right. destruct H as [-> H]. done.
Qed.

Lemma wf_setGaleraCondition c gs : wf_conditions gs → wf_conditions (setGaleraCondition c gs).
Proof.
  unfold wf_conditions.
  destruct (setGaleraCondition_cases c gs)
    as [(l1 & l2 & cp & E & Ht & Hn & [[_ ->]|[_ ->]])|[Hn ->]]; [done| |]; cbn.
  - rewrite E, !fmap_app, !fmap_cons, Ht. done.
  - rewrite fmap_app. intros H. apply NoDup_app. split_and!; [done| |apply NoDup_singleton].
    set_solver.
Qed.

Lemma wf_ClearCondition t gs : wf_conditions gs → wf_conditions (ClearCondition t gs).
Proof.
  unfold wf_conditions.
  destruct (ClearCondition_cases t gs) as [(l1 & l2 & cp & E & _ & _ & ->)|[_ ->]]; [|done].
  rewrite E. cbn. rewrite !fmap_app, !fmap_cons. intros H.
  rewrite (comm (++)) in H. cbn in H. apply NoDup_cons in H as [_ H].
  by rewrite (comm (++)).
Qed.

#[export] Hint Resolve wf_setGaleraCondition wf_ClearCondition : galera.

(** Setting or clearing conditions leaves every other field of the status. *)
Lemma setGaleraCondition_frame c gs :
  ∃ l, setGaleraCondition c gs = with_Conditions l gs.
Proof.
  destruct (setGaleraCondition_cases c gs)
    as [(l1 & l2 & cp & _ & _ & _ & [[_ ->]|[_ ->]])|[_ ->]]; eauto.
  exists gs.(st_Conditions). by destruct gs.
Qed.

Lemma ClearCondition_frame t gs : ∃ l, ClearCondition t gs = with_Conditions l gs.
Proof.
  destruct (ClearCondition_cases t gs) as [(l1 & l2 & cp & _ & _ & _ & ->)|[_ ->]]; eauto.
  exists gs.(st_Conditions). by destruct gs.
Qed.

(** ** Properties *)

(** C39: on statuses with at most one condition per type, the methods that set
    and clear a condition implement the update and the deletion of a map from
    types to conditions, keep the status well formed, and touch no other field.
    A condition that is set again with the same status, reason and message stays as it
    was, with its transition time; when the reason or the message alone differs it is
    replaced with its time, although the comment of that field says that it is the time
    of a change of status. *)
Theorem conditions_refine_map (c : GaleraCondition) (t : GaleraConditionType) (gs : GaleraStatus) :
  wf_conditions gs →
  (wf_conditions (setGaleraCondition c gs) ∧
   condMap (setGaleraCondition c gs) =
     match condMap gs !! c.(cond_Type) with
     | Some cp => if bool_decide (cp.(cond_Status) = c.(cond_Status) ∧
                                  cp.(cond_Reason) = c.(cond_Reason) ∧
                                  cp.(cond_Message) = c.(cond_Message))
                  then condMap gs else <[c.(cond_Type) := c]> (condMap gs)
     | None => <[c.(cond_Type) := c]> (condMap gs)
     end) ∧
  (wf_conditions (ClearCondition t gs) ∧
   condMap (ClearCondition t gs) = delete t (condMap gs)) ∧
  (∃ l l', setGaleraCondition c gs = with_Conditions l gs ∧
           ClearCondition t gs = with_Conditions l' gs).
Proof.
  intros Hwf. split_and!; [auto with galera| |auto with galera| |].
  - rewrite (condMap_kv gs).
    destruct (setGaleraCondition_cases c gs)
      as [(l1 & l2 & cp & E & Ht & Hn & Hc)|[Hn ->]].
    + rewrite E, kv_app_insert, Ht, lookup_insert_eq by congruence.
      unfold same_content in Hc. case_bool_decide as Hb.
      * destruct Hc as [[_ ->]|[Hc _]]; [|by destruct Hc]. by rewrite condMap_kv, E,
          kv_app_insert, Ht by congruence.
      * destruct Hc as [[Hc _]|[_ ->]]; [tauto|]. rewrite condMap_kv. cbn.
        by rewrite kv_app_insert, insert_insert_eq.
    + rewrite kv_not_elem by done. rewrite condMap_kv. cbn.
      by rewrite (kv_app_insert c _ []), app_nil_r.
  - rewrite (condMap_kv gs). unfold wf_conditions in Hwf.
    destruct (ClearCondition_cases t gs) as [(l1 & l2 & cp & E & <- & Hn & ->)|[Hn ->]].
    + rewrite E, kv_app_insert, delete_insert_id; [done| |done].
      apply kv_not_elem. rewrite E, fmap_app, fmap_cons in Hwf.
      rewrite (comm (++)) in Hwf. cbn in Hwf. apply NoDup_cons in Hwf as [Hwf _].
      rewrite fmap_app. set_solver.
    + by rewrite delete_id by by apply kv_not_elem.
  - destruct (setGaleraCondition_frame c gs), (ClearCondition_frame t gs). eauto.
Qed.

#[global] Instance wf_conditions_dec gs : Decision (wf_conditions gs).
Proof. unfold wf_conditions. apply _. Defined.

Definition example_status : GaleraStatus :=
  SetReadyCondition 7 (SetScalingUpCondition 2 3 5 emptyStatus).

Lemma conditions_refine_map_witness :
  wf_conditions example_status ∧
  condMap (ClearCondition GaleraConditionScaling example_status)
    = delete GaleraConditionScaling (condMap example_status).
Proof.
  assert (H : wf_conditions example_status)
    by (apply (bool_decide_unpack _); vm_compute; exact I).
  split; [exact H|].
  exact (proj2 (proj1 (proj2 (conditions_refine_map
    (newGaleraCondition GaleraConditionReady ConditionTrue "" "" 9)
    GaleraConditionScaling example_status H)))).
Defined.
