(* ===== verification/DeepCopy.v ===== *)
(** * Deep copies

    Models [src/pkg/apis/apigalera/v1beta2/zz_generated.deepcopy.go] on a memory: the
    structs of the API hold pointers, slices and maps, and a copy must not share them
    with the original, since the originals are in the caches of the informers, which
    must not change.

    A Go value is a struct of scalars and references; what a reference points to is in
    the memory.  [view] reads what a value means, [reach] is the memory it uses.  The
    theorem at the end is what the other files rely on where [DeepCopy] is the
    identity: a copy means the same, and neither sees a change of the other. *)
From S2P Require Import Prelude.

(** ** Memory *)

Definition loc : Type := positive.

(** Numbers, strings and booleans, and the values that are never changed through a
    reference, such as times *)
Inductive scalar := Str (s : string) | Int (z : Z) | Bool (b : bool).

(** A slice has its array and its length. *)
Inductive value :=
| Scalar (x : scalar)
| Pointer (p : option loc)
| Slice (p : option loc) (len : nat)
| Map (p : option loc)
| Struct (fields : list (string * value)).

Inductive cell := Cell (v : value) | Array (l : list value) | Entries (m : gmap string string).

Abbreviation heap := (gmap loc cell).

(** [new] and [make] *)
Definition alloc (c : cell) (h : heap) : loc * heap :=
  let l := fresh (dom h) in (l, <[l := c]> h).

#[global] Arguments alloc : simpl never.

(** ** Types *)

Inductive type :=
| TScalar
| TPointer (t : type)
| TSlice (t : type)
| TMap
| TStruct (fields : list (string * type)).

Section type_ind.
Context (P : type → Prop) (Hscalar : P TScalar) (Hpointer : ∀ t, P t → P (TPointer t))
  (Hslice : ∀ t, P t → P (TSlice t)) (Hmap : P TMap)
  (Hstruct : ∀ fields, Forall (λ f, P (snd f)) fields → P (TStruct fields)).

Fixpoint type_nested_ind (t : type) : P t :=
  match t with
  | TScalar => Hscalar
  | TPointer t => Hpointer t (type_nested_ind t)
  | TSlice t => Hslice t (type_nested_ind t)
  | TMap => Hmap
  | TStruct fields => Hstruct fields
      ((fix all (l : list (string * type)) : Forall (λ f, P (snd f)) l :=
          match l with
          | [] => @List.Forall_nil _ _
          | f :: l' => @List.Forall_cons _ _ f l' (type_nested_ind (snd f)) (all l')
          end) fields)
  end.
End type_ind.

(** ** What a value means *)

Inductive tree :=
| Leaf (x : scalar)
| Nil
| Ref (t : tree)
| Seq (l : list tree)
| Dict (m : gmap string string)
| Rec (fields : list (string * tree)).

(** Reading a value of a type: nothing when it has not the type *)
Fixpoint view (h : heap) (t : type) (v : value) {struct t} : option tree :=
  match t, v with
  | TScalar, Scalar x => Some (Leaf x)
  | TPointer t, Pointer None => Some Nil
  | TPointer t, Pointer (Some l) =>
      match h !! l with Some (Cell x) => Ref <$> view h t x | _ => None end
  | TSlice t, Slice None _ => Some Nil
  | TSlice t, Slice (Some l) n =>
      match h !! l with
      | Some (Array a) => if decide (n ≤ length a)%nat then Seq <$> mapM (view h t) (take n a) else None
      | _ => None
      end
  | TMap, Map None => Some Nil
  | TMap, Map (Some l) => match h !! l with Some (Entries m) => Some (Dict m) | _ => None end
  | TStruct fields, Struct values =>
      Rec <$> (fix viewAll (fields : list (string * type)) (values : list (string * value)) :=
        match fields, values with
        | [], [] => Some []
        | (n, t) :: fields', (n', v) :: values' =>
            if decide (n = n') then
              x ← view h t v; l ← viewAll fields' values'; Some ((n, x) :: l)
            else None
        | _, _ => None
        end) fields values
  | _, _ => None
  end.

Definition viewAll (h : heap) : list (string * type) → list (string * value) → option (list (string * tree)) :=
  fix viewAll fields values :=
    match fields, values with
    | [], [] => Some []
    | (n, t) :: fields', (n', v) :: values' =>
        if decide (n = n') then
          x ← view h t v; l ← viewAll fields' values'; Some ((n, x) :: l)
        else None
    | _, _ => None
    end.

(** The memory that a value uses *)
Fixpoint reach (h : heap) (t : type) (v : value) {struct t} : gset loc :=
  match t, v with
  | TPointer t, Pointer (Some l) =>
      {[ l ]} ∪ match h !! l with Some (Cell x) => reach h t x | _ => ∅ end
  | TSlice t, Slice (Some l) n =>
      {[ l ]} ∪ match h !! l with Some (Array a) => ⋃ (reach h t <$> take n a) | _ => ∅ end
  | TMap, Map (Some l) => {[ l ]}
  | TStruct fields, Struct values =>
      (fix reachAll (fields : list (string * type)) (values : list (string * value)) : gset loc :=
        match fields, values with
        | (_, t) :: fields', (_, v) :: values' => reach h t v ∪ reachAll fields' values'
        | _, _ => ∅
        end) fields values
  | _, _ => ∅
  end.

Definition reachAll (h : heap) : list (string * type) → list (string * value) → gset loc :=
  fix reachAll fields values :=
    match fields, values with
    | (_, t) :: fields', (_, v) :: values' => reach h t v ∪ reachAll fields' values'
    | _, _ => ∅
    end.

(** ** How values are copied

    A copier is the body of a [DeepCopyInto], or one of the statements it is made of:
    from the value of [in], the value of [out]; nothing when the program would not be
    typed. *)
Definition copier : Type := value → heap → option (value * heap).

(** [*out = *in] *)
Definition assign : copier := λ v h, Some (v, h).

(** If the pointer is not nil, a new target, into which the one of [in] is copied *)
Definition pointer (c : copier) : copier := λ v h,
  match v with
  | Pointer None => Some (v, h)
  | Pointer (Some l) =>
      match h !! l with
      | Some (Cell x) =>
          '(x, h) ← c x h;
          let (l, h) := alloc (Cell x) h in
          Some (Pointer (Some l), h)
      | _ => None
      end
  | _ => None
  end.

(** The elements, one after the other *)
Fixpoint copyAll (c : copier) (l : list value) (h : heap) : option (list value * heap) :=
  match l with
  | [] => Some ([], h)
  | x :: l =>
      '(x, h) ← c x h;
      '(l, h) ← copyAll c l h;
      Some (x :: l, h)
  end.

(** If the slice is not nil, a new array of its length, into which each element is
    copied *)
Definition slice (c : copier) : copier := λ v h,
  match v with
  | Slice None _ => Some (v, h)
  | Slice (Some l) n =>
      match h !! l with
      | Some (Array a) =>
          '(a, h) ← copyAll c (take n a) h;
          let (l, h) := alloc (Array a) h in
          Some (Slice (Some l) n, h)
      | _ => None
      end
  | _ => None
  end.

(** If the map is not nil, a new one with its keys and values *)
Definition stringMap : copier := λ v h,
  match v with
  | Map None => Some (v, h)
  | Map (Some l) =>
      match h !! l with
      | Some (Entries m) => let (l, h) := alloc (Entries m) h in Some (Map (Some l), h)
      | _ => None
      end
  | _ => None
  end.

(** What is done for a field *)
Fixpoint copierOf (name : string) (l : list (string * copier)) : option copier :=
  match l with
  | [] => None
  | (n, c) :: l => if decide (n = name) then Some c else copierOf name l
  end.

(** The body of a [DeepCopyInto]: [*out = *in], which shares every reference, and then
    a statement for some of the fields, in their order *)
Fixpoint copyFields (l : list (string * copier)) (values : list (string * value)) (h : heap)
    : option (list (string * value) * heap) :=
  match values with
  | [] => Some ([], h)
  | (n, v) :: values =>
      '(v, h) ← (default assign (copierOf n l)) v h;
      '(values, h) ← copyFields l values h;
      Some ((n, v) :: values, h)
  end.

Definition struct (l : list (string * copier)) : copier := λ v h,
  match v with
  | Struct values => '(values, h) ← copyFields l values h; Some (Struct values, h)
  | _ => None
  end.

(** [DeepCopy], from the pointer [in] *)
Definition maker : Type := option loc → heap → option (option loc * heap).

Definition DeepCopy (DeepCopyInto : copier) : maker := λ p h,
  match p with
  | None => Some (None, h)
  | Some l =>
      match h !! l with
      | Some (Cell x) =>
          '(x, h) ← DeepCopyInto x h;
          let (l, h) := alloc (Cell x) h in
          Some (Some l, h)
      | _ => None
      end
  end.

(** A [runtime.Object]: an interface, which is nil or holds a pointer, which may be nil
    as well *)
Inductive object := NilInterface | Object (p : option loc).

Definition object_maker : Type := option loc → heap → option (object * heap).

(** [DeepCopyObject], from the [DeepCopy] of the struct *)
Definition DeepCopyObject (copy : maker) : object_maker := λ p h,
  '(c, h) ← copy p h;
  Some (match c with Some l => Object (Some l) | None => NilInterface end, h).

(** ** Reading *)

Lemma view_Struct h fields values : view h (TStruct fields) (Struct values) = Rec <$> viewAll h fields values.
Proof. reflexivity. Qed.

Lemma reach_Struct h fields values : reach h (TStruct fields) (Struct values) = reachAll h fields values.
Proof. reflexivity. Qed.

(** A value that has a type, at the head *)
Lemma view_inv h t v x : view h t v = Some x →
  match t with
  | TScalar => ∃ s, v = Scalar s
  | TPointer t => v = Pointer None ∧ x = Nil ∨
      ∃ l y ty, v = Pointer (Some l) ∧ h !! l = Some (Cell y) ∧ view h t y = Some ty ∧ x = Ref ty
  | TSlice t => (∃ n, v = Slice None n) ∧ x = Nil ∨
      ∃ l n a tl, v = Slice (Some l) n ∧ h !! l = Some (Array a) ∧ (n ≤ length a)%nat ∧
        mapM (view h t) (take n a) = Some tl ∧ x = Seq tl
  | TMap => v = Map None ∧ x = Nil ∨ ∃ l m, v = Map (Some l) ∧ h !! l = Some (Entries m) ∧ x = Dict m
  | TStruct fields => ∃ values tl, v = Struct values ∧ viewAll h fields values = Some tl ∧ x = Rec tl
  end.
Proof.
  destruct t as [|t|t| |fields], v as [s|[l|]|[l|] n|[l|]|values]; try done; intros E.
  - by exists s.
  - right. cbn in E. destruct (h !! l) as [[y| |]|] eqn:El; try done.
    apply fmap_Some in E as (ty & Ey & ->). by exists l, y, ty.
  - left. cbn in E. naive_solver.
  - right. cbn in E. destruct (h !! l) as [[|a|]|] eqn:El; try done. case_decide; [|done].
    apply fmap_Some in E as (tl & Ea & ->). by exists l, n, a, tl.
  - left. cbn in E. split; [by exists n|congruence].
  - right. cbn in E. destruct (h !! l) as [[| |m]|] eqn:El; try done. exists l, m. naive_solver.
  - left. cbn in E. naive_solver.
  - rewrite view_Struct in E. apply fmap_Some in E as (tl & Et & ->). by exists values, tl.
Qed.

(** What is read is in the memory. *)
Lemma reach_dom h t : ∀ v x, view h t v = Some x → reach h t v ⊆ dom h.
Proof.
  induction t as [|t IH|t IH| |fields IH] using type_nested_ind; intros v x E; pose proof (view_inv h _ v x E) as H.
  - destruct H as [s ->]. cbn. set_solver.
  - destruct H as [[-> _]|(l & y & ty & -> & El & Ey & _)]; cbn; [set_solver|]. rewrite El.
    apply union_subseteq. split; [|by eapply IH]. apply singleton_subseteq_l. by eapply elem_of_dom_2.
  - destruct H as [[[n ->] _]|(l & n & a & tl & -> & El & _ & Ea & _)]; cbn; [set_solver|]. rewrite El.
    apply union_subseteq. split; [apply singleton_subseteq_l; by eapply elem_of_dom_2|].
    clear -IH Ea. revert tl Ea. induction (take n a) as [|y a' IHa]; intros tl Ea; cbn; [set_solver|].
    cbn in Ea. apply bind_Some in Ea as (ty & Ey & Ea). apply bind_Some in Ea as (tl' & Ea & _).
    apply union_subseteq. eauto.
  - destruct H as [[-> _]|(l & m & -> & El & _)]; cbn; [set_solver|].
    apply singleton_subseteq_l. by eapply elem_of_dom_2.
  - destruct H as (values & tl & -> & Et & _). rewrite reach_Struct. clear E.
    revert values tl Et. induction IH as [|[n t] fields Ht _ IHf]; intros [|[n' v] values] tl Et; cbn; try set_solver.
    cbn in Et. case_decide; [|done]. apply bind_Some in Et as (ty & Ey & Et). apply bind_Some in Et as (tl' & Et & _).
    apply union_subseteq. split; [by eapply Ht|by eapply IHf].
Qed.

(** What is read only depends on the memory that is reached. *)
Lemma view_frame h h' t : ∀ v x, view h t v = Some x → (∀ l, l ∈ reach h t v → h' !! l = h !! l) →
  view h' t v = Some x ∧ reach h' t v = reach h t v.
Proof.
  induction t as [|t IH|t IH| |fields IH] using type_nested_ind; intros v x E Hl; pose proof (view_inv h _ v x E) as H.
  - destruct H as [s ->]. by split.
  - destruct H as [[-> _]|(l & y & ty & -> & El & Ey & ->)]; [by split|].
    cbn in *. rewrite El in Hl. rewrite (Hl l), El by set_solver. rewrite El in E.
    destruct (IH y ty Ey) as [-> ->]; [set_solver|]. by split.
  - destruct H as [[[n ->] _]|(l & n & a & tl & -> & El & Hn & Ea & ->)]; [by split|].
    cbn in *. rewrite El in Hl. rewrite (Hl l), El by set_solver. rewrite decide_True by done.
    assert (H : mapM (view h' t) (take n a) = Some tl ∧ (reach h' t <$> take n a) = (reach h t <$> take n a)).
    { assert (Hl' : ∀ l, l ∈ ⋃ (reach h t <$> take n a) → h' !! l = h !! l) by set_solver.
      clear -IH Ea Hl'. revert tl Ea. induction (take n a) as [|y a' IHa]; intros tl Ea; [by split|].
      cbn in *. apply bind_Some in Ea as (ty & Ey & Ea). apply bind_Some in Ea as (tl' & Ea & [= <-]).
      destruct (IH y ty Ey) as [-> ->]; [set_solver|]. destruct (IHa ltac:(set_solver) tl' Ea) as [-> ->]. by split. }
    destruct H as [-> ->]. by split.
  - destruct H as [[-> _]|(l & m & -> & El & ->)]; [by split|]. cbn in *. by rewrite (Hl l), El by set_solver.
  - destruct H as (values & tl & -> & Et & ->). rewrite !reach_Struct, view_Struct in *. clear E.
    assert (H : viewAll h' fields values = Some tl ∧ reachAll h' fields values = reachAll h fields values).
    { revert values tl Et Hl. induction IH as [|[n t] fields Ht _ IHf]; intros [|[n' v] values] tl Et Hl; try done.
      cbn in *. case_decide; [|done]. apply bind_Some in Et as (ty & Ey & Et). apply bind_Some in Et as (tl' & Et & [= <-]).
      destruct (Ht v ty Ey) as [-> ->]; [set_solver|]. destruct (IHf values tl' Et) as [-> ->]; [set_solver|]. by split. }
    destruct H as [-> ->]. by split.
Qed.

Lemma view_mono h h' t v x : h ⊆ h' → view h t v = Some x → view h' t v = Some x ∧ reach h' t v = reach h t v.
Proof.
  intros Hh E. apply view_frame; [done|]. intros l Hl. apply (reach_dom h t v x E) in Hl.
  apply elem_of_dom in Hl as [c Hc]. rewrite Hc. by eapply lookup_weaken.
Qed.

(** A type without references *)
Fixpoint flat (t : type) : bool :=
  match t with
  | TScalar => true
  | TStruct fields =>
      (fix flatAll (l : list (string * type)) : bool :=
         match l with [] => true | (_, t) :: l => flat t && flatAll l end) fields
  | _ => false
  end.

Lemma flat_reach h t : ∀ v, flat t = true → reach h t v = ∅.
Proof.
  induction t as [|t IH|t IH| |fields IH] using type_nested_ind; intros v; try done.
  destruct v as [| | | |values]; try done. rewrite reach_Struct. cbn [flat].
  revert values. induction IH as [|[n t] fields Ht _ IHf]; intros [|[n' v] values]; cbn; try done.
  intros [E1 E2]%andb_true_iff. cbn in Ht. rewrite Ht, IHf by done. set_solver.
Qed.

(** ** Copying *)

(** A copier that copies deeply: whatever has the type is copied, by allocations only,
    to a value that means the same and uses new memory. *)
Definition copies (t : type) (c : copier) : Prop :=
  ∀ h v x, view h t v = Some x →
    ∃ v' h', c v h = Some (v', h') ∧ h ⊆ h' ∧ view h' t v' = Some x ∧ reach h' t v' ## dom h.

Lemma alloc_new c h : ∃ l h', alloc c h = (l, h') ∧ h ⊆ h' ∧ h' !! l = Some c ∧ l ∉ dom h.
Proof.
  exists (fresh (dom h)), (<[fresh (dom h) := c]> h). split_and!; [done| |apply lookup_insert_eq|apply is_fresh].
  apply insert_subseteq, not_elem_of_dom, is_fresh.
Qed.

Lemma copies_assign t : flat t = true → copies t assign.
Proof.
  intros Hf h v x E. exists v, h. split_and!; [done..|]. rewrite flat_reach by done. set_solver.
Qed.

(** A new reference to what was copied *)
Lemma reference_new (h h1 h2 : heap) l (s : gset loc) :
  h ⊆ h1 → h1 ⊆ h2 → l ∉ dom h1 → s ## dom h → {[ l ]} ∪ s ## dom h.
Proof. intros H1 H2 Hl Hs. pose proof (subseteq_dom _ _ H1). set_solver. Qed.

Lemma copies_pointer t c : copies t c → copies (TPointer t) (pointer c).
Proof.
  intros Hc h v x E. destruct (view_inv h _ v x E) as [[-> ->]|(l & y & ty & -> & El & Ey & ->)].
  { exists (Pointer None), h. by split_and!. }
  destruct (Hc h y ty Ey) as (y' & h1 & E1 & S1 & V1 & R1).
  destruct (alloc_new (Cell y') h1) as (l' & h2 & E2 & S2 & L2 & N2).
  destruct (view_mono h1 h2 t y' ty S2 V1) as [V2 R2].
  exists (Pointer (Some l')), h2. split_and!.
  - cbn. rewrite El, E1. cbn. by rewrite E2.
  - by etrans.
  - cbn. by rewrite L2, V2.
  - cbn. rewrite L2, R2. by eapply reference_new.
Qed.

(** The elements of an array *)
Lemma copyAll_copies t c l : copies t c → ∀ h tl, mapM (view h t) l = Some tl →
  ∃ l' h', copyAll c l h = Some (l', h') ∧ h ⊆ h' ∧ length l' = length l ∧
    mapM (view h' t) l' = Some tl ∧ ⋃ (reach h' t <$> l') ## dom h.
Proof.
  intros Hc. induction l as [|y l IH]; intros h tl E.
  { exists [], h. injection E as <-. by split_and!. }
  cbn in E. apply bind_Some in E as (ty & Ey & E). apply bind_Some in E as (tl' & El & [= <-]).
  destruct (Hc h y ty Ey) as (y' & h1 & E1 & S1 & V1 & R1).
  assert (El1 : mapM (view h1 t) l = Some tl').
  { clear -El S1. revert tl' El. induction l as [|z l IH]; intros tl E; [done|]. cbn in *.
    apply bind_Some in E as (tz & Ez & E). apply bind_Some in E as (tl' & El & [= <-]).
    rewrite (proj1 (view_mono h h1 t z tz S1 Ez)). cbn. by rewrite (IH _ El). }
  destruct (IH h1 tl' El1) as (l' & h2 & E2 & S2 & L2 & V2 & R2).
  destruct (view_mono h1 h2 t y' ty S2 V1) as [V3 R3].
  exists (y' :: l'), h2. split_and!.
  - cbn. rewrite E1. cbn. by rewrite E2.
  - by etrans.
  - cbn. by rewrite L2.
  - cbn. rewrite V3. cbn. by rewrite V2.
  - cbn. rewrite R3. pose proof (subseteq_dom _ _ S1). set_solver.
Qed.

Lemma copies_slice t c : copies t c → copies (TSlice t) (slice c).
Proof.
  intros Hc h v x E. destruct (view_inv h _ v x E) as [[[n ->] ->]|(l & n & a & tl & -> & El & Hn & Ea & ->)].
  { exists (Slice None n), h. by split_and!. }
  destruct (copyAll_copies t c _ Hc h tl Ea) as (a' & h1 & E1 & S1 & L1 & V1 & R1).
  destruct (alloc_new (Array a') h1) as (l' & h2 & E2 & S2 & L2 & N2).
  assert (Hlen : length a' = n) by (rewrite L1, length_take; lia).
  assert (H2 : mapM (view h2 t) a' = Some tl ∧ (reach h2 t <$> a') = (reach h1 t <$> a')).
  { clear -V1 S2. revert tl V1. induction a' as [|z a IH]; intros tl E; [by split|]. cbn in *.
    apply bind_Some in E as (tz & Ez & E). apply bind_Some in E as (tl' & El & [= <-]).
    destruct (view_mono h1 h2 t z tz S2 Ez) as [-> ->]. destruct (IH _ El) as [-> ->]. by split. }
  destruct H2 as [V2 R2].
  exists (Slice (Some l') n), h2. split_and!.
  - cbn. rewrite El, E1. cbn. by rewrite E2.
  - by etrans.
  - cbn. rewrite L2, decide_True by lia. rewrite take_ge by lia. by rewrite V2.
  - cbn. rewrite L2, take_ge by lia. rewrite R2. by eapply reference_new.
Qed.

Lemma copies_stringMap : copies TMap stringMap.
Proof.
  intros h v x E. destruct (view_inv h _ v x E) as [[-> ->]|(l & m & -> & El & ->)].
  { exists (Map None), h. by split_and!. }
  destruct (alloc_new (Entries m) h) as (l' & h2 & E2 & S2 & L2 & N2).
  exists (Map (Some l')), h2. split_and!; [|done| |].
  - cbn. rewrite El. by rewrite E2.
  - cbn. by rewrite L2.
  - cbn. set_solver.
Qed.

(** What a [DeepCopyInto] must do for each field of a struct: copy it, or share it when
    it has no reference *)
Definition field_copied (l : list (string * copier)) (f : string * type) : Prop :=
  copies (snd f) (default assign (copierOf (fst f) l)).

Lemma copies_struct fields l : Forall (field_copied l) fields → copies (TStruct fields) (struct l).
Proof.
  intros Hf h v x E. destruct (view_inv h _ v x E) as (values & tl & -> & Et & ->).
  assert (H : ∃ values' h', copyFields l values h = Some (values', h') ∧ h ⊆ h' ∧
    viewAll h' fields values' = Some tl ∧ reachAll h' fields values' ## dom h).
  { clear E. revert h values tl Et.
    induction Hf as [|[n t] fields Hc _ IH]; intros h [|[n' v] values] tl Et; try done.
    { exists [], h. injection Et as <-. by split_and!. }
    cbn in Et. case_decide; [|done]. subst n'.
    apply bind_Some in Et as (ty & Ey & Et). apply bind_Some in Et as (tl' & Et & [= <-]).
    destruct (Hc h v ty Ey) as (v' & h1 & E1 & S1 & V1 & R1). cbn [fst snd] in *.
    assert (Et1 : viewAll h1 fields values = Some tl').
    { assert (Es : view h1 (TStruct fields) (Struct values) = Some (Rec tl')).
      { apply (view_mono h h1); [done|]. by rewrite view_Struct, Et. }
      rewrite view_Struct in Es. apply fmap_Some in Es as (? & ? & [= ->]). done. }
    destruct (IH h1 values tl' Et1) as (values' & h2 & E2 & S2 & V2 & R2).
    destruct (view_mono h1 h2 t v' ty S2 V1) as [V3 R3].
    exists ((n, v') :: values'), h2. split_and!.
    - cbn. rewrite E1. cbn. by rewrite E2.
    - by etrans.
    - cbn. rewrite decide_True by done. rewrite V3. cbn. by rewrite V2.
    - cbn. rewrite R3. pose proof (subseteq_dom _ _ S1). set_solver. }
  destruct H as (values' & h' & E1 & S1 & V1 & R1).
  exists (Struct values'), h'. split_and!; try done.
  - cbn. by rewrite E1.
  - by rewrite view_Struct, V1.
Qed.

(** ** The structs of the API, and their copies *)

(** Structs of Kubernetes without references *)
Definition T_LocalObjectReference : type := TStruct [("Name", TScalar)].
Definition T_TypeMeta : type := TStruct [("Kind", TScalar); ("APIVersion", TScalar)].

Section api.
(** The other structs of Kubernetes, with their deep copies *)
Context (extern : string → type) (extern_DeepCopyInto : string → copier).

Definition scalars (names : list string) : list (string * type) := (λ n, (n, TScalar)) <$> names.

Definition T_RemovedOption : type := TStruct (scalars ["Option"]).
Definition RemovedOption_DeepCopyInto : copier := struct [].

Definition T_ChangedDefaultOption : type := TStruct (scalars ["Option"; "Old"; "New"]).
Definition ChangedDefaultOption_DeepCopyInto : copier := struct [].

Definition T_ReplacedOption : type := TStruct (scalars ["Option"; "Replacement"]).
Definition ReplacedOption_DeepCopyInto : copier := struct [].

Definition T_S3StorageProvider : type :=
  TStruct (scalars ["Region"; "Endpoint"; "Bucket"; "ForcePathStyle"]
           ++ [("CredentialsSecret", TPointer T_LocalObjectReference)]).
Definition S3StorageProvider_DeepCopyInto : copier := struct [("CredentialsSecret", pointer assign)].

Definition T_StorageProvider : type := TStruct [("S3", TPointer T_S3StorageProvider)].
Definition StorageProvider_DeepCopyInto : copier := struct [("S3", pointer S3StorageProvider_DeepCopyInto)].

Definition T_MariaBackupMethodProvider : type :=
  TStruct [("CredentialsBackup", TPointer T_LocalObjectReference)].
Definition MariaBackupMethodProvider_DeepCopyInto : copier := struct [("CredentialsBackup", pointer assign)].

Definition T_MethodProvider : type := TStruct [("MariaBackup", TPointer T_MariaBackupMethodProvider)].
Definition MethodProvider_DeepCopyInto : copier :=
  struct [("MariaBackup", pointer MariaBackupMethodProvider_DeepCopyInto)].

Definition T_RestoreSpec : type :=
  TStruct [("Name", TScalar); ("StorageProviderType", TScalar); ("StorageProvider", T_StorageProvider)].
Definition RestoreSpec_DeepCopyInto : copier := struct [("StorageProvider", StorageProvider_DeepCopyInto)].

Definition T_MetricSpec : type :=
  TStruct [("Image", TScalar); ("Port", TPointer TScalar); ("Env", TSlice (extern "EnvVar"));
           ("Resources", extern "ResourceRequirements")].
Definition MetricSpec_DeepCopyInto : copier :=
  struct [("Port", pointer assign); ("Env", slice (extern_DeepCopyInto "EnvVar"));
          ("Resources", extern_DeepCopyInto "ResourceRequirements")].

Definition T_PodTemplate : type :=
  TStruct [("Tolerations", TSlice (extern "Toleration")); ("NodeSelector", TMap);
           ("Affinity", TPointer (extern "Affinity")); ("CredentialsSecret", TPointer T_LocalObjectReference);
           ("Image", TScalar); ("Resources", extern "ResourceRequirements"); ("Env", TSlice (extern "EnvVar"));
           ("MycnfConfigMap", TPointer T_LocalObjectReference); ("Metric", TPointer T_MetricSpec);
           ("PriorityClassName", TScalar); ("SecurityContext", TPointer (extern "PodSecurityContext"))].
Definition PodTemplate_DeepCopyInto : copier :=
  struct [("Tolerations", slice (extern_DeepCopyInto "Toleration")); ("NodeSelector", stringMap);
          ("Affinity", pointer (extern_DeepCopyInto "Affinity")); ("CredentialsSecret", pointer assign);
          ("Resources", extern_DeepCopyInto "ResourceRequirements"); ("Env", slice (extern_DeepCopyInto "EnvVar"));
          ("MycnfConfigMap", pointer assign); ("Metric", pointer MetricSpec_DeepCopyInto);
          ("SecurityContext", pointer (extern_DeepCopyInto "PodSecurityContext"))].

Definition T_SpecialSpec : type :=
  TStruct [("SpecialResources", TPointer (extern "ResourceRequirements"));
           ("GaleraSpecialEnv", TSlice (extern "EnvVar"));
           ("MycnfSpecialConfigMap", TPointer T_LocalObjectReference)].
Definition SpecialSpec_DeepCopyInto : copier :=
  struct [("SpecialResources", pointer (extern_DeepCopyInto "ResourceRequirements"));
          ("GaleraSpecialEnv", slice (extern_DeepCopyInto "EnvVar"));
          ("MycnfSpecialConfigMap", pointer assign)].

Definition T_GaleraSpec : type :=
  TStruct [("Replicas", TPointer TScalar); ("Pod", TPointer T_PodTemplate);
           ("PersistentVolumeClaimSpec", extern "PersistentVolumeClaimSpec");
           ("Special", TPointer T_SpecialSpec); ("Restore", TPointer T_RestoreSpec);
           ("RevisionHistoryLimit", TPointer TScalar)].
Definition GaleraSpec_DeepCopyInto : copier :=
  struct [("Replicas", pointer assign); ("Pod", pointer PodTemplate_DeepCopyInto);
          ("PersistentVolumeClaimSpec", extern_DeepCopyInto "PersistentVolumeClaimSpec");
          ("Special", pointer SpecialSpec_DeepCopyInto); ("Restore", pointer RestoreSpec_DeepCopyInto);
          ("RevisionHistoryLimit", pointer assign)].

Definition T_GaleraCondition : type :=
  TStruct [("Type", TScalar); ("Status", TScalar); ("LastTransitionTime", extern "Time"); ("Reason", TScalar);
           ("Message", TScalar)].
Definition GaleraCondition_DeepCopyInto : copier := struct [("LastTransitionTime", extern_DeepCopyInto "Time")].

Definition T_MembersStatus : type :=
  TStruct ([("Ready", TSlice TScalar); ("Unready", TSlice TScalar)]
           ++ scalars ["Writer"; "BackupWriter"; "Backup"; "Special"]).
Definition MembersStatus_DeepCopyInto : copier := struct [("Ready", slice assign); ("Unready", slice assign)].

Definition T_GaleraStatus : type :=
  TStruct (scalars ["ObservedGeneration"; "Phase"; "ServiceWriter"; "ServiceWriterBackup"; "ServiceReader";
                    "ServiceSpecial"; "HeadlessService"; "ServiceMonitor"; "PodDisruptionBudgetName"; "Replicas"]
           ++ [("Members", T_MembersStatus)]
           ++ scalars ["CurrentRevision"; "CurrentReplicas"; "NextRevision"; "NextReplicas"]
           ++ [("CollisionCount", TPointer TScalar); ("Conditions", TSlice T_GaleraCondition)]).
Definition GaleraStatus_DeepCopyInto : copier :=
  struct [("Members", MembersStatus_DeepCopyInto); ("CollisionCount", pointer assign);
          ("Conditions", slice GaleraCondition_DeepCopyInto)].

Definition T_Galera : type :=
  TStruct [("TypeMeta", T_TypeMeta); ("ObjectMeta", extern "ObjectMeta"); ("Spec", T_GaleraSpec);
           ("Status", T_GaleraStatus)].
Definition Galera_DeepCopyInto : copier :=
  struct [("TypeMeta", assign); ("ObjectMeta", extern_DeepCopyInto "ObjectMeta"); ("Spec", GaleraSpec_DeepCopyInto);
          ("Status", GaleraStatus_DeepCopyInto)].

(** The lists *)
Definition T_list (item : type) : type :=
  TStruct [("TypeMeta", T_TypeMeta); ("ListMeta", extern "ListMeta"); ("Items", TSlice item)].

Definition T_GaleraList : type := T_list T_Galera.
Definition GaleraList_DeepCopyInto : copier :=
  struct [("TypeMeta", assign); ("ListMeta", extern_DeepCopyInto "ListMeta"); ("Items", slice Galera_DeepCopyInto)].

Definition T_BackupCondition : type :=
  TStruct [("Type", TScalar); ("Status", TScalar); ("LastTransitionTime", extern "Time"); ("Reason", TScalar);
           ("Message", TScalar)].
Definition BackupCondition_DeepCopyInto : copier := struct [("LastTransitionTime", extern_DeepCopyInto "Time")].

Definition T_GaleraBackupSpec : type :=
  TStruct [("GaleraName", TScalar); ("GaleraNamespace", TScalar); ("Schedule", TScalar); ("MethodType", TScalar);
           ("MethodProvider", T_MethodProvider); ("StorageProviderType", TScalar);
           ("StorageProvider", T_StorageProvider)].
Definition GaleraBackupSpec_DeepCopyInto : copier :=
  struct [("MethodProvider", MethodProvider_DeepCopyInto); ("StorageProvider", StorageProvider_DeepCopyInto)].

Definition T_GaleraBackupStatus : type :=
  TStruct [("OutcomeLocation", TScalar); ("TimeStarted", extern "Time"); ("TimeCompleted", extern "Time");
           ("Conditions", TSlice T_BackupCondition)].
Definition GaleraBackupStatus_DeepCopyInto : copier :=
  struct [("TimeStarted", extern_DeepCopyInto "Time"); ("TimeCompleted", extern_DeepCopyInto "Time");
          ("Conditions", slice BackupCondition_DeepCopyInto)].

Definition T_GaleraBackup : type :=
  TStruct [("TypeMeta", T_TypeMeta); ("ObjectMeta", extern "ObjectMeta"); ("Spec", T_GaleraBackupSpec);
           ("Status", T_GaleraBackupStatus)].
Definition GaleraBackup_DeepCopyInto : copier :=
  struct [("TypeMeta", assign); ("ObjectMeta", extern_DeepCopyInto "ObjectMeta");
          ("Spec", GaleraBackupSpec_DeepCopyInto); ("Status", GaleraBackupStatus_DeepCopyInto)].

Definition T_GaleraBackupList : type := T_list T_GaleraBackup.
Definition GaleraBackupList_DeepCopyInto : copier :=
  struct [("TypeMeta", assign); ("ListMeta", extern_DeepCopyInto "ListMeta"); ("Items", slice GaleraBackup_DeepCopyInto)].

Definition T_RulesForVersion : type :=
  TStruct [("TargetVersion", TScalar); ("Rules", TSlice T_LocalObjectReference)].
Definition RulesForVersion_DeepCopyInto : copier := struct [("Rules", slice assign)].

Definition T_UpgradeConfig : type :=
  TStruct [("TypeMeta", T_TypeMeta); ("ObjectMeta", extern "ObjectMeta"); ("UpgradeRules", TSlice T_RulesForVersion)].
Definition UpgradeConfig_DeepCopyInto : copier :=
  struct [("TypeMeta", assign); ("ObjectMeta", extern_DeepCopyInto "ObjectMeta");
          ("UpgradeRules", slice RulesForVersion_DeepCopyInto)].

Definition T_UpgradeConfigList : type := T_list T_UpgradeConfig.
Definition UpgradeConfigList_DeepCopyInto : copier :=
  struct [("TypeMeta", assign); ("ListMeta", extern_DeepCopyInto "ListMeta"); ("Items", slice UpgradeConfig_DeepCopyInto)].

Definition T_UpgradeRule : type :=
  TStruct [("TypeMeta", T_TypeMeta); ("ObjectMeta", extern "ObjectMeta");
           ("RemovedOption", TPointer T_RemovedOption); ("ChangedDefaultOption", TPointer T_ChangedDefaultOption);
           ("ReplacedOption", TPointer T_ReplacedOption)].
Definition UpgradeRule_DeepCopyInto : copier :=
  struct [("TypeMeta", assign); ("ObjectMeta", extern_DeepCopyInto "ObjectMeta"); ("RemovedOption", pointer assign);
          ("ChangedDefaultOption", pointer assign); ("ReplacedOption", pointer assign)].

Definition T_UpgradeRuleList : type := T_list T_UpgradeRule.
Definition UpgradeRuleList_DeepCopyInto : copier :=
  struct [("TypeMeta", assign); ("ListMeta", extern_DeepCopyInto "ListMeta"); ("Items", slice UpgradeRule_DeepCopyInto)].

(** ** Each [DeepCopy], and the [DeepCopyObject] of the structs that are objects *)

Definition RemovedOption_DeepCopy : maker := DeepCopy RemovedOption_DeepCopyInto.
Definition ChangedDefaultOption_DeepCopy : maker := DeepCopy ChangedDefaultOption_DeepCopyInto.
Definition ReplacedOption_DeepCopy : maker := DeepCopy ReplacedOption_DeepCopyInto.
Definition S3StorageProvider_DeepCopy : maker := DeepCopy S3StorageProvider_DeepCopyInto.
Definition StorageProvider_DeepCopy : maker := DeepCopy StorageProvider_DeepCopyInto.
Definition MariaBackupMethodProvider_DeepCopy : maker := DeepCopy MariaBackupMethodProvider_DeepCopyInto.
Definition MethodProvider_DeepCopy : maker := DeepCopy MethodProvider_DeepCopyInto.
Definition RestoreSpec_DeepCopy : maker := DeepCopy RestoreSpec_DeepCopyInto.
Definition MetricSpec_DeepCopy : maker := DeepCopy MetricSpec_DeepCopyInto.
Definition PodTemplate_DeepCopy : maker := DeepCopy PodTemplate_DeepCopyInto.
Definition SpecialSpec_DeepCopy : maker := DeepCopy SpecialSpec_DeepCopyInto.
Definition GaleraSpec_DeepCopy : maker := DeepCopy GaleraSpec_DeepCopyInto.
Definition GaleraCondition_DeepCopy : maker := DeepCopy GaleraCondition_DeepCopyInto.
Definition MembersStatus_DeepCopy : maker := DeepCopy MembersStatus_DeepCopyInto.
Definition GaleraStatus_DeepCopy : maker := DeepCopy GaleraStatus_DeepCopyInto.
Definition Galera_DeepCopy : maker := DeepCopy Galera_DeepCopyInto.
Definition GaleraList_DeepCopy : maker := DeepCopy GaleraList_DeepCopyInto.
Definition BackupCondition_DeepCopy : maker := DeepCopy BackupCondition_DeepCopyInto.
Definition GaleraBackupSpec_DeepCopy : maker := DeepCopy GaleraBackupSpec_DeepCopyInto.
Definition GaleraBackupStatus_DeepCopy : maker := DeepCopy GaleraBackupStatus_DeepCopyInto.
Definition GaleraBackup_DeepCopy : maker := DeepCopy GaleraBackup_DeepCopyInto.
Definition GaleraBackupList_DeepCopy : maker := DeepCopy GaleraBackupList_DeepCopyInto.
Definition RulesForVersion_DeepCopy : maker := DeepCopy RulesForVersion_DeepCopyInto.
Definition UpgradeConfig_DeepCopy : maker := DeepCopy UpgradeConfig_DeepCopyInto.
Definition UpgradeConfigList_DeepCopy : maker := DeepCopy UpgradeConfigList_DeepCopyInto.
Definition UpgradeRule_DeepCopy : maker := DeepCopy UpgradeRule_DeepCopyInto.
Definition UpgradeRuleList_DeepCopy : maker := DeepCopy UpgradeRuleList_DeepCopyInto.

Definition Galera_DeepCopyObject : object_maker := DeepCopyObject Galera_DeepCopy.
Definition GaleraList_DeepCopyObject : object_maker := DeepCopyObject GaleraList_DeepCopy.
Definition GaleraBackup_DeepCopyObject : object_maker := DeepCopyObject GaleraBackup_DeepCopy.
Definition GaleraBackupList_DeepCopyObject : object_maker := DeepCopyObject GaleraBackupList_DeepCopy.
Definition UpgradeConfig_DeepCopyObject : object_maker := DeepCopyObject UpgradeConfig_DeepCopy.
Definition UpgradeConfigList_DeepCopyObject : object_maker := DeepCopyObject UpgradeConfigList_DeepCopy.
Definition UpgradeRule_DeepCopyObject : object_maker := DeepCopyObject UpgradeRule_DeepCopy.
Definition UpgradeRuleList_DeepCopyObject : object_maker := DeepCopyObject UpgradeRuleList_DeepCopy.

(** The structs that have a [DeepCopy]: the type, the three functions *)
Record copied := Copied {
  copied_type : type;
  copied_Into : copier;
  copied_DeepCopy : maker;
  copied_Object : option object_maker }.

Definition structs : list (string * copied) :=
  [("RemovedOption", Copied T_RemovedOption RemovedOption_DeepCopyInto
      RemovedOption_DeepCopy None);
   ("ChangedDefaultOption", Copied T_ChangedDefaultOption ChangedDefaultOption_DeepCopyInto
      ChangedDefaultOption_DeepCopy None);
   ("ReplacedOption", Copied T_ReplacedOption ReplacedOption_DeepCopyInto
      ReplacedOption_DeepCopy None);
   ("S3StorageProvider", Copied T_S3StorageProvider S3StorageProvider_DeepCopyInto
      S3StorageProvider_DeepCopy None);
   ("StorageProvider", Copied T_StorageProvider StorageProvider_DeepCopyInto
      StorageProvider_DeepCopy None);
   ("MariaBackupMethodProvider", Copied T_MariaBackupMethodProvider MariaBackupMethodProvider_DeepCopyInto
      MariaBackupMethodProvider_DeepCopy None);
   ("MethodProvider", Copied T_MethodProvider MethodProvider_DeepCopyInto
      MethodProvider_DeepCopy None);
   ("RestoreSpec", Copied T_RestoreSpec RestoreSpec_DeepCopyInto RestoreSpec_DeepCopy None);
   ("MetricSpec", Copied T_MetricSpec MetricSpec_DeepCopyInto MetricSpec_DeepCopy None);
   ("PodTemplate", Copied T_PodTemplate PodTemplate_DeepCopyInto PodTemplate_DeepCopy None);
   ("SpecialSpec", Copied T_SpecialSpec SpecialSpec_DeepCopyInto SpecialSpec_DeepCopy None);
   ("GaleraSpec", Copied T_GaleraSpec GaleraSpec_DeepCopyInto GaleraSpec_DeepCopy None);
   ("GaleraCondition", Copied T_GaleraCondition GaleraCondition_DeepCopyInto
      GaleraCondition_DeepCopy None);
   ("MembersStatus", Copied T_MembersStatus MembersStatus_DeepCopyInto
      MembersStatus_DeepCopy None);
   ("GaleraStatus", Copied T_GaleraStatus GaleraStatus_DeepCopyInto GaleraStatus_DeepCopy None);
   ("Galera", Copied T_Galera Galera_DeepCopyInto Galera_DeepCopy (Some Galera_DeepCopyObject));
   ("GaleraList", Copied T_GaleraList GaleraList_DeepCopyInto
      GaleraList_DeepCopy (Some GaleraList_DeepCopyObject));
   ("BackupCondition", Copied T_BackupCondition BackupCondition_DeepCopyInto
      BackupCondition_DeepCopy None);
   ("GaleraBackupSpec", Copied T_GaleraBackupSpec GaleraBackupSpec_DeepCopyInto
      GaleraBackupSpec_DeepCopy None);
   ("GaleraBackupStatus", Copied T_GaleraBackupStatus GaleraBackupStatus_DeepCopyInto
      GaleraBackupStatus_DeepCopy None);
   ("GaleraBackup", Copied T_GaleraBackup GaleraBackup_DeepCopyInto
      GaleraBackup_DeepCopy (Some GaleraBackup_DeepCopyObject));
   ("GaleraBackupList", Copied T_GaleraBackupList GaleraBackupList_DeepCopyInto
      GaleraBackupList_DeepCopy (Some GaleraBackupList_DeepCopyObject));
   ("RulesForVersion", Copied T_RulesForVersion RulesForVersion_DeepCopyInto
      RulesForVersion_DeepCopy None);
   ("UpgradeConfig", Copied T_UpgradeConfig UpgradeConfig_DeepCopyInto
      UpgradeConfig_DeepCopy (Some UpgradeConfig_DeepCopyObject));
   ("UpgradeConfigList", Copied T_UpgradeConfigList UpgradeConfigList_DeepCopyInto
      UpgradeConfigList_DeepCopy (Some UpgradeConfigList_DeepCopyObject));
   ("UpgradeRule", Copied T_UpgradeRule UpgradeRule_DeepCopyInto
      UpgradeRule_DeepCopy (Some UpgradeRule_DeepCopyObject));
   ("UpgradeRuleList", Copied T_UpgradeRuleList UpgradeRuleList_DeepCopyInto
      UpgradeRuleList_DeepCopy (Some UpgradeRuleList_DeepCopyObject))].

(** ** They copy deeply *)

Context (extern_copies : ∀ name, copies (extern name) (extern_DeepCopyInto name)).

(** A copier is followed down to its assignments. *)
Ltac copy_deeply :=
  lazymatch goal with
  | |- Forall _ _ => first [apply List.Forall_nil | apply List.Forall_cons; [|copy_deeply]]; copy_deeply
  | |- field_copied _ _ => unfold field_copied; cbn; copy_deeply
  | |- copies _ _ =>
      first [ apply extern_copies | apply copies_stringMap | apply copies_assign; reflexivity
            | apply copies_pointer; copy_deeply | apply copies_slice; copy_deeply
            | apply copies_struct; copy_deeply ]
  | |- _ => idtac
  end.

(** What is to be shown of a struct: its [DeepCopyInto] copies deeply, and the other two
    are made of it. *)
Definition well_copied (s : copied) : Prop :=
  copies s.(copied_type) s.(copied_Into) ∧ s.(copied_DeepCopy) = DeepCopy s.(copied_Into) ∧
  match s.(copied_Object) with Some o => o = DeepCopyObject s.(copied_DeepCopy) | None => True end.

Lemma structs_copied : Forall (λ s, well_copied (snd s)) structs.
Proof using extern_copies.
  unfold structs, well_copied.
  repeat apply List.Forall_cons; try apply List.Forall_nil; cbn; (split_and!; [copy_deeply|done..]).
Qed.

(** A pointer to a value of a type, that means [x] *)
Definition points (h : heap) (t : type) (l : loc) (x : tree) : Prop := view h (TPointer t) (Pointer (Some l)) = Some (Ref x).

(** The memory used through it *)
Definition used (h : heap) (t : type) (l : loc) : gset loc := reach h (TPointer t) (Pointer (Some l)).

Lemma DeepCopy_pointer c p h : DeepCopy c p h =
  match pointer c (Pointer p) h with Some (Pointer p', h') => Some (p', h') | _ => None end.
Proof.
  destruct p as [l|]; [|done]. cbn. destruct (h !! l) as [[x| |]|]; try done.
  destruct (c x h) as [[x' h']|]; [|done]. cbn. by destruct (alloc (Cell x') h').
Qed.

(** C23: the copies of the objects of the API are independent of the originals: for each
    of its structs, the copy of an object always succeeds, only allocates, means the
    same as the original and uses none of the memory that existed before; so that,
    whatever is then written to the memory of the copy, the original means what it
    meant, and the other way round.  The copy of nil is nil, as a pointer and as an
    interface. *)
Theorem deepcopy_isolates name s l x h :
  (name, s) ∈ structs → points h s.(copied_type) l x →
  let t := s.(copied_type) in
  ∃ l' h', s.(copied_DeepCopy) (Some l) h = Some (Some l', h') ∧
    h ⊆ h' ∧ points h' t l' x ∧ used h' t l' ## dom h ∧
    (∀ h'', (∀ a, a ∉ used h' t l' → h'' !! a = h' !! a) → points h'' t l x) ∧
    (∀ h'', (∀ a, a ∉ used h t l → h'' !! a = h' !! a) → points h'' t l' x) ∧
    s.(copied_DeepCopy) None h = Some (None, h) ∧
    (∀ o, s.(copied_Object) = Some o →
       o (Some l) h = Some (Object (Some l'), h') ∧ o None h = Some (NilInterface, h)).
Proof using extern_copies.
  intros Hin Hp t. subst t. pose proof structs_copied as Hall. rewrite Forall_forall in Hall.
  destruct (Hall _ Hin) as (Hc & Ed & Eo). cbn in *.
  destruct (copies_pointer _ _ Hc h _ _ Hp) as (v' & h' & E & Hs & Hv & Hr).
  destruct v' as [|[l'|]| | |]; try done.
  assert (Ec : copied_DeepCopy s (Some l) h = Some (Some l', h')) by (by rewrite Ed, DeepCopy_pointer, E).
  pose proof (reach_dom h _ _ _ Hp) as Hd. pose proof (reach_dom h' _ _ _ Hv) as Hd'.
  destruct (view_mono h h' _ _ _ Hs Hp) as [Hp' Hr'].
  exists l', h'. split_and!; try done.
  - intros h'' Hw. apply (view_frame h' h''); [done|]. intros a Ha. apply Hw. rewrite Hr' in Ha.
    intros Hu. exact (Hr a Hu (Hd a Ha)).
  - intros h'' Hw. apply (view_frame h' h''); [done|]. intros a Ha. apply Hw.
    intros Hu. exact (Hr a Ha (Hd a Hu)).
  - by rewrite Ed.
  - intros o Ho. rewrite Ho in Eo. subst o. unfold DeepCopyObject. rewrite Ec, Ed. by split.
Qed.
End api.

(** ** Examples *)

(** The structs of Kubernetes, as pointers to scalars *)
Definition example_extern (name : string) : type := TPointer TScalar.
Definition example_extern_copy (name : string) : copier := pointer assign.

Lemma example_extern_copies name : copies (example_extern name) (example_extern_copy name).
Proof. apply copies_pointer, copies_assign. reflexivity. Qed.

(** A rule with the name of an option *)
Definition example_rule : value :=
  Struct [("TypeMeta", Struct [("Kind", Scalar (Str "UpgradeRule")); ("APIVersion", Scalar (Str ""))]);
          ("ObjectMeta", Pointer None); ("RemovedOption", Pointer (Some 2%positive));
          ("ChangedDefaultOption", Pointer None); ("ReplacedOption", Pointer None)].

Definition example_heap : heap :=
  {[ 1%positive := Cell example_rule; 2%positive := Cell (Struct [("Option", Scalar (Str "innodb_file_format"))]) ]}.

Definition example_tree : tree :=
  Rec [("TypeMeta", Rec [("Kind", Leaf (Str "UpgradeRule")); ("APIVersion", Leaf (Str ""))]);
       ("ObjectMeta", Nil); ("RemovedOption", Ref (Rec [("Option", Leaf (Str "innodb_file_format"))]));
       ("ChangedDefaultOption", Nil); ("ReplacedOption", Nil)].

Lemma deepcopy_isolates_witness : ∃ l' h',
  UpgradeRule_DeepCopy example_extern_copy (Some 1%positive) example_heap = Some (Some l', h') ∧
  UpgradeRule_DeepCopyObject example_extern_copy (Some 1%positive) example_heap = Some (Object (Some l'), h') ∧
  points h' (T_UpgradeRule example_extern) l' example_tree.
Proof.
  destruct (deepcopy_isolates example_extern example_extern_copy example_extern_copies "UpgradeRule"
    (Copied (T_UpgradeRule example_extern) (UpgradeRule_DeepCopyInto example_extern_copy)
       (UpgradeRule_DeepCopy example_extern_copy) (Some (UpgradeRule_DeepCopyObject example_extern_copy)))
    1%positive example_tree example_heap)
    as (l' & h' & E & _ & Hp & _ & _ & _ & _ & Ho).
  - unfold structs. do 25 apply list_elem_of_further. apply list_elem_of_here.
  - vm_compute. reflexivity.
  - exists l', h'. split_and!; [done| |done]. by apply (Ho _ eq_refl).
Defined.
