(* ===== verification/BackupTypes.v ===== *)
(** * The API types of backups

    Models [backup_types.go] and [backup_status_types.go] of
    [pkg/apis/apigalera/v1beta2], [GetBackupCondition] of
    [pkg/backup/backup_utils.go], and the documents the operator and the
    side-car exchange ([S3] and [httpResponse] of
    [pkg/backup/storage-provider/s3/provider.go]). *)
From S2P Require Import Prelude Types.

(** ** Conditions of a backup *)

Definition BackupConditionType := string.
Definition BackupScheduled : BackupConditionType := "Scheduled".
Definition BackupRunning : BackupConditionType := "Running".
Definition BackupComplete : BackupConditionType := "Complete".
Definition BackupFailed : BackupConditionType := "Failed".

Record BackupCondition := mkBackupCondition {
  bc_Type : BackupConditionType;
  bc_Status : string;
  bc_LastTransitionTime : Z;
  bc_Reason : string;
  bc_Message : string }.

#[global] Instance BackupCondition_eq_dec : EqDecision BackupCondition.
Proof. solve_decision. Defined.

(** The zero time is 0. *)
Record GaleraBackupStatus := mkBackupStatus {
  gbs_OutcomeLocation : string;
  gbs_TimeStarted : Z;
  gbs_TimeCompleted : Z;
  gbs_Conditions : list BackupCondition }.

#[global] Instance GaleraBackupStatus_eq_dec : EqDecision GaleraBackupStatus.
Proof. solve_decision. Defined.

Definition emptyBackupStatus : GaleraBackupStatus := mkBackupStatus "" 0 0 [].

Definition with_OutcomeLocation (x : string) (s : GaleraBackupStatus) : GaleraBackupStatus :=
  mkBackupStatus x s.(gbs_TimeStarted) s.(gbs_TimeCompleted) s.(gbs_Conditions).
Definition with_TimeStarted (x : Z) (s : GaleraBackupStatus) : GaleraBackupStatus :=
  mkBackupStatus s.(gbs_OutcomeLocation) x s.(gbs_TimeCompleted) s.(gbs_Conditions).
Definition with_TimeCompleted (x : Z) (s : GaleraBackupStatus) : GaleraBackupStatus :=
  mkBackupStatus s.(gbs_OutcomeLocation) s.(gbs_TimeStarted) x s.(gbs_Conditions).
Definition with_BackupConditions (x : list BackupCondition) (s : GaleraBackupStatus)
    : GaleraBackupStatus :=
  mkBackupStatus s.(gbs_OutcomeLocation) s.(gbs_TimeStarted) s.(gbs_TimeCompleted) x.

(** The methods of [GaleraBackupStatus]; as for a Galera, they return the
    receiver and take the reading of the clock. *)
Module BackupStatus.

Fixpoint findBackupCondition (t : BackupConditionType) (i : Z) (l : list BackupCondition)
    : Z * option BackupCondition :=
  match l with
  | [] => (-1, None)
  | c :: l' => if decide (t = c.(bc_Type)) then (i, Some c) else findBackupCondition t (i + 1) l'
  end.

Definition getGaleraBackupCondition (status : GaleraBackupStatus) (t : BackupConditionType)
    : Z * option BackupCondition :=
  findBackupCondition t 0 status.(gbs_Conditions).

Definition newGaleraBackupCondition (condType : BackupConditionType)
    (status reason message : string) (now : Z) : BackupCondition :=
  mkBackupCondition condType status now reason message.

Definition setGaleraBackupCondition (c : BackupCondition) (gbs : GaleraBackupStatus)
    : GaleraBackupStatus :=
  match getGaleraBackupCondition gbs c.(bc_Type) with
  | (pos, Some cp) =>
      if decide (cp.(bc_Status) = c.(bc_Status) ∧ cp.(bc_Reason) = c.(bc_Reason) ∧
                 cp.(bc_Message) = c.(bc_Message))
      then gbs
      else with_BackupConditions (<[Z.to_nat pos := c]> gbs.(gbs_Conditions)) gbs
  | (_, None) => with_BackupConditions (gbs.(gbs_Conditions) ++ [c]) gbs
  end.

Definition SetScheduledCondition (now : Z) (gbs : GaleraBackupStatus) : GaleraBackupStatus :=
  setGaleraBackupCondition
    (newGaleraBackupCondition BackupScheduled ConditionTrue "backup scheduler" "" now) gbs.

Definition SetRunningCondition (pod namespace : string) (now : Z) (gbs : GaleraBackupStatus)
    : GaleraBackupStatus :=
  setGaleraBackupCondition
    (newGaleraBackupCondition BackupRunning ConditionTrue "backup running"
       ("backup running on pod " +:+ namespace +:+ "/" +:+ pod) now) gbs.

Definition SetCompleteCondition (now : Z) (gbs : GaleraBackupStatus) : GaleraBackupStatus :=
  setGaleraBackupCondition
    (newGaleraBackupCondition BackupComplete ConditionTrue "backup completed" "" now) gbs.

Definition SetFailedCondition (now : Z) (gbs : GaleraBackupStatus) : GaleraBackupStatus :=
  setGaleraBackupCondition
    (newGaleraBackupCondition BackupFailed ConditionTrue "backup failed" "" now) gbs.

Definition ClearCondition (t : BackupConditionType) (gbs : GaleraBackupStatus)
    : GaleraBackupStatus :=
  match getGaleraBackupCondition gbs t with
  | (pos, _) =>
      if decide (pos = -1) then gbs
      else with_BackupConditions (take (Z.to_nat pos) gbs.(gbs_Conditions)
                                  ++ drop (S (Z.to_nat pos)) gbs.(gbs_Conditions)) gbs
  end.

End BackupStatus.

(** [backup.GetBackupCondition], on a status that is not nil *)
Definition GetBackupCondition (status : GaleraBackupStatus) (conditionType : BackupConditionType)
    : Z * option BackupCondition :=
  BackupStatus.findBackupCondition conditionType 0 status.(gbs_Conditions).

(** [cond != nil && cond.Status == corev1.ConditionTrue] *)
Definition backupConditionTrue (status : GaleraBackupStatus) (t : BackupConditionType) : bool :=
  match GetBackupCondition status t with
  | (_, Some cond) => bool_decide (cond.(bc_Status) = ConditionTrue)
  | (_, None) => false
  end.

(** ** Specification of a backup *)

Definition BackupProviderTypeS3 : string := "S3".
Definition BackupMethodTypeMariabackup : string := "mariabackup".

(** [gb_MariaBackup] is the name of the credentials of the method provider:
    [Some None] when the reference to the secret is nil. *)
Record GaleraBackupSpec := mkBackupSpec {
  gb_GaleraName : string;
  gb_GaleraNamespace : string;
  gb_MethodType : string;
  gb_MariaBackup : option (option string);
  gb_StorageProviderType : string;
  gb_S3 : option S3StorageProvider }.

Record GaleraBackup := mkGaleraBackup {
  gb_Name : string;
  gb_Namespace : string;
  gb_Spec : GaleraBackupSpec;
  gb_Status : GaleraBackupStatus }.

Definition with_gb_Status (x : GaleraBackupStatus) (b : GaleraBackup) : GaleraBackup :=
  mkGaleraBackup b.(gb_Name) b.(gb_Namespace) b.(gb_Spec) x.

(** ** Documents exchanged with the side-car *)

(** The struct [S3] of the operator *)
Record S3 := mkS3Request {
  req_AccessKey : string;
  req_SecretKey : string;
  req_BackupDir : string;
  req_BackupName : string;
  req_Endpoint : string;
  req_Bucket : string;
  req_Region : string;
  req_ForcePathStyle : bool }.

(** The document it is marshalled to: [omitempty] drops a region that is empty
    and a flag that is false. *)
Record S3Document := mkS3Document {
  doc_accessKey : string;
  doc_secretKey : string;
  doc_backupDir : string;
  doc_backupName : string;
  doc_endpoint : string;
  doc_bucket : string;
  doc_region : option string;
  doc_forcePathStyle : option bool }.

Definition marshalS3 (s : S3) : S3Document :=
  mkS3Document s.(req_AccessKey) s.(req_SecretKey) s.(req_BackupDir) s.(req_BackupName)
    s.(req_Endpoint) s.(req_Bucket)
    (if decide (s.(req_Region) = "") then None else Some s.(req_Region))
    (if s.(req_ForcePathStyle) then Some true else None).

Record httpResponse := mkHttpResponse { resp_Status : string; resp_Message : string }.

(** What the client of the operator gets: a status code, and the document of the
    body or the error of its decoding. *)
Record httpReply := mkHttpReply {
  reply_StatusCode : Z;
  reply_Body : httpResponse + error }.

(** ** Lemmas on the conditions of a backup *)

Import BackupStatus.

Lemma findBackupCondition_spec t i l :
  match findBackupCondition t i l with
  | (p, Some c) => ∃ l1 l2, l = l1 ++ c :: l2 ∧ p = i + Z.of_nat (length l1) ∧
                            c.(bc_Type) = t ∧ t ∉ (bc_Type <$> l1)
  | (p, None) => p = -1 ∧ t ∉ (bc_Type <$> l)
  end.
Proof.
  revert i. induction l as [|c l IH]; intros i; cbn; [split; set_solver|].
  case_decide as Ht.
  - exists [], l. cbn. split_and!; [done|lia|done|set_solver].
  - specialize (IH (i + 1)). destruct (findBackupCondition t (i + 1) l) as [p [c'|]].
    + destruct IH as (l1 & l2 & -> & -> & ? & ?). exists (c :: l1), l2. cbn.
      split_and!; [done|lia|done|set_solver].
    + destruct IH. split; [done|set_solver].
Qed.

Lemma findBackupCondition_absent t i l :
  t ∉ (bc_Type <$> l) → findBackupCondition t i l = (-1, None).
Proof.
  intros Hn. pose proof (findBackupCondition_spec t i l) as H.
  destruct (findBackupCondition t i l) as [p [c|]].
  - destruct H as (l1 & l2 & -> & _ & <- & _). destruct Hn. rewrite fmap_app, fmap_cons. set_solver.
  - by destruct H as [-> _].
Qed.

Lemma setGaleraBackupCondition_absent c gbs :
  c.(bc_Type) ∉ (bc_Type <$> gbs.(gbs_Conditions)) →
  setGaleraBackupCondition c gbs = with_BackupConditions (gbs.(gbs_Conditions) ++ [c]) gbs.
Proof.
  intros Hn. unfold setGaleraBackupCondition, getGaleraBackupCondition.
  by rewrite findBackupCondition_absent.
Qed.

Lemma ClearCondition_absent t gbs :
  t ∉ (bc_Type <$> gbs.(gbs_Conditions)) → ClearCondition t gbs = gbs.
Proof.
  intros Hn. unfold ClearCondition, getGaleraBackupCondition.
  by rewrite findBackupCondition_absent.
Qed.

Lemma backupConditionTrue_spec s t :
  backupConditionTrue s t = true ↔
  ∃ l1 c l2, s.(gbs_Conditions) = l1 ++ c :: l2 ∧ c.(bc_Type) = t ∧
             c.(bc_Status) = ConditionTrue ∧ t ∉ (bc_Type <$> l1).
Proof.
  unfold backupConditionTrue, GetBackupCondition.
  pose proof (findBackupCondition_spec t 0 s.(gbs_Conditions)) as H.
  destruct (findBackupCondition t 0 _) as [p [c|]].
  - destruct H as (l1 & l2 & E & _ & Ht & Hn). rewrite bool_decide_eq_true. split; [eauto 10|].
    intros (l1' & c' & l2' & E' & Ht' & Hs & Hn'). rewrite E in E'.
    apply app_eq_inv in E' as [(k & -> & E')|(k & -> & E')]; destruct k as [|x k]; cbn in E';
      simplify_eq; try done; exfalso; [apply Hn|apply Hn']; rewrite fmap_app, fmap_cons; set_solver.
  - destruct H as [_ Hn]. split; [done|]. intros (l1 & c & l2 & E & <- & _). destruct Hn.
    rewrite E, fmap_app, fmap_cons. set_solver.
Qed.
