(* ===== verification/Objects.v ===== *)
(** * The Kubernetes objects the operator builds and reads

    The structs of [k8s.io/api] with the fields the code under [src/] reads or
    writes, and the custom resources of [upgrade_config_types.go] and
    [upgrade_rule_types.go].  Two pointers to pods are equal when the pods are:
    the pods of a namespace have distinct names. *)
From S2P Require Import Prelude Types.

(** ** Pods *)

Inductive Probe :=
| ProbeExec (Command : list string) (InitialDelaySeconds : Z)
| ProbeHTTPGet (Path : string) (Port : Z) (InitialDelaySeconds : Z).

Inductive VolumeSource :=
| ConfigMapVolumeSource (name : string)
| EmptyDirVolumeSource
| PersistentVolumeClaimVolumeSource (ClaimName : string).

Record Volume := mkVolume { vol_Name : string; vol_Source : VolumeSource }.
Record VolumeMount := mkMount { vm_Name : string; vm_MountPath : string }.
Record ContainerPort := mkPort { port_Name : string; port_Port : Z }.

Record Container := mkContainer {
  c_Name : string;
  c_Image : string;
  c_Args : list string;
  c_Ports : list ContainerPort;
  c_Env : list EnvVar;
  c_Resources : Opaque;
  c_VolumeMounts : list VolumeMount;
  c_LivenessProbe : option Probe;
  c_ReadinessProbe : option Probe }.

Record PodSpec := mkPodSpec {
  ps_InitContainers : list Container;
  ps_Containers : list Container;
  ps_Volumes : list Volume;
  ps_RestartPolicy : string;
  ps_Hostname : string;
  ps_Subdomain : string;
  ps_AutomountServiceAccountToken : option bool;
  ps_PriorityClassName : string;
  ps_SecurityContext : option Opaque;
  ps_Affinity : option Opaque;
  ps_NodeSelector : gmap string string;
  ps_Tolerations : list Opaque }.

(** [pst_Terminated] says, for each container status, whether its state is
    terminated; [pst_Ready] is the pod condition that
    [podutil.IsPodReady] reads. *)
Record PodStatus := mkPodStatus {
  pst_Phase : string;
  pst_Terminated : list bool;
  pst_PodIP : string;
  pst_Conditions : list (string * string) }.

Record Pod := mkPod {
  pod_Name : string;
  pod_Namespace : string;
  pod_UID : string;
  pod_ResourceVersion : string;
  pod_Labels : labels_t;
  pod_OwnerReferences : list OwnerReference;
  pod_DeletionTimestamp : bool;
  pod_Spec : PodSpec;
  pod_Status : PodStatus }.

#[global] Instance EnvVar_eq_dec : EqDecision EnvVar.
Proof. solve_decision. Defined.
#[global] Instance OwnerReference_eq_dec : EqDecision OwnerReference.
Proof. solve_decision. Defined.
#[global] Instance Probe_eq_dec : EqDecision Probe.
Proof. solve_decision. Defined.
#[global] Instance VolumeSource_eq_dec : EqDecision VolumeSource.
Proof. solve_decision. Defined.
#[global] Instance Volume_eq_dec : EqDecision Volume.
Proof. solve_decision. Defined.
#[global] Instance VolumeMount_eq_dec : EqDecision VolumeMount.
Proof. solve_decision. Defined.
#[global] Instance ContainerPort_eq_dec : EqDecision ContainerPort.
Proof. solve_decision. Defined.
#[global] Instance Container_eq_dec : EqDecision Container.
Proof. solve_decision. Defined.
#[global] Instance PodSpec_eq_dec : EqDecision PodSpec.
Proof. solve_decision. Defined.
#[global] Instance PodStatus_eq_dec : EqDecision PodStatus.
Proof. solve_decision. Defined.
#[global] Instance Pod_eq_dec : EqDecision Pod.
Proof. solve_decision. Defined.

(** [pod.Labels[key]]: a nil map has no key. *)
Definition label (l : labels_t) (key : string) : option string := l ≫= (.!! key).

(** [m[key]] when the key may be absent: the zero value *)
Definition label_or_empty (l : labels_t) (key : string) : string := default "" (label l key).

Definition pod_label (pod : Pod) (key : string) : option string := label pod.(pod_Labels) key.

(** The test [value, exist := pod.Labels[key]; exist && value == v] *)
Definition pod_has (pod : Pod) (key v : string) : bool :=
  bool_decide (pod_label pod key = Some v).

(** ** The other objects *)

Record PersistentVolumeClaim := mkClaim {
  claim_Name : string;
  claim_Namespace : string;
  claim_UID : string;
  claim_ResourceVersion : string;
  claim_Labels : labels_t;
  claim_OwnerReferences : list OwnerReference;
  claim_DeletionTimestamp : bool;
  claim_Spec : PVCSpec }.

Record Service := mkService {
  svc_Name : string;
  svc_Labels : labels_t;
  svc_OwnerReferences : list OwnerReference;
  svc_Ports : list ContainerPort;
  svc_Type : string;
  svc_ClusterIP : string;
  svc_Selector : gmap string string }.

(** A selector of a disruption budget: labels to match and expressions
    [(key, operator, values)]. *)
Record PodDisruptionBudget := mkPDB {
  pdb_Name : string;
  pdb_Labels : labels_t;
  pdb_OwnerReferences : list OwnerReference;
  pdb_MaxUnavailable : Z;
  pdb_MatchLabels : gmap string string;
  pdb_MatchExpressions : list (string * string * list string) }.

Record ControllerRevision := mkRevision {
  cr_Name : string;
  cr_Labels : labels_t;
  cr_Annotations : labels_t;
  cr_OwnerReferences : list OwnerReference;
  cr_Data : string;
  cr_Revision : Z }.

#[global] Instance ControllerRevision_eq_dec : EqDecision ControllerRevision.
Proof. solve_decision. Defined.

Record ConfigMap := mkConfigMap {
  cm_Namespace : string;
  cm_Name : string;
  cm_Data : gmap string string }.

Record StorageClass := mkStorageClass {
  sc_Name : string;
  sc_Annotations : gmap string string }.

Record Secret := mkSecret { secret_Data : gmap string string }.

(** ** The upgrade resources *)

Record RemovedOption := mkRemovedOption { rem_Option : string }.

Record ChangedDefaultOption := mkChangedDefaultOption {
  chg_Option : string;
  chg_Old : string;
  chg_New : string }.

Record UpgradeRule := mkUpgradeRule {
  ur_RemovedOption : option RemovedOption;
  ur_ChangedDefaultOption : option ChangedDefaultOption }.

Record RulesForVersion := mkRulesForVersion {
  rfv_TargetVersion : string;
  rfv_Rules : list string }.

Record UpgradeConfig := mkUpgradeConfig { uc_UpgradeRules : list RulesForVersion }.
