(* ===== verification/PodLib.v ===== *)
(** * Construction of the Kubernetes objects of a cluster

    Models [pkg/galera]: the labels and selectors ([utils.go]), the pods with
    their containers, probes, volumes and mounts ([pod.go]), the claims
    ([claim.go]), the services ([service.go]) and the disruption budget
    ([pod_disruption_budget.go]).  The functions of the source that dereference
    a pointer or index a slice return an [outcome], [Panic] where Go panics. *)
From S2P Require Import Prelude Types Objects Names.

(** ** Labels and selectors *)

Definition PodLabelsForGalera (clusterName clusterNamespace role revision state : string)
    : gmap string string :=
  let l := <[GaleraRevisionLabel := revision]> (<[GaleraStateLabel := state]>
             (<[GaleraClusterNamespace := clusterNamespace]>
               (<[GaleraClusterName := clusterName]> ∅))) in
  if decide (role = RoleWriter) then <[GaleraReaderLabel := "false"]> (<[GaleraRoleLabel := role]> l)
  else if decide (role = RoleBackupWriter) then
    <[GaleraReaderLabel := "true"]> (<[GaleraRoleLabel := role]> l)
  else if decide (role = Backup) then
    <[GaleraReaderLabel := "true"]> (<[GaleraBackupLabel := "true"]> l)
  else if decide (role = Restore) then <[GaleraRoleLabel := role]> l
  else if decide (role = Reader) then <[GaleraReaderLabel := "true"]> l
  else if decide (role = RoleSpecial) then
    <[GaleraReaderLabel := "false"]> (<[GaleraRoleLabel := role]> l)
  else l.

Definition ClaimLabelsForGalera (labels : labels_t) (clusterName clusterNamespace revision : string)
    : gmap string string :=
  <[GaleraRevisionLabel := revision]> (<[GaleraClusterNamespace := clusterNamespace]>
    (<[GaleraClusterName := clusterName]> (default ∅ labels))).

(** [mergeLabels], where the first map may be nil: writing to it is a panic. *)
Definition mergeLabel (k v : string) (l1 : outcome labels_t) : outcome labels_t :=
  l1 ← l1;
  match default ∅ l1 !! k, l1 with
  | Some _, _ => Ok l1
  | None, Some m => Ok (Some (<[k := v]> m))
  | None, None => Panic
  end.

Definition mergeLabels (l1 l2 : labels_t) : outcome labels_t := map_fold mergeLabel (Ok l1) (default ∅ l2).

Definition labelsForGalera (clusterName clusterNamespace : string) : gmap string string :=
  <[GaleraClusterNamespace := clusterNamespace]> (<[GaleraClusterName := clusterName]> ∅).

Definition serviceSelectorForGalera (clusterName clusterNamespace role : string)
    : gmap string string :=
  let l := labelsForGalera clusterName clusterNamespace in
  if decide (role = RoleWriter) then <[GaleraRoleLabel := role]> l
  else if decide (role = RoleBackupWriter) then <[GaleraRoleLabel := role]> l
  else if decide (role = Reader) then <[GaleraReaderLabel := "true"]> l
  else if decide (role = RoleSpecial) then
    <[GaleraReaderLabel := "false"]> (<[GaleraRoleLabel := role]> l)
  else l.

(** [addOwnerRefToObject] on the list of owners of an object *)
Definition addOwnerRefToObject (refs : list OwnerReference) (r : OwnerReference)
    : list OwnerReference := refs ++ [r].

(** ** Volumes and mounts *)

Definition configMapVolume (obj : option string) : outcome Volume :=
  name ← deref obj;
  mret (mkVolume ConfigMapVolumeName (ConfigMapVolumeSource name)).

Definition bootstrapVolume : Volume := mkVolume BootstrapVolumeName EmptyDirVolumeSource.

Definition dataVolume (name : string) : Volume :=
  mkVolume DataVolumeName (PersistentVolumeClaimVolumeSource (BuildClaimNameForGalera name)).

Definition backupVolume (name : string) : Volume :=
  mkVolume BackupVolumeName
    (PersistentVolumeClaimVolumeSource (BuildBackupClaimNameForGalera name)).

Definition restoreVolume : Volume := mkVolume RestoreVolumeName EmptyDirVolumeSource.

Definition configMapVolumeMount : VolumeMount :=
  mkMount ConfigMapVolumeName ConfigMapVolumeMountPath.

Definition bootstrapVolumeMount : VolumeMount :=
  mkMount BootstrapVolumeName BootstrapVolumeMountPath.

Definition galeraVolumeMount (role : string) : VolumeMount :=
  if decide (role = Restore) then mkMount RestoreVolumeName DataVolumeMountPath
  else mkMount DataVolumeName DataVolumeMountPath.

Definition backupVolumeMount : VolumeMount := mkMount BackupVolumeName BackupVolumeMountPath.

Definition restoreVolumeMount : VolumeMount := mkMount DataVolumeName BackupVolumeMountPath.

(** ** Environment, ports and probes *)

(** [mergeEnvs] appends [e2] to [e1], without the variable that bootstraps a
    cluster. *)
Definition mergeEnvs (e1 e2 : list EnvVar) : list EnvVar :=
  fold_left (λ e1 e, if decide (e.(env_Name) = "CLUSTER_INIT") then e1 else e1 ++ [e]) e2 e1.

Definition appendGaleraEnv (envVarGalera : list EnvVar) (addresses : string) (init : bool)
    : list EnvVar :=
  let envVar :=
    if decide (addresses = "" ∧ init = true) then [mkEnvVar "CLUSTER_INIT" "true" None] else [] in
  mergeEnvs envVar envVarGalera.

Definition galeraContainerPorts : list ContainerPort :=
  [mkPort "mysql" MySQLPort; mkPort "sst" StateSnapshotTransfertPort;
   mkPort "ist" IncrementalStateTransferPort; mkPort "replication" GaleraReplicationPort].

Definition metricContainerPorts (port : Z) : list ContainerPort :=
  let port := if decide (port = 0) then GaleraMetrics else port in
  [mkPort "metrics" port].

Definition galeraProbe (user password : string) : option Probe :=
  Some (ProbeExec ["mysqladmin"; "-u" +:+ user; "-p" +:+ password; "ping"] 30).

Definition metricProbe (port : Z) : option Probe := Some (ProbeHTTPGet "/" port 30).

Definition backupProbe : option Probe := Some (ProbeHTTPGet "/probe" BackupAPIPort 5).

Definition podIPEnv : EnvVar := mkEnvVar "POD_IP" "" (Some "status.podIP").

(** ** Containers

    The image pull policy of every container is [PullAlways] and is left out. *)

Definition bootstrapContainer
    (bootstrapImage user password clusterName name addresses state : string) : Container :=
  let cluster := if decide (state = StateStandalone) then "false" else "true" in
  mkContainer BootstrapContainerName bootstrapImage
    ["-cluster-addresses=" +:+ addresses;
     "-input-conf=" +:+ ConfigMapVolumeMountPath +:+ "/my.cnf";
     "-output-conf=" +:+ BootstrapVolumeMountPath +:+ "/my.cnf";
     "-cluster-name=" +:+ clusterName;
     "-node-name=" +:+ name;
     "-user=" +:+ user;
     "-password=" +:+ password;
     "-cluster=" +:+ cluster]
    [] [podIPEnv] "" [configMapVolumeMount; bootstrapVolumeMount] None None.

Definition galeraContainer (image user password role : string) : Container :=
  mkContainer GaleraContainerName image
    ["--defaults-file=" +:+ BootstrapVolumeMountPath +:+ "/my.cnf"; "--user=mysql"]
    galeraContainerPorts [] ""
    ([bootstrapVolumeMount; galeraVolumeMount role]
       ++ (if decide (role = Backup) then [backupVolumeMount] else []))
    (galeraProbe user password) (galeraProbe user password).

Definition metricContainer (image : string) (envVar : list EnvVar) (port : Z) : Container :=
  mkContainer MetricContainerName image [] (metricContainerPorts port) envVar "" []
    (metricProbe port) None.

Definition backupContainer (image role : string) : Container :=
  let mount := if decide (role = Restore) then restoreVolumeMount else backupVolumeMount in
  mkContainer BackupContainerName image
    ["--port=" +:+ pretty BackupAPIPort; "--host=$(POD_IP)"]
    [mkPort "backupapi" BackupAPIPort] [podIPEnv] "" [mount] backupProbe None.

(** [container.Env = ...] and [Containers[i].Resources = ...] *)
Definition with_c_Env (x : list EnvVar) (c : Container) : Container :=
  mkContainer c.(c_Name) c.(c_Image) c.(c_Args) c.(c_Ports) x c.(c_Resources)
    c.(c_VolumeMounts) c.(c_LivenessProbe) c.(c_ReadinessProbe).
Definition with_c_Resources (x : Opaque) (c : Container) : Container :=
  mkContainer c.(c_Name) c.(c_Image) c.(c_Args) c.(c_Ports) c.(c_Env) x
    c.(c_VolumeMounts) c.(c_LivenessProbe) c.(c_ReadinessProbe).

(** ** Pods *)

Definition podSecurityContext (podPolicy : option PodTemplate) : option Opaque :=
  match podPolicy with None => None | Some p => p.(pt_SecurityContext) end.

(** The environment and the configuration volume of the Galera container. *)
Definition galeraEnvAndConfig (galspec : GaleraSpec) (pod : PodTemplate) (role addresses : string)
    (init : bool) : outcome (list EnvVar * Volume) :=
  if decide (role = RoleSpecial) then
    special ← deref galspec.(spec_Special);
    vol ← match special.(sp_MycnfSpecialConfigMap) with
          | None => configMapVolume pod.(pt_MycnfConfigMap)
          | Some cm => configMapVolume (Some cm)
          end;
    mret (appendGaleraEnv special.(sp_GaleraSpecialEnv) addresses init, vol)
  else
    vol ← configMapVolume pod.(pt_MycnfConfigMap);
    mret (appendGaleraEnv pod.(pt_Env) addresses init, vol).

(** The metric side-car, when the template asks for one. *)
Definition metricContainers (pod : PodTemplate) : outcome (list Container) :=
  match pod.(pt_Metric) with
  | None => mret []
  | Some m =>
      if decide (m.(metric_Image) = "") then mret []
      else port ← deref m.(metric_Port);
           mret [metricContainer m.(metric_Image) m.(metric_Env) port]
  end.

Definition newGaleraPod (galspec : GaleraSpec)
    (name clusterName clusterNamespace role addresses bootstrapImage backupImage revision state : string)
    (init : bool) (credsMap : gmap string string) : outcome Pod :=
  let user := default "" (credsMap !! "user") in
  let password := default "" (credsMap !! "password") in
  let bootstrap := bootstrapContainer bootstrapImage user password clusterName name addresses state in
  pod ← deref galspec.(spec_Pod);
  '(env, cfgMapVolume) ← galeraEnvAndConfig galspec pod role addresses init;
  metric ← metricContainers pod;
  let container := with_c_Env env (galeraContainer pod.(pt_Image) user password role) in
  let containers :=
    [container] ++ metric
      ++ (if decide (role = Backup ∨ role = Restore) then [backupContainer backupImage role] else []) in
  let volumes :=
    [cfgMapVolume; bootstrapVolume; dataVolume name]
      ++ (if decide (role = Backup) then [backupVolume name] else [])
      ++ (if decide (role = Restore) then [restoreVolume] else []) in
  mret (mkPod name "" "" "" (Some (PodLabelsForGalera clusterName clusterNamespace role revision state))
    [] false
    (mkPodSpec [bootstrap] containers volumes "Never" name clusterName (Some false)
       pod.(pt_PriorityClassName) (podSecurityContext (Some pod)) None ∅ [])
    (mkPodStatus "" [] "" [])).

(** [Containers[i].Resources = r] *)
Definition setResources (i : nat) (r : Opaque) (l : list Container) : outcome (list Container) :=
  match l !! i with
  | None => Panic
  | Some c => mret (<[i := with_c_Resources r c]> l)
  end.

Definition with_ps_template (affinity : option Opaque) (nodeSelector : gmap string string)
    (tolerations : list Opaque) (containers : list Container) (s : PodSpec) : PodSpec :=
  mkPodSpec s.(ps_InitContainers) containers s.(ps_Volumes) s.(ps_RestartPolicy)
    s.(ps_Hostname) s.(ps_Subdomain) s.(ps_AutomountServiceAccountToken)
    s.(ps_PriorityClassName) s.(ps_SecurityContext) affinity nodeSelector tolerations.

Definition with_pod_Spec (s : PodSpec) (p : Pod) : Pod :=
  mkPod p.(pod_Name) p.(pod_Namespace) p.(pod_UID) p.(pod_ResourceVersion) p.(pod_Labels) p.(pod_OwnerReferences)
    p.(pod_DeletionTimestamp) s p.(pod_Status).

Definition applyPodTemplate (pod : Pod) (spec : GaleraSpec) (role : string) : outcome Pod :=
  podTemplate ← deref spec.(spec_Pod);
  let s := pod.(pod_Spec) in
  let affinity :=
    match podTemplate.(pt_Affinity) with Some a => Some a | None => s.(ps_Affinity) end in
  let nodeSelector :=
    if decide (podTemplate.(pt_NodeSelector) = ∅) then s.(ps_NodeSelector)
    else podTemplate.(pt_NodeSelector) in
  let tolerations :=
    match podTemplate.(pt_Tolerations) with [] => s.(ps_Tolerations) | l => l end in
  resources ←
    (if decide (role = RoleSpecial) then
       special ← deref spec.(spec_Special);
       mret (default podTemplate.(pt_Resources) special.(sp_SpecialResources))
     else mret podTemplate.(pt_Resources));
  containers ← setResources 0 resources s.(ps_Containers);
  containers ←
    match podTemplate.(pt_Metric) with
    | None => mret containers
    | Some m => setResources 1 m.(metric_Resources) containers
    end;
  mret (with_pod_Spec (with_ps_template affinity nodeSelector tolerations containers s) pod).

Definition NewGaleraPod (spec : GaleraSpec)
    (name clusterName clusterNamespace role addresses bootstrapImage backupImage revision state : string)
    (init : bool) (credsMap : gmap string string) (owner : OwnerReference) : outcome Pod :=
  pod ← newGaleraPod spec name clusterName clusterNamespace role addresses bootstrapImage
          backupImage revision state init credsMap;
  pod ← applyPodTemplate pod spec role;
  mret (mkPod pod.(pod_Name) pod.(pod_Namespace) pod.(pod_UID) pod.(pod_ResourceVersion)
            pod.(pod_Labels)
          (addOwnerRefToObject pod.(pod_OwnerReferences) owner)
          pod.(pod_DeletionTimestamp) pod.(pod_Spec) pod.(pod_Status)).

(** ** Claims *)

Definition CreateGaleraClaim (galspec : GaleraSpec) (labels : labels_t)
    (claimName clusterName clusterNamespace revision : string) (owner : OwnerReference)
    : PersistentVolumeClaim :=
  mkClaim claimName clusterNamespace "" ""
    (Some (ClaimLabelsForGalera labels clusterName clusterNamespace revision))
    (addOwnerRefToObject [] owner) false galspec.(spec_PersistentVolumeClaimSpec).

(** A pointer of the claim that differs from the one of the specification: the
    claim is accepted when the specification has none and the claim has the
    default value. *)
Definition checkDefault (spec claim : option string) (dflt : string) : outcome bool :=
  if decide (spec = claim) then mret true
  else match spec with
       | Some _ => mret false
       | None => v ← deref claim; mret (bool_decide (v = dflt))
       end.

Definition CheckClaim (galera : Galera) (claim : PersistentVolumeClaim) (defaultSCname : string)
    : outcome bool :=
  let spec := galera.(g_Spec).(spec_PersistentVolumeClaimSpec) in
  let c := claim.(claim_Spec) in
  if decide (spec.(pvc_AccessModes) ≠ c.(pvc_AccessModes)) then mret false
  else if decide (spec.(pvc_Selector) ≠ c.(pvc_Selector)) then mret false
  else if decide (spec.(pvc_Resources) ≠ c.(pvc_Resources)) then mret false
  else
    sc ← checkDefault spec.(pvc_StorageClassName) c.(pvc_StorageClassName) defaultSCname;
    if negb sc then mret false
    else checkDefault spec.(pvc_VolumeMode) c.(pvc_VolumeMode) "Filesystem".

(** ** Services *)

Definition galeraMySQLPorts : list ContainerPort := [mkPort "mysql" MySQLPort].

Definition galeraMonitorPorts (port : Z) : list ContainerPort := [mkPort "metrics" port].

Definition galeraServicePorts : list ContainerPort :=
  [mkPort "mysql" MySQLPort; mkPort "sst" StateSnapshotTransfertPort;
   mkPort "ist" IncrementalStateTransferPort; mkPort "replication" GaleraReplicationPort].

Definition newGaleraService (galLabels : labels_t)
    (clusterName clusterNamespace svcName role : string) : Service :=
  mkService svcName galLabels [] galeraMySQLPorts "ClusterIP" ""
    (serviceSelectorForGalera clusterName clusterNamespace role).

Definition newGaleraServiceMonitor (galLabels : labels_t)
    (clusterName clusterNamespace svcName : string) (port : Z) : Service :=
  mkService svcName galLabels [] (galeraMonitorPorts port) "ClusterIP" ""
    (serviceSelectorForGalera clusterName clusterNamespace "").

Definition newGaleraHeadlessService (galLabels : labels_t)
    (clusterName clusterNamespace svcName : string) : Service :=
  mkService svcName galLabels [] galeraServicePorts "ClusterIP" "None"
    (serviceSelectorForGalera clusterName clusterNamespace "").

Definition svc_owned (owner : OwnerReference) (s : Service) : Service :=
  mkService s.(svc_Name) s.(svc_Labels) (addOwnerRefToObject s.(svc_OwnerReferences) owner)
    s.(svc_Ports) s.(svc_Type) s.(svc_ClusterIP) s.(svc_Selector).

Definition NewGaleraService (galLabels : labels_t)
    (clusterName clusterNamespace svcName role : string) (owner : OwnerReference) : Service :=
  svc_owned owner (newGaleraService galLabels clusterName clusterNamespace svcName role).

Definition NewGaleraServiceMonitor (galLabels : labels_t)
    (clusterName clusterNamespace svcName : string) (port : Z) (owner : OwnerReference) : Service :=
  svc_owned owner (newGaleraServiceMonitor galLabels clusterName clusterNamespace svcName port).

Definition NewGaleraHeadlessService (galLabels : labels_t)
    (clusterName clusterNamespace svcName : string) (owner : OwnerReference) : Service :=
  svc_owned owner (newGaleraHeadlessService galLabels clusterName clusterNamespace svcName).

(** ** Disruption budget *)

Definition newGaleraPodDisruptionBudget (galLabels : labels_t)
    (clusterName clusterNamespace pdbName : string) (maxUnavailable : Z) : PodDisruptionBudget :=
  let labelsToMatch :=
    <[GaleraStateLabel := StateCluster]> (labelsForGalera clusterName clusterNamespace) in
  mkPDB pdbName galLabels [] maxUnavailable labelsToMatch
    [(GaleraRoleLabel, "NotIn", [RoleSpecial])].

Definition NewGaleraPodDisruptionBudget (galspec : GaleraSpec) (labels : labels_t)
    (clusterName clusterNamespace pdbName : string) (maxUnavailable : Z) (owner : OwnerReference)
    : PodDisruptionBudget :=
  let pdb := newGaleraPodDisruptionBudget labels clusterName clusterNamespace pdbName maxUnavailable in
  mkPDB pdb.(pdb_Name) pdb.(pdb_Labels) (addOwnerRefToObject pdb.(pdb_OwnerReferences) owner)
    pdb.(pdb_MaxUnavailable) pdb.(pdb_MatchLabels) pdb.(pdb_MatchExpressions).

(** ** What selectors select

    A selector of labels selects the objects that carry all its labels (the
    documented meaning of [matchLabels]); an expression [NotIn] selects those
    whose label is absent or has none of the values. *)
Definition selects (selector labels : gmap string string) : Prop := selector ⊆ labels.

Definition expression_selects (e : string * string * list string) (labels : gmap string string)
    : Prop :=
  match e with
  | (key, op, values) =>
      op = "NotIn" ∧ match labels !! key with None => True | Some v => v ∉ values end
  end.

(** The roles a pod is created with, and the role a service or its absence
    stands for. *)
Definition pod_roles : list string :=
  [RoleWriter; RoleBackupWriter; Backup; Restore; Reader; RoleSpecial].

Definition service_roles : list string :=
  [RoleWriter; RoleBackupWriter; Reader; RoleSpecial; ""].

(** Which pods a service is for: the read service is served by the backup
    writer, the backup node and the readers; a service without role (monitoring,
    headless) by every pod. *)
Definition serves (svc role : string) : bool :=
  if decide (svc = "") then true
  else if decide (svc = Reader) then
    bool_decide (role = RoleBackupWriter ∨ role = Backup ∨ role = Reader)
  else bool_decide (svc = role).

Lemma insert_subseteq (k v : string) (m l : gmap string string) :
  m !! k = None → <[k := v]> m ⊆ l ↔ l !! k = Some v ∧ m ⊆ l.
Proof.
  intros Hk. split.
  - intros H. split; [eapply lookup_weaken; [apply lookup_insert_eq|done]|].
    etrans; [|exact H]. by apply insert_subseteq.
  - intros [Hl H]. by apply insert_subseteq_l.
Qed.

Lemma labelsForGalera_selects n ns labels :
  selects (labelsForGalera n ns) labels ↔
  labels !! GaleraClusterName = Some n ∧ labels !! GaleraClusterNamespace = Some ns.
Proof.
  unfold selects, labelsForGalera. rewrite insert_subseteq by reflexivity.
  rewrite insert_subseteq by reflexivity. pose proof (map_empty_subseteq labels). tauto.
Qed.

(** The labels that name the cluster of a pod, whatever its role. *)
Lemma PodLabels_cluster n ns role rev st :
  PodLabelsForGalera n ns role rev st !! GaleraClusterName = Some n ∧
  PodLabelsForGalera n ns role rev st !! GaleraClusterNamespace = Some ns ∧
  PodLabelsForGalera n ns role rev st !! GaleraStateLabel = Some st ∧
  PodLabelsForGalera n ns role rev st !! GaleraRevisionLabel = Some rev.
Proof. unfold PodLabelsForGalera. repeat case_decide; split_and!; reflexivity. Qed.

Lemma serviceSelector_selects n ns svc labels :
  svc ∈ service_roles →
  selects (serviceSelectorForGalera n ns svc) labels ↔
  labels !! GaleraClusterName = Some n ∧ labels !! GaleraClusterNamespace = Some ns ∧
  (if decide (svc = "") then True
   else if decide (svc = Reader) then labels !! GaleraReaderLabel = Some "true"
   else labels !! GaleraRoleLabel = Some svc ∧
        (svc = RoleSpecial → labels !! GaleraReaderLabel = Some "false")).
Proof.
  intros Hsvc. pose proof (labelsForGalera_selects n ns labels) as Hb. unfold selects in *.
  repeat (apply elem_of_cons in Hsvc as [->|Hsvc]); [..|by apply elem_of_nil in Hsvc];
    unfold serviceSelectorForGalera;
    repeat (case_decide; [try discriminate|try congruence]);
    repeat (rewrite insert_subseteq by reflexivity); rewrite Hb;
    (split; intros; destruct_and?; split_and!; auto; done).
Qed.

(** The role label is set for the roles that are not plain readers. *)
Lemma PodLabels_role n ns role rev st :
  role ∈ pod_roles →
  PodLabelsForGalera n ns role rev st !! GaleraRoleLabel =
    if decide (role ∈ [RoleWriter; RoleBackupWriter; Restore; RoleSpecial]) then Some role
    else None.
Proof.
  intros Hrole.
  repeat (apply elem_of_cons in Hrole as [->|Hrole]); [reflexivity..|by apply elem_of_nil in Hrole].
Qed.

(** ** Lemmas on the builders *)

Lemma mergeEnvs_spec e1 e2 :
  mergeEnvs e1 e2 = e1 ++ filter (λ e, e.(env_Name) ≠ "CLUSTER_INIT") e2.
Proof.
  unfold mergeEnvs. revert e1. induction e2 as [|e e2 IH]; intros e1; cbn [fold_left].
  - by rewrite filter_nil, app_nil_r.
  - rewrite filter_cons. destruct (decide (e.(env_Name) = "CLUSTER_INIT"));
      [rewrite decide_False by tauto|rewrite decide_True by done]; rewrite IH; [done|].
    by rewrite <- app_assoc.
Qed.

(** The bootstrap variable is set on request only: what the template says
    about it is dropped. *)
Lemma appendGaleraEnv_init env addresses init v :
  mkEnvVar "CLUSTER_INIT" v None ∈ appendGaleraEnv env addresses init ↔
  v = "true" ∧ addresses = "" ∧ init = true.
Proof.
  unfold appendGaleraEnv. rewrite mergeEnvs_spec, elem_of_app, list_elem_of_filter.
  case_decide; set_unfold; naive_solver.
Qed.

(** The pods of a cluster: the conditions under which the builder does not
    panic on a template. *)
Definition template_ok (spec : GaleraSpec) (role : string) : Prop :=
  match spec.(spec_Pod) with
  | None => False
  | Some pod =>
      (role = RoleSpecial → spec.(spec_Special) ≠ None) ∧
      (pod.(pt_MycnfConfigMap) ≠ None ∨
       role = RoleSpecial ∧ (spec.(spec_Special) ≫= sp_MycnfSpecialConfigMap) ≠ None) ∧
      match pod.(pt_Metric) with
      | None => True
      | Some m => if decide (m.(metric_Image) = "") then role = Backup ∨ role = Restore
                  else m.(metric_Port) ≠ None
      end
  end.

#[global] Instance template_ok_dec spec role : Decision (template_ok spec role).
Proof.
  unfold template_ok. destruct (spec_Pod spec) as [pod|]; [|apply _].
  destruct (pt_Metric pod) as [m|]; [destruct (decide (metric_Image m = ""))|]; apply _.
Defined.

(** What every pod the builder returns looks like. *)
Definition pod_shape (spec : GaleraSpec) (name clusterName ns role addresses rev state : string)
    (init : bool) (creds : gmap string string) (owner : OwnerReference) (p : Pod) : Prop :=
  p.(pod_Name) = name ∧
  p.(pod_Labels) = Some (PodLabelsForGalera clusterName ns role rev state) ∧
  p.(pod_OwnerReferences) = [owner] ∧
  c_Name <$> p.(pod_Spec).(ps_InitContainers) = [BootstrapContainerName] ∧
  head (c_Name <$> p.(pod_Spec).(ps_Containers)) = Some GaleraContainerName ∧
  (∀ c, head p.(pod_Spec).(ps_Containers) = Some c →
        ∀ v, mkEnvVar "CLUSTER_INIT" v None ∈ c.(c_Env) ↔
             v = "true" ∧ addresses = "" ∧ init = true).

(** Every mount of every container names a volume of the pod. *)
Definition mounts_declared (p : Pod) : Prop :=
  ∀ c m, c ∈ p.(pod_Spec).(ps_InitContainers) ++ p.(pod_Spec).(ps_Containers) →
         m ∈ c.(c_VolumeMounts) →
         m.(vm_Name) ∈ (vol_Name <$> p.(pod_Spec).(ps_Volumes)).

Lemma mounts_declared_alt p :
  mounts_declared p ↔
  Forall (Forall (λ m, m.(vm_Name) ∈ (vol_Name <$> p.(pod_Spec).(ps_Volumes))))
    ((c_VolumeMounts <$> p.(pod_Spec).(ps_InitContainers))
       ++ (c_VolumeMounts <$> p.(pod_Spec).(ps_Containers))).
Proof.
  rewrite <- fmap_app, Forall_fmap. unfold mounts_declared, compose.
  rewrite Forall_forall. setoid_rewrite Forall_forall. naive_solver.
Qed.

Section NewGaleraPod_lemmas.
Context (spec : GaleraSpec) (name clusterName ns role addresses : string).
Context (bootstrapImage backupImage rev state : string) (init : bool).
Context (creds : gmap string string) (owner : OwnerReference).

(** The configuration volume and the environment exist when the template
    names a configuration. *)
Lemma galeraEnvAndConfig_ok pod :
  (role = RoleSpecial → spec.(spec_Special) ≠ None) →
  (pod.(pt_MycnfConfigMap) ≠ None ∨
     role = RoleSpecial ∧ (spec.(spec_Special) ≫= sp_MycnfSpecialConfigMap) ≠ None) →
  ∃ env v, galeraEnvAndConfig spec pod role addresses init =
             Ok (appendGaleraEnv env addresses init,
                 mkVolume ConfigMapVolumeName (ConfigMapVolumeSource v)).
Proof.
  intros Hs Hc. unfold galeraEnvAndConfig, configMapVolume. case_decide as Hr.
  - destruct (spec_Special spec) as [sp|]; [|by destruct Hs]. cbn in *.
    destruct (sp_MycnfSpecialConfigMap sp) as [cm|]; cbn; eauto.
    destruct (pt_MycnfConfigMap pod); cbn; eauto. naive_solver.
  - destruct (pt_MycnfConfigMap pod); cbn; eauto. naive_solver.
Qed.

Lemma galeraEnvAndConfig_panic pod :
  ¬ ((role = RoleSpecial → spec.(spec_Special) ≠ None) ∧
     (pod.(pt_MycnfConfigMap) ≠ None ∨
      role = RoleSpecial ∧ (spec.(spec_Special) ≫= sp_MycnfSpecialConfigMap) ≠ None)) →
  galeraEnvAndConfig spec pod role addresses init = Panic.
Proof.
  intros H. unfold galeraEnvAndConfig, configMapVolume. case_decide as Hr.
  - destruct (spec_Special spec) as [sp|]; [|done]. cbn in *.
    destruct (sp_MycnfSpecialConfigMap sp) as [cm|]; cbn; [naive_solver|].
    destruct (pt_MycnfConfigMap pod); cbn; naive_solver.
  - destruct (pt_MycnfConfigMap pod); cbn; naive_solver.
Qed.

Lemma NewGaleraPod_panic :
  ¬ template_ok spec role →
  NewGaleraPod spec name clusterName ns role addresses bootstrapImage backupImage rev state
    init creds owner = Panic.
Proof.
  unfold NewGaleraPod, newGaleraPod, template_ok, metricContainers.
  destruct (spec_Pod spec) as [pod|] eqn:Hp; [|done]. cbn. intros H.
  destruct (decide ((role = RoleSpecial → spec.(spec_Special) ≠ None) ∧
     (pod.(pt_MycnfConfigMap) ≠ None ∨
      role = RoleSpecial ∧ (spec.(spec_Special) ≫= sp_MycnfSpecialConfigMap) ≠ None)))
    as [[H1 H2]|H']; [|by rewrite galeraEnvAndConfig_panic].
  destruct (galeraEnvAndConfig_ok pod H1 H2) as (env & v & ->). cbn.
  destruct (pt_Metric pod) as [m|] eqn:Hm; [|tauto].
  destruct (decide (metric_Image m = "")) as [Hi|Hi]; cbn.
  - rewrite decide_False by tauto. cbn. unfold applyPodTemplate. rewrite Hp. cbn.
    rewrite Hm. destruct (decide (role = RoleSpecial)); cbn; [|done].
    by destruct (spec_Special spec).
  - destruct (metric_Port m); [naive_solver|done].
Qed.

(** The containers the builder assembles, before and after the resources
    of the template are set. *)
Lemma setResources_lookup i r l :
  (i < length l)%nat →
  ∃ l', setResources i r l = Ok l' ∧ length l' = length l ∧
        c_Name <$> l' = c_Name <$> l ∧ c_Env <$> l' = c_Env <$> l ∧
        c_VolumeMounts <$> l' = c_VolumeMounts <$> l.
Proof.
  intros [c Hc]%lookup_lt_is_Some_2. unfold setResources. rewrite Hc.
  eexists. split; [reflexivity|]. rewrite length_insert, !list_fmap_insert. cbn.
  split_and!; [done|..]; apply list_insert_id; by rewrite list_lookup_fmap, Hc.
Qed.

Lemma applyPodTemplate_ok p tmpl :
  spec.(spec_Pod) = Some tmpl →
  (role = RoleSpecial → spec.(spec_Special) ≠ None) →
  (1 ≤ length p.(pod_Spec).(ps_Containers))%nat →
  (tmpl.(pt_Metric) ≠ None → 2 ≤ length p.(pod_Spec).(ps_Containers))%nat →
  ∃ p', applyPodTemplate p spec role = Ok p' ∧
    pod_Name p' = pod_Name p ∧ pod_Labels p' = pod_Labels p ∧
    pod_OwnerReferences p' = pod_OwnerReferences p ∧
    ps_InitContainers (pod_Spec p') = ps_InitContainers (pod_Spec p) ∧
    ps_Volumes (pod_Spec p') = ps_Volumes (pod_Spec p) ∧
    c_Name <$> ps_Containers (pod_Spec p') = c_Name <$> ps_Containers (pod_Spec p) ∧
    c_Env <$> ps_Containers (pod_Spec p') = c_Env <$> ps_Containers (pod_Spec p) ∧
    c_VolumeMounts <$> ps_Containers (pod_Spec p')
      = c_VolumeMounts <$> ps_Containers (pod_Spec p).
Proof.
  intros Hp Hs H1 H2. unfold applyPodTemplate. rewrite Hp. cbn.
  assert (∃ r, (if decide (role = RoleSpecial)
                then special ← deref (spec_Special spec);
                     mret (default (pt_Resources tmpl) (sp_SpecialResources special))
                else mret (pt_Resources tmpl)) = Ok r) as [r ->].
  { case_decide; [|by eauto]. destruct (spec_Special spec); [by eauto|naive_solver]. }
  cbn. destruct (setResources_lookup 0 r _ H1) as (l1 & -> & Hl & Hn & He & Hv). cbn.
  destruct (pt_Metric tmpl) as [m|]; cbn; [|by eexists; split; [reflexivity|]].
  destruct (setResources_lookup 1 (metric_Resources m) l1) as (l2 & -> & Hl2 & Hn2 & He2 & Hv2).
  { rewrite Hl. apply H2. done. }
  cbn. eexists; split; [reflexivity|]. cbn. rewrite Hn2, He2, Hv2. done.
Qed.
End NewGaleraPod_lemmas.

(** Membership in a list that is given explicitly. *)
Ltac elem_of_list :=
  cbn; repeat first [apply list_elem_of_here | apply list_elem_of_further].

Lemma NewGaleraPod_ok (spec : GaleraSpec)
    (name clusterName ns role addresses bootstrapImage backupImage rev state : string)
    (init : bool) (creds : gmap string string) (owner : OwnerReference) :
  template_ok spec role →
  ∃ p, NewGaleraPod spec name clusterName ns role addresses bootstrapImage backupImage rev state
         init creds owner = Ok p ∧
       pod_shape spec name clusterName ns role addresses rev state init creds owner p ∧
       mounts_declared p ∧
       NoDup (vol_Name <$> p.(pod_Spec).(ps_Volumes)).
Proof.
  unfold template_ok. destruct (spec_Pod spec) as [pod|] eqn:Hp; [|done].
  intros (Hs & Hc & Hm).
  destruct (galeraEnvAndConfig_ok spec role addresses init pod Hs Hc) as (env & v & He).
  unfold NewGaleraPod, newGaleraPod. rewrite Hp. cbn. rewrite He. cbn.
  assert (∃ ms, metricContainers pod = Ok ms ∧
                (∀ c, c ∈ ms → c.(c_VolumeMounts) = []) ∧
                (pod.(pt_Metric) ≠ None → ms = [] → role = Backup ∨ role = Restore))
    as (ms & -> & Hms & Hms').
  { unfold metricContainers. destruct (pt_Metric pod) as [m|]; [|by exists []; set_solver].
    case_decide; [by exists []; set_solver|]. destruct (metric_Port m); [|done].
    eexists; split; [reflexivity|]. set_solver. }
  cbn. match goal with |- context [applyPodTemplate ?p0 _ _] => set (p := p0) end.
  destruct (applyPodTemplate_ok spec role p pod Hp Hs)
    as (p' & -> & Hn & Hl & Ho & Hi & Hv & Hcn & Hce & Hcm).
  { cbn. lia. }
  { cbn. intros Hm0. destruct ms; cbn; [|lia]. rewrite decide_True by auto. cbn. lia. }
  cbn. eexists; split; [reflexivity|]. split_and!.
  - unfold pod_shape. cbn. rewrite Hn, Hl, Ho, Hi, Hcn. cbn. split_and!; try done.
    intros c Hhd w. rewrite <- (appendGaleraEnv_init env).
    destruct (ps_Containers (pod_Spec p')); [done|]. cbn in Hhd. simplify_eq.
    cbn in Hce. by rewrite Hce.
  - apply mounts_declared_alt. cbn. rewrite Hi, Hv, Hcm. cbn.
    rewrite fmap_app. apply Forall_cons; split; [|apply Forall_cons; split].
    + repeat (apply Forall_cons; split); try apply Forall_nil_2; elem_of_list.
    + destruct (decide (role = Backup)) as [->|Hb];
        [|destruct (decide (role = Restore)) as [->|Hr]];
        unfold galeraContainer, galeraVolumeMount, c_VolumeMounts;
        cbn;
        rewrite ?decide_False, ?decide_True by done;
        repeat (apply Forall_cons; split); try apply Forall_nil_2; elem_of_list.
    + rewrite (fmap_app c_VolumeMounts). apply Forall_app; split.
      { apply Forall_fmap, Forall_forall. intros c Hin. unfold compose. by rewrite Hms. }
      destruct (decide (role = Backup ∨ role = Restore)) as [Hbr|_]; [|apply Forall_nil_2].
      destruct Hbr as [->| ->]; cbn; repeat (apply Forall_cons; split); try apply Forall_nil_2;
        elem_of_list.
  - cbn. rewrite Hv. cbn. do 2 case_decide; subst; try discriminate;
      apply (bool_decide_unpack _); vm_compute; exact I.
Qed.

Lemma checkDefault_ok x y d : checkDefault x y d = Ok (bool_decide (x = y ∨ x = None ∧ y = Some d)).
Proof.
  unfold checkDefault. case_decide as Hxy.
  - by rewrite bool_decide_eq_true_2 by auto.
  - destruct x; [rewrite bool_decide_eq_false_2; naive_solver|].
    destruct y; [|done]. cbn. unfold mret, outcome_ret. f_equal. apply bool_decide_ext. naive_solver.
Qed.

Lemma CheckClaim_total galera claim dflt : ∃ b, CheckClaim galera claim dflt = Ok b.
Proof.
  unfold CheckClaim. repeat (case_decide; [eexists; reflexivity|]). rewrite !checkDefault_ok. cbn.
  destruct (negb _); eexists; reflexivity.
Qed.

(** ** Properties *)

(** C36: the pod builder never returns a pod for a specification it cannot
    honour: it returns one exactly when the template names a configuration, a
    special pod has a special section, and the metric section has an image and
    a port (or no image on a backup or restore pod); otherwise it panics.  The pod
    it returns has the name, labels and owner asked for, starts with the Galera
    container, bootstraps a new cluster only on request and without addresses to
    join, mounts declared volumes only, and names each volume once. *)
Theorem NewGaleraPod_spec (spec : GaleraSpec)
    (name clusterName ns role addresses bootstrapImage backupImage rev state : string)
    (init : bool) (creds : gmap string string) (owner : OwnerReference) :
  (¬ template_ok spec role →
   NewGaleraPod spec name clusterName ns role addresses bootstrapImage backupImage rev state
     init creds owner = Panic) ∧
  (template_ok spec role →
   ∃ p, NewGaleraPod spec name clusterName ns role addresses bootstrapImage backupImage rev state
          init creds owner = Ok p ∧
        pod_shape spec name clusterName ns role addresses rev state init creds owner p ∧
        mounts_declared p ∧
        NoDup (vol_Name <$> p.(pod_Spec).(ps_Volumes))).
Proof. split; [apply NewGaleraPod_panic|apply NewGaleraPod_ok]. Qed.

(** A specification with a metric side-car and a special node, used to
    evaluate the definitions. *)
Definition example_template : PodTemplate :=
  mkPodTemplate [] ∅ None (Some "creds") "mariadb:10.4.5" "cpu=1" [mkEnvVar "TZ" "UTC" None]
    (Some "mycnf") (Some (mkMetric "exporter:1" (Some 9104) [] "cpu=0.1")) "" None.

Definition example_pvc : PVCSpec :=
  mkPVCSpec (Some ["ReadWriteOnce"]) None "storage=1Gi" None None.

Definition example_spec : GaleraSpec :=
  mkSpec (Some 3) (Some example_template) example_pvc (Some (mkSpecial None [] None)) None None.

Definition example_galera : Galera :=
  mkGalera "gal" "ns" "uid" None ∅ 1 false example_spec emptyStatus.

Lemma NewGaleraPod_spec_witness :
  template_ok example_spec RoleSpecial ∧
  ∃ p, NewGaleraPod example_spec "gal-1" "gal" "ns" RoleSpecial "" "b" "k" "r" StateCluster
         true ∅ (AsOwner example_galera) = Ok p ∧ mounts_declared p.
Proof.
  assert (H : template_ok example_spec RoleSpecial)
    by (apply (bool_decide_unpack _); vm_compute; exact I).
  split; [exact H|].
  destruct (proj2 (NewGaleraPod_spec example_spec "gal-1" "gal" "ns" RoleSpecial "" "b" "k" "r"
    StateCluster true ∅ (AsOwner example_galera)) H) as (p & Hp & _ & Hm & _).
  exists p. exact (conj Hp Hm).
Defined.

(** The selector of a service selects exactly the pods of its cluster whose
    role the service is for, and the selector of the disruption budget exactly
    the pods of its cluster started as members of the cluster, the special pod
    excepted; no selector reaches the pods of another cluster. *)
Theorem selectors_exact (n ns n' ns' svc role rev st pdbName : string) (maxUnavailable : Z)
    (galLabels : labels_t) :
  svc ∈ service_roles → role ∈ pod_roles →
  (selects (svc_Selector (newGaleraService galLabels n ns "" svc))
     (PodLabelsForGalera n' ns' role rev st) ↔
   n = n' ∧ ns = ns' ∧ serves svc role = true) ∧
  (let pdb := newGaleraPodDisruptionBudget galLabels n ns pdbName maxUnavailable in
   selects pdb.(pdb_MatchLabels) (PodLabelsForGalera n' ns' role rev st) ∧
   Forall (λ e, expression_selects e (PodLabelsForGalera n' ns' role rev st))
     pdb.(pdb_MatchExpressions) ↔
   n = n' ∧ ns = ns' ∧ st = StateCluster ∧ role ≠ RoleSpecial).
Proof.
  intros Hsvc Hrole. destruct (PodLabels_cluster n' ns' role rev st) as (Hn & Hns & Hst & _).
  split.
  - cbn [newGaleraService svc_Selector]. rewrite serviceSelector_selects by done.
    rewrite Hn, Hns. clear Hn Hns Hst.
    repeat (apply elem_of_cons in Hsvc as [->|Hsvc]); [..|by apply elem_of_nil in Hsvc];
    repeat (apply elem_of_cons in Hrole as [->|Hrole]); try (by apply elem_of_nil in Hrole);
    vm_compute; intuition (try congruence; try discriminate).
  - cbn [newGaleraPodDisruptionBudget pdb_MatchLabels pdb_MatchExpressions]. unfold selects.
    rewrite insert_subseteq by reflexivity.
    change (labelsForGalera n ns ⊆ ?l) with (selects (labelsForGalera n ns) l).
    rewrite labelsForGalera_selects, Hn, Hns, Hst, Forall_singleton.
    cbn [expression_selects]. rewrite (PodLabels_role _ _ _ _ _ Hrole).
    case_decide as Hr; split; intros; destruct_and?; split_and!; try congruence; try exact I.
    + intros ->. by match goal with H : RoleSpecial ∉ _ |- _ => destruct H; apply list_elem_of_here end.
    + by rewrite list_elem_of_singleton.
    + intros ->. by destruct Hr; elem_of_list.
Qed.

Lemma selectors_exact_witness :
  (Reader ∈ service_roles ∧ Backup ∈ pod_roles) ∧
  selects (svc_Selector (newGaleraService None "gal" "ns" "" Reader))
    (PodLabelsForGalera "gal" "ns" Backup "r" StateCluster).
Proof.
  assert (H1 : Reader ∈ service_roles) by elem_of_list.
  assert (H2 : Backup ∈ pod_roles) by elem_of_list.
  split; [exact (conj H1 H2)|].
  apply (proj1 (selectors_exact "gal" "ns" "gal" "ns" Reader Backup "r" StateCluster "p" 1 None
    H1 H2)). split_and!; reflexivity.
Defined.

(** [CheckClaim] accepts a claim exactly when it has the access modes, the
    selector and the resources of the specification, and its storage class and
    volume mode are those of the specification, or the defaults where the
    specification has none; it never panics, since a pointer is dereferenced
    only where the claim has one; a claim the operator creates is accepted. *)
Theorem CheckClaim_spec (galera : Galera) (claim : PersistentVolumeClaim) (dflt : string) :
  let spec := galera.(g_Spec).(spec_PersistentVolumeClaimSpec) in
  let c := claim.(claim_Spec) in
  let eq_or_default x y d := x = y ∨ x = None ∧ y = Some d in
  CheckClaim galera claim dflt =
    Ok (bool_decide (spec.(pvc_AccessModes) = c.(pvc_AccessModes) ∧
                     spec.(pvc_Selector) = c.(pvc_Selector) ∧
                     spec.(pvc_Resources) = c.(pvc_Resources) ∧
                     eq_or_default spec.(pvc_StorageClassName) c.(pvc_StorageClassName) dflt ∧
                     eq_or_default spec.(pvc_VolumeMode) c.(pvc_VolumeMode) "Filesystem")) ∧
  (∀ galLabels name n ns rev owner,
     CheckClaim galera (CreateGaleraClaim galera.(g_Spec) galLabels name n ns rev owner) dflt
       = Ok true).
Proof.
  cbn. unfold CheckClaim.
  split.
  - rewrite !checkDefault_ok.
    destruct (decide (pvc_AccessModes _ ≠ _)); [rewrite bool_decide_eq_false_2; [done|tauto]|].
    destruct (decide (pvc_Selector _ ≠ _)); [rewrite bool_decide_eq_false_2; [done|tauto]|].
    destruct (decide (pvc_Resources _ ≠ _)); [rewrite bool_decide_eq_false_2; [done|tauto]|].
    cbn. unfold mret, outcome_ret. case_bool_decide as H1; cbn.
    + f_equal. apply bool_decide_ext. split; [|tauto]. intros; split_and!; try tauto;
        by apply dec_stable.
    + by rewrite bool_decide_eq_false_2 by tauto.
  - intros. rewrite !checkDefault_ok. cbn.
    by rewrite !decide_False, !bool_decide_eq_true_2 by tauto.
Qed.

(** The labels of the first map stay, and those of the second are added to them; there must
    be a map to add to. *)
Lemma mergeLabels_spec (l1 : gmap string string) (l2 : labels_t) :
  mergeLabels (Some l1) l2 = Ok (Some (l1 ∪ default ∅ l2)) ∧
  mergeLabels None l2 = (if decide (default ∅ l2 = ∅) then Ok None else Panic).
Proof.
  unfold mergeLabels. generalize (default ∅ l2). clear l2. intros l2. split.
  - apply (map_fold_weak_ind (λ r m, r = Ok (Some (l1 ∪ m)))); [by rewrite (right_id_L ∅ (∪))|].
    intros k v m r Hk ->. unfold mergeLabel. cbn.
    assert (El : (l1 ∪ m) !! k = l1 !! k) by (rewrite lookup_union, Hk; by destruct (l1 !! k)).
    rewrite El. destruct (l1 !! k) as [w|] eqn:E; cbn.
    + f_equal. f_equal. apply (map_eq (M := gmap string)). intros j. rewrite !lookup_union.
      destruct (decide (j = k)) as [->|Hj]; [by rewrite E, lookup_insert_eq, Hk|by rewrite lookup_insert_ne].
    + by rewrite insert_union_r.
  - assert (H : (l2 = ∅ → map_fold mergeLabel (Ok None) l2 = Ok None) ∧
                (l2 ≠ ∅ → map_fold mergeLabel (Ok None) l2 = Panic)).
    { apply (map_fold_weak_ind (λ r (m : gmap string string), (m = ∅ → r = Ok None) ∧ (m ≠ ∅ → r = Panic))); [done|].
      intros k v m r Hk [H1 H2]. split; [intros []%insert_non_empty|intros _].
      destruct (decide (m = ∅)) as [Hm|Hm]; [by rewrite H1|by rewrite H2]. }
    case_decide; by apply H.
Qed.
