(* ===== verification/Kube.v ===== *)
(** * The world of the operator: API calls, their responses and traces

    Every call of the operator to the API server, to a lister, to a container,
    to the clock, to the random generator or to the event recorder is recorded
    in a trace with its response.  The responses come from an [Env]: arbitrary
    functions of the trace so far and of the arguments.  A theorem that holds for
    every [Env] holds whatever the cluster does between two calls, and whatever
    errors the calls return.

    [M A] is a computation with effects: it returns the outcome and the events
    it adds to the trace.  [SM A] also threads the [GaleraStatus] that the source
    passes around by pointer. *)
From S2P Require Import Prelude Types BackupTypes Objects.

(** ** Events *)

(** What a work queue gives to a worker: a key, an object that is no key, or the
    end of the queue. *)
Inductive queue_item := ItemKey (key : string) | ItemOther | ItemQuit.

Inductive event :=
| EvPodCreate (ns : string) (pod : Pod) (err : option error)
| EvPodDelete (ns name : string) (err : option error)
| EvPodPatch (ns name : string) (labels : labels_t) (err : option error)
| EvPodGet (ns name : string)
| EvClaimCreate (ns : string) (claim : PersistentVolumeClaim) (err : option error)
| EvClaimDelete (ns name : string) (err : option error)
| EvClaimPatch (ns name : string) (labels : labels_t) (err : option error)
| EvClaimGet (ns name : string) (r : PersistentVolumeClaim + error)
| EvExec (ns pod container : string) (cmd : list string) (stdout : string) (err : option error)
| EvServiceCreate (ns : string) (svc : Service) (err : option error)
| EvServiceUpdate (ns : string) (svc : Service) (err : option error)
| EvServiceDelete (ns name : string) (err : option error)
| EvServiceGet (ns name : string)
| EvPDBCreate (ns : string) (pdb : PodDisruptionBudget) (err : option error)
| EvPDBUpdate (ns : string) (pdb : PodDisruptionBudget) (err : option error)
| EvPDBGet (ns name : string)
| EvRevisionList
| EvRevisionCreate (cr : ControllerRevision)
| EvRevisionUpdate (name : string) (revision : Z)
| EvRevisionDelete (name : string) (err : option error)
| EvRevisionAdopt (name : string)
| EvGaleraGet (ns name : string)
| EvStatusUpdate (ns name : string) (status : GaleraStatus) (err : option error)
| EvGet (kind ns name : string)
| EvRecord (reason message : string) (normal : bool)
| EvMetric (name : string) (delta : Z)
| EvMapOrder
| EvNow
| EvRand
| EvRestore (galera : Galera) (pods : list Pod) (creds : gmap string string)
| EvQueueGet (item : queue_item)
| EvQueueAdd (key : string)
| EvQueueAddRateLimited (key : string)
| EvQueueForget (item : queue_item)
| EvQueueDone (item : queue_item)
| EvList (kind ns : string)
| EvGaleraLive (ns name : string) (r : Galera + error)
| EvPodOwner (ns name data : string) (err : option error)
| EvClaimOwner (ns name data : string) (err : option error)
| EvBackupStatus (ns name : string) (status : GaleraBackupStatus) (err : option error)
| EvHTTP (method url : string) (body : option S3Document) (r : httpReply + error)
| EvSleep
| EvFatal (message : string).

(** ** The environment *)

Abbreviation history := (list event).

(** What the controllers ask: the work queue, the lists of the informers, the
    reads that bypass them, the patches of owners, the backups, and the side-car. *)
Record ControllerEnv := mkControllerEnv {
  ctl_queueGet : history → queue_item;
  ctl_podList : history → string → list Pod + error;
  ctl_claimList : history → string → list PersistentVolumeClaim + error;
  ctl_galeraList : history → string → list Galera + error;
  ctl_galeraLive : history → string → string → Galera + error;
  ctl_podOwner : history → string → string → string → option error;
  ctl_claimOwner : history → string → string → string → option error;
  ctl_backupGet : history → string → string → GaleraBackup + error;
  ctl_backupStatus : history → GaleraBackup → option error;
  ctl_http : history → string → string → option S3Document → httpReply + error }.

Record Env := mkEnv {
  env_podCreate : history → string → Pod → option error;
  env_podDelete : history → string → string → option error;
  env_podPatch : history → string → string → labels_t → option error;
  env_podGet : history → string → string → Pod + error;
  env_claimCreate : history → string → PersistentVolumeClaim → option error;
  env_claimDelete : history → string → string → option error;
  env_claimPatch : history → string → string → labels_t → option error;
  env_claimGet : history → string → string → PersistentVolumeClaim + error;
  env_exec : history → string → string → string → list string → string * option error;
  env_serviceCreate : history → string → Service → option error;
  env_serviceUpdate : history → string → Service → option error;
  env_serviceDelete : history → string → string → option error;
  env_serviceGet : history → string → string → Service + error;
  env_pdbCreate : history → string → PodDisruptionBudget → option error;
  env_pdbUpdate : history → string → PodDisruptionBudget → option error;
  env_pdbGet : history → string → string → PodDisruptionBudget + error;
  env_revisionList : history → list ControllerRevision + error;
  env_revisionCreate : history → ControllerRevision → Z → (ControllerRevision * Z) + error;
  env_revisionUpdate : history → ControllerRevision → Z → ControllerRevision + error;
  env_revisionDelete : history → string → option error;
  env_revisionAdopt : history → ControllerRevision → ControllerRevision + error;
  env_galeraGet : history → string → string → Galera + error;
  env_statusUpdate : history → Galera → option error;
  env_secretGet : history → string → string → Secret + error;
  env_storageClasses : history → list StorageClass + error;
  env_configMapGet : history → string → string → ConfigMap + error;
  env_upgradeConfigGet : history → string → string → UpgradeConfig + error;
  env_upgradeRuleGet : history → string → string → UpgradeRule + error;
  env_mapOrder : history → list nat;
  env_now : history → Z;
  env_rand : history → list string;
  env_ctl : ControllerEnv }.

(** ** Computations with effects *)

Definition M (A : Type) : Type := Env → history → outcome A * history.

#[global] Instance M_ret : MRet M := λ A a env h, (Ok a, []).
#[global] Instance M_bind : MBind M := λ A B f m env h,
  match m env h with
  | (Ok a, t1) => match f a env (h ++ t1) with (o, t2) => (o, t1 ++ t2) end
  | (Err e, t1) => (Err e, t1)
  | (Panic, t1) => (Panic, t1)
  | (OutOfFuel, t1) => (OutOfFuel, t1)
  end.

(** A call: the response of the environment, recorded. *)
Definition call {R} (f : Env → history → R) (ev : R → event) : M R := λ env h,
  let r := f env h in (Ok r, [ev r]).

(** An effect-free computation that may fail *)
Definition pureM {A} (o : outcome A) : M A := λ env h, (o, []).

Definition errM {A} (e : error) : M A := λ env h, (Err e, []).

(** [return err], where [err] may be nil *)
Definition retErr (e : option error) : M unit :=
  match e with None => mret tt | Some e => errM e end.

(** [v, err := m] with the error as a value *)
Definition attempt {A} (m : M A) : M (A + error) := λ env h,
  match m env h with
  | (Ok a, t) => (Ok (inl a), t)
  | (Err e, t) => (Ok (inr e), t)
  | (Panic, t) => (Panic, t)
  | (OutOfFuel, t) => (OutOfFuel, t)
  end.

(** [err := m], for a computation that returns an error only *)
Definition errOf (m : M unit) : M (option error) :=
  r ← attempt m; mret (match r with inl _ => None | inr e => Some e end).

(** The value of a read, or its error *)
Definition orErr {A} (r : A + error) : M A :=
  match r with inl a => mret a | inr e => errM e end.

(** ** Computations on a status *)

Definition SM (A : Type) : Type := GaleraStatus → Env → history → outcome A * GaleraStatus * history.

#[global] Instance SM_ret : MRet SM := λ A a st env h, (Ok a, st, []).
#[global] Instance SM_bind : MBind SM := λ A B f m st env h,
  match m st env h with
  | (Ok a, st1, t1) => match f a st1 env (h ++ t1) with (o, st2, t2) => (o, st2, t1 ++ t2) end
  | (Err e, st1, t1) => (Err e, st1, t1)
  | (Panic, st1, t1) => (Panic, st1, t1)
  | (OutOfFuel, st1, t1) => (OutOfFuel, st1, t1)
  end.

(** A computation that does not see the status *)
Definition lift {A} (m : M A) : SM A := λ st env h,
  match m env h with (o, t) => (o, st, t) end.

Definition getStatus : SM GaleraStatus := λ st env h, (Ok st, st, []).
Definition modify (f : GaleraStatus → GaleraStatus) : SM unit := λ st env h, (Ok tt, f st, []).

(** ** The calls *)

Definition podCreate (ns : string) (pod : Pod) : M unit :=
  e ← call (λ env h, env.(env_podCreate) h ns pod) (EvPodCreate ns pod); retErr e.
Definition podDelete (ns name : string) : M unit :=
  e ← call (λ env h, env.(env_podDelete) h ns name) (EvPodDelete ns name); retErr e.
Definition podPatch (ns name : string) (labels : labels_t) : M unit :=
  e ← call (λ env h, env.(env_podPatch) h ns name labels) (EvPodPatch ns name labels); retErr e.
Definition podGet (ns name : string) : M Pod :=
  r ← call (λ env h, env.(env_podGet) h ns name) (λ _, EvPodGet ns name); orErr r.
Definition claimCreate (ns : string) (claim : PersistentVolumeClaim) : M unit :=
  e ← call (λ env h, env.(env_claimCreate) h ns claim) (EvClaimCreate ns claim); retErr e.
Definition claimDelete (ns name : string) : M unit :=
  e ← call (λ env h, env.(env_claimDelete) h ns name) (EvClaimDelete ns name); retErr e.
Definition claimPatch (ns name : string) (labels : labels_t) : M unit :=
  e ← call (λ env h, env.(env_claimPatch) h ns name labels) (EvClaimPatch ns name labels); retErr e.
Definition claimGet (ns name : string) : M PersistentVolumeClaim :=
  r ← call (λ env h, env.(env_claimGet) h ns name) (EvClaimGet ns name); orErr r.
Definition serviceCreate (ns : string) (svc : Service) : M unit :=
  e ← call (λ env h, env.(env_serviceCreate) h ns svc) (EvServiceCreate ns svc); retErr e.
Definition serviceUpdate (ns : string) (svc : Service) : M unit :=
  e ← call (λ env h, env.(env_serviceUpdate) h ns svc) (EvServiceUpdate ns svc); retErr e.
Definition serviceDelete (ns name : string) : M unit :=
  e ← call (λ env h, env.(env_serviceDelete) h ns name) (EvServiceDelete ns name); retErr e.
Definition serviceGet (ns name : string) : M Service :=
  r ← call (λ env h, env.(env_serviceGet) h ns name) (λ _, EvServiceGet ns name); orErr r.
Definition pdbCreate (ns : string) (pdb : PodDisruptionBudget) : M unit :=
  e ← call (λ env h, env.(env_pdbCreate) h ns pdb) (EvPDBCreate ns pdb); retErr e.
Definition pdbUpdate (ns : string) (pdb : PodDisruptionBudget) : M unit :=
  e ← call (λ env h, env.(env_pdbUpdate) h ns pdb) (EvPDBUpdate ns pdb); retErr e.
Definition pdbGet (ns name : string) : M PodDisruptionBudget :=
  r ← call (λ env h, env.(env_pdbGet) h ns name) (λ _, EvPDBGet ns name); orErr r.
Definition revisionList : M (list ControllerRevision) :=
  r ← call (λ env h, env.(env_revisionList) h) (λ _, EvRevisionList); orErr r.
Definition revisionCreate (cr : ControllerRevision) (collisions : Z) : M (ControllerRevision * Z) :=
  r ← call (λ env h, env.(env_revisionCreate) h cr collisions) (λ _, EvRevisionCreate cr); orErr r.
Definition revisionUpdate (cr : ControllerRevision) (revision : Z) : M ControllerRevision :=
  r ← call (λ env h, env.(env_revisionUpdate) h cr revision)
        (λ _, EvRevisionUpdate cr.(cr_Name) revision); orErr r.
Definition revisionDelete (name : string) : M unit :=
  e ← call (λ env h, env.(env_revisionDelete) h name) (EvRevisionDelete name); retErr e.
Definition revisionAdopt (cr : ControllerRevision) : M ControllerRevision :=
  r ← call (λ env h, env.(env_revisionAdopt) h cr) (λ _, EvRevisionAdopt cr.(cr_Name)); orErr r.
Definition galeraGet (ns name : string) : M Galera :=
  r ← call (λ env h, env.(env_galeraGet) h ns name) (λ _, EvGaleraGet ns name); orErr r.
Definition statusUpdate (g : Galera) : M unit :=
  e ← call (λ env h, env.(env_statusUpdate) h g)
        (EvStatusUpdate g.(g_Namespace) g.(g_Name) g.(g_Status)); retErr e.
Definition secretGet (ns name : string) : M Secret :=
  r ← call (λ env h, env.(env_secretGet) h ns name) (λ _, EvGet "secret" ns name); orErr r.
Definition storageClasses : M (list StorageClass) :=
  r ← call (λ env h, env.(env_storageClasses) h) (λ _, EvGet "storageclass" "" ""); orErr r.
Definition configMapGet (ns name : string) : M ConfigMap :=
  r ← call (λ env h, env.(env_configMapGet) h ns name) (λ _, EvGet "configmap" ns name); orErr r.
Definition upgradeConfigGet (ns name : string) : M UpgradeConfig :=
  r ← call (λ env h, env.(env_upgradeConfigGet) h ns name) (λ _, EvGet "upgradeconfig" ns name);
  orErr r.
Definition upgradeRuleGet (ns name : string) : M UpgradeRule :=
  r ← call (λ env h, env.(env_upgradeRuleGet) h ns name) (λ _, EvGet "upgraderule" ns name); orErr r.

(** The reading of the clock, and the strings the random generator returns one
    after the other. *)
Definition now : M Z := call (λ env h, env.(env_now) h) (λ _, EvNow).
(** The order in which a loop visits the keys of a map: see [shuffle]. *)
Definition mapOrder : M (list nat) := call (λ env h, env.(env_mapOrder) h) (λ _, EvMapOrder).
Definition draws : M (list string) := call (λ env h, env.(env_rand) h) (λ _, EvRand).

(** Effects without response: the event recorder, the Prometheus counters, and
    the goroutine that restores a cluster. *)
Definition recordEvent (reason message : string) (normal : bool) : M unit :=
  call (λ _ _, tt) (λ _, EvRecord reason message normal).
Definition metric (name : string) (delta : Z) : M unit :=
  call (λ _ _, tt) (λ _, EvMetric name delta).
Definition spawnRestore (galera : Galera) (pods : list Pod) (mapCredGalera : gmap string string) : M unit :=
  call (λ _ _, tt) (λ _, EvRestore galera pods mapCredGalera).

(** The calls of the controllers *)
Definition queueGet : M queue_item :=
  call (λ env h, env.(env_ctl).(ctl_queueGet) h) EvQueueGet.
Definition queueAdd (key : string) : M unit := call (λ _ _, tt) (λ _, EvQueueAdd key).
Definition queueAddRateLimited (key : string) : M unit :=
  call (λ _ _, tt) (λ _, EvQueueAddRateLimited key).
Definition queueForget (item : queue_item) : M unit := call (λ _ _, tt) (λ _, EvQueueForget item).
Definition queueDone (item : queue_item) : M unit := call (λ _ _, tt) (λ _, EvQueueDone item).
Definition podList (ns : string) : M (list Pod) :=
  r ← call (λ env h, env.(env_ctl).(ctl_podList) h ns) (λ _, EvList "pod" ns); orErr r.
Definition claimList (ns : string) : M (list PersistentVolumeClaim) :=
  r ← call (λ env h, env.(env_ctl).(ctl_claimList) h ns) (λ _, EvList "claim" ns); orErr r.
Definition galeraList (ns : string) : M (list Galera) :=
  r ← call (λ env h, env.(env_ctl).(ctl_galeraList) h ns) (λ _, EvList "galera" ns); orErr r.
Definition galeraLive (ns name : string) : M Galera :=
  r ← call (λ env h, env.(env_ctl).(ctl_galeraLive) h ns name) (EvGaleraLive ns name); orErr r.
Definition podOwner (ns name data : string) : M unit :=
  e ← call (λ env h, env.(env_ctl).(ctl_podOwner) h ns name data) (EvPodOwner ns name data);
  retErr e.
Definition claimOwner (ns name data : string) : M unit :=
  e ← call (λ env h, env.(env_ctl).(ctl_claimOwner) h ns name data) (EvClaimOwner ns name data);
  retErr e.
Definition backupGet (ns name : string) : M GaleraBackup :=
  r ← call (λ env h, env.(env_ctl).(ctl_backupGet) h ns name) (λ _, EvGet "backup" ns name); orErr r.
Definition backupStatusUpdate (b : GaleraBackup) : M unit :=
  e ← call (λ env h, env.(env_ctl).(ctl_backupStatus) h b)
        (EvBackupStatus b.(gb_Namespace) b.(gb_Name) b.(gb_Status)); retErr e.
Definition httpCall (method url : string) (body : option S3Document) : M httpReply :=
  r ← call (λ env h, env.(env_ctl).(ctl_http) h method url body) (EvHTTP method url body); orErr r.
Definition sleep : M unit := call (λ _ _, tt) (λ _, EvSleep).
(** [logger.Fatalf] ends the process: nothing runs after it. *)
Definition fatal {A} (message : string) : M A :=
  call (λ _ _, tt) (λ _, EvFatal message) ≫= λ _, pureM Panic.

(** [exec.ExecCmd]: the command runs in the first container of the pod, whose
    index panics on a pod without container.  The standard error is only logged. *)
Definition ExecCmd (ns : string) (pod : Pod) (cmd : list string) : M (string * option error) :=
  match pod.(pod_Spec).(ps_Containers) with
  | [] => pureM Panic
  | c :: _ =>
      call (λ env h, env.(env_exec) h ns pod.(pod_Name) c.(c_Name) cmd)
        (λ r, EvExec ns pod.(pod_Name) c.(c_Name) cmd (fst r) (snd r))
  end.

(** ** Retries

    [retry.RetryOnConflict] of client-go runs a function until it returns no
    conflict, a bounded number of times, and returns the error of its last run.
    The closures of the source assign a variable, which [S] threads. *)
Class RetryLib := {
  RetryOnConflict : ∀ {S : Type}, (S → M (option error * S)) → S → M (option error * S)
}.

Inductive retry_runs {S : Type} (f : S → M (option error * S))
    : S → Env → history → outcome (option error * S) → history → Prop :=
| retry_last s env h o t : f s env h = (o, t) → retry_runs f s env h o t
| retry_again s env h e s1 t1 o t2 :
    f s env h = (Ok (Some e, s1), t1) → e.(err_kind) = Conflict →
    retry_runs f s1 env (h ++ t1) o t2 → retry_runs f s env h o (t1 ++ t2).

Class RetryLaws `{RetryLib} := {
  RetryOnConflict_runs : ∀ {S : Type} (f : S → M (option error * S)) s env h,
    retry_runs f s env h (fst (RetryOnConflict f s env h)) (snd (RetryOnConflict f s env h))
}.

(** The closure the operator gives to [RetryOnConflict]: a write; when it
    fails, the object is read again from the lister, if the lister has it. *)
Definition updateOnce {S : Type} (write : S → M unit) (refresh : S → M S) (s : S)
    : M (option error * S) :=
  updateErr ← errOf (write s);
  match updateErr with
  | None => mret (None, s)
  | Some _ =>
      updated ← attempt (refresh s);
      mret (updateErr, match updated with inl s' => s' | inr _ => s end)
  end.

(** An implementation with a number of steps, to evaluate the definitions. *)
Fixpoint retry_steps {S : Type} (n : nat) (f : S → M (option error * S)) (s : S)
    : M (option error * S) :=
  '(e, s1) ← f s;
  match n, e with
  | S n', Some e' => if decide (e'.(err_kind) = Conflict) then retry_steps n' f s1 else mret (e, s1)
  | _, _ => mret (e, s1)
  end.

Definition RetryLib_steps : RetryLib := {| RetryOnConflict := λ S f s, retry_steps 4 f s |}.

(** ** Lemmas on computations *)

Lemma retry_steps_runs {S : Type} n (f : S → M (option error * S)) s env h :
  retry_runs f s env h (fst (retry_steps n f s env h)) (snd (retry_steps n f s env h)).
Proof.
  revert s h. induction n as [|n IH]; intros s h; cbn [retry_steps];
    unfold mbind, M_bind; destruct (f s env h) as [[[e s1]|e| |] t1] eqn:E; cbn;
    rewrite ?app_nil_r; try (by apply retry_last).
  destruct e as [e|]; cbn; [|rewrite app_nil_r; by apply retry_last].
  case_decide as Hc; cbn; [|rewrite app_nil_r; by apply retry_last].
  specialize (IH s1 (h ++ t1)). destruct (retry_steps n f s1 env (h ++ t1)) as [o t2].
  cbn in *. by eapply retry_again.
Qed.

Lemma RetryLaws_steps : @RetryLaws RetryLib_steps.
Proof. constructor. intros. apply retry_steps_runs. Qed.

Lemma bind_Ok {A B} (m : M A) (f : A → M B) env h a t :
  m env h = (Ok a, t) →
  (m ≫= f) env h = (fst (f a env (h ++ t)), t ++ snd (f a env (h ++ t))).
Proof. unfold mbind, M_bind. intros ->. by destruct (f a env (h ++ t)). Qed.

(** The outcome of a sequence *)
Lemma bind_fst {A B} (m : M A) (f : A → M B) env h :
  fst ((m ≫= f) env h) =
    match m env h with
    | (Ok a, t) => fst (f a env (h ++ t))
    | (Err e, _) => Err e
    | (Panic, _) => Panic
    | (OutOfFuel, _) => OutOfFuel
    end.
Proof.
  unfold mbind, M_bind. destruct (m env h) as [[a|e| |] t]; try done. by destruct (f a env (h ++ t)).
Qed.

Lemma bind_Err {A B} (m : M A) (f : A → M B) env h e t :
  m env h = (Err e, t) → (m ≫= f) env h = (Err e, t).
Proof. unfold mbind, M_bind. by intros ->. Qed.

Lemma ret_bind {A B} (a : A) (f : A → M B) env h : (mret a ≫= f) env h = f a env h.
Proof. unfold mbind, M_bind, mret, M_ret. rewrite app_nil_r. by destruct (f a env h). Qed.

(** A sequence either stops in its first part, or runs its second part on the
    trace of the first. *)
Lemma bind_inv {A B} (m : M A) (f : A → M B) env h o t :
  (m ≫= f) env h = (o, t) →
  (∃ a t1 t2, m env h = (Ok a, t1) ∧ f a env (h ++ t1) = (o, t2) ∧ t = t1 ++ t2) ∨
  (is_ok o = false ∧ ∃ o', m env h = (o', t) ∧ is_ok o' = false).
Proof.
  unfold mbind, M_bind. destruct (m env h) as [[a|e| |] t1] eqn:E.
  - destruct (f a env (h ++ t1)) as [o2 t2] eqn:E2. intros [= <- <-]. left. eauto 10.
  - intros [= <- <-]. right. eauto.
  - intros [= <- <-]. right. eauto.
  - intros [= <- <-]. right. eauto.
Qed.

Lemma bind_ok_inv {A B} (m : M A) (f : A → M B) env h b t :
  (m ≫= f) env h = (Ok b, t) →
  ∃ a t1 t2, m env h = (Ok a, t1) ∧ f a env (h ++ t1) = (Ok b, t2) ∧ t = t1 ++ t2.
Proof. intros [?|[? _]]%bind_inv; [done|discriminate]. Qed.

Lemma SM_bind_inv {A B} (m : SM A) (f : A → SM B) st env h o st' t :
  (m ≫= f) st env h = (o, st', t) →
  (∃ a st1 t1 t2, m st env h = (Ok a, st1, t1) ∧ f a st1 env (h ++ t1) = (o, st', t2) ∧
                  t = t1 ++ t2) ∨
  (is_ok o = false ∧ ∃ o', m st env h = (o', st', t) ∧ is_ok o' = false).
Proof.
  unfold mbind, SM_bind. destruct (m st env h) as [[[a|e| |] st1] t1] eqn:E.
  - destruct (f a st1 env (h ++ t1)) as [[o2 st2] t2] eqn:E2. intros [= <- <- <-]. left. eauto 10.
  - intros [= <- <- <-]. right. eauto.
  - intros [= <- <- <-]. right. eauto.
  - intros [= <- <- <-]. right. eauto.
Qed.

(** Compute the effects of a computation that makes at most a call. *)
Ltac unM :=
  unfold recordEvent, metric, errOf, attempt, retErr, orErr, errM, pureM, call, mbind, M_bind, mret,
    M_ret; cbv beta iota zeta.

(** ** Which events a computation may add to the trace *)

Definition emits {A} (P : event → Prop) (m : M A) : Prop :=
  ∀ env h, Forall P (snd (m env h)).

Definition emitsS {A} (P : event → Prop) (m : SM A) : Prop :=
  ∀ st env h, Forall P (snd (m st env h)).

Section emits.
Context (P : event → Prop).

Lemma emits_ret {A} (a : A) : emits P (mret a : M A).
Proof. intros env h. constructor. Qed.

Lemma emits_err {A} e : emits P (errM e : M A).
Proof. intros env h. constructor. Qed.

Lemma emits_pure {A} (o : outcome A) : emits P (pureM o).
Proof. intros env h. constructor. Qed.

Lemma emits_retErr e : emits P (retErr e).
Proof. intros env h. destruct e; constructor. Qed.

Lemma emits_orErr {A} (r : A + error) : emits P (orErr r).
Proof. intros env h. destruct r; constructor. Qed.

Lemma emits_bind {A B} (m : M A) (f : A → M B) :
  emits P m → (∀ a, emits P (f a)) → emits P (m ≫= f).
Proof.
  intros Hm Hf env h. destruct ((m ≫= f) env h) as [o t] eqn:E. cbn.
  apply bind_inv in E as [(a & t1 & t2 & E1 & E2 & ->)|(_ & o' & E & _)].
  - apply Forall_app. split; [specialize (Hm env h); by rewrite E1 in Hm|].
    specialize (Hf a env (h ++ t1)). by rewrite E2 in Hf.
  - specialize (Hm env h). by rewrite E in Hm.
Qed.

Lemma emits_pure_bind {A B} (a : A) (f : A → M B) :
  emits P (f a) → emits P (pureM (Ok a) ≫= f).
Proof.
  intros H env h. specialize (H env h). unfold mbind, M_bind, pureM. rewrite app_nil_r.
  by destruct (f a env h).
Qed.

Lemma emits_attempt {A} (m : M A) : emits P m → emits P (attempt m).
Proof.
  intros Hm env h. specialize (Hm env h). unfold attempt. by destruct (m env h) as [[] t].
Qed.

Lemma emits_errOf (m : M unit) : emits P m → emits P (errOf m).
Proof. intros. apply emits_bind; [by apply emits_attempt|]. intros. apply emits_ret. Qed.

Lemma emits_call {R} (f : Env → history → R) ev : (∀ r, P (ev r)) → emits P (call f ev).
Proof. intros H env h. constructor; [apply H|constructor]. Qed.

Lemma emits_retry `{RetryLaws} {S : Type} (f : S → M (option error * S)) s :
  (∀ s, emits P (f s)) → emits P (RetryOnConflict f s).
Proof.
  intros Hf env h. pose proof (RetryOnConflict_runs f s env h) as Hr.
  induction Hr as [s env h o t E|s env h e s1 t1 o t2 E _ _ IH].
  - specialize (Hf s env h). by rewrite E in Hf.
  - apply Forall_app. split; [|done]. specialize (Hf s env h). by rewrite E in Hf.
Qed.

Lemma emits_if {A} (b : bool) (m1 m2 : M A) :
  emits P m1 → emits P m2 → emits P (if b then m1 else m2).
Proof. by destruct b. Qed.

Lemma emitsS_ret {A} (a : A) : emitsS P (mret a : SM A).
Proof. intros st env h. constructor. Qed.

Lemma emitsS_bind {A B} (m : SM A) (f : A → SM B) :
  emitsS P m → (∀ a, emitsS P (f a)) → emitsS P (m ≫= f).
Proof.
  intros Hm Hf st env h. destruct ((m ≫= f) st env h) as [[o st'] t] eqn:E. cbn.
  apply SM_bind_inv in E as [(a & st1 & t1 & t2 & E1 & E2 & ->)|(_ & o' & E & _)].
  - apply Forall_app. split; [specialize (Hm st env h); by rewrite E1 in Hm|].
    specialize (Hf a st1 env (h ++ t1)). by rewrite E2 in Hf.
  - specialize (Hm st env h). by rewrite E in Hm.
Qed.

Lemma emitsS_lift {A} (m : M A) : emits P m → emitsS P (lift m).
Proof. intros Hm st env h. specialize (Hm env h). unfold lift. by destruct (m env h). Qed.

Lemma emitsS_modify f : emitsS P (modify f).
Proof. intros st env h. constructor. Qed.

Lemma emitsS_getStatus : emitsS P getStatus.
Proof. intros st env h. constructor. Qed.
End emits.

Lemma emits_impl {A} (P Q : event → Prop) (m : M A) :
  emits P m → (∀ e, P e → Q e) → emits Q m.
Proof. intros H HPQ env h. eapply Forall_impl; [apply H|done]. Qed.

Lemma emits_run {A} (P : event → Prop) (m : M A) env h o t :
  emits P m → m env h = (o, t) → Forall P t.
Proof. intros H E. specialize (H env h). by rewrite E in H. Qed.

(** A call whose error is returned: without error, its event is in the trace. *)
Lemma call_ok (f : Env → history → option error) ev env h t :
  (e ← call f ev; retErr e) env h = (Ok tt, t) → t = [ev None].
Proof.
  unfold call, mbind, M_bind, retErr, mret, M_ret, errM.
  destruct (f env h); intros [=]; by subst.
Qed.

Lemma errOf_none (m : M unit) env h t :
  errOf m env h = (Ok None, t) → m env h = (Ok tt, t).
Proof.
  unfold errOf, attempt, mbind, M_bind, mret, M_ret.
  destruct (m env h) as [[[]|e| |] t1]; intros [=]; subst; by rewrite app_nil_r.
Qed.

Lemma read_total {A} (f : Env → history → A + error) ev env h :
  ∃ r, fst (attempt (r ← call f ev; orErr r) env h) = Ok r.
Proof.
  unfold attempt, call, orErr, mbind, M_bind, mret, M_ret, errM. destruct (f env h); cbn; eauto.
Qed.

(** An error that is recorded and returned *)
Lemma rec_retErr (rec : M unit) err env h o t :
  (∀ env h, is_ok (fst (rec env h)) = true) →
  (rec;; retErr err) env h = (o, t) →
  o = match err with None => Ok tt | Some e => Err e end.
Proof.
  intros Hr. specialize (Hr env h). unfold mbind, M_bind. destruct (rec env h) as [[] t1]; try done.
  destruct err; cbn; by intros [= <- _].
Qed.

(** ** Runs of retried updates *)

Section updates.
Context {S : Type} (write : S → M unit) (refresh : S → M S).
Context (f : S → Env → history → option error) (ev : S → option error → event).
Context (Hwrite : ∀ s, write s = (e ← call (f s) (ev s); retErr e)).
Context (Hev : ∀ s s' e, ev s None ≠ ev s' (Some e)).
Context (Hrefresh : ∀ s, emits (λ e, ∀ s' err, e ≠ ev s' err) (refresh s)).
Context (Htotal : ∀ s env h, ∃ r, fst (attempt (refresh s) env h) = Ok r).

Lemma updateOnce_inv s env h o t :
  updateOnce write refresh s env h = (o, t) →
  ∃ err s' t', o = Ok (err, s') ∧ t = ev s err :: t' ∧
               Forall (λ e, ∀ s' err, e ≠ ev s' err) t' ∧ (err = None → t' = []).
Proof.
  unfold updateOnce. rewrite Hwrite. intros E.
  assert (Hw : errOf (e ← call (f s) (ev s); retErr e) env h = (Ok (f s env h), [ev s (f s env h)])).
  { unfold errOf, attempt, call, retErr, mbind, M_bind, mret, M_ret, errM.
    by destruct (f s env h). }
  rewrite (bind_Ok _ _ _ _ _ _ Hw) in E. destruct (f s env h) as [e|].
  - set (h1 := h ++ [ev s (Some e)]) in *. destruct (Htotal s env h1) as [r Hr].
    pose proof (emits_attempt _ _ (Hrefresh s) env h1) as Hg.
    destruct (attempt (refresh s) env h1) as [o1 t1] eqn:E1. cbn in Hr, Hg. subst o1.
    rewrite (bind_Ok _ _ _ _ _ _ E1) in E. cbn in E. rewrite app_nil_r in E. simplify_eq.
    by eexists _, _, _.
  - cbn in E. simplify_eq. by eexists _, _, [].
Qed.

(** Some attempt is made; the result is without error exactly when an attempt
    was, and that attempt is the last event. *)
Lemma update_runs s env h o t :
  retry_runs (updateOnce write refresh) s env h o t →
  ∃ err s', o = Ok (err, s') ∧ (∃ s1 err1, ev s1 err1 ∈ t) ∧
    (err = None ↔ ∃ s1, ev s1 None ∈ t) ∧
    (∀ t1 s1 t2, t = t1 ++ ev s1 None :: t2 → t2 = []).
Proof using Hwrite Hev Hrefresh Htotal.
  assert (Hget : ∀ t s1 err, Forall (λ e, ∀ s' err, e ≠ ev s' err) t → ev s1 err ∉ t).
  { intros t' s1 err Ht Hin. rewrite Forall_forall in Ht. by destruct (Ht _ Hin s1 err). }
  induction 1 as [s env h o t E|s env h e s1 t1 o t2 E _ _ IH];
    apply updateOnce_inv in E as (err & s' & t' & E' & -> & Hg & Hn).
  - exists err, s'. split_and!; [done|eexists _, _; apply list_elem_of_here| |].
    + split; [intros ->; eexists; apply list_elem_of_here|].
      intros [s1 [Hin|Hin]%elem_of_cons]; [|by apply Hget in Hin].
      destruct err; [by apply Hev in Hin|done].
    + intros [|e' t1] s1 t2 [= Hs Ht]; subst.
      * destruct err as [e|]; [by symmetry in Hs; apply Hev in Hs|]. auto.
      * destruct (Hget _ s1 None Hg). set_solver.
  - destruct IH as (err2 & s2 & -> & (s3 & err3 & H3) & Hiff & Hlast). simplify_eq.
    exists err2, s2. split_and!; [done|exists s3, err3; set_solver| |].
    + rewrite Hiff. split; intros [s4 Hin]; exists s4; [set_solver|].
      apply elem_of_app in Hin as [Hin|Hin]; [|done].
      apply elem_of_cons in Hin as [Hin|Hin]; [by apply Hev in Hin|by apply Hget in Hin].
    + intros ta s4 tb Heq. destruct ta as [|e' ta]; cbn in Heq.
      { injection Heq as Hs _. symmetry in Hs. by apply Hev in Hs. }
      injection Heq as <- Heq.
      apply app_split_right in Heq as (tc & -> & ->); [by eapply Hlast|by apply Hget].
Qed.
End updates.

(** Steps through a successful sequence on a status *)
Lemma SM_bind_ok_inv {A B} (m : SM A) (f : A → SM B) st env h b st' t :
  (m ≫= f) st env h = (Ok b, st', t) →
  ∃ a st1 t1 t2, m st env h = (Ok a, st1, t1) ∧ f a st1 env (h ++ t1) = (Ok b, st', t2) ∧
                 t = t1 ++ t2.
Proof. intros [?|[? _]]%SM_bind_inv; [done|discriminate]. Qed.

Lemma lift_inv {A} (m : M A) st env h o st' t :
  lift m st env h = (o, st', t) → st' = st ∧ m env h = (o, t).
Proof. unfold lift. destruct (m env h). by intros [= <- <- <-]. Qed.

Lemma emitsS_run {A} (P : event → Prop) (m : SM A) st env h o st' t :
  emitsS P m → m st env h = (o, st', t) → Forall P t.
Proof. intros Hm E. specialize (Hm st env h). by rewrite E in Hm. Qed.

Lemma emitsS_impl {A} (P Q : event → Prop) (m : SM A) :
  emitsS P m → (∀ e, P e → Q e) → emitsS Q m.
Proof. intros Hm HPQ st env h. eapply Forall_impl; [apply Hm|done]. Qed.

(** Equations of sequences on a status *)
Lemma SM_ret_bind {A B} (a : A) (f : A → SM B) st env h : (mret a ≫= f) st env h = f a st env h.
Proof. unfold mbind, SM_bind, mret, SM_ret. rewrite app_nil_r. by destruct (f a st env h) as [[? ?] ?]. Qed.

Lemma getStatus_bind {B} (f : GaleraStatus → SM B) st env h :
  (getStatus ≫= f) st env h = f st st env h.
Proof. unfold mbind, SM_bind, getStatus. rewrite app_nil_r. by destruct (f st st env h) as [[? ?] ?]. Qed.

Lemma modify_bind {B} g (f : unit → SM B) st env h :
  (modify g ≫= f) st env h = f tt (g st) env h.
Proof. unfold mbind, SM_bind, modify. rewrite app_nil_r. by destruct (f tt (g st) env h) as [[? ?] ?]. Qed.

Lemma SM_bind_assoc {A B C} (m : SM A) (f : A → SM B) (g : B → SM C) st env h :
  ((m ≫= f) ≫= g) st env h = (m ≫= λ a, f a ≫= g) st env h.
Proof.
  unfold mbind, SM_bind. destruct (m st env h) as [[[a|e| |] st1] t1]; try done.
  destruct (f a st1 env (h ++ t1)) as [[[b|e| |] st2] t2]; try done. rewrite app_assoc.
  destruct (g b st2 env ((h ++ t1) ++ t2)) as [[o st3] t3]. by rewrite app_assoc.
Qed.

Lemma lift_bind_ext {A B} (m : M A) (f f' : A → SM B) st env h :
  (∀ a h', f a st env h' = f' a st env h') → (lift m ≫= f) st env h = (lift m ≫= f') st env h.
Proof.
  intros Hf. unfold mbind, SM_bind, lift. destruct (m env h) as [[a|e| |] t]; try done. by rewrite Hf.
Qed.

(** What a computation does to the status when it succeeds *)
Definition okrel {A} (R : relation GaleraStatus) (m : SM A) : Prop :=
  ∀ st env h a st' t, m st env h = (Ok a, st', t) → R st st'.

Section okrel.
Context (R : relation GaleraStatus) `{!PreOrder R}.

Lemma okrel_ret {A} (a : A) : okrel R (mret a : SM A).
Proof. intros st env h ? st' t [= <- <- <-]. reflexivity. Qed.

Lemma okrel_bind {A B} (m : SM A) (f : A → SM B) :
  okrel R m → (∀ a, okrel R (f a)) → okrel R (m ≫= f).
Proof.
  intros Hm Hf st env h b st' t (a & st1 & t1 & t2 & E1 & E2 & ->)%SM_bind_ok_inv.
  etrans; [by eapply Hm|by eapply Hf].
Qed.

Lemma okrel_lift {A} (m : M A) : okrel R (lift m).
Proof. intros st env h a st' t [-> _]%lift_inv. reflexivity. Qed.

Lemma okrel_modify f : (∀ st, R st (f st)) → okrel R (modify f).
Proof. intros Hf st env h ? st' t [= <- <- <-]. apply Hf. Qed.

Lemma okrel_getStatus : okrel R getStatus.
Proof. intros st env h ? st' t [= <- <- <-]. reflexivity. Qed.

Lemma okrel_err {A B} e (f : A → SM B) : okrel R (lift (errM e) ≫= f).
Proof. intros st env h b st' t (a & st1 & t1 & t2 & [_ E]%lift_inv & _)%SM_bind_ok_inv. done. Qed.
End okrel.

(** ** Order in a trace

    An event of a kind is preceded by a trace with a property. *)
Definition preceded (P : event → Prop) (Q : event → history → Prop) (t : history) : Prop :=
  ∀ t1 e t2, t = t1 ++ e :: t2 → P e → Q e t1.

Lemma preceded_none P Q t : Forall (λ e, ¬ P e) t → preceded P Q t.
Proof. intros HF t1 e t2 -> He. rewrite Forall_forall in HF. destruct (HF e); set_solver. Qed.

Lemma preceded_app P Q t1 t2 :
  preceded P Q t1 → preceded P (λ e t, Q e (t1 ++ t)) t2 → preceded P Q (t1 ++ t2).
Proof.
  intros H1 H2 ta e tb E He. apply app_eq_inv in E as [(l & -> & E)|(l & -> & E)].
  - destruct l as [|e' l]; cbn in E.
    + specialize (H2 [] e tb (eq_sym E) He). by rewrite !app_nil_r in *.
    + injection E as <- ->. by eapply H1.
  - by eapply H2.
Qed.

Lemma preceded_impl P Q (P' : event → Prop) (Q' : event → history → Prop) t :
  preceded P Q t → (∀ e, P' e → P e) → (∀ e t', P' e → Q e t' → Q' e t') → preceded P' Q' t.
Proof. intros H HP HQ t1 e t2 E He. apply HQ; [done|]. eapply H; eauto. Qed.

Create HintDb emits.
#[export] Hint Resolve emits_ret emits_err emits_pure emits_retErr emits_orErr emits_attempt
  emits_errOf emits_retry emitsS_ret emitsS_lift emitsS_modify emitsS_getStatus : emits.

(** How many events of a kind a computation adds to the trace *)
Definition count (p : event → bool) (t : history) : nat := length (filter (λ e, p e = true) t).

Definition at_most {A} (p : event → bool) (n : nat) (m : M A) : Prop :=
  ∀ env h, (count p (snd (m env h)) ≤ n)%nat.

Lemma count_app p t1 t2 : count p (t1 ++ t2) = (count p t1 + count p t2)%nat.
Proof. unfold count. by rewrite filter_app, length_app. Qed.

Lemma count_none p t : Forall (λ e, p e = false) t → count p t = 0%nat.
Proof.
  unfold count. induction 1 as [|e t He Ht IH]; [done|].
  rewrite filter_cons, decide_False by congruence. done.
Qed.

Lemma at_most_bind {A B} p n k (m : M A) (f : A → M B) :
  at_most p n m → (∀ a, at_most p k (f a)) → at_most p (n + k) (m ≫= f).
Proof.
  intros Hm Hf env h. destruct ((m ≫= f) env h) as [o t] eqn:E. cbn [snd].
  apply bind_inv in E as [(a & t1 & t2 & E1 & E2 & ->)|(_ & o' & E & _)].
  - rewrite count_app. specialize (Hm env h). rewrite E1 in Hm.
    specialize (Hf a env (h ++ t1)). rewrite E2 in Hf. cbn [snd] in *. lia.
  - specialize (Hm env h). rewrite E in Hm. cbn [snd] in Hm. lia.
Qed.

Lemma at_most_none {A} p n (m : M A) : emits (λ e, p e = false) m → at_most p n m.
Proof. intros H env h. rewrite count_none; [lia|apply H]. Qed.

(** The second part of a sequence, after a first part that succeeded *)
Lemma emits_bind_ok {A B} P (m : M A) (f : A → M B) :
  emits P m → (∀ a env h t, m env h = (Ok a, t) → Forall P (snd (f a env (h ++ t)))) →
  emits P (m ≫= f).
Proof.
  intros Hm Hf env h. destruct ((m ≫= f) env h) as [o t] eqn:E. cbn [snd].
  apply bind_inv in E as [(a & t1 & t2 & E1 & E2 & ->)|(_ & o' & E & _)].
  - apply Forall_app. split; [specialize (Hm env h); by rewrite E1 in Hm|].
    specialize (Hf a env h t1 E1). by rewrite E2 in Hf.
  - specialize (Hm env h). by rewrite E in Hm.
Qed.

Ltac as_emits :=
  match goal with |- ∀ env h, Forall ?P (snd (@?m env h)) => change (emits P m) end; cbv beta.

(** Prove what a computation may emit by following its structure; the goals
    left are those of its calls. *)
Ltac emits_step :=
  lazymatch goal with
  | |- emits _ (_ ≫= _) => apply emits_bind; [|intros ?]
  | |- emitsS _ (_ ≫= _) => apply emitsS_bind; [|intros ?]
  | |- emits _ (call _ _) => apply emits_call; intros ?
  | |- emits _ (match ?x with _ => _ end) => destruct x
  | |- emitsS _ (match ?x with _ => _ end) => destruct x
  | |- emits _ (let _ := _ in _) => cbv zeta
  | |- emitsS _ (let _ := _ in _) => cbv zeta
  | |- ∀ _, emits _ _ => intros ?
  | |- ∀ _, emitsS _ _ => intros ?
  end.
Ltac emits_tac := repeat first [emits_step | progress eauto 3 with emits].

(** An environment where every call succeeds and every lister is empty. *)
Definition ctl_ok : ControllerEnv := {|
  ctl_queueGet _ := ItemQuit;
  ctl_podList _ _ := inl [];
  ctl_claimList _ _ := inl [];
  ctl_galeraList _ _ := inl [];
  ctl_galeraLive _ _ _ := inr (mkError NotFound "galera");
  ctl_podOwner _ _ _ _ := None;
  ctl_claimOwner _ _ _ _ := None;
  ctl_backupGet _ _ _ := inr (mkError NotFound "backup");
  ctl_backupStatus _ _ := None;
  ctl_http _ _ _ _ := inl (mkHttpReply 200 (inl (mkHttpResponse "completed" "")))
|}.

Definition env_ok : Env := {|
  env_podCreate _ _ _ := None;
  env_podDelete _ _ _ := None;
  env_podPatch _ _ _ _ := None;
  env_podGet _ _ _ := inr (mkError NotFound "pod");
  env_claimCreate _ _ _ := None;
  env_claimDelete _ _ _ := None;
  env_claimPatch _ _ _ _ := None;
  env_claimGet _ _ _ := inr (mkError NotFound "claim");
  env_exec _ _ _ _ _ := ("| wsrep_local_state_comment | Synced |", None);
  env_serviceCreate _ _ _ := None;
  env_serviceUpdate _ _ _ := None;
  env_serviceDelete _ _ _ := None;
  env_serviceGet _ _ _ := inr (mkError NotFound "service");
  env_pdbCreate _ _ _ := None;
  env_pdbUpdate _ _ _ := None;
  env_pdbGet _ _ _ := inr (mkError NotFound "pdb");
  env_revisionList _ := inl [];
  env_revisionCreate _ cr n := inl (cr, n);
  env_revisionUpdate _ cr n := inl cr;
  env_revisionDelete _ _ := None;
  env_revisionAdopt _ cr := inl cr;
  env_galeraGet _ _ _ := inr (mkError NotFound "galera");
  env_statusUpdate _ _ := None;
  env_secretGet _ _ _ := inl (mkSecret (<["user" := "u"]> (<["password" := "p"]> ∅)));
  env_storageClasses _ := inl [];
  env_configMapGet _ _ _ := inr (mkError NotFound "configmap");
  env_upgradeConfigGet _ _ _ := inr (mkError NotFound "upgradeconfig");
  env_upgradeRuleGet _ _ _ := inr (mkError NotFound "upgraderule");
  env_mapOrder _ := [];
  env_now _ := 0;
  env_rand _ := ["abcde"; "fghij"];
  env_ctl := ctl_ok
|}.

(** Environments that answer some calls in another way *)
Definition env_with_exec (f : history → string → string → string → list string → string * option error) (e : Env) : Env :=
  mkEnv
    e.(env_podCreate) e.(env_podDelete) e.(env_podPatch) e.(env_podGet) e.(env_claimCreate)
    e.(env_claimDelete) e.(env_claimPatch) e.(env_claimGet) (f) e.(env_serviceCreate)
    e.(env_serviceUpdate) e.(env_serviceDelete) e.(env_serviceGet) e.(env_pdbCreate)
    e.(env_pdbUpdate) e.(env_pdbGet) e.(env_revisionList) e.(env_revisionCreate)
    e.(env_revisionUpdate) e.(env_revisionDelete) e.(env_revisionAdopt) e.(env_galeraGet)
    e.(env_statusUpdate) e.(env_secretGet) e.(env_storageClasses) e.(env_configMapGet)
    e.(env_upgradeConfigGet) e.(env_upgradeRuleGet) e.(env_mapOrder) e.(env_now) e.(env_rand)
    e.(env_ctl).
Definition env_with_claims (f : history → string → string → PersistentVolumeClaim + error) (e : Env) : Env :=
  mkEnv
    e.(env_podCreate) e.(env_podDelete) e.(env_podPatch) e.(env_podGet) e.(env_claimCreate)
    e.(env_claimDelete) e.(env_claimPatch) (f) e.(env_exec) e.(env_serviceCreate)
    e.(env_serviceUpdate) e.(env_serviceDelete) e.(env_serviceGet) e.(env_pdbCreate)
    e.(env_pdbUpdate) e.(env_pdbGet) e.(env_revisionList) e.(env_revisionCreate)
    e.(env_revisionUpdate) e.(env_revisionDelete) e.(env_revisionAdopt) e.(env_galeraGet)
    e.(env_statusUpdate) e.(env_secretGet) e.(env_storageClasses) e.(env_configMapGet)
    e.(env_upgradeConfigGet) e.(env_upgradeRuleGet) e.(env_mapOrder) e.(env_now) e.(env_rand)
    e.(env_ctl).
Definition env_with_upgrade (uc : UpgradeConfig) (cm : ConfigMap) (rules : string → UpgradeRule) (e : Env) : Env :=
  mkEnv
    e.(env_podCreate) e.(env_podDelete) e.(env_podPatch) e.(env_podGet) e.(env_claimCreate)
    e.(env_claimDelete) e.(env_claimPatch) e.(env_claimGet) e.(env_exec) e.(env_serviceCreate)
    e.(env_serviceUpdate) e.(env_serviceDelete) e.(env_serviceGet) e.(env_pdbCreate)
    e.(env_pdbUpdate) e.(env_pdbGet) e.(env_revisionList) e.(env_revisionCreate)
    e.(env_revisionUpdate) e.(env_revisionDelete) e.(env_revisionAdopt) e.(env_galeraGet)
    e.(env_statusUpdate) e.(env_secretGet) e.(env_storageClasses) (λ _ _ _, inl cm)
    (λ _ _ _, inl uc) (λ _ _ name, inl (rules name)) e.(env_mapOrder) e.(env_now) e.(env_rand)
    e.(env_ctl).
Definition env_with_controller (galeraGet : history → string → string → Galera + error)
    (revisions : history → list ControllerRevision + error)
    (adopt : history → ControllerRevision → ControllerRevision + error)
    (ctl : ControllerEnv) (e : Env) : Env :=
  mkEnv
    e.(env_podCreate) e.(env_podDelete) e.(env_podPatch) e.(env_podGet) e.(env_claimCreate)
    e.(env_claimDelete) e.(env_claimPatch) e.(env_claimGet) e.(env_exec) e.(env_serviceCreate)
    e.(env_serviceUpdate) e.(env_serviceDelete) e.(env_serviceGet) e.(env_pdbCreate)
    e.(env_pdbUpdate) e.(env_pdbGet) revisions e.(env_revisionCreate)
    e.(env_revisionUpdate) e.(env_revisionDelete) adopt galeraGet
    e.(env_statusUpdate) e.(env_secretGet) e.(env_storageClasses) e.(env_configMapGet)
    e.(env_upgradeConfigGet) e.(env_upgradeRuleGet) e.(env_mapOrder) e.(env_now) e.(env_rand)
    ctl.

Definition env_with_objects (serviceGet : history → string → string → Service + error)
    (pdbGet : history → string → string → PodDisruptionBudget + error)
    (revisions : history → list ControllerRevision + error) (e : Env) : Env :=
  mkEnv
    e.(env_podCreate) e.(env_podDelete) e.(env_podPatch) e.(env_podGet) e.(env_claimCreate)
    e.(env_claimDelete) e.(env_claimPatch) e.(env_claimGet) e.(env_exec) e.(env_serviceCreate)
    e.(env_serviceUpdate) e.(env_serviceDelete) serviceGet e.(env_pdbCreate)
    e.(env_pdbUpdate) pdbGet revisions e.(env_revisionCreate)
    e.(env_revisionUpdate) e.(env_revisionDelete) e.(env_revisionAdopt) e.(env_galeraGet)
    e.(env_statusUpdate) e.(env_secretGet) e.(env_storageClasses) e.(env_configMapGet)
    e.(env_upgradeConfigGet) e.(env_upgradeRuleGet) e.(env_mapOrder) e.(env_now) e.(env_rand)
    e.(env_ctl).

Definition ctl_with_http (http : history → string → string → option S3Document → httpReply + error)
    (c : ControllerEnv) : ControllerEnv :=
  mkControllerEnv c.(ctl_queueGet) c.(ctl_podList) c.(ctl_claimList) c.(ctl_galeraList)
    c.(ctl_galeraLive) c.(ctl_podOwner) c.(ctl_claimOwner) c.(ctl_backupGet) c.(ctl_backupStatus) http.

Definition env_with_lookups (podGet : history → string → string → Pod + error)
    (secret : history → string → string → Secret + error) (ctl : ControllerEnv) (e : Env) : Env :=
  mkEnv
    e.(env_podCreate) e.(env_podDelete) e.(env_podPatch) podGet e.(env_claimCreate)
    e.(env_claimDelete) e.(env_claimPatch) e.(env_claimGet) e.(env_exec) e.(env_serviceCreate)
    e.(env_serviceUpdate) e.(env_serviceDelete) e.(env_serviceGet) e.(env_pdbCreate)
    e.(env_pdbUpdate) e.(env_pdbGet) e.(env_revisionList) e.(env_revisionCreate)
    e.(env_revisionUpdate) e.(env_revisionDelete) e.(env_revisionAdopt) e.(env_galeraGet)
    e.(env_statusUpdate) secret e.(env_storageClasses) e.(env_configMapGet)
    e.(env_upgradeConfigGet) e.(env_upgradeRuleGet) e.(env_mapOrder) e.(env_now) e.(env_rand)
    ctl.

Definition ctl_with_claims (claims : history → string → list PersistentVolumeClaim + error)
    (c : ControllerEnv) : ControllerEnv :=
  mkControllerEnv c.(ctl_queueGet) c.(ctl_podList) claims c.(ctl_galeraList)
    c.(ctl_galeraLive) c.(ctl_podOwner) c.(ctl_claimOwner) c.(ctl_backupGet) c.(ctl_backupStatus)
    c.(ctl_http).
