(* ===== verification/Ownership.v ===== *)
(** * Who owns pods and claims

    Models [GetPodGaleras] and [GetClaimGaleras] of
    [pkg/client/listers/apigalera/v1beta2/expansion.go] and the manager of the
    owners of claims of [galera_claim_control.go].

    The helpers of [apimachinery] and the base manager of Kubernetes are
    parameters, with what they document as laws.  [metav1.Object] is the class
    [MetaObject]. *)
From S2P Require Import Prelude Types Objects Names PodLib Kube.

(** ** Objects with metadata *)

Class MetaObject (A : Type) := {
  GetName : A → string;
  GetNamespace : A → string;
  GetUID : A → string;
  GetResourceVersion : A → string;
  GetLabels : A → labels_t;
  GetOwnerReferences : A → list OwnerReference;
  GetDeletionTimestamp : A → bool }.

#[global] Instance Pod_MetaObject : MetaObject Pod := {|
  GetName := pod_Name;
  GetNamespace := pod_Namespace;
  GetUID := pod_UID;
  GetResourceVersion := pod_ResourceVersion;
  GetLabels := pod_Labels;
  GetOwnerReferences := pod_OwnerReferences;
  GetDeletionTimestamp := pod_DeletionTimestamp |}.

#[global] Instance Claim_MetaObject : MetaObject PersistentVolumeClaim := {|
  GetName := claim_Name;
  GetNamespace := claim_Namespace;
  GetUID := claim_UID;
  GetResourceVersion := claim_ResourceVersion;
  GetLabels := claim_Labels;
  GetOwnerReferences := claim_OwnerReferences;
  GetDeletionTimestamp := claim_DeletionTimestamp |}.

(** ** Parameters: the helpers of apimachinery *)

Record Selector := mkSelector { sel_Empty : bool; sel_Matches : labels_t → bool }.

Class ApiMachinery := {
  GetControllerOf : list OwnerReference → option OwnerReference;
  LabelSelectorAsSelector : gmap string string → Selector + error;
  NewAggregate : list error → option error;
  MetaNamespaceKeyFunc : string → string → string;
  SplitMetaNamespaceKey : string → (string * string) + error }.

(** The controller of an object is the owner marked as such; a selector made
    from a set matches the labels that contain the set; an aggregate of no error
    is nil; a key is split into the names it was made from. *)
Class ApiMachineryLaws `{ApiMachinery} := {
  GetControllerOf_some l r :
    GetControllerOf l = Some r → r ∈ l ∧ r.(own_Controller) = Some true;
  GetControllerOf_none l : GetControllerOf l = None → ∀ r, r ∈ l → r.(own_Controller) ≠ Some true;
  selector_matches m sel : LabelSelectorAsSelector m = inl sel →
    (∀ l, sel.(sel_Matches) l = true ↔ selects m (default ∅ l)) ∧
    (sel.(sel_Empty) = true ↔ m = ∅);
  NewAggregate_none l : NewAggregate l = None ↔ l = [];
  SplitMetaNamespaceKey_key ns name : ns ≠ "" →
    str_forall (not_char "/") ns = true → str_forall (not_char "/") name = true →
    SplitMetaNamespaceKey (MetaNamespaceKeyFunc ns name) = inl (ns, name) }.

(** [SelectorForGalera] of [pkg/galera/utils.go] *)
Definition SelectorForGalera `{ApiMachinery} (clusterName clusterNamespace : string)
    : Selector + error :=
  LabelSelectorAsSelector (labelsForGalera clusterName clusterNamespace).

(** [controllerKind] *)
Definition controllerKind_Kind : string := "Galera".
Definition controllerKind_GroupVersion : string := SchemeGroupVersion.

(** ** The Galeras an orphan may belong to *)

Section expansion.
Context `{ApiMachinery} {A : Type} `{MetaObject A}.

(** The loop over the Galeras of the namespace *)
Fixpoint matchingGaleras (ns : string) (labels : labels_t) (l : list Galera)
    : list Galera + error :=
  match l with
  | [] => inl []
  | pg :: l' =>
      if decide (pg.(g_Namespace) ≠ ns) then matchingGaleras ns labels l'
      else
        match SelectorForGalera pg.(g_Name) pg.(g_Namespace) with
        | inr _ => inr (errorf "invalid selector")
        | inl selector =>
            if selector.(sel_Empty) || negb (selector.(sel_Matches) labels)
            then matchingGaleras ns labels l'
            else match matchingGaleras ns labels l' with
                 | inl pgList => inl (pg :: pgList)
                 | inr e => inr e
                 end
        end
  end.

(** The text of [GetPodGaleras], which [GetClaimGaleras] repeats for a claim *)
Definition getObjectGaleras (obj : A) : M (list Galera) :=
  if decide (default ∅ (GetLabels obj) = ∅)
  then errM (errorf ("no Galeras found for " +:+ GetName obj +:+ " because it has no labels"))
  else
    list ← galeraList (GetNamespace obj);
    pgList ← orErr (matchingGaleras (GetNamespace obj) (GetLabels obj) list);
    match pgList with
    | [] => errM (errorf ("could not find Galera for " +:+ GetName obj))
    | _ => mret pgList
    end.
End expansion.

Definition GetPodGaleras `{ApiMachinery} (pod : Pod) : M (list Galera) := getObjectGaleras pod.
Definition GetClaimGaleras `{ApiMachinery} (claim : PersistentVolumeClaim) : M (list Galera) :=
  getObjectGaleras claim.

(** ** Parameters: the base manager of owners

    [S] is the state of the manager, which remembers the answer of
    [CanAdoptFunc].  An error is returned as a value, since the loops of the
    callers go on after it. *)
Class RefManager := {
  CanAdopt : M (option error) → option (option error) → M (option error * option (option error));
  RecheckDeletionTimestamp : M Galera → M (option error);
  ClaimObject : ∀ {A : Type} `{MetaObject A} {S : Type}, Galera → A → bool →
    (S → M (option error * S)) → (S → M (option error * S)) → S → M ((bool + error) * S);
  ClaimPods : Galera → Selector → (Pod → bool) → M (option error) → list Pod → M (list Pod) }.

(** What [ClaimObject] may do with an object *)
Inductive claim_runs `{ApiMachinery} {A} `{MetaObject A} {S : Type} (owner : Galera) (obj : A)
    (matches : bool) (adopt release : S → M (option error * S)) (s : S) (env : Env) (h : history)
    : outcome ((bool + error) * S) → history → Prop :=
| claim_other r :
    GetControllerOf (GetOwnerReferences obj) = Some r → r.(own_UID) ≠ owner.(g_UID) →
    claim_runs owner obj matches adopt release s env h (Ok (inl false, s)) []
| claim_mine r :
    GetControllerOf (GetOwnerReferences obj) = Some r → r.(own_UID) = owner.(g_UID) →
    matches = true →
    claim_runs owner obj matches adopt release s env h (Ok (inl true, s)) []
| claim_not_reconciled :
    (owner.(g_DeletionTimestamp) = true ∨ GetDeletionTimestamp obj = true ∨
     GetControllerOf (GetOwnerReferences obj) = None ∧ matches = false) →
    (GetControllerOf (GetOwnerReferences obj) = None ∨ matches = false) →
    claim_runs owner obj matches adopt release s env h (Ok (inl false, s)) []
| claim_release r o t :
    GetControllerOf (GetOwnerReferences obj) = Some r → r.(own_UID) = owner.(g_UID) →
    matches = false → owner.(g_DeletionTimestamp) = false → release s env h = (o, t) →
    claim_runs owner obj matches adopt release s env h
      (match o with
       | Ok (None, s') => Ok (inl false, s')
       | Ok (Some e, s') => Ok (if decide (e.(err_kind) = NotFound) then inl false else inr e, s')
       | Err e => Err e | Panic => Panic | OutOfFuel => OutOfFuel
       end) t
| claim_adopt o t :
    GetControllerOf (GetOwnerReferences obj) = None → matches = true →
    owner.(g_DeletionTimestamp) = false → adopt s env h = (o, t) →
    claim_runs owner obj matches adopt release s env h
      (match o with
       | Ok (None, s') => Ok (inl true, s')
       | Ok (Some e, s') => Ok (if decide (e.(err_kind) = NotFound) then inl false else inr e, s')
       | Err e => Err e | Panic => Panic | OutOfFuel => OutOfFuel
       end) t.

(** The answer of [CanAdoptFunc] is asked once; the recheck succeeds only when
    the object was read and is not being deleted; a claimed pod is one of the
    listed ones, selected, and owned already or adopted in this call, and pods
    are adopted only after the check. *)
Class RefManagerLaws `{ApiMachinery} `{RefManager} := {
  CanAdopt_once f e env h : CanAdopt f (Some e) env h = (Ok (e, Some e), []);
  CanAdopt_first f env h : CanAdopt f None env h = (e ← f; mret (e, Some e)) env h;
  Recheck_runs get env h :
    (∃ g t, get env h = (Ok g, t) ∧ g.(g_DeletionTimestamp) = false ∧
            RecheckDeletionTimestamp get env h = (Ok None, t)) ∨
    (∃ g t e, get env h = (Ok g, t) ∧ g.(g_DeletionTimestamp) = true ∧
              RecheckDeletionTimestamp get env h = (Ok (Some e), t)) ∨
    (∃ e t e', get env h = (Err e, t) ∧ RecheckDeletionTimestamp get env h = (Ok (Some e'), t)) ∨
    (∃ o t, get env h = (o, t) ∧ (o = Panic ∨ o = OutOfFuel) ∧
            is_ok (fst (RecheckDeletionTimestamp get env h)) = false ∧
            snd (RecheckDeletionTimestamp get env h) = t);
  ClaimObject_runs {A} `{MetaObject A} {S} owner (obj : A) matches
      (adopt release : S → M (option error * S)) s env h :
    claim_runs owner obj matches adopt release s env h
      (fst (ClaimObject owner obj matches adopt release s env h))
      (snd (ClaimObject owner obj matches adopt release s env h));
  ClaimPods_emits (P : event → Prop) owner sel filter canAdopt pods :
    emits P canAdopt → (∀ ns name data err, P (EvPodOwner ns name data err)) →
    emits P (ClaimPods owner sel filter canAdopt pods);
  ClaimPods_claimed owner sel filter canAdopt pods env h claimed t :
    ClaimPods owner sel filter canAdopt pods env h = (Ok claimed, t) →
    sublist claimed pods ∧
    ∀ pod, pod ∈ claimed →
      sel.(sel_Matches) pod.(pod_Labels) = true ∧ filter pod = true ∧
      ((∃ r, GetControllerOf pod.(pod_OwnerReferences) = Some r ∧ r.(own_UID) = owner.(g_UID)) ∨
       GetControllerOf pod.(pod_OwnerReferences) = None ∧
       owner.(g_DeletionTimestamp) = false ∧
       ∃ data, EvPodOwner pod.(pod_Namespace) pod.(pod_Name) data None ∈ t) }.

(** ** The manager of the owners of claims *)

(** [quoted s]: the text between double quotes *)
Definition dquote : string := String (ascii_of_nat 34) EmptyString.
Definition quoted (s : string) : string := dquote +:+ s +:+ dquote.

(** A member of a JSON object whose value is a text *)
Definition json_text (key value : string) : string := quoted key +:+ ":" +:+ quoted value.

Section claims.
Context `{ApiMachinery} `{RefManager}.

Record ClaimControllerRefManager := mkClaimManager {
  cm_Controller : Galera;
  cm_Selector : Selector;
  cm_CanAdoptFunc : M (option error) }.

Definition NewClaimControllerRefManager (controller : Galera) (selector : Selector)
    (canAdopt : M (option error)) : ClaimControllerRefManager :=
  mkClaimManager controller selector canAdopt.

Definition PatchClaim (namespace name data : string) : M unit := claimOwner namespace name data.

Definition addControllerPatch (g : Galera) (claim : PersistentVolumeClaim) : string :=
  "{" +:+ quoted "metadata" +:+ ":{" +:+ quoted "ownerReferences" +:+ ":[{"
  +:+ json_text "apiVersion" controllerKind_GroupVersion +:+ ","
  +:+ json_text "kind" controllerKind_Kind +:+ ","
  +:+ json_text "name" g.(g_Name) +:+ "," +:+ json_text "uid" g.(g_UID) +:+ ","
  +:+ quoted "controller" +:+ ":true," +:+ quoted "blockOwnerDeletion" +:+ ":true}],"
  +:+ json_text "uid" claim.(claim_UID) +:+ "}}".

Definition deleteOwnerRefPatch (g : Galera) (claim : PersistentVolumeClaim) : string :=
  "{" +:+ quoted "metadata" +:+ ":{" +:+ quoted "ownerReferences" +:+ ":[{"
  +:+ json_text "$patch" "delete" +:+ "," +:+ json_text "uid" g.(g_UID) +:+ "}],"
  +:+ json_text "uid" claim.(claim_UID) +:+ "}}".

Definition AdoptClaim (m : ClaimControllerRefManager) (claim : PersistentVolumeClaim)
    (s : option (option error)) : M (option error * option (option error)) :=
  '(err, s) ← CanAdopt m.(cm_CanAdoptFunc) s;
  match err with
  | Some e => mret (Some (errorf ("can't adopt claim " +:+ claim.(claim_Namespace) +:+ "/"
                +:+ claim.(claim_Name) +:+ " (" +:+ claim.(claim_UID) +:+ "): " +:+ e.(err_msg))), s)
  | None =>
      err ← errOf (PatchClaim claim.(claim_Namespace) claim.(claim_Name)
                     (addControllerPatch m.(cm_Controller) claim));
      mret (err, s)
  end.

Definition ReleaseClaim (m : ClaimControllerRefManager) (claim : PersistentVolumeClaim)
    (s : option (option error)) : M (option error * option (option error)) :=
  err ← errOf (PatchClaim claim.(claim_Namespace) claim.(claim_Name)
                 (deleteOwnerRefPatch m.(cm_Controller) claim));
  match err with
  | Some e => if decide (e.(err_kind) = NotFound) then mret (None, s)
              else if decide (e.(err_kind) = Invalid) then mret (None, s)
              else mret (Some e, s)
  | None => mret (None, s)
  end.

(** [match]: the filters run on the claims the selector matches. *)
Definition claimMatches (m : ClaimControllerRefManager)
    (filter : PersistentVolumeClaim → bool) (claim : PersistentVolumeClaim) : bool :=
  m.(cm_Selector).(sel_Matches) claim.(claim_Labels) && filter claim.

Fixpoint claimLoop (m : ClaimControllerRefManager) (filter : PersistentVolumeClaim → bool)
    (claims : list PersistentVolumeClaim) (s : option (option error))
    : M (list PersistentVolumeClaim * list error) :=
  match claims with
  | [] => mret ([], [])
  | claim :: claims' =>
      '(r, s) ← ClaimObject m.(cm_Controller) claim (claimMatches m filter claim)
                  (AdoptClaim m claim) (ReleaseClaim m claim) s;
      '(claimed, errlist) ← claimLoop m filter claims' s;
      mret (match r with
            | inr err => (claimed, err :: errlist)
            | inl true => (claim :: claimed, errlist)
            | inl false => (claimed, errlist)
            end)
  end.

(** The callers drop the claims when there is an error. *)
Definition ClaimClaims (m : ClaimControllerRefManager) (filter : PersistentVolumeClaim → bool)
    (claims : list PersistentVolumeClaim) : M (list PersistentVolumeClaim) :=
  '(claimed, errlist) ← claimLoop m filter claims None;
  match NewAggregate errlist with
  | None => mret claimed
  | Some e => errM e
  end.
End claims.

(** ** Lemmas on the manager of claims *)

Lemma patches_differ g c g' c' : addControllerPatch g c ≠ deleteOwnerRefPatch g' c'.
Proof. unfold addControllerPatch, deleteOwnerRefPatch, json_text, quoted, dquote. cbn. discriminate. Qed.

#[global] Opaque addControllerPatch deleteOwnerRefPatch.

(** A call whose error is a value *)
Lemma errOf_call (f : Env → history → option error) ev env h :
  errOf (e ← call f ev; retErr e) env h = (Ok (f env h), [ev (f env h)]).
Proof. unM. by destruct (f env h). Qed.

(** Patches of the owner of a claim *)
Definition is_claimOwner (e : event) : Prop :=
  match e with EvClaimOwner _ _ _ _ => True | _ => False end.

(** Adoption by a Galera *)
Definition is_adoption (g : Galera) (e : event) : Prop :=
  match e with
  | EvClaimOwner _ _ data _ => ∃ claim, data = addControllerPatch g claim
  | _ => False
  end.

Lemma is_adoption_owner g e : is_adoption g e → is_claimOwner e.
Proof. by destruct e. Qed.

Section owned.
Context `{ApiMachinery}.

(** The Galera controls the object. *)
Definition controlled_by {A} `{MetaObject A} (g : Galera) (obj : A) : Prop :=
  ∃ r, GetControllerOf (GetOwnerReferences obj) = Some r ∧ r.(own_UID) = g.(g_UID).

(** Nobody controls the object. *)
Definition orphaned {A} `{MetaObject A} (obj : A) : Prop :=
  GetControllerOf (GetOwnerReferences obj) = None.

Context `{!RefManager, !RefManagerLaws}.
Context (m : ClaimControllerRefManager) (filter : PersistentVolumeClaim → bool).
Context (Hfunc : emits (λ e, ¬ is_claimOwner e) m.(cm_CanAdoptFunc)).

Let g := m.(cm_Controller).

(** The patches of the owner of a claim that may be sent *)
Definition adopts (claim : PersistentVolumeClaim) (err : option error) : event :=
  EvClaimOwner claim.(claim_Namespace) claim.(claim_Name) (addControllerPatch g claim) err.
Definition releases (claim : PersistentVolumeClaim) (err : option error) : event :=
  EvClaimOwner claim.(claim_Namespace) claim.(claim_Name) (deleteOwnerRefPatch g claim) err.

(** The check passed: before, in the state of the manager, or now. *)
Definition check_passed (s : option (option error)) (env : Env) (h : history) (t : history) : Prop :=
  s = Some None ∧ t = [] ∨ s = None ∧ m.(cm_CanAdoptFunc) env h = (Ok None, t).

Lemma CanAdopt_inv s env h o t :
  CanAdopt m.(cm_CanAdoptFunc) s env h = (o, t) →
  Forall (λ e, ¬ is_claimOwner e) t ∧
  (∀ err s', o = Ok (err, s') → s' = Some err ∧ (err = None → check_passed s env h t)).
Proof.
  destruct s as [err|].
  - rewrite CanAdopt_once. intros [= <- <-]. split; [constructor|]. intros ? ? [= <- <-].
    split; [done|]. intros ->. by left.
  - rewrite CanAdopt_first. intros E. apply bind_inv in E as [(e & t1 & t2 & E1 & E2 & ->)|E].
    + injection E2 as <- <-. rewrite app_nil_r. pose proof (Hfunc env h) as Hf. rewrite E1 in Hf.
      split; [done|]. intros ? ? [= <- <-]. split; [done|]. intros ->. by right.
    + destruct E as (Ho & o' & E1 & _). pose proof (Hfunc env h) as Hf. rewrite E1 in Hf.
      split; [done|]. intros ? ? ->. done.
Qed.

Lemma AdoptClaim_inv claim s env h o t :
  AdoptClaim m claim s env h = (o, t) →
  ∃ tc, Forall (λ e, ¬ is_claimOwner e) tc ∧
    ((t = tc ∧ (∀ err s', o = Ok (err, s') → err ≠ None ∧ s' ≠ Some None)) ∨
     (∃ err, t = tc ++ [adopts claim err] ∧ o = Ok (err, Some None) ∧ check_passed s env h tc)).
Proof.
  unfold AdoptClaim. intros E.
  apply bind_inv in E as [([err s1] & t1 & t2 & E1 & E2 & ->)|(Ho & o' & E1 & _)];
    apply CanAdopt_inv in E1 as [HF Hs].
  - destruct (Hs _ _ eq_refl) as [-> Hp]. exists t1. split; [done|]. destruct err as [e|].
    + injection E2 as <- <-. left. rewrite app_nil_r. split; [done|]. by intros ? ? [= <- <-].
    + right. unfold PatchClaim, claimOwner in E2.
      rewrite (bind_Ok _ _ _ _ _ _ (errOf_call _ _ _ _)) in E2. cbn in E2.
      rewrite ?app_nil_r in E2. injection E2 as <- <-. eexists. split_and!; [done..|]. by apply Hp.
  - exists t. split; [done|]. left. split; [done|]. by intros ? ? ->.
Qed.

Lemma ReleaseClaim_inv claim s env h o t :
  ReleaseClaim m claim s env h = (o, t) →
  ∃ err, t = [releases claim err] ∧
    o = Ok (match err with
            | Some e => if decide (e.(err_kind) = NotFound ∨ e.(err_kind) = Invalid) then None else Some e
            | None => None
            end, s).
Proof.
  unfold ReleaseClaim, PatchClaim, claimOwner. intros E.
  rewrite (bind_Ok _ _ _ _ _ _ (errOf_call _ _ _ _)) in E.
  destruct (ctl_claimOwner _ _ _ _ _) as [e|]; [exists (Some e)|exists None; by injection E as <- <-].
  revert E. repeat case_decide; try tauto; by intros [= <- <-].
Qed.

(** What the base manager does with a claim *)
Definition claim_result (claim : PersistentVolumeClaim) (s : option (option error)) (env : Env)
    (h : history) (o : outcome ((bool + error) * option (option error))) (t : history) : Prop :=
  let matches := claimMatches m filter claim in
  ∃ tc, Forall (λ e, ¬ is_claimOwner e) tc ∧
    ((t = tc ∧ (∀ r s', o = Ok (r, s') →
        (s' = Some None → s = Some None) ∧
        (r = inl true → matches = true ∧ controlled_by g claim) ∧
        (controlled_by g claim → matches = true → r = inl true))) ∨
     (g.(g_DeletionTimestamp) = false ∧ matches = true ∧ orphaned claim ∧
      check_passed s env h tc ∧ ∃ err r, t = tc ++ [adopts claim err] ∧ o = Ok (r, Some None) ∧
        (r = inl true → err = None)) ∨
     (g.(g_DeletionTimestamp) = false ∧ matches = false ∧ controlled_by g claim ∧
      ∃ err r, t = [releases claim err] ∧ o = Ok (r, s) ∧ r ≠ inl true)).

Lemma ClaimObject_result claim s env h o t :
  ClaimObject g claim (claimMatches m filter claim) (AdoptClaim m claim) (ReleaseClaim m claim)
    s env h = (o, t) →
  claim_result claim s env h o t.
Proof.
  intros E. pose proof (ClaimObject_runs g claim (claimMatches m filter claim) (AdoptClaim m claim)
    (ReleaseClaim m claim) s env h) as Hr. rewrite E in Hr. cbn [fst snd] in Hr.
  unfold claim_result, controlled_by, orphaned. inversion Hr as [r Hc Hu|r Hc Hu Hm|Hx Hy|r o' t' Hc Hu Hm Hd E'|o' t' Hc Hm Hd E']; subst.
  - exists []. split; [constructor|]. left. split; [done|]. intros ? ? [= <- <-].
    split_and!; [done..|]. intros (r' & Hr' & Hu') _. by rewrite Hc in Hr'; simplify_eq.
  - exists []. split; [constructor|]. left. split; [done|]. intros ? ? [= <- <-]. eauto 10.
  - exists []. split; [constructor|]. left. split; [done|]. intros ? ? [= <- <-].
    split_and!; [done..|]. intros (r' & Hr' & _) Hm'. destruct Hy; congruence.
  - apply ReleaseClaim_inv in E' as (err & -> & ->). exists []. split; [constructor|].
    right. right. split_and!; [done..|eauto|]. destruct err as [e|]; [|by eexists _, _].
    exists (Some e). case_decide; eexists; (split_and!; [done..|]); by try case_decide.
  - apply AdoptClaim_inv in E' as (tc & HF & [[-> Ho]|(err & -> & -> & Hp)]).
    + exists tc. split; [done|]. left. split; [done|]. intros r s' Er.
      destruct o' as [[err' s1]|e| |]; try done. destruct (Ho _ _ eq_refl) as [Hn Hs1].
      destruct err' as [e|]; [|done]. injection Er as <- <-. split_and!; [done|by case_decide|].
      intros (r' & Hr' & _). congruence.
    + exists tc. split; [done|]. right. left. split_and!; [done..|]. exists err.
      destruct err as [e|]; eexists; (split_and!; [done..|]); by try case_decide.
Qed.

(** A fact about a trace that holds once the check passed, and goes on to hold *)
Context (Q : history → Prop).
Context (Hpass : ∀ env h t, m.(cm_CanAdoptFunc) env h = (Ok None, t) → ∀ l, Q (l ++ t)).
Context (Hmono : ∀ l k, Q l → Q (l ++ k)).

(** A patch is for a claim that may be adopted or has to be released. *)
Definition justified (claims : list PersistentVolumeClaim) (e : event) : Prop :=
  is_claimOwner e →
  g.(g_DeletionTimestamp) = false ∧
  ∃ claim err, claim ∈ claims ∧
    (orphaned claim ∧ claimMatches m filter claim = true ∧ e = adopts claim err ∨
     controlled_by g claim ∧ claimMatches m filter claim = false ∧ e = releases claim err).

(** The claim is one of the Galera's. *)
Definition owns (t : history) (claim : PersistentVolumeClaim) : Prop :=
  claimMatches m filter claim = true ∧
  (controlled_by g claim ∨ orphaned claim ∧ adopts claim None ∈ t).

Lemma check_passed_Q s env h t pre : (s = Some None → Q pre) → check_passed s env h t → Q (pre ++ t).
Proof.
  intros Hs [[-> ->]|[_ E]]; [rewrite app_nil_r; auto|eauto].
Qed.

Lemma claim_result_inv claim s env h o t pre :
  (s = Some None → Q pre) → claim_result claim s env h o t →
  preceded (is_adoption g) (λ _ t1, Q (pre ++ t1)) t ∧ Forall (justified [claim]) t ∧
  ∀ r s', o = Ok (r, s') →
    (s' = Some None → Q (pre ++ t)) ∧ (r = inl true → owns t claim) ∧
    (controlled_by g claim → claimMatches m filter claim = true → r = inl true).
Proof.
  intros Hs (tc & HF & [(-> & Ho)|[(Hd & Hm & Horph & Hp & err & r & -> & -> & Hr)|
    (Hd & Hm & Hc & err & r & -> & -> & Hr)]]).
  - split_and!.
    + apply preceded_none. eapply Forall_impl; [exact HF|]. intros e He Ha. by apply He, (is_adoption_owner g).
    + eapply Forall_impl; [exact HF|]. by intros e He Ha.
    + intros r s' E. destruct (Ho _ _ E) as (Hs' & Hown & ?).
      split_and!; [auto|intros Hr; destruct (Hown Hr); split; auto|done].
  - pose proof (check_passed_Q _ _ _ _ pre Hs Hp) as HQ. split_and!.
    + apply preceded_app.
      * apply preceded_none. eapply Forall_impl; [exact HF|]. intros e He Ha. by apply He, (is_adoption_owner g).
      * intros t1 e t2 E _. destruct t1; [|by destruct t1]. by rewrite app_nil_r.
    + apply Forall_app. split; [eapply Forall_impl; [exact HF|]; by intros e He Ha|].
      apply Forall_singleton. intros _. split; [done|]. exists claim, err. split; [set_solver|]. by left.
    + intros ? ? [= <- <-]. split_and!.
      * intros _. rewrite app_assoc. auto.
      * intros ->. rewrite (Hr eq_refl). split; [done|]. right. split; [done|]. set_solver.
      * intros (r' & Hr' & _). unfold orphaned in Horph. congruence.
  - split_and!.
    + apply preceded_none. apply Forall_singleton. intros [c E]. exact (patches_differ _ _ _ _ (eq_sym E)).
    + apply Forall_singleton. intros _. split; [done|]. exists claim, err. split; [set_solver|]. by right.
    + intros ? ? [= <- <-]. split_and!; [auto|done|congruence].
Qed.

Lemma claimLoop_inv claims s env h o t pre :
  (s = Some None → Q pre) → claimLoop m filter claims s env h = (o, t) →
  preceded (is_adoption g) (λ _ t1, Q (pre ++ t1)) t ∧ Forall (justified claims) t ∧
  ∀ claimed errs, o = Ok (claimed, errs) →
    sublist claimed claims ∧ (∀ c, c ∈ claimed → owns t c) ∧
    (∀ c, c ∈ claims → controlled_by g c → claimMatches m filter c = true → errs = [] → c ∈ claimed).
Proof.
  revert s h o t pre. induction claims as [|c claims IH]; intros s h o t pre Hs E; cbn in E.
  { injection E as <- <-. split_and!; [by apply preceded_none|constructor|].
    intros ? ? [= <- <-]. split_and!; [done|set_solver..]. }
  assert (Hc1 : ∀ x, x ∈ [c] → x ∈ c :: claims) by (clear; set_solver).
  assert (Hc2 : ∀ x, x ∈ claims → x ∈ c :: claims) by (clear; set_solver).
  apply bind_inv in E as [([r s1] & t1 & t2 & E1 & E & ->)|(Ho & o' & E1 & Hno)];
    apply ClaimObject_result in E1; apply (claim_result_inv _ _ _ _ _ _ pre Hs) in E1 as (Hp1 & HF1 & Hr1).
  2:{ split_and!; [done| |intros; by subst]. eapply Forall_impl; [exact HF1|].
      intros e He Ha. destruct (He Ha) as (? & c' & err & Hc' & ?). split; [done|]. exists c', err. auto. }
  destruct (Hr1 _ _ eq_refl) as (HQ1 & Hown1 & Hkeep1).
  assert (Hweak : ∀ l l' t, (∀ x, x ∈ l → x ∈ l') → Forall (justified l) t → Forall (justified l') t).
  { intros l l' t' Hl HF. eapply Forall_impl; [exact HF|].
    intros e He Ha. destruct (He Ha) as (? & c' & err & Hc' & ?). split; [done|]. exists c', err. auto. }
  apply bind_inv in E as [([claimed errlist] & t3 & t4 & E2 & E & ->)|(Ho & o' & E2 & Hno)];
    apply (IH _ _ _ _ (pre ++ t1)) in E2 as (Hp2 & HF2 & Hr2); auto.
  2:{ split_and!; [apply preceded_app; [done|]|apply Forall_app|intros; by subst].
      - intros ta e tb Et He. specialize (Hp2 ta e tb Et He). by rewrite app_assoc.
      - split; (eapply Hweak; [|done]); auto. }
  injection E as <- <-. rewrite app_nil_r. split_and!.
  - apply preceded_app; [done|]. intros ta e tb Et He. specialize (Hp2 ta e tb Et He). by rewrite app_assoc.
  - apply Forall_app. split; (eapply Hweak; [|done]); auto.
  - intros cl errs [= Ecl]. destruct (Hr2 _ _ eq_refl) as (Hsub & Hown & Hkeep).
    assert (Hmon : ∀ x, owns t1 x ∨ owns t3 x → owns (t1 ++ t3) x).
    { unfold owns. intros x [[? [?|[? ?]]]|[? [?|[? ?]]]]; split; auto; right; (split; [done|]); apply elem_of_app; auto. }
    destruct r as [[]|err]; injection Ecl as <- <-; split_and!.
    + by apply sublist_skip.
    + intros x [->|Hx]%elem_of_cons; apply Hmon; auto.
    + intros x [->|Hx]%elem_of_cons Hc Hm Hn; apply elem_of_cons; auto.
    + by apply sublist_cons.
    + intros x Hx. apply Hmon. auto.
    + intros x [->|Hx]%elem_of_cons Hc Hm Hn; [by specialize (Hkeep1 Hc Hm)|]. auto.
    + by apply sublist_cons.
    + intros x Hx. apply Hmon. auto.
    + intros x _ _ _ Hn. done.
Qed.
End owned.

(** The manager emits what the check emits, and patches of owners. *)
Section emits.
Context `{RefManagerLaws} (P : event → Prop) (m : ClaimControllerRefManager).
Context (Hfunc : emits P m.(cm_CanAdoptFunc)).
Context (Hpatch : ∀ ns name data err, P (EvClaimOwner ns name data err)).

Lemma emits_CanAdopt s : emits P (CanAdopt m.(cm_CanAdoptFunc) s).
Proof.
  intros env h. destruct s as [e|]; [by rewrite CanAdopt_once|]. rewrite CanAdopt_first.
  apply emits_bind; [done|intros ?; apply emits_ret].
Qed.

Lemma emits_PatchClaim ns name data : emits P (errOf (PatchClaim ns name data)).
Proof. apply emits_errOf. unfold PatchClaim, claimOwner. emits_tac. Qed.

Lemma emits_ClaimObject {A} `{MetaObject A} {S} owner (obj : A) matches
    (adopt release : S → M (option error * S)) s :
  emits P (adopt s) → emits P (release s) →
  emits P (ClaimObject owner obj matches adopt release s).
Proof.
  intros Ha Hr env h. destruct (ClaimObject_runs owner obj matches adopt release s env h)
    as [| | |r o t _ _ _ _ E|o t _ _ _ E]; [constructor..| |].
  - specialize (Hr env h). by rewrite E in Hr.
  - specialize (Ha env h). by rewrite E in Ha.
Qed.

Lemma emits_ClaimClaims filter claims : emits P (ClaimClaims m filter claims).
Proof using All.
  apply emits_bind; [generalize (None : option (option error))|intros [? errs]; destruct (NewAggregate errs); emits_tac].
  induction claims as [|c claims IH]; intros s; cbn [claimLoop]; [apply emits_ret|].
  apply emits_bind; [apply emits_ClaimObject|intros [r s']; apply emits_bind; [apply IH|intros [? ?]; apply emits_ret]].
  - apply emits_bind; [apply emits_CanAdopt|intros [[] ?]; [apply emits_ret|]].
    apply emits_bind; [apply emits_PatchClaim|intros; apply emits_ret].
  - apply emits_bind; [apply emits_PatchClaim|]. intros [e|]; repeat case_decide; apply emits_ret.
Qed.
End emits.

(** ** Parameters to evaluate the definitions with *)

#[global] Instance exampleApiMachinery : ApiMachinery := {|
  GetControllerOf l := head (filter (λ r, r.(own_Controller) = Some true) l);
  LabelSelectorAsSelector m :=
    inl (mkSelector (bool_decide (m = ∅)) (λ l, bool_decide (m ⊆ default ∅ l)));
  NewAggregate l := head l;
  MetaNamespaceKeyFunc ns name := if decide (ns = "") then name else ns +:+ "/" +:+ name;
  SplitMetaNamespaceKey key :=
    match rsplit "/" key with
    | None => inl ("", key)
    | Some (ns, name) => if Contains ns "/" then inr (errorf "unexpected key format")
                         else inl (ns, name)
    end |}.

Lemma Contains_char_none c s : str_forall (not_char c) s = true → Contains s (String c "") = false.
Proof.
  induction s as [|x s IH]; [done|]. cbn. intros [Hx Hs]%andb_true_iff. rewrite IH by done.
  unfold not_char in Hx. apply negb_true_iff, bool_decide_eq_false in Hx.
  rewrite bool_decide_eq_false_2 by done. done.
Qed.

#[global] Instance exampleApiMachineryLaws : ApiMachineryLaws.
Proof.
  split; cbn.
  - intros l r Hr%head_Some_elem_of. by apply list_elem_of_filter in Hr as [? ?].
  - intros l Hl r Hr Hc. apply head_None in Hl. assert (r ∈ filter (λ r, own_Controller r = Some true) l)
      as Hin by (by apply list_elem_of_filter). rewrite Hl in Hin. set_solver.
  - intros m sel [= <-]. cbn. split; [intros l|]; by rewrite bool_decide_eq_true.
  - intros [|e l]; done.
  - intros ns name Hne Hns Hname. rewrite decide_False by done. change ("/" +:+ name) with (String "/" name).
    rewrite rsplit_app by done. by rewrite Contains_char_none.
Qed.

(** A manager that has the methods of Kubernetes, except that it adopts and
    releases no pod. *)
#[global] Instance exampleRefManager : RefManager := {|
  CanAdopt f s :=
    match s with Some e => mret (e, Some e) | None => e ← f; mret (e, Some e) end;
  RecheckDeletionTimestamp get :=
    r ← attempt get;
    mret (match r with
          | inr e => Some (errorf ("can't recheck DeletionTimestamp: " +:+ e.(err_msg)))
          | inl g => if g.(g_DeletionTimestamp)
                     then Some (errorf (g.(g_Name) +:+ " has just been deleted")) else None
          end);
  ClaimObject A _ S owner obj matches adopt release s :=
    let patched (b : bool) (m : M (option error * S)) :=
      '(err, s) ← m;
      mret (match err with
            | None => inl b
            | Some e => if decide (e.(err_kind) = NotFound) then inl false else inr e
            end, s) in
    match GetControllerOf (GetOwnerReferences obj) with
    | Some r =>
        if decide (r.(own_UID) = owner.(g_UID)) then
          if matches then mret (inl true, s)
          else if owner.(g_DeletionTimestamp) then mret (inl false, s)
          else patched false (release s)
        else mret (inl false, s)
    | None =>
        if owner.(g_DeletionTimestamp) || negb matches || GetDeletionTimestamp obj
        then mret (inl false, s) else patched true (adopt s)
    end;
  ClaimPods owner sel keep _ pods :=
    mret (filter (λ pod, sel.(sel_Matches) pod.(pod_Labels) = true ∧ keep pod = true ∧
                         own_UID <$> GetControllerOf pod.(pod_OwnerReferences) = Some owner.(g_UID))
                 pods) |}.

#[global] Instance exampleRefManagerLaws : RefManagerLaws.
Proof.
  split; try done.
  - intros get env h. cbn [RecheckDeletionTimestamp exampleRefManager].
    unfold attempt, mbind, M_bind, mret, M_ret.
    destruct (get env h) as [[g|e| |] t]; rewrite ?app_nil_r.
    + destruct (g_DeletionTimestamp g) eqn:Hd; [right; left|left].
      * by exists g, t, (errorf (g.(g_Name) +:+ " has just been deleted")).
      * by exists g, t.
    + do 2 right. left. by eexists e, t, _.
    + do 3 right. exists Panic, t. auto.
    + do 3 right. exists OutOfFuel, t. auto.
  - intros A ? S owner obj matches adopt release s env h. cbn [ClaimObject exampleRefManager].
    destruct (GetControllerOf (GetOwnerReferences obj)) as [r|] eqn:Er; [case_decide|].
    + destruct matches; [by eapply claim_mine|].
      destruct (g_DeletionTimestamp owner) eqn:Hd; [apply claim_not_reconciled; auto|].
      destruct (release s env h) as [o t] eqn:Eo.
      pose proof (claim_release owner obj false adopt release s env h r o t) as Hrel.
      unfold mbind, M_bind, mret, M_ret. rewrite Eo.
      destruct o as [[[e|] s']|e| |]; cbn; rewrite ?app_nil_r; by apply Hrel.
    + by eapply claim_other.
    + destruct (g_DeletionTimestamp owner) eqn:Hd; [apply claim_not_reconciled; auto|].
      destruct matches; [|apply claim_not_reconciled; auto].
      destruct (GetDeletionTimestamp obj) eqn:Ho; [apply claim_not_reconciled; auto|]. cbn.
      destruct (adopt s env h) as [o t] eqn:Eo.
      pose proof (claim_adopt owner obj true adopt release s env h o t) as Had.
      unfold mbind, M_bind, mret, M_ret. rewrite Eo.
      destruct o as [[[e|] s']|e| |]; cbn; rewrite ?app_nil_r; by apply Had.
  - intros. apply emits_ret.
  - intros owner sel keep canAdopt pods env h claimed t [= <- <-]. split; [apply sublist_filter|].
    intros pod (Hpod & ?)%list_elem_of_filter. destruct Hpod as (? & ? & Hc). split_and!; [done..|].
    left. apply fmap_Some in Hc as (r & Hr & ?). by exists r.
Qed.
