(* ===== verification/Controller.v ===== *)
(** * The controller of Galeras

    Models [galera_controller.go]: the handlers of the informers, the work queue
    of the workers, the adoption of pods, claims and revisions, and
    [syncHandler].  The control is used through its interface; informers, work
    queue and leader election belong to client-go. *)
From S2P Require Import Prelude Types BackupTypes Objects Names PodLib Kube Ownership.

(** [GaleraControlInterface] *)
Class GaleraControlInterface := {
  ListRevisions : Galera → M (list ControllerRevision);
  SyncGalera : Galera → list Pod → list PersistentVolumeClaim → M unit;
  AdoptOrphanRevisions : Galera → list ControllerRevision → M (list ControllerRevision) }.

(** What a handler receives: an object, the tombstone of an object whose deletion
    was missed, which may hold something else, or anything else. *)
Inductive informer_obj (A : Type) :=
| IObj (obj : A)
| ITombstone (Obj : option A)
| IOther.
Arguments IObj {A} obj.
Arguments ITombstone {A} Obj.
Arguments IOther {A}.

(** The field of [GaleraController] that the methods test *)
Record GaleraController := mkGaleraController { clusterWide : bool }.

(** [managed]: Galeras annotated as cluster wide for a cluster wide operator,
    Galeras without annotation for the others *)
Definition managed (gc : GaleraController) (galera : Galera) : bool :=
  match galera.(g_Annotations) !! GaleraAnnotationScope with
  | Some value => if gc.(clusterWide) then bool_decide (value = GaleraAnnotationClusterWide) else false
  | None => if negb gc.(clusterWide) then true else false
  end.

Section controller.
Context `{ApiMachinery} `{RefManager} `{GaleraControlInterface}.

(** ** Queue *)

(** Anything but an object has no key. *)
Definition enqueueGalera (obj : informer_obj Galera) : M unit :=
  match obj with
  | IObj g => queueAdd (MetaNamespaceKeyFunc g.(g_Namespace) g.(g_Name))
  | _ => mret tt
  end.

(** The handlers of the Galeras themselves *)
Definition addGalera : informer_obj Galera → M unit := enqueueGalera.
Definition updateGalera (oldObj newObj : informer_obj Galera) : M unit :=
  match oldObj, newObj with
  | IObj _, IObj _ => enqueueGalera newObj
  | _, _ => pureM Panic
  end.
Definition deleteGalera : informer_obj Galera → M unit := enqueueGalera.

Fixpoint enqueueGaleras (galeras : list Galera) : M unit :=
  match galeras with
  | [] => mret tt
  | galera :: galeras' => enqueueGalera (IObj galera);; enqueueGaleras galeras'
  end.

Definition resolveControllerRef (namespace : string) (controllerRef : OwnerReference)
    : M (option Galera) :=
  if decide (controllerRef.(own_Kind) ≠ controllerKind_Kind) then mret None
  else
    r ← attempt (galeraGet namespace controllerRef.(own_Name));
    mret (match r with
          | inr _ => None
          | inl galera =>
              if decide (galera.(g_UID) ≠ controllerRef.(own_UID)) then None else Some galera
          end).

(** [getGalerasForPod] and [getGalerasForClaim]: an error means no Galera. *)
Definition galerasFor {A} (get : A → M (list Galera)) (obj : A) : M (list Galera) :=
  r ← attempt (get obj);
  mret (match r with inl galeras => galeras | inr _ => [] end).

Definition getGalerasForPod : Pod → M (list Galera) := galerasFor GetPodGaleras.
Definition getGalerasForClaim : PersistentVolumeClaim → M (list Galera) :=
  galerasFor GetClaimGaleras.

(** ** Handlers

    The source has the same three functions for pods and for claims. *)
Section handlers.
Context {A : Type} `{MetaObject A} (galeras : A → M (list Galera)).

Definition enqueueResolved (namespace : string) (controllerRef : OwnerReference) : M unit :=
  galera ← resolveControllerRef namespace controllerRef;
  match galera with
  | None => mret tt
  | Some galera => enqueueGalera (IObj galera)
  end.

Definition deleteObj (obj : A) : M unit :=
  match GetControllerOf (GetOwnerReferences obj) with
  | None => mret tt
  | Some controllerRef => enqueueResolved (GetNamespace obj) controllerRef
  end.

Definition deleteHandler (obj : informer_obj A) : M unit :=
  match obj with
  | IObj o | ITombstone (Some o) => deleteObj o
  | ITombstone None | IOther => mret tt
  end.

Definition addHandler (obj : informer_obj A) : M unit :=
  match obj with
  | IObj o =>
      if GetDeletionTimestamp o then deleteHandler (IObj o)
      else
        match GetControllerOf (GetOwnerReferences o) with
        | Some controllerRef => enqueueResolved (GetNamespace o) controllerRef
        | None => l ← galeras o; enqueueGaleras l
        end
  | _ => pureM Panic
  end.

Definition updateHandler (old cur : informer_obj A) : M unit :=
  match old, cur with
  | IObj old, IObj cur =>
      if decide (GetResourceVersion cur = GetResourceVersion old) then mret tt
      else
        let labelChanged := bool_decide (GetLabels cur ≠ GetLabels old) in
        let curControllerRef := GetControllerOf (GetOwnerReferences cur) in
        let oldControllerRef := GetControllerOf (GetOwnerReferences old) in
        let controllerRefChanged := bool_decide (curControllerRef ≠ oldControllerRef) in
        (match oldControllerRef with
         | Some ref => if controllerRefChanged then enqueueResolved (GetNamespace old) ref
                       else mret tt
         | None => mret tt
         end);;
        (match curControllerRef with
         | Some ref => enqueueResolved (GetNamespace cur) ref
         | None => if labelChanged || controllerRefChanged
                   then l ← galeras cur; enqueueGaleras l
                   else mret tt
         end)
  | _, _ => pureM Panic
  end.
End handlers.

Definition addPod : informer_obj Pod → M unit := addHandler getGalerasForPod.
Definition updatePod : informer_obj Pod → informer_obj Pod → M unit := updateHandler getGalerasForPod.
Definition deletePod : informer_obj Pod → M unit := deleteHandler.
Definition addClaim : informer_obj PersistentVolumeClaim → M unit := addHandler getGalerasForClaim.
Definition updateClaim
    : informer_obj PersistentVolumeClaim → informer_obj PersistentVolumeClaim → M unit :=
  updateHandler getGalerasForClaim.
Definition deleteClaim : informer_obj PersistentVolumeClaim → M unit := deleteHandler.

(** ** Adoption *)

(** The Galera as the API server has it; an error when it is another object *)
Definition freshGalera (galera : Galera) : M Galera :=
  fresh ← galeraLive galera.(g_Namespace) galera.(g_Name);
  if decide (fresh.(g_UID) ≠ galera.(g_UID))
  then errM (errorf ("original Galera " +:+ galera.(g_Namespace) +:+ "/" +:+ galera.(g_Name)
               +:+ " is gone: got uid " +:+ fresh.(g_UID) +:+ ", wanted " +:+ galera.(g_UID)))
  else mret fresh.

Definition canAdoptFunc (galera : Galera) : M (option error) :=
  RecheckDeletionTimestamp (freshGalera galera).

Definition getClaimsForGalera (galera : Galera) (selector : Selector)
    : M (list PersistentVolumeClaim) :=
  claims ← claimList galera.(g_Namespace);
  let filter claim := isClaimMemberOf galera.(g_Name) claim.(claim_Name) in
  ClaimClaims (NewClaimControllerRefManager galera selector (canAdoptFunc galera)) filter claims.

Definition getPodsForGalera (galera : Galera) (selector : Selector) : M (list Pod) :=
  pods ← podList galera.(g_Namespace);
  let filter pod := isPodMemberOf galera.(g_Name) pod.(pod_Name) in
  ClaimPods galera selector filter (canAdoptFunc galera) pods.

Definition orphan (r : ControllerRevision) : bool :=
  bool_decide (GetControllerOf r.(cr_OwnerReferences) = None).

Definition adoptOrphanRevisions (galera : Galera) : M unit :=
  revisions ← ListRevisions galera;
  if existsb orphan revisions then
    freshGalera galera;;
    AdoptOrphanRevisions galera revisions;;
    mret tt
  else mret tt.

(** ** Workers *)

Definition syncHandler (gc : GaleraController) (key : string) : M unit :=
  match SplitMetaNamespaceKey key with
  | inr _ => mret tt
  | inl (namespace, name) =>
      galera ← attempt (galeraGet namespace name);
      match galera with
      | inr err => if decide (err.(err_kind) = NotFound) then mret tt else errM err
      | inl galera =>
          if negb (managed gc galera) then mret tt
          else if IsFailed (Some galera.(g_Status)) then mret tt
          else
            adoptOrphanRevisions galera;;
            match SelectorForGalera galera.(g_Name) galera.(g_Namespace) with
            | inr _ => mret tt
            | inl selector =>
                pods ← getPodsForGalera galera selector;
                claims ← getClaimsForGalera galera selector;
                SyncGalera galera pods claims
            end
      end
  end.

(** The anonymous function of [processNextWorkItem]; [Done] is deferred, so that
    it runs whatever the function does. *)
Definition processItem (gc : GaleraController) (item : queue_item) : M unit :=
  match item with
  | ItemKey key =>
      err ← errOf (syncHandler gc key);
      match err with
      | Some e => errM (errorf ("error syncing '" +:+ key +:+ "': " +:+ e.(err_msg)))
      | None => queueForget item
      end
  | _ => queueForget item
  end.

Definition deferDone (item : queue_item) (m : M unit) : M unit := λ env h,
  let (o, t) := m env h in (o, t ++ [EvQueueDone item]).

Definition processNextWorkItem (gc : GaleraController) : M bool :=
  item ← queueGet;
  match item with
  | ItemQuit => mret false
  | _ =>
      err ← errOf (deferDone item (processItem gc item));
      match err, item with
      | Some _, ItemKey key => queueAddRateLimited key;; mret true
      | _, _ => mret true
      end
  end.

(** The loop of a worker, for [n] items at most *)
Fixpoint runWorker (n : nat) (gc : GaleraController) : M unit :=
  match n with
  | O => pureM OutOfFuel
  | S n' => more ← processNextWorkItem gc; if (more : bool) then runWorker n' gc else mret tt
  end.
End controller.

(** ** Adoption *)

Section adoption.
Context `{RefManagerLaws} `{!ApiMachineryLaws}.

(** The API server has the Galera, under the same UID, and does not delete it. *)
Definition live_checked (g : Galera) (t : history) : Prop :=
  ∃ fresh, EvGaleraLive g.(g_Namespace) g.(g_Name) (inl fresh) ∈ t ∧
           fresh.(g_UID) = g.(g_UID) ∧ fresh.(g_DeletionTimestamp) = false.

Lemma freshGalera_inv g env h :
  let r := env.(env_ctl).(ctl_galeraLive) h g.(g_Namespace) g.(g_Name) in
  snd (freshGalera g env h) = [EvGaleraLive g.(g_Namespace) g.(g_Name) r] ∧
  match fst (freshGalera g env h) with
  | Ok fresh => r = inl fresh ∧ fresh.(g_UID) = g.(g_UID)
  | Err _ => True
  | _ => False
  end.
Proof.
  cbv zeta. unfold freshGalera, galeraLive. unM.
  destruct (ctl_galeraLive _ _ _ _) as [fresh|e]; cbn; [|done]. by case_decide; cbn.
Qed.

Lemma canAdoptFunc_inv g env h o t :
  canAdoptFunc g env h = (o, t) →
  (∃ r, t = [EvGaleraLive g.(g_Namespace) g.(g_Name) r]) ∧
  (o = Ok None → live_checked g t).
Proof.
  unfold canAdoptFunc. intros E. pose proof (freshGalera_inv g env h) as [Ht Ho].
  pose proof (Recheck_runs (freshGalera g) env h) as Hr. rewrite E in Hr.
  destruct (freshGalera g env h) as [o' t']. cbn in Ht, Ho. subst t'.
  destruct Hr as [(f & t1 & E1 & Hd & E2)|[(f & t1 & e & E1 & Hd & E2)|[(e & t1 & e' & E1 & E2)|
    (o1 & t1 & E1 & Hn & Hn' & E2)]]].
  - injection E1 as -> <-. injection E2 as -> ->. split; [by eexists|]. intros _.
    destruct Ho as [Hr Hu]. exists f. rewrite Hr. split; [set_solver|done].
  - injection E1 as -> <-. injection E2 as -> ->. split; [by eexists|done].
  - injection E1 as -> <-. injection E2 as -> ->. split; [by eexists|done].
  - injection E1 as <- <-. cbn in E2. subst t. split; [by eexists|]. intros ->. done.
Qed.

Lemma canAdoptFunc_emits (P : event → Prop) g :
  (∀ r, P (EvGaleraLive g.(g_Namespace) g.(g_Name) r)) → emits P (canAdoptFunc g).
Proof.
  intros HP env h. destruct (canAdoptFunc g env h) as [o t] eqn:E.
  apply canAdoptFunc_inv in E as [[r ->] _]. cbn. constructor; [apply HP|constructor].
Qed.

Lemma canAdoptFunc_no_patch g : emits (λ e, ¬ is_claimOwner e) (canAdoptFunc g).
Proof. apply canAdoptFunc_emits. by intros r []. Qed.

Lemma live_checked_mono g l k : live_checked g l → live_checked g (l ++ k).
Proof. intros (f & Hin & ?). exists f. split; [|done]. apply elem_of_app. by left. Qed.

Lemma live_checked_app g l k : live_checked g k → live_checked g (l ++ k).
Proof. intros (f & Hin & ?). exists f. split; [|done]. apply elem_of_app. by right. Qed.

Lemma canAdoptFunc_pass g env h t :
  canAdoptFunc g env h = (Ok None, t) → ∀ l, live_checked g (l ++ t).
Proof. intros E l. apply canAdoptFunc_inv in E as [_ Hl]. by apply live_checked_app, Hl. Qed.

(** The claims of a Galera, as [getClaimsForGalera] filters them *)
Definition claim_member (g : Galera) (selector : Selector) (claim : PersistentVolumeClaim) : Prop :=
  selector.(sel_Matches) claim.(claim_Labels) = true ∧
  isClaimMemberOf g.(g_Name) claim.(claim_Name) = true.

(** C21: the owner of a claim is patched only for a Galera that is not being
    deleted: to adopt an orphan that its selector and name make a claim of the
    cluster, and then only after the API server has confirmed, in the same call,
    that the Galera exists under the same UID and is not being deleted; or to
    release a claim it controls that is none of the cluster any more.  Without
    error, the result are the listed claims of the cluster that the Galera
    controlled already, all of them, and orphans whose adoption was accepted. *)
Theorem getClaimsForGalera_owned (g : Galera) (selector : Selector) (env : Env) (h : history) :
  let '(o, t) := getClaimsForGalera g selector env h in
  preceded (is_adoption g) (λ _ t1, live_checked g t1) t ∧
  ∀ claims, env.(env_ctl).(ctl_claimList) h g.(g_Namespace) = inl claims →
  (∀ ns name data err, EvClaimOwner ns name data err ∈ t →
     g.(g_DeletionTimestamp) = false ∧
     ∃ claim, claim ∈ claims ∧ claim.(claim_Namespace) = ns ∧ claim.(claim_Name) = name ∧
       (orphaned claim ∧ claim_member g selector claim ∧ data = addControllerPatch g claim ∨
        controlled_by g claim ∧ ¬ claim_member g selector claim ∧
        data = deleteOwnerRefPatch g claim)) ∧
  (∀ claimed, o = Ok claimed →
     sublist claimed claims ∧
     (∀ claim, claim ∈ claims → controlled_by g claim → claim_member g selector claim →
               claim ∈ claimed) ∧
     ∀ claim, claim ∈ claimed →
       claim_member g selector claim ∧
       (controlled_by g claim ∨
        orphaned claim ∧ EvClaimOwner claim.(claim_Namespace) claim.(claim_Name)
                           (addControllerPatch g claim) None ∈ t)).
Proof.
  destruct (getClaimsForGalera g selector env h) as [o t] eqn:E.
  unfold getClaimsForGalera, claimList in E.
  set (filter := λ claim, isClaimMemberOf g.(g_Name) claim.(claim_Name)) in *.
  set (m := NewClaimControllerRefManager g selector (canAdoptFunc g)) in *.
  assert (Hm : ∀ c, claimMatches m filter c = true ↔ claim_member g selector c)
    by (intros c; apply andb_true_iff).
  destruct (env.(env_ctl).(ctl_claimList) h g.(g_Namespace)) as [claims|e] eqn:El; last first.
  { revert E. unM. rewrite El. cbn. intros [= <- <-]. split; [|done].
    apply preceded_none, Forall_singleton. by intros []. }
  set (h1 := h ++ [EvList "claim" g.(g_Namespace)]).
  assert (∃ t1, ClaimClaims m filter claims env h1 = (o, t1) ∧ t = EvList "claim" g.(g_Namespace) :: t1)
    as (t1 & Ec & ->).
  { revert E. unfold call, orErr, mbind, M_bind, mret, M_ret. rewrite El. cbn. rewrite ?app_nil_r.
    fold h1. destruct (ClaimClaims m filter claims env h1) as [o1 t1]. intros [= <- <-]. eauto. }
  clear E. unfold ClaimClaims in Ec.
  destruct (claimLoop m filter claims None env h1) as [o2 t2] eqn:E2.
  pose proof E2 as Hinv.
  apply (claimLoop_inv m filter (canAdoptFunc_no_patch g) (live_checked g) (canAdoptFunc_pass g)
           (live_checked_mono g) claims None env h1 o2 t2 []) in Hinv as (Hp & HF & Hr); [|done].
  assert (t1 = t2 ∧ ∀ claimed, o = Ok claimed → o2 = Ok (claimed, [])) as [-> Ho].
  { revert Ec. unfold mbind, M_bind. rewrite E2.
    destruct o2 as [[claimed errs]|e| |]; [|intros [= <- <-]; split; [done|by intros ? [=]]..].
    destruct (NewAggregate errs) as [e|] eqn:Ea; cbn; rewrite app_nil_r; intros E'; simplify_eq/=;
      [done|]. apply NewAggregate_none in Ea as ->. split; [done|]. intros ? E'. by simplify_eq. }
  split; [|intros ? [= <-]; split].
  - apply (preceded_app _ _ [_] t2); [by apply preceded_none, Forall_singleton; intros []|].
    intros ta e tb Et He. by apply live_checked_app, (Hp ta e tb Et He).
  - intros ns name data err [Hx|Hin]%elem_of_cons; [done|]. rewrite Forall_forall in HF.
    destruct (HF _ Hin) as (Hd & c & err' & Hc & Hcase); [done|]. split; [done|]. exists c.
    split; [done|]. rewrite <- Hm.
    destruct Hcase as [(? & ? & [= -> -> -> _])|(? & Hf & [= -> -> -> _])]; split_and!; try done; [left|right].
    + done.
    + rewrite Hf. done.
  - intros claimed ->. destruct (Hr _ _ (Ho _ eq_refl)) as (Hs & Hown & Hk). split_and!; [done| |].
    + intros c Hc Hctl Hmem. apply Hk; [done|done|by apply Hm|done].
    + intros c Hc. destruct (Hown c Hc) as [Hmem Hor]. split; [by apply Hm|].
      destruct Hor as [?|[? ?]]; [by left|right]. split; [done|]. set_solver.
Qed.
End adoption.

(** ** Which Galeras an event wakes up *)

Definition enqueued (t : history) : list string :=
  omap (λ e, match e with EvQueueAdd key => Some key | _ => None end) t.

Lemma enqueued_app t1 t2 : enqueued (t1 ++ t2) = enqueued t1 ++ enqueued t2.
Proof. apply omap_app. Qed.

Section handlers.
Context `{ApiMachineryLaws}.
Context (lister : string → string → Galera + error) (listed : string → list Galera + error).
Context (env : Env).
Context (Hget : ∀ h ns name, env.(env_galeraGet) h ns name = lister ns name).
Context (Hlist : ∀ h ns, env.(env_ctl).(ctl_galeraList) h ns = listed ns).
Context (Hvalid : ∀ ns l g, listed ns = inl l → g ∈ l → g.(g_Namespace) = ns →
                            is_Some (match SelectorForGalera g.(g_Name) ns with
                                     | inl s => Some s | inr _ => None end)).

Definition galera_key (g : Galera) : string := MetaNamespaceKeyFunc g.(g_Namespace) g.(g_Name).

(** The lister has the Galera that controls the object. *)
Definition concerns {A} `{MetaObject A} (g : Galera) (obj : A) : Prop :=
  ∃ r, GetControllerOf (GetOwnerReferences obj) = Some r ∧ r.(own_Kind) = controllerKind_Kind ∧
       lister (GetNamespace obj) r.(own_Name) = inl g ∧ g.(g_UID) = r.(own_UID).

(** The object has no controller, and the labels of the pods of the Galera. *)
Definition may_adopt {A} `{MetaObject A} (g : Galera) (obj : A) : Prop :=
  orphaned obj ∧ (∃ l, listed (GetNamespace obj) = inl l ∧ g ∈ l) ∧
  g.(g_Namespace) = GetNamespace obj ∧
  selects (labelsForGalera g.(g_Name) g.(g_Namespace)) (default ∅ (GetLabels obj)).

(** Computations whose keys are known, whatever the history *)
Definition adds (m : M unit) (P : string → Prop) : Prop :=
  ∀ h, fst (m env h) = Ok tt ∧ ∀ k, k ∈ enqueued (snd (m env h)) ↔ P k.

Lemma adds_ret : adds (mret tt) (λ _, False).
Proof. intros h. split; [done|]. intros k. cbn. set_solver. Qed.

Lemma adds_impl m (P Q : string → Prop) : adds m P → (∀ k, P k ↔ Q k) → adds m Q.
Proof. intros Hm HPQ h. destruct (Hm h) as [Ho Hk]. split; [done|]. intros k. by rewrite Hk. Qed.

Lemma adds_seq m1 m2 P1 P2 : adds m1 P1 → adds m2 P2 → adds (m1;; m2) (λ k, P1 k ∨ P2 k).
Proof.
  intros H1 H2 h. destruct (H1 h) as [Ho1 Hk1]. destruct (m1 env h) as [o1 t1] eqn:E1.
  cbn in Ho1. change (∀ k, k ∈ enqueued t1 ↔ P1 k) in Hk1. subst o1. rewrite (bind_Ok _ _ _ _ _ _ E1). cbn.
  destruct (H2 (h ++ t1)) as [Ho2 Hk2]. split; [done|]. intros k.
  change (k ∈ enqueued (t1 ++ (m2 env (h ++ t1)).2) ↔ P1 k ∨ P2 k).
  by rewrite enqueued_app, elem_of_app, Hk1, Hk2.
Qed.

(** After a computation that reads *)
Lemma adds_read {A} (m : M A) (f : A → M unit) (R : A → Prop) P :
  (∀ h, ∃ a, fst (m env h) = Ok a ∧ R a ∧ enqueued (snd (m env h)) = []) →
  (∀ a, R a → adds (f a) P) → adds (m ≫= f) P.
Proof.
  intros Hm Hf h. destruct (Hm h) as (a & Ho & Ha & Hk). destruct (m env h) as [o t] eqn:E.
  cbn in Ho. change (enqueued t = []) in Hk. subst o. rewrite (bind_Ok _ _ _ _ _ _ E). cbn.
  destruct (Hf a Ha (h ++ t)) as [Ho2 Hk2]. split; [done|]. intros k.
  change (k ∈ enqueued (t ++ (f a env (h ++ t)).2) ↔ P k). by rewrite enqueued_app, Hk.
Qed.

Lemma adds_enqueueGaleras l : adds (enqueueGaleras l) (λ k, ∃ g, g ∈ l ∧ k = galera_key g).
Proof.
  induction l as [|g l IH]; cbn [enqueueGaleras].
  - eapply adds_impl; [apply adds_ret|]. set_solver.
  - eapply adds_impl; [eapply (adds_seq _ _ (λ k, k = galera_key g)); [|exact IH]|].
    + intros h. split; [done|]. intros k. cbn. set_solver.
    + intros k. split; [intros [->|(g' & ? & ->)]|intros (g' & [->|?]%elem_of_cons & ->)]; eauto;
        eexists; (split; [|done]); set_solver.
Qed.

Lemma adds_resolved {A} `{MetaObject A} (obj : A) ref :
  GetControllerOf (GetOwnerReferences obj) = Some ref →
  adds (enqueueResolved (GetNamespace obj) ref) (λ k, ∃ g, concerns g obj ∧ k = galera_key g).
Proof.
  intros Hr. unfold enqueueResolved. eapply (adds_read _ _ (λ a, ∀ g, a = Some g ↔ concerns g obj)).
  - intros h. unfold resolveControllerRef, concerns. rewrite Hr. case_decide as Hk.
    + exists None. cbn. split_and!; [done| |done]. naive_solver.
    + unfold galeraGet, call, attempt, orErr, mbind, M_bind, mret, M_ret. rewrite Hget.
      destruct (lister _ _) as [g|e] eqn:El; cbn.
      * case_decide as Hu; eexists; (split_and!; [reflexivity| |done]); intros g';
          (split; [|intros (r & [= <-] & _ & E' & Hu'); congruence]); [done|].
        intros [= <-]. by exists ref.
      * eexists. split_and!; [reflexivity| |done]. intros g'. split; [done|].
        intros (r & [= <-] & _ & E' & _). congruence.
  - intros a Ha. destruct a as [g|].
    + eapply adds_impl; [intros h; split; [done|]; intros k; cbn; apply list_elem_of_singleton|].
      intros k. split; [intros ->; exists g; split; [by apply Ha|done]|].
      intros (g' & Hg' & ->). apply Ha in Hg'. by injection Hg' as ->.
    + eapply adds_impl; [apply adds_ret|]. intros k. split; [done|]. intros (g & Hg & _).
      by apply Ha in Hg.
Qed.

Lemma matchingGaleras_spec ns labels l :
  (∀ g, g ∈ l → g.(g_Namespace) = ns → is_Some (match SelectorForGalera g.(g_Name) ns with
                                     | inl s => Some s | inr _ => None end)) →
  ∃ l', matchingGaleras ns labels l = inl l' ∧
    ∀ g, g ∈ l' ↔ g ∈ l ∧ g.(g_Namespace) = ns ∧
                  selects (labelsForGalera g.(g_Name) g.(g_Namespace)) (default ∅ labels).
Proof.
  induction l as [|g l IH]; intros Hl; cbn [matchingGaleras]; [exists []; set_solver|].
  destruct IH as (l' & -> & Hl'); [intros; apply Hl; set_solver|]. case_decide as Hn.
  { exists l'. split; [done|]. intros g'. rewrite Hl', elem_of_cons.
    split; [tauto|]. intros ([->|?] & ? & ?); tauto. }
  subst ns. destruct (Hl g) as [s Hs]; [set_solver|done|].
  destruct (SelectorForGalera (g_Name g) (g_Namespace g)) as [sel|] eqn:Es; [|done].
  apply selector_matches in Es as [Hm He]. destruct (sel_Empty sel) eqn:E; cbn.
  { assert (E' := proj1 He eq_refl). by apply (f_equal (.!! GaleraClusterName)) in E'. }
  destruct (sel_Matches sel labels) eqn:E'; cbn.
  - exists (g :: l'). split; [done|]. intros g'. rewrite !elem_of_cons, Hl'. apply Hm in E'.
    split; [intros [->|?]; tauto|tauto].
  - exists l'. split; [done|]. intros g'. rewrite elem_of_cons, Hl'. split; [tauto|].
    intros ([->|?] & ? & Hsel); [|tauto]. apply Hm in Hsel. congruence.
Qed.

Lemma adds_orphan {A} `{MetaObject A} (obj : A) :
  orphaned obj →
  adds (l ← galerasFor getObjectGaleras obj; enqueueGaleras l)
       (λ k, ∃ g, may_adopt g obj ∧ k = galera_key g).
Proof.
  intros Ho. eapply (adds_read _ _ (λ l, ∀ g, g ∈ l ↔ may_adopt g obj)); last first.
  { intros l Hl. eapply adds_impl; [apply adds_enqueueGaleras|]. intros k. by setoid_rewrite Hl. }
  intros h. unfold galerasFor, getObjectGaleras, may_adopt. case_decide as Hlab.
  { exists []. split_and!; [done| |done]. intros g. rewrite Hlab. split; [set_solver|].
    intros (_ & _ & _ & Hs). unfold selects in Hs.
    assert (labelsForGalera (g_Name g) (g_Namespace g) !! GaleraClusterName = Some (g_Name g)) as Hx
      by reflexivity.
    eapply lookup_weaken in Hx; [|exact Hs]. by rewrite lookup_empty in Hx. }
  unfold galeraList, call, attempt, orErr, mbind, M_bind, mret, M_ret. rewrite Hlist.
  destruct (listed (GetNamespace obj)) as [l|e] eqn:El; cbn.
  - destruct (matchingGaleras_spec (GetNamespace obj) (GetLabels obj) l) as (l' & -> & Hl').
    { intros g Hg Hns. by eapply Hvalid. }
    exists l'. cbn. destruct l' as [|g0 l']; cbn; (split_and!; [done| |done]);
      intros g; rewrite Hl'; (split; [intros (? & ? & ?); split_and!; eauto|]);
      intros (_ & (l2 & [= <-] & ?) & ?); tauto.
  - exists []. split_and!; [done| |done]. intros g. split; [set_solver|]. by intros (_ & (l2 & ? & _) & _).
Qed.

(** The handlers of a kind of objects put on the queue exactly the Galeras that
    have to know. *)
Definition wakes_exactly {A} `{MetaObject A} (add : informer_obj A → M unit)
    (update : informer_obj A → informer_obj A → M unit) (delete : informer_obj A → M unit) : Prop :=
  (∀ obj, adds (add (IObj obj)) (λ k, ∃ g, k = galera_key g ∧
     (concerns g obj ∨ may_adopt g obj ∧ GetDeletionTimestamp obj = false))) ∧
  (∀ old cur, adds (update (IObj old) (IObj cur)) (λ k, ∃ g, k = galera_key g ∧
     GetResourceVersion cur ≠ GetResourceVersion old ∧
     let changed := GetControllerOf (GetOwnerReferences cur) ≠
                    GetControllerOf (GetOwnerReferences old) in
     (concerns g cur ∨ changed ∧ concerns g old ∨
      may_adopt g cur ∧ (GetLabels cur ≠ GetLabels old ∨ changed)))) ∧
  (∀ obj, adds (delete (IObj obj)) (λ k, ∃ g, k = galera_key g ∧ concerns g obj) ∧
          adds (delete (ITombstone (Some obj))) (λ k, ∃ g, k = galera_key g ∧ concerns g obj)) ∧
  adds (delete (ITombstone None)) (λ _, False) ∧ adds (delete IOther) (λ _, False).

Lemma concerns_controlled {A} `{MetaObject A} g (obj : A) :
  orphaned obj → ¬ concerns g obj.
Proof. intros Ho (r & Hr & _). unfold orphaned in Ho. congruence. Qed.

Lemma adds_delete {A} `{MetaObject A} (obj : A) :
  adds (deleteObj obj) (λ k, ∃ g, k = galera_key g ∧ concerns g obj).
Proof.
  unfold deleteObj. destruct (GetControllerOf _) as [r|] eqn:Er.
  - eapply adds_impl; [by apply adds_resolved|]. intros k. split; intros (g & ? & ?); eauto.
  - eapply adds_impl; [apply adds_ret|]. intros k. split; [done|].
    intros (g & _ & Hc). by apply concerns_controlled in Hc.
Qed.

Lemma adds_controlled {A} `{MetaObject A} (obj : A) (reads : bool) :
  adds (match GetControllerOf (GetOwnerReferences obj) with
        | Some ref => enqueueResolved (GetNamespace obj) ref
        | None => if reads then l ← galerasFor getObjectGaleras obj; enqueueGaleras l else mret tt
        end)
       (λ k, ∃ g, k = galera_key g ∧ (concerns g obj ∨ may_adopt g obj ∧ reads = true)).
Proof.
  destruct (GetControllerOf _) as [r|] eqn:Er.
  - eapply adds_impl; [by apply adds_resolved|]. intros k. split; [intros (g & ? & ?); eauto|].
    intros (g & ? & [?|[[Ho _] _]]); [eauto|]. unfold orphaned in Ho. congruence.
  - assert (∀ g, ¬ concerns g obj) as Hn by (intros g; by apply concerns_controlled). destruct reads.
    + eapply adds_impl; [by apply adds_orphan|]. intros k. split; [intros (g & ? & ?); eauto|].
      intros (g & ? & [Hc|[? _]]); [by apply Hn in Hc|eauto].
    + eapply adds_impl; [apply adds_ret|]. intros k. split; [done|].
      intros (g & _ & [Hc|[_ ?]]); [by apply Hn in Hc|done].
Qed.

Lemma handlers_wake_exactly {A} `{MetaObject A} :
  wakes_exactly (addHandler (galerasFor getObjectGaleras))
    (updateHandler (galerasFor getObjectGaleras)) (deleteHandler (A := A)).
Proof.
  split_and!; [| |intros obj; split; apply adds_delete|apply adds_ret..].
  - intros obj. cbn [addHandler]. destruct (GetDeletionTimestamp obj) eqn:Hd.
    + eapply adds_impl; [apply adds_delete|]. intros k. split; intros (g & -> & Hc); exists g;
        (split; [done|]); [by left|]. by destruct Hc as [?|[_ ?]].
    + eapply adds_impl; [apply (adds_controlled obj true)|]. intros k.
      split; intros (g & -> & Hc); exists g; tauto.
  - intros old cur. cbn [updateHandler]. case_decide as Hv.
    { eapply adds_impl; [apply adds_ret|]. intros k. split; [done|]. by intros (g & _ & ? & _). }
    cbv zeta. eapply adds_impl; [apply adds_seq; [|apply adds_controlled]|].
    { instantiate (1 := λ k, ∃ g, k = galera_key g ∧
        GetControllerOf (GetOwnerReferences cur) ≠ GetControllerOf (GetOwnerReferences old) ∧
        concerns g old).
      destruct (GetControllerOf (GetOwnerReferences old)) as [ref|] eqn:Er;
        [case_bool_decide as Hb|].
      - eapply adds_impl; [by apply adds_resolved|]. intros k. split; intros (g & ? & ?); naive_solver.
      - eapply adds_impl; [apply adds_ret|]. intros k. split; [done|]. by intros (g & _ & ? & _).
      - eapply adds_impl; [apply adds_ret|]. intros k. split; [done|].
        intros (g & _ & _ & Hc). by apply concerns_controlled in Hc. }
    intros k. split.
    + intros [(g & -> & ? & ?)|(g & -> & [?|[? Hb]])]; exists g; (split_and!; [done..|]); auto.
      apply orb_true_iff in Hb. rewrite !bool_decide_eq_true in Hb. auto.
    + intros (g & -> & _ & [?|[[? ?]|[? Hb]]]); [right|left|right]; exists g; auto.
      split; [done|]. right. split; [done|]. apply orb_true_iff. by rewrite !bool_decide_eq_true.
Qed.
End handlers.

(** C35: a pod or a claim that changes wakes up exactly the clusters it concerns:
    the one that controls it, the one that controlled it before its owner
    changed, and, for an orphan that appeared or whose labels or owner changed,
    those whose selector it matches; nothing is put on the queue when the
    informer only resends an object.  A deletion wakes up the cluster that
    controlled the object, also when the deletion was missed and only a tombstone
    is left. *)
Theorem handlers_wake `{ApiMachineryLaws} (lister : string → string → Galera + error)
    (listed : string → list Galera + error) (env : Env) :
  (∀ h ns name, env.(env_galeraGet) h ns name = lister ns name) →
  (∀ h ns, env.(env_ctl).(ctl_galeraList) h ns = listed ns) →
  (∀ ns l g, listed ns = inl l → g ∈ l → g.(g_Namespace) = ns →
     is_Some (match SelectorForGalera g.(g_Name) ns with inl s => Some s | inr _ => None end)) →
  wakes_exactly lister listed env addPod updatePod deletePod ∧
  wakes_exactly lister listed env addClaim updateClaim deleteClaim.
Proof. intros Hget Hlist Hvalid. split; by apply handlers_wake_exactly. Qed.

(** ** Workers *)

Section workers.
Context `{ApiMachinery} `{RefManager} `{GaleraControlInterface}.

(** An item is taken from the queue once and always marked as done, also
    when its processing panics.  It is forgotten when the reconciliation of its
    cluster succeeded, and put back with a delay when it returned an error, after
    it was marked as done; an item that is no key is forgotten at once. *)
Theorem processNextWorkItem_spec (gc : GaleraController) (env : Env) (h : history) :
  let item := env.(env_ctl).(ctl_queueGet) h in
  processNextWorkItem gc env h =
    match item with
    | ItemQuit => (Ok false, [EvQueueGet item])
    | ItemOther => (Ok true, [EvQueueGet item; EvQueueForget item; EvQueueDone item])
    | ItemKey key =>
        let (o, t) := syncHandler gc key env (h ++ [EvQueueGet item]) in
        match o with
        | Ok _ => (Ok true, EvQueueGet item :: t ++ [EvQueueForget item; EvQueueDone item])
        | Err _ => (Ok true, EvQueueGet item :: t ++ [EvQueueDone item; EvQueueAddRateLimited key])
        | Panic => (Panic, EvQueueGet item :: t ++ [EvQueueDone item])
        | OutOfFuel => (OutOfFuel, EvQueueGet item :: t ++ [EvQueueDone item])
        end
    end.
Proof.
  cbv zeta. unfold processNextWorkItem, queueGet.
  rewrite (bind_Ok _ _ _ _ (env.(env_ctl).(ctl_queueGet) h) [EvQueueGet (env.(env_ctl).(ctl_queueGet) h)])
    by done.
  destruct (ctl_queueGet _ h) as [key| |]; [|by cbn..].
  set (h1 := h ++ [EvQueueGet (ItemKey key)]). unfold deferDone, processItem, errOf, attempt.
  unfold queueForget, queueAddRateLimited, errM, call, mbind, M_bind, mret, M_ret.
  destruct (syncHandler gc key env h1) as [[u|e| |] t]; cbn;
    rewrite ?app_nil_r, <- ?app_assoc; done.
Qed.

(** What a worker does between two looks at the queue *)
Definition off_queue (e : event) : Prop :=
  match e with
  | EvQueueGet _ | EvQueueDone _ | EvQueueForget _ | EvQueueAddRateLimited _ => False
  | _ => True
  end.

(** What a worker does from a history on, up to the end of the queue, to a panic of a
    reconciliation or to the bound on its items.  Each key is given to [syncHandler] as
    soon as it is taken, and what follows depends on its outcome. *)
Inductive worked (gc : GaleraController) (env : Env) : history → outcome unit → history → Prop :=
| worked_bound h : worked gc env h OutOfFuel []
| worked_quit h : worked gc env h (Ok tt) [EvQueueGet ItemQuit]
| worked_other h o t :
    let t0 := [EvQueueGet ItemOther; EvQueueForget ItemOther; EvQueueDone ItemOther] in
    worked gc env (h ++ t0) o t → worked gc env h o (t0 ++ t)
| worked_synced h key ts o t :
    let t0 := EvQueueGet (ItemKey key) :: ts ++ [EvQueueForget (ItemKey key); EvQueueDone (ItemKey key)] in
    syncHandler gc key env (h ++ [EvQueueGet (ItemKey key)]) = (Ok tt, ts) → Forall off_queue ts →
    worked gc env (h ++ t0) o t → worked gc env h o (t0 ++ t)
| worked_retried h key e ts o t :
    let t0 := EvQueueGet (ItemKey key) :: ts ++ [EvQueueDone (ItemKey key); EvQueueAddRateLimited key] in
    syncHandler gc key env (h ++ [EvQueueGet (ItemKey key)]) = (Err e, ts) → Forall off_queue ts →
    worked gc env (h ++ t0) o t → worked gc env h o (t0 ++ t)
| worked_crashed h key ts o :
    syncHandler gc key env (h ++ [EvQueueGet (ItemKey key)]) = (o, ts) → o = Panic ∨ o = OutOfFuel →
    Forall off_queue ts → worked gc env h o (EvQueueGet (ItemKey key) :: ts ++ [EvQueueDone (ItemKey key)]).

(** What the worker relies on: the control leaves the queue alone. *)
Context (Hcontrol : ∀ gc key, emits off_queue (syncHandler gc key)).

(** C34: no cluster is forgotten by a worker: each key it takes is reconciled at once, by
    [syncHandler], and marked as done; it is forgotten exactly when that reconciliation
    returned no error, and put back on the queue exactly when it returned one.  The worker
    ends without panic only when the queue is closed; a reconciliation that panics ends it,
    once its key is marked as done. *)
Theorem runWorker_worked (gc : GaleraController) (n : nat) (env : Env) (h : history) :
  let (o, t) := runWorker n gc env h in worked gc env h o t.
Proof.
  revert h. induction n as [|n IH]; intros h; [constructor|]. cbn [runWorker].
  unfold mbind at 1, M_bind at 1. rewrite processNextWorkItem_spec.
  destruct (ctl_queueGet _ h) as [key| |].
  - pose proof (Hcontrol gc key env (h ++ [EvQueueGet (ItemKey key)])) as HF.
    destruct (syncHandler gc key env _) as [[[]|e| |] ts] eqn:E; cbn [snd] in HF.
    + match goal with |- context [runWorker n gc env ?h1] => specialize (IH h1) end.
      destruct (runWorker n gc env _) as [o t]. by eapply (worked_synced gc env h key ts).
    + match goal with |- context [runWorker n gc env ?h1] => specialize (IH h1) end.
      destruct (runWorker n gc env _) as [o t]. by eapply (worked_retried gc env h key e ts).
    + eapply worked_crashed; eauto.
    + eapply worked_crashed; eauto.
  - match goal with |- context [runWorker n gc env ?h1] => specialize (IH h1) end.
    destruct (runWorker n gc env _) as [o t]. by apply (worked_other gc env h).
  - constructor.
Qed.
End workers.

(** ** What a reconciliation asks besides the control *)

Section reads.
Context `{RefManagerLaws} `{!ApiMachineryLaws} `{GaleraControlInterface} (P : event → Prop).
Context (HGet : ∀ ns name, P (EvGaleraGet ns name)) (HList : ∀ kind ns, P (EvList kind ns)).
Context (HLive : ∀ ns name r, P (EvGaleraLive ns name r)).
Context (HClaim : ∀ ns name data err, P (EvClaimOwner ns name data err)).
Context (HPod : ∀ ns name data err, P (EvPodOwner ns name data err)).
Context (HRev : ∀ g, emits P (ListRevisions g)) (HAdopt : ∀ g l, emits P (AdoptOrphanRevisions g l)).

Lemma emits_freshGalera g : emits P (freshGalera g).
Proof. unfold freshGalera, galeraLive. emits_tac. Qed.

Lemma emits_getPods g sel : emits P (getPodsForGalera g sel).
Proof.
  unfold getPodsForGalera, podList. emits_tac.
  apply ClaimPods_emits; [|done]. by apply canAdoptFunc_emits.
Qed.

Lemma emits_getClaims g sel : emits P (getClaimsForGalera g sel).
Proof.
  unfold getClaimsForGalera, claimList. emits_tac.
  apply emits_ClaimClaims; [|done]. by apply canAdoptFunc_emits.
Qed.

Lemma emits_adoptOrphans g : emits P (adoptOrphanRevisions g).
Proof. unfold adoptOrphanRevisions. pose proof emits_freshGalera. emits_tac. Qed.

(** A reconciliation stops before the control, or calls it on the pods and the
    claims it was given. *)
Definition reconciled (gc : GaleraController) (key : string) (env : Env) (h : history)
    (o : outcome unit) (t : history) : Prop :=
  ∃ namespace name g sel pods claims t0 t1 t2 t3,
    SplitMetaNamespaceKey key = inl (namespace, name) ∧
    env.(env_galeraGet) h namespace name = inl g ∧ managed gc g = true ∧
    IsFailed (Some g.(g_Status)) = false ∧
    SelectorForGalera g.(g_Name) g.(g_Namespace) = inl sel ∧
    getPodsForGalera g sel env (h ++ t0) = (Ok pods, t1) ∧
    getClaimsForGalera g sel env ((h ++ t0) ++ t1) = (Ok claims, t2) ∧
    SyncGalera g pods claims env (((h ++ t0) ++ t1) ++ t2) = (o, t3) ∧
    t = t0 ++ t1 ++ t2 ++ t3 ∧ Forall P t0 ∧ Forall P t1 ∧ Forall P t2.

Lemma syncHandler_inv (gc : GaleraController) key (env : Env) (h : history) o t :
  syncHandler gc key env h = (o, t) → Forall P t ∨ reconciled gc key env h o t.
Proof using All.
  unfold syncHandler. destruct (SplitMetaNamespaceKey key) as [[namespace name]|] eqn:Ek;
    [|intros [= <- <-]; left; constructor].
  intros E. unfold galeraGet in E.
  apply bind_inv in E as [(r & t0 & t' & E0 & E & ->)|(_ & o' & E0 & _)]; last first.
  { left. eapply emits_run; [|exact E0]. apply emits_attempt. emits_tac. }
  assert (Forall P t0 ∧ ∀ g, r = inl g → env.(env_galeraGet) h namespace name = inl g) as [Hf0 Hg].
  { split; [eapply emits_run; [|exact E0]; apply emits_attempt; emits_tac; apply HGet|].
    intros g ->. revert E0. unfold attempt, call, orErr, errM. unM.
    destruct (env_galeraGet env h namespace name); cbn; by intros [= ->]. }
  destruct r as [g|e]; [|case_decide; injection E as <- <-; left; by rewrite app_nil_r].
  specialize (Hg g eq_refl). destruct (managed gc g) eqn:Hm; [|injection E as <- <-; left; by rewrite app_nil_r].
  destruct (IsFailed (Some (g_Status g))) eqn:Hf; [injection E as <- <-; left; by rewrite app_nil_r|].
  cbn [negb] in E. pose proof (emits_adoptOrphans g) as Ha.
  apply bind_inv in E as [(? & ta & tb & E1 & E & ->)|(_ & o' & E1 & _)];
    apply (emits_run _ _ _ _ _ _ Ha) in E1; [|left; by apply Forall_app].
  destruct (SelectorForGalera (g_Name g) (g_Namespace g)) as [sel|] eqn:Es; last first.
  { injection E as <- <-. left. rewrite app_nil_r. by apply Forall_app. }
  apply bind_inv in E as [(pods & t1 & tc & E2 & E & ->)|(_ & o' & E2 & _)];
    pose proof (emits_run _ _ _ _ _ _ (emits_getPods g sel) E2) as Hf2;
    [|left; rewrite !Forall_app; auto].
  apply bind_inv in E as [(claims & t2 & t3 & E3 & E & ->)|(_ & o' & E3 & _)];
    pose proof (emits_run _ _ _ _ _ _ (emits_getClaims g sel) E3) as Hf3;
    [|left; rewrite !Forall_app; auto].
  right. exists namespace, name, g, sel, pods, claims, (t0 ++ ta), t1, t2, t3.
  rewrite !app_assoc in *. split_and!; try done. by apply Forall_app.
Qed.
End reads.
