(* ===== verification/Utils.v ===== *)
(** * Helpers on pods, claims and statuses

    Models the rest of [galera_utils.go]: the predicates on the status of a pod,
    the addresses a new node joins, the builders of the objects of a cluster,
    and the tests on its status.  [podutil.IsPodReady] belongs to Kubernetes and is
    a parameter. *)
From S2P Require Import Prelude Types Objects Names PodLib.

(** [k8s.io/kubernetes/pkg/api/v1/pod.IsPodReady] *)
Class PodUtil := { IsPodReady : Pod → bool }.

(** ** Predicates on pods and claims *)

Definition isOneContainerTerminated (pod : Pod) : bool :=
  fold_left (λ running terminated, if (terminated : bool) then true else running)
    pod.(pod_Status).(pst_Terminated) false.

Definition isRunningAndReady `{PodUtil} (pod : Pod) : bool :=
  bool_decide (pod.(pod_Status).(pst_Phase) = "Running") &&
  negb (isOneContainerTerminated pod) && IsPodReady pod.

Definition isCreated (pod : Pod) : bool := bool_decide (pod.(pod_Status).(pst_Phase) ≠ "").

Definition isFailed (pod : Pod) : bool :=
  if decide (pod.(pod_Status).(pst_Phase) = "Failed") then true
  else if isOneContainerTerminated pod then true else false.

Definition isTerminating (pod : Pod) : bool := pod.(pod_DeletionTimestamp).

Definition isHealthy `{PodUtil} (pod : Pod) : bool :=
  isRunningAndReady pod && negb (isTerminating pod).

Definition isClaimTerminating (claim : PersistentVolumeClaim) : bool :=
  claim.(claim_DeletionTimestamp).

(** A map that is nil, or has no such key, gives the empty string. *)
Definition getPodRevision (pod : Pod) : string :=
  label_or_empty pod.(pod_Labels) GaleraRevisionLabel.

Definition getClaimRevision (claim : PersistentVolumeClaim) : string :=
  label_or_empty claim.(claim_Labels) GaleraRevisionLabel.

(** ** Addresses to join *)

(** One of the three loops: remove the pods with a role, when the map has more
    than one pod before the loop. *)
Definition removeRole (role : string) (m : list Pod) : list Pod :=
  if decide (1 < length m)%nat then filter (λ pod, pod_has pod GaleraRoleLabel role = false) m
  else m.

Definition bootstrapPods (pods : list Pod) : list Pod :=
  removeRole RoleBackupWriter (removeRole RoleWriter (removeRole RoleSpecial pods)).

(** [order] is the iteration order of the map. *)
Definition getBootstrapAddresses (order : list nat) (pods : list Pod) : string :=
  Join ((λ pod, pod.(pod_Status).(pst_PodIP)) <$> shuffle order (bootstrapPods pods)) ",".

(** ** Builders *)

Definition newGaleraPod (galera : Galera)
    (revision podName role state addresses bootstrapImage backupImage : string) (init : bool)
    (credsMap : gmap string string) : outcome Pod :=
  NewGaleraPod galera.(g_Spec) podName galera.(g_Name) galera.(g_Namespace) role addresses
    bootstrapImage backupImage revision state init credsMap (AsOwner galera).

Definition newGaleraPodDisruptionBudget (galera : Galera) : PodDisruptionBudget :=
  NewGaleraPodDisruptionBudget galera.(g_Spec) galera.(g_Labels) galera.(g_Name)
    galera.(g_Namespace) (getPDBName galera.(g_Name)) 1 (AsOwner galera).

Definition newGaleraService (galera : Galera) (serviceName role : string) : Service :=
  NewGaleraService galera.(g_Labels) galera.(g_Name) galera.(g_Namespace) serviceName role
    (AsOwner galera).

Definition newGaleraServiceMonitor (galera : Galera) : outcome Service :=
  pod ← deref galera.(g_Spec).(spec_Pod);
  metric ← deref pod.(pt_Metric);
  port ← deref metric.(metric_Port);
  mret (NewGaleraServiceMonitor galera.(g_Labels) galera.(g_Name) galera.(g_Namespace)
          (getServiceName galera.(g_Name) ServiceMonitorSuffix MaxServiceMonitorLength) port
          (AsOwner galera)).

Definition newGaleraHeadlessService (galera : Galera) : Service :=
  NewGaleraHeadlessService galera.(g_Labels) galera.(g_Name) galera.(g_Namespace)
    (getServiceName galera.(g_Name) HeadlessServiceSuffix MaxHeadlessServiceLength)
    (AsOwner galera).

Definition claimLabelsForGalera (galera : Galera) (revision : string) : gmap string string :=
  ClaimLabelsForGalera galera.(g_Labels) galera.(g_Name) galera.(g_Namespace) revision.

Definition getPersistentVolumeClaim (galera : Galera) (pod : Pod) : PersistentVolumeClaim :=
  CreateGaleraClaim galera.(g_Spec) galera.(g_Labels)
    (getPersistentVolumeClaimName galera.(g_Name) (getPodSuffix pod.(pod_Name)))
    galera.(g_Name) galera.(g_Namespace) (getPodRevision pod) (AsOwner galera).

Definition getBackupPersistentVolumeClaim (galera : Galera) (pod : Pod) : PersistentVolumeClaim :=
  CreateGaleraClaim galera.(g_Spec) galera.(g_Labels)
    (getBackupPersistentVolumeClaimName galera.(g_Name) (getPodSuffix pod.(pod_Name)))
    galera.(g_Name) galera.(g_Namespace) (getPodRevision pod) (AsOwner galera).

Definition isClaimMatching (galera : Galera) (claim : PersistentVolumeClaim)
    (defaultSCName : string) : outcome bool := CheckClaim galera claim defaultSCName.

(** ** Roles and status *)

Definition choseRole (status : GaleraStatus) : string :=
  if decide (status.(st_Members).(mem_Writer) = "") then RoleWriter
  else if decide (status.(st_Members).(mem_BackupWriter) = "") then RoleBackupWriter
  else if decide (status.(st_Members).(mem_Backup) = "") then Backup
  else Reader.

(** [*galera.Spec.Replicas] *)
Definition replicas (galera : Galera) : outcome Z := deref galera.(g_Spec).(spec_Replicas).

(** The replicas are read last: a nil pointer is dereferenced only when the
    other two tests hold. *)
Definition completeRollingUpdate (galera : Galera) (status : GaleraStatus)
    : outcome GaleraStatus :=
  if decide (status.(st_NextReplicas) = status.(st_Replicas) ∧
             len32 status.(st_Members).(mem_Ready) = status.(st_Replicas))
  then
    n ← replicas galera;
    mret (if decide (n = status.(st_Replicas))
          then with_NextRevision "" (with_NextReplicas 0
                 (with_CurrentRevision status.(st_NextRevision)
                   (with_CurrentReplicas status.(st_NextReplicas) status)))
          else status)
  else mret status.

Definition inconsistentStatus (galera : Galera) (status : GaleraStatus) : bool :=
  let s := galera.(g_Status) in
  bool_decide (s.(st_ObservedGeneration) < status.(st_ObservedGeneration) ∨
    status.(st_Replicas) ≠ s.(st_Replicas) ∨
    status.(st_CurrentReplicas) ≠ s.(st_CurrentReplicas) ∨
    length status.(st_Members).(mem_Ready) ≠ length s.(st_Members).(mem_Ready) ∨
    length status.(st_Members).(mem_Unready) ≠ length s.(st_Members).(mem_Unready) ∨
    status.(st_Members).(mem_Special) ≠ s.(st_Members).(mem_Special) ∨
    status.(st_NextReplicas) ≠ s.(st_NextReplicas) ∨
    status.(st_CurrentRevision) ≠ s.(st_CurrentRevision) ∨
    status.(st_NextRevision) ≠ s.(st_NextRevision)).

(** ** Lemmas *)

Lemma Forall_removeRole P role m : Forall P m → Forall P (removeRole role m).
Proof. unfold removeRole. case_decide; [apply Forall_filter|done]. Qed.

Lemma with_role_removeRole role role' m :
  (length (filter (λ p, pod_has p GaleraRoleLabel role = true) (removeRole role' m)) ≤
   length (filter (λ p, pod_has p GaleraRoleLabel role = true) m))%nat.
Proof.
  unfold removeRole. case_decide; [|done].
  apply filter_filter_length.
Qed.

Lemma removeRole_nonempty role m :
  m ≠ [] → (length (filter (λ p, pod_has p GaleraRoleLabel role = true) m) ≤ 1)%nat →
  removeRole role m ≠ [].
Proof.
  unfold removeRole. case_decide as Hl; [|done]. intros _ H1 H2.
  assert (length m = length (filter (λ p, pod_has p GaleraRoleLabel role = true) m)
                     + length (filter (λ p, pod_has p GaleraRoleLabel role = false) m))%nat as Hlen.
  { clear. induction m as [|p m IH]; [done|]. rewrite !filter_cons.
    destruct (pod_has p GaleraRoleLabel role);
      repeat case_decide; try congruence; cbn [length]; lia. }
  rewrite H2 in Hlen. cbn in Hlen. lia.
Qed.

(** When some pod lacks the role, every pod with the role goes. *)
Lemma removeRole_filter role m p :
  p ∈ m → pod_has p GaleraRoleLabel role = false →
  removeRole role m = filter (λ p, pod_has p GaleraRoleLabel role = false) m.
Proof.
  intros Hp Hr. unfold removeRole. case_decide as Hl; [done|].
  destruct m as [|q [|? ?]]; [by apply elem_of_nil in Hp| |cbn in Hl; lia].
  apply list_elem_of_singleton in Hp as ->. by rewrite filter_cons, decide_True.
Qed.

Lemma Join_nonempty l sep : l ≠ [] → Forall (λ s, s ≠ "") l → Join l sep ≠ "".
Proof.
  destruct l as [|s [|s' l]]; [done| |]; intros _ H; inversion H; subst; cbn; [done|].
  by destruct s.
Qed.

(** ** Properties *)

(** A pod is a plain member when none of the roles that are left aside is its. *)
Definition plain (pod : Pod) : bool :=
  negb (pod_has pod GaleraRoleLabel RoleSpecial) && negb (pod_has pod GaleraRoleLabel RoleWriter)
  && negb (pod_has pod GaleraRoleLabel RoleBackupWriter).

Definition unique_role (role : string) (pods : list Pod) : Prop :=
  (length (filter (λ p, pod_has p GaleraRoleLabel role = true) pods) ≤ 1)%nat.

(** When the ready pods hold each of the special, writer and backup-writer
    roles at most once, a new node has addresses to join as soon as one pod is
    ready, in whatever order the map of pods is visited; when a plain pod is ready,
    these addresses are those of the plain pods, so that a node is never joined
    through the writer.  Two writers, which the caller can pass for one round, are
    both removed: no address is left and the next node would bootstrap a new
    cluster. *)
Theorem getBootstrapAddresses_spec (order : list nat) (pods : list Pod) :
  unique_role RoleSpecial pods → unique_role RoleWriter pods → unique_role RoleBackupWriter pods →
  pods ≠ [] → Forall (λ p, p.(pod_Status).(pst_PodIP) ≠ "") pods →
  getBootstrapAddresses order pods ≠ "" ∧
  (∀ p, p ∈ pods → plain p = true →
     ∃ l, l ≡ₚ filter (λ p, plain p = true) pods ∧
          getBootstrapAddresses order pods = Join ((λ p, p.(pod_Status).(pst_PodIP)) <$> l) ",") ∧
  (∀ w1 w2, pod_has w1 GaleraRoleLabel RoleWriter = true →
            pod_has w2 GaleraRoleLabel RoleWriter = true →
            getBootstrapAddresses order [w1; w2] = "").
Proof.
  intros Hs Hw Hb Hne Hip. split_and!.
  - unfold getBootstrapAddresses, bootstrapPods. apply Join_nonempty.
    + intros H%(f_equal length). rewrite length_fmap, shuffle_perm in H.
      apply nil_length_inv in H. revert H.
      apply removeRole_nonempty; [apply removeRole_nonempty; [by apply removeRole_nonempty|]|];
        unfold unique_role in *; repeat (etrans; [apply with_role_removeRole|]); done.
    + apply Forall_fmap. rewrite shuffle_perm. unfold compose.
      by do 3 apply Forall_removeRole.
  - intros p Hp Hpl. exists (shuffle order (bootstrapPods pods)). split; [|done].
    rewrite shuffle_perm. unfold bootstrapPods, plain in *.
    apply andb_true_iff in Hpl as [[H1 H2]%andb_true_iff H3]. rewrite negb_true_iff in *.
    rewrite (removeRole_filter RoleSpecial pods p) by done.
    rewrite (removeRole_filter RoleWriter _ p) by (try rewrite list_elem_of_filter; done).
    rewrite (removeRole_filter RoleBackupWriter _ p) by (rewrite ?list_elem_of_filter; done).
    rewrite !list_filter_filter. apply reflexive_eq, list_filter_iff. intros q.
    rewrite !andb_true_iff, !negb_true_iff. tauto.
  - intros w1 w2 H1 H2. unfold getBootstrapAddresses.
    assert (bootstrapPods [w1; w2] = []) as ->; [|by destruct order].
    assert (Hns : ∀ w, pod_has w GaleraRoleLabel RoleWriter = true →
                       pod_has w GaleraRoleLabel RoleSpecial = false).
    { unfold pod_has. intros w. rewrite bool_decide_eq_true, bool_decide_eq_false.
      intros ->. discriminate. }
    unfold bootstrapPods. rewrite (removeRole_filter RoleSpecial _ w1) by (set_solver || auto).
    rewrite !filter_cons, filter_nil, !decide_True by auto.
    unfold removeRole at 2. rewrite decide_True by (cbn; lia).
    rewrite !filter_cons, filter_nil, H1, H2. reflexivity.
Qed.

(** A pod is ready by its condition, as Kubernetes documents it. *)
Definition examplePodUtil : PodUtil :=
  {| IsPodReady pod := bool_decide (("Ready", "True") ∈ pod.(pod_Status).(pst_Conditions)) |}.

(** Pods of the example cluster: running members with a role and an address *)
Definition example_pod (suffix role ip : string) : Pod :=
  mkPod ("gal-" +:+ suffix) "ns" "" "" (Some (PodLabelsForGalera "gal" "ns" role "r1" StateCluster))
    [AsOwner example_galera] false
    (mkPodSpec [] [galeraContainer "mariadb:10.4.5" "u" "p" role] [] "Never" ("gal-" +:+ suffix)
       "gal" (Some false) "" None None ∅ [])
    (mkPodStatus "Running" [false] ip [("Ready", "True")]).

Definition example_pods : list Pod :=
  [example_pod "a" RoleWriter "10.0.0.1"; example_pod "b" RoleBackupWriter "10.0.0.2";
   example_pod "c" Reader "10.0.0.3"].

Definition unique_roleb (role : string) (pods : list Pod) : bool :=
  (length (filter (λ p, pod_has p GaleraRoleLabel role = true) pods) <=? 1)%nat.

Lemma unique_roleb_spec role pods : unique_roleb role pods = true → unique_role role pods.
Proof. apply Nat.leb_le. Qed.

Lemma getBootstrapAddresses_spec_witness :
  unique_role RoleWriter example_pods ∧
  getBootstrapAddresses [] example_pods ≠ "" ∧
  getBootstrapAddresses [] example_pods = "10.0.0.3".
Proof.
  assert (Hs : unique_role RoleSpecial example_pods) by (apply unique_roleb_spec; reflexivity).
  assert (Hw : unique_role RoleWriter example_pods) by (apply unique_roleb_spec; reflexivity).
  assert (Hb : unique_role RoleBackupWriter example_pods) by (apply unique_roleb_spec; reflexivity).
  split; [exact Hw|]. split; [|vm_compute; reflexivity].
  refine (proj1 (getBootstrapAddresses_spec [] example_pods Hs Hw Hb _ _)).
  - discriminate.
  - repeat (apply Forall_cons; split); try apply Forall_nil_2; discriminate.
Defined.
