(* ===== verification/PodControl.v ===== *)
(** * The pod control

    Models [galera_pod_control.go]: the interface [GaleraPodControlInterface] as
    a class of operations, what its clients rely on as a class of laws, and the
    implementation [realGaleraPodControl] on the API calls of [Kube]. *)
From S2P Require Import Prelude Types Objects Names PodLib Kube Utils.

(** ** Patch actions: functions on the labels of a pod *)

Definition PatchAction : Type := labels_t → outcome labels_t.

(** [m[key] = v]: writing a nil map panics. *)
Definition set_label (key v : string) : PatchAction := λ m,
  match m with None => Panic | Some l => Ok (Some (<[key := v]> l)) end.

Definition AddReader : PatchAction := set_label GaleraReaderLabel "true".
Definition RemoveReader : PatchAction := set_label GaleraReaderLabel "false".
Definition AddWriter : PatchAction := set_label GaleraRoleLabel RoleWriter.
Definition AddBackupWriter : PatchAction := set_label GaleraRoleLabel RoleBackupWriter.
Definition RemoveRole : PatchAction := λ m, Ok (delete GaleraRoleLabel <$> m).

(** The loop over the actions *)
Fixpoint applyActions (actions : list PatchAction) (m : labels_t) : outcome labels_t :=
  match actions with
  | [] => Ok m
  | action :: actions' => m' ← action m; applyActions actions' m'
  end.

(** ** The interface *)

Class GaleraPodControl := {
  CreatePodAndClaim : Galera → Pod → string → M unit;
  PatchPodLabels : Galera → Pod → list PatchAction → M unit;
  PatchClaimLabels : Galera → Pod → string → M unit;
  DeleteSyncedPod : Galera → Pod → string → string → M unit;
  DeleteSyncedPodForUpgrade : Galera → Pod → string → string → string → M unit;
  ForceDeletePod : Galera → Pod → M unit;
  ForceDeletePodAndClaim : Galera → Pod → M unit;
  DeleteClaim : Galera → PersistentVolumeClaim → M unit;
  GetClaimRevision : string → string → M (bool * string);
  RunUpgradeGalera : Galera → Pod → string → string → M unit;
  IsPrimary : Galera → Pod → string → string → M bool
}.

(** ** Regular expressions on the output of commands *)

(** The two expressions on the state of a node find, in multi-line mode and
    whatever the case, a line that contains a name: the first such line; nil,
    here the empty string, when there is none.  The outputs are ASCII text. *)
Fixpoint findLine (name : string) (l : list string) : string :=
  match l with
  | [] => ""
  | s :: l' => if Contains (ToLower s) name then s else findLine name l'
  end.

Definition wsrepLocalStateComment (stdout : string) : string :=
  findLine "wsrep_local_state_comment" (lines stdout).
Definition isSynced (s : string) : bool := Contains s "Synced".
Definition isKO (stdout : string) : bool := HasSuffix stdout "KO".
Definition wsrepClusterStatus (stdout : string) : string :=
  findLine "wsrep_cluster_status" (lines stdout).
Definition isPrimary (s : string) : bool := Contains s "Primary".

(** ** Events *)

Definition recordPodEvent (verb : string) (galera : Galera) (pod : Pod) (err : option error)
    : M unit :=
  let subject := ToLower verb +:+ " Pod " +:+ pod.(pod_Name) +:+ " in Galera "
                   +:+ galera.(g_Namespace) +:+ "/" +:+ galera.(g_Name) in
  match err with
  | None => recordEvent ("Successful" +:+ Title verb) (subject +:+ " successful") true
  | Some e =>
      recordEvent ("Failed" +:+ Title verb) (subject +:+ " failed error: " +:+ e.(err_msg)) false
  end.

Definition recordClaimEvent (verb : string) (galera : Galera) (claim : PersistentVolumeClaim)
    (err : option error) : M unit :=
  let subject := ToLower verb +:+ " claim " +:+ claim.(claim_Name) +:+ " for pod "
                   +:+ getPodName galera.(g_Name) (getClaimSuffix claim.(claim_Name))
                   +:+ " in galera " +:+ galera.(g_Namespace) +:+ "/" +:+ galera.(g_Name) in
  match err with
  | None => recordEvent ("Successful" +:+ Title verb) (subject +:+ " success") true
  | Some e =>
      recordEvent ("Failed" +:+ Title verb) (subject +:+ " failed error: " +:+ e.(err_msg)) false
  end.

(** ** The implementation *)

Module realGaleraPodControl.
Section implementation.
Context `{RetryLib}.

(** The claim a pod needs, created when the lister does not know it: the two
    functions of the source differ by the claim and by a word of a message. *)
Definition createClaim (galera : Galera) (claim : PersistentVolumeClaim) (what : string) : M unit :=
  existing ← attempt (claimGet claim.(claim_Namespace) claim.(claim_Name));
  err ←
    match existing with
    | inr e =>
        if decide (e.(err_kind) = NotFound)
        then errOf (claimCreate claim.(claim_Namespace) claim)
        else mret (Some e)
    | inl existingClaim =>
        mret (if existingClaim.(claim_DeletionTimestamp)
              then Some (errorf (what +:+ " " +:+ galera.(g_Namespace) +:+ "/"
                                   +:+ claim.(claim_Name) +:+ " is terminating"))
              else None)
    end;
  recordClaimEvent "create" galera claim err;;
  retErr err.

Definition createPersistentVolumeClaim (galera : Galera) (pod : Pod) : M unit :=
  createClaim galera (getPersistentVolumeClaim galera pod) "Persistent Volume Claim".

Definition createBackupPersistentVolumeClaim (galera : Galera) (pod : Pod) : M unit :=
  createClaim galera (getBackupPersistentVolumeClaim galera pod) "Backup Persistent Volume Claim".

Definition createClaims (galera : Galera) (pod : Pod) (role : string) : M unit :=
  createPersistentVolumeClaim galera pod;;
  if decide (role = Backup) then createBackupPersistentVolumeClaim galera pod else mret tt.

Definition CreatePodAndClaim (galera : Galera) (pod : Pod) (role : string) : M unit :=
  createClaims galera pod role;;
  err ← errOf (podCreate galera.(g_Namespace) pod);
  match err with
  | Some e =>
      if decide (e.(err_kind) = AlreadyExists) then errM e
      else recordPodEvent "create" galera pod err;; errM e
  | None => recordPodEvent "create" galera pod err
  end.

Definition PatchPodLabels (galera : Galera) (pod : Pod) (actions : list PatchAction) : M unit :=
  m ← pureM (applyActions actions pod.(pod_Labels));
  '(err, pod) ← RetryOnConflict
     (updateOnce (λ pod, podPatch galera.(g_Namespace) pod.(pod_Name) m)
                 (λ pod, podGet galera.(g_Namespace) pod.(pod_Name))) pod;
  recordPodEvent "patch" galera pod err;;
  retErr err.

Definition PatchClaimLabels (galera : Galera) (pod : Pod) (revision : string) : M unit :=
  claim ← claimGet galera.(g_Namespace) (getPersistentVolumeClaimNameForPod pod.(pod_Name));
  let m := Some (claimLabelsForGalera galera revision) in
  '(err, claim) ← RetryOnConflict
     (updateOnce (λ claim, claimPatch galera.(g_Namespace) claim.(claim_Name) m)
                 (λ claim, claimGet galera.(g_Namespace) claim.(claim_Name))) claim;
  recordClaimEvent "patch" galera claim err;;
  retErr err.

(** Run [f] when the galera container says that its data are on other nodes. *)
Definition deleteSynced (galera : Galera) (pod : Pod) (user password : string) (f : M unit)
    : M unit :=
  let cmd := ["mysqladmin"; "extended-status"; "-u" +:+ user; "-p" +:+ password] in
  '(stdout, execErr) ← ExecCmd galera.(g_Namespace) pod cmd;
  err ←
    match execErr with
    | Some e => mret (Some e)
    | None =>
        if isSynced (wsrepLocalStateComment stdout) then errOf f
        else mret (Some (errorf ("galera pod (" +:+ pod.(pod_Namespace) +:+ "/"
                                   +:+ pod.(pod_Name) +:+ ") not synced")))
    end;
  recordPodEvent "delete" galera pod err;;
  retErr err.

Definition DeleteSyncedPod (galera : Galera) (pod : Pod) (user password : string) : M unit :=
  deleteSynced galera pod user password (podDelete galera.(g_Namespace) pod.(pod_Name)).

Definition DeleteClaim (galera : Galera) (claim : PersistentVolumeClaim) : M unit :=
  err ← errOf (claimDelete galera.(g_Namespace) claim.(claim_Name));
  recordClaimEvent "delete" galera claim err;;
  retErr err.

(** Delete a claim and record it once more, as two of the callers do. *)
Definition deleteClaimRecorded (galera : Galera) (claim : PersistentVolumeClaim) : M unit :=
  err ← errOf (DeleteClaim galera claim);
  recordClaimEvent "delete" galera claim err;;
  retErr err.

(** Delete a claim that does not match the specification. *)
Definition deleteUnmatched (galera : Galera) (name defaultSCName : string) : M unit :=
  claim ← claimGet galera.(g_Namespace) name;
  matching ← pureM (isClaimMatching galera claim defaultSCName);
  if (matching : bool) then mret tt else deleteClaimRecorded galera claim.

Definition DeleteSyncedPodForUpgrade (galera : Galera) (pod : Pod)
    (user password defaultSCName : string) : M unit :=
  let suffix := getPodSuffix pod.(pod_Name) in
  deleteSynced galera pod user password (
    (if pod_has pod GaleraBackupLabel Backup
     then deleteUnmatched galera (getBackupPersistentVolumeClaimName galera.(g_Name) suffix)
            defaultSCName
     else mret tt);;
    deleteUnmatched galera (getPersistentVolumeClaimName galera.(g_Name) suffix) defaultSCName;;
    podDelete galera.(g_Namespace) pod.(pod_Name)).

Definition ForceDeletePod (galera : Galera) (pod : Pod) : M unit :=
  err ← errOf (podDelete galera.(g_Namespace) pod.(pod_Name));
  recordPodEvent "delete" galera pod err;;
  retErr err.

Definition ForceDeletePodAndClaim (galera : Galera) (pod : Pod) : M unit :=
  let suffix := getPodSuffix pod.(pod_Name) in
  (match pod_label pod GaleraRoleLabel with
   | Some role =>
       if decide (role = Restore ∨ role = Backup) then
         bkpClaim ← claimGet galera.(g_Namespace)
                      (getBackupPersistentVolumeClaimName galera.(g_Name) suffix);
         deleteClaimRecorded galera bkpClaim
       else mret tt
   | None => mret tt
   end);;
  claim ← claimGet galera.(g_Namespace) (getPersistentVolumeClaimName galera.(g_Name) suffix);
  DeleteClaim galera claim;;
  ForceDeletePod galera pod.

Definition GetClaimRevision (namespace podName : string) : M (bool * string) :=
  claim ← attempt (claimGet namespace (getPersistentVolumeClaimNameForPod podName));
  match claim with
  | inr e => if decide (e.(err_kind) = NotFound) then mret (false, "") else errM e
  | inl claim => mret (true, getClaimRevision claim)
  end.

Definition RunUpgradeGalera (galera : Galera) (pod : Pod) (user password : string) : M unit :=
  let cmd := ["mysql_upgrade"; "-f"; "-u" +:+ user; "-p" +:+ password] in
  '(stdout, execErr) ← ExecCmd galera.(g_Namespace) pod cmd;
  let err :=
    if isKO stdout
    then Some (errorf ("mysql_upgrade on galera pod (" +:+ pod.(pod_Namespace) +:+ "/"
                         +:+ pod.(pod_Name) +:+ ") is not successful : " +:+ stdout))
    else execErr in
  recordPodEvent "mysqlUpgrade" galera pod err;;
  retErr err.

Definition IsPrimary (galera : Galera) (pod : Pod) (user password : string) : M bool :=
  let cmd := ["mysqladmin"; "extended-status"; "-u" +:+ user; "-p" +:+ password] in
  '(stdout, execErr) ← ExecCmd galera.(g_Namespace) pod cmd;
  match execErr with
  | Some e => errM e
  | None => mret (isPrimary (wsrepClusterStatus stdout))
  end.
End implementation.
End realGaleraPodControl.

Definition NewRealGaleraPodControl `{RetryLib} : GaleraPodControl := {|
  CreatePodAndClaim := realGaleraPodControl.CreatePodAndClaim;
  PatchPodLabels := realGaleraPodControl.PatchPodLabels;
  PatchClaimLabels := realGaleraPodControl.PatchClaimLabels;
  DeleteSyncedPod := realGaleraPodControl.DeleteSyncedPod;
  DeleteSyncedPodForUpgrade := realGaleraPodControl.DeleteSyncedPodForUpgrade;
  ForceDeletePod := realGaleraPodControl.ForceDeletePod;
  ForceDeletePodAndClaim := realGaleraPodControl.ForceDeletePodAndClaim;
  DeleteClaim := realGaleraPodControl.DeleteClaim;
  GetClaimRevision := realGaleraPodControl.GetClaimRevision;
  RunUpgradeGalera := realGaleraPodControl.RunUpgradeGalera;
  IsPrimary := realGaleraPodControl.IsPrimary
|}.

(** ** What clients rely on

    The events an operation may add to the trace. *)

Definition ev_record (e : event) : Prop :=
  match e with EvRecord _ _ _ => True | _ => False end.

(** The creation of a pod and of its claims *)
Definition ev_create (ns : string) (pod : Pod) (e : event) : Prop :=
  match e with
  | EvPodCreate ns' pod' _ => ns' = ns ∧ pod' = pod
  | EvClaimCreate _ _ _ | EvClaimGet _ _ _ | EvRecord _ _ _ => True
  | _ => False
  end.

Definition ev_patchPod (ns : string) (m : labels_t) (e : event) : Prop :=
  match e with
  | EvPodPatch ns' _ m' _ => ns' = ns ∧ m' = m
  | EvPodGet _ _ | EvRecord _ _ _ => True
  | _ => False
  end.

Definition ev_patchClaim (ns : string) (m : labels_t) (e : event) : Prop :=
  match e with
  | EvClaimPatch ns' _ m' _ => ns' = ns ∧ m' = m
  | EvClaimGet _ _ _ | EvRecord _ _ _ => True
  | _ => False
  end.

Definition ev_deletePod (ns name : string) (e : event) : Prop :=
  match e with
  | EvPodDelete ns' name' _ => ns' = ns ∧ name' = name
  | EvRecord _ _ _ => True
  | _ => False
  end.

(** The deletion of a pod with its claims, and the commands run before it *)
Definition ev_deletePodAndClaims (ns name : string) (e : event) : Prop :=
  match e with
  | EvPodDelete ns' name' _ => ns' = ns ∧ name' = name
  | EvClaimDelete _ _ _ | EvClaimGet _ _ _ | EvExec _ _ _ _ _ _ | EvRecord _ _ _ => True
  | _ => False
  end.

Definition ev_deleteClaim (ns name : string) (e : event) : Prop :=
  match e with
  | EvClaimDelete ns' name' _ => ns' = ns ∧ name' = name
  | EvRecord _ _ _ => True
  | _ => False
  end.

(** Reads: a claim looked up, a command run in a container, an event recorded *)
Definition ev_read (e : event) : Prop :=
  match e with
  | EvClaimGet _ _ _ | EvExec _ _ _ _ _ _ | EvRecord _ _ _ => True
  | _ => False
  end.

(** The reading of a claim, and a command in a pod *)
Definition ev_look (e : event) : Prop :=
  match e with EvClaimGet _ _ _ => True | _ => False end.
Definition ev_command (ns name : string) (e : event) : Prop :=
  match e with
  | EvExec ns' name' _ _ _ _ => ns' = ns ∧ name' = name
  | EvRecord _ _ _ => True
  | _ => False
  end.

(** The state command, run without error in the container of a pod, said that
    the node is synced. *)
Definition synced_exec (ns name : string) (t : history) : Prop :=
  ∃ container cmd stdout,
    EvExec ns name container cmd stdout None ∈ t ∧
    isSynced (wsrepLocalStateComment stdout) = true.

Definition is_delete (e : event) : bool :=
  match e with EvPodDelete _ _ _ | EvClaimDelete _ _ _ => true | _ => false end.

(** Nothing is deleted in [t] before the node has said it is synced. *)
Definition deletes_synced (ns name : string) (t : history) : Prop :=
  ∀ t1 e t2, t = t1 ++ e :: t2 → is_delete e = true → synced_exec ns name t1.

Definition is_podCreate (e : event) : bool :=
  match e with EvPodCreate _ _ _ => true | _ => false end.

Class GaleraPodControlLaws `{GaleraPodControl} := {
  CreatePodAndClaim_emits g pod role :
    emits (ev_create g.(g_Namespace) pod) (CreatePodAndClaim g pod role);
  CreatePodAndClaim_once g pod role env h :
    (length (filter (λ e, is_podCreate e = true)
               (snd (CreatePodAndClaim g pod role env h))) ≤ 1)%nat;
  CreatePodAndClaim_ok g pod role env h t :
    CreatePodAndClaim g pod role env h = (Ok tt, t) →
    EvPodCreate g.(g_Namespace) pod None ∈ t;
  PatchPodLabels_emits g pod actions m :
    applyActions actions pod.(pod_Labels) = Ok m →
    emits (ev_patchPod g.(g_Namespace) m) (PatchPodLabels g pod actions);
  PatchPodLabels_nil g pod actions :
    is_ok (applyActions actions pod.(pod_Labels)) = false →
    ∀ env h, snd (PatchPodLabels g pod actions env h) = [] ∧
             is_ok (fst (PatchPodLabels g pod actions env h)) = false;
  PatchClaimLabels_emits g pod rev :
    emits (ev_patchClaim g.(g_Namespace) (Some (claimLabelsForGalera g rev)))
      (PatchClaimLabels g pod rev);
  DeleteSyncedPod_emits g pod user pw :
    emits (ev_deletePodAndClaims g.(g_Namespace) pod.(pod_Name)) (DeleteSyncedPod g pod user pw);
  DeleteSyncedPod_synced g pod user pw env h :
    deletes_synced g.(g_Namespace) pod.(pod_Name) (snd (DeleteSyncedPod g pod user pw env h));
  DeleteSyncedPodForUpgrade_emits g pod user pw sc :
    emits (ev_deletePodAndClaims g.(g_Namespace) pod.(pod_Name))
      (DeleteSyncedPodForUpgrade g pod user pw sc);
  DeleteSyncedPodForUpgrade_synced g pod user pw sc env h :
    deletes_synced g.(g_Namespace) pod.(pod_Name)
      (snd (DeleteSyncedPodForUpgrade g pod user pw sc env h));
  ForceDeletePod_emits g pod :
    emits (ev_deletePod g.(g_Namespace) pod.(pod_Name)) (ForceDeletePod g pod);
  ForceDeletePod_ok g pod env h t :
    ForceDeletePod g pod env h = (Ok tt, t) →
    EvPodDelete g.(g_Namespace) pod.(pod_Name) None ∈ t;
  ForceDeletePodAndClaim_emits g pod :
    emits (ev_deletePodAndClaims g.(g_Namespace) pod.(pod_Name)) (ForceDeletePodAndClaim g pod);
  DeleteClaim_emits g claim :
    emits (ev_deleteClaim g.(g_Namespace) claim.(claim_Name)) (DeleteClaim g claim);
  GetClaimRevision_looks ns name : emits ev_look (GetClaimRevision ns name);
  RunUpgradeGalera_inside g pod user pw :
    emits (ev_command g.(g_Namespace) pod.(pod_Name)) (RunUpgradeGalera g pod user pw);
  RunUpgradeGalera_ok g pod user pw env h t :
    RunUpgradeGalera g pod user pw env h = (Ok tt, t) →
    ∃ container cmd stdout,
      EvExec g.(g_Namespace) pod.(pod_Name) container ("mysql_upgrade" :: cmd) stdout None ∈ t ∧
      isKO stdout = false;
  IsPrimary_emits g pod user pw : emits ev_read (IsPrimary g pod user pw)
}.

Lemma GetClaimRevision_emits `{GaleraPodControlLaws} ns name : emits ev_read (GetClaimRevision ns name).
Proof. eapply emits_impl; [apply GetClaimRevision_looks|]. by intros []. Qed.

Lemma RunUpgradeGalera_emits `{GaleraPodControlLaws} g pod user pw : emits ev_read (RunUpgradeGalera g pod user pw).
Proof. eapply emits_impl; [apply RunUpgradeGalera_inside|]. by intros []. Qed.

(** ** The implementation obeys the laws *)

Ltac emits_ops :=
  repeat first
    [ progress (unfold recordPodEvent, recordClaimEvent, podCreate, podDelete, podPatch, podGet,
        claimCreate, claimDelete, claimPatch, claimGet, recordEvent, ExecCmd)
    | emits_step
    | apply emits_attempt
    | apply emits_errOf
    | progress eauto 3 with emits
    | done ].

Module real_laws.
Import realGaleraPodControl.
Section laws.
Context `{RetryLaws}.

Lemma createClaim_emits g pod claim what :
  emits (ev_create g.(g_Namespace) pod) (createClaim g claim what).
Proof. unfold createClaim. emits_ops. Qed.

Lemma real_create_emits g pod role :
  emits (ev_create g.(g_Namespace) pod) (realGaleraPodControl.CreatePodAndClaim g pod role).
Proof.
  unfold realGaleraPodControl.CreatePodAndClaim, createClaims, createPersistentVolumeClaim,
    createBackupPersistentVolumeClaim.
  repeat first [apply createClaim_emits | progress emits_ops].
Qed.

Lemma real_patchPod_emits g pod actions m :
  applyActions actions pod.(pod_Labels) = Ok m →
  emits (ev_patchPod g.(g_Namespace) m) (realGaleraPodControl.PatchPodLabels g pod actions).
Proof.
  intros E. unfold realGaleraPodControl.PatchPodLabels. rewrite E.
  apply emits_pure_bind. apply emits_bind; [apply emits_retry; [apply _|intros p; unfold updateOnce]|];
    emits_ops.
Qed.

Lemma real_patchClaim_emits g pod rev :
  emits (ev_patchClaim g.(g_Namespace) (Some (claimLabelsForGalera g rev)))
    (realGaleraPodControl.PatchClaimLabels g pod rev).
Proof.
  unfold realGaleraPodControl.PatchClaimLabels. apply emits_bind; [emits_ops|intros claim].
  apply emits_bind; [apply emits_retry; [apply _|intros c; unfold updateOnce]|];
    emits_ops.
Qed.

Lemma deleteSynced_emits g pod user pw f :
  emits (ev_deletePodAndClaims g.(g_Namespace) pod.(pod_Name)) f →
  emits (ev_deletePodAndClaims g.(g_Namespace) pod.(pod_Name)) (deleteSynced g pod user pw f).
Proof. intros Hf. unfold deleteSynced. emits_ops. Qed.

Lemma deleteUnmatched_emits ns' name' g name sc :
  emits (ev_deletePodAndClaims ns' name') (deleteUnmatched g name sc).
Proof. unfold deleteUnmatched, deleteClaimRecorded, realGaleraPodControl.DeleteClaim. emits_ops. Qed.

Lemma real_upgradeBody_emits g pod sc :
  emits (ev_deletePodAndClaims g.(g_Namespace) pod.(pod_Name))
    ((if pod_has pod GaleraBackupLabel Backup
      then deleteUnmatched g (getBackupPersistentVolumeClaimName g.(g_Name)
             (getPodSuffix pod.(pod_Name))) sc
      else mret tt);;
     deleteUnmatched g (getPersistentVolumeClaimName g.(g_Name) (getPodSuffix pod.(pod_Name))) sc;;
     podDelete g.(g_Namespace) pod.(pod_Name)).
Proof. repeat first [apply deleteUnmatched_emits | progress emits_ops]. Qed.

Lemma real_forceAndClaim_emits g pod :
  emits (ev_deletePodAndClaims g.(g_Namespace) pod.(pod_Name))
    (realGaleraPodControl.ForceDeletePodAndClaim g pod).
Proof.
  unfold realGaleraPodControl.ForceDeletePodAndClaim, deleteClaimRecorded,
    realGaleraPodControl.DeleteClaim, realGaleraPodControl.ForceDeletePod.
  emits_ops.
Qed.

Lemma real_forceDelete_emits g pod :
  emits (ev_deletePod g.(g_Namespace) pod.(pod_Name)) (realGaleraPodControl.ForceDeletePod g pod).
Proof. unfold realGaleraPodControl.ForceDeletePod. emits_ops. Qed.

Lemma real_deleteClaim_emits g claim :
  emits (ev_deleteClaim g.(g_Namespace) claim.(claim_Name))
    (realGaleraPodControl.DeleteClaim g claim).
Proof. unfold realGaleraPodControl.DeleteClaim. emits_ops. Qed.

Lemma real_claimRevision_emits ns name :
  emits ev_look (realGaleraPodControl.GetClaimRevision ns name).
Proof. unfold realGaleraPodControl.GetClaimRevision. emits_ops. Qed.

Lemma real_upgrade_emits g pod user pw :
  emits (ev_command g.(g_Namespace) pod.(pod_Name)) (realGaleraPodControl.RunUpgradeGalera g pod user pw).
Proof. unfold realGaleraPodControl.RunUpgradeGalera. emits_ops. Qed.

Lemma real_primary_emits g pod user pw :
  emits ev_read (realGaleraPodControl.IsPrimary g pod user pw).
Proof. unfold realGaleraPodControl.IsPrimary. emits_ops. Qed.

Lemma real_create_once g pod role :
  at_most is_podCreate 1 (realGaleraPodControl.CreatePodAndClaim g pod role).
Proof.
  assert (Hc : ∀ claim what, emits (λ e, is_podCreate e = false) (createClaim g claim what))
    by (intros; unfold createClaim; emits_ops).
  unfold realGaleraPodControl.CreatePodAndClaim, createClaims.
  apply (at_most_bind _ 0 1); [apply at_most_none, emits_bind; [apply Hc|intros _]|].
  { case_decide; [apply Hc|apply emits_ret]. }
  intros _. apply (at_most_bind _ 1 0).
  - intros env h. unfold podCreate, errOf, attempt, call, retErr, mbind, M_bind, mret, M_ret, errM.
    by destruct (env_podCreate env h (g_Namespace g) pod).
  - intros err. apply at_most_none. destruct err; emits_ops.
Qed.

Lemma real_create_ok g pod role env h t :
  realGaleraPodControl.CreatePodAndClaim g pod role env h = (Ok tt, t) →
  EvPodCreate g.(g_Namespace) pod None ∈ t.
Proof.
  unfold realGaleraPodControl.CreatePodAndClaim. intros (? & t1 & ? & _ & E & ->)%bind_ok_inv.
  apply bind_ok_inv in E as ([e|] & t3 & t4 & E3 & E4 & ->).
  - case_decide; [discriminate|]. by apply bind_ok_inv in E4 as (? & ? & ? & _ & ? & _).
  - apply errOf_none in E3. apply (call_ok _ (EvPodCreate _ _)) in E3 as ->.
    rewrite !elem_of_app, list_elem_of_singleton. auto.
Qed.

Lemma real_force_ok g pod env h t :
  realGaleraPodControl.ForceDeletePod g pod env h = (Ok tt, t) →
  EvPodDelete g.(g_Namespace) pod.(pod_Name) None ∈ t.
Proof.
  unfold realGaleraPodControl.ForceDeletePod. intros ([e|] & t1 & t2 & E1 & E2 & ->)%bind_ok_inv.
  - by apply bind_ok_inv in E2 as (? & ? & ? & _ & ? & _).
  - apply errOf_none in E1. apply (call_ok _ (EvPodDelete _ _)) in E1 as ->.
    by apply list_elem_of_here.
Qed.

(** The trace of a command: one event, with the output and the error. *)
Lemma ExecCmd_inv ns pod cmd env h o t :
  ExecCmd ns pod cmd env h = (o, t) →
  (o = Panic ∧ t = []) ∨
  ∃ c stdout err, o = Ok (stdout, err) ∧ t = [EvExec ns pod.(pod_Name) c cmd stdout err].
Proof.
  unfold ExecCmd. destruct (ps_Containers (pod_Spec pod)) as [|c l]; unfold pureM, call.
  - intros [= <- <-]. auto.
  - intros [= <- <-]. right. exists (c_Name c).
    destruct (env_exec env h ns (pod_Name pod) (c_Name c) cmd) as [out err] eqn:E. eauto.
Qed.

Lemma real_upgrade_ok g pod user pw env h t :
  realGaleraPodControl.RunUpgradeGalera g pod user pw env h = (Ok tt, t) →
  ∃ container cmd stdout,
    EvExec g.(g_Namespace) pod.(pod_Name) container ("mysql_upgrade" :: cmd) stdout None ∈ t ∧
    isKO stdout = false.
Proof.
  unfold realGaleraPodControl.RunUpgradeGalera.
  intros ([out err] & t1 & t2 & E1 & E2 & ->)%bind_ok_inv.
  apply ExecCmd_inv in E1 as [[? _]|(c & out' & err' & [= <- <-] & ->)]; [done|].
  apply bind_ok_inv in E2 as (? & t3 & t4 & _ & E4 & ->).
  exists c, ["-f"; "-u" +:+ user; "-p" +:+ pw], out.
  destruct (isKO out); [done|]. destruct err; [done|]. split; [apply list_elem_of_here|done].
Qed.

Lemma real_patchPod_nil g pod actions :
  is_ok (applyActions actions pod.(pod_Labels)) = false →
  ∀ env h, snd (realGaleraPodControl.PatchPodLabels g pod actions env h) = [] ∧
           is_ok (fst (realGaleraPodControl.PatchPodLabels g pod actions env h)) = false.
Proof.
  unfold realGaleraPodControl.PatchPodLabels. intros Hn env h. unfold pureM, mbind, M_bind.
  by destruct (applyActions actions (pod_Labels pod)).
Qed.

(** No deletion at all *)
Lemma deletes_synced_none ns name t :
  Forall (λ e, is_delete e = false) t → deletes_synced ns name t.
Proof.
  intros HF t1 e t2 -> He. apply Forall_app in HF as [_ HF].
  apply Forall_cons in HF as [HF _]. congruence.
Qed.

(** Deletions after the state command has said that the node is synced *)
Lemma deletes_synced_exec ns name c cmd stdout t :
  isSynced (wsrepLocalStateComment stdout) = true →
  deletes_synced ns name (EvExec ns name c cmd stdout None :: t).
Proof.
  intros Hs [|e' t1] e t2; intros [= <- E] He; [done|].
  exists c, cmd, stdout. split; [apply list_elem_of_here|done].
Qed.

Lemma deleteSynced_synced g pod user pw f env h :
  deletes_synced g.(g_Namespace) pod.(pod_Name) (snd (deleteSynced g pod user pw f env h)).
Proof.
  destruct (deleteSynced g pod user pw f env h) as [o t] eqn:E. cbn [snd].
  unfold deleteSynced in E.
  apply bind_inv in E as [([out err] & t1 & t2 & E1 & E2 & ->)|(_ & o' & E & _)].
  - apply ExecCmd_inv in E1 as [[? _]|(c & out' & err' & [= <- <-] & ->)]; [done|].
    destruct err as [e|]; [|destruct (isSynced (wsrepLocalStateComment out)) eqn:Hs;
      [by apply deletes_synced_exec|]];
      apply deletes_synced_none, Forall_cons; (split; [done|]);
      (eapply emits_run; [|exact E2]); emits_ops.
  - apply ExecCmd_inv in E as [[_ ->]|(c & out' & err' & _ & ->)];
      apply deletes_synced_none; repeat constructor; done.
Qed.
End laws.
End real_laws.

#[export] Instance realGaleraPodControl_laws `{RetryLaws} :
  @GaleraPodControlLaws NewRealGaleraPodControl.
Proof.
  constructor; cbn; intros.
  - apply real_laws.real_create_emits.
  - apply real_laws.real_create_once.
  - by eapply real_laws.real_create_ok.
  - by apply real_laws.real_patchPod_emits.
  - by apply real_laws.real_patchPod_nil.
  - apply real_laws.real_patchClaim_emits.
  - apply real_laws.deleteSynced_emits. emits_ops.
  - apply real_laws.deleteSynced_synced.
  - apply real_laws.deleteSynced_emits, real_laws.real_upgradeBody_emits.
  - apply real_laws.deleteSynced_synced.
  - apply real_laws.real_forceDelete_emits.
  - by eapply real_laws.real_force_ok.
  - apply real_laws.real_forceAndClaim_emits.
  - apply real_laws.real_deleteClaim_emits.
  - apply real_laws.real_claimRevision_emits.
  - apply real_laws.real_upgrade_emits.
  - by eapply real_laws.real_upgrade_ok.
  - apply real_laws.real_primary_emits.
Qed.

(** ** Properties of the implementation *)

(** A success of [deleteSynced]: the command said synced, and [f] succeeded. *)
Lemma deleteSynced_ok g pod user pw f env h t :
  realGaleraPodControl.deleteSynced g pod user pw f env h = (Ok tt, t) →
  synced_exec g.(g_Namespace) pod.(pod_Name) t ∧
  ∃ h' t', f env h' = (Ok tt, t') ∧ t' ⊆ t.
Proof.
  unfold realGaleraPodControl.deleteSynced. intros ([out err] & t1 & t2 & E1 & E2 & ->)%bind_ok_inv.
  apply real_laws.ExecCmd_inv in E1 as [[? _]|(c & out' & err' & [= <- <-] & ->)]; [done|].
  apply bind_ok_inv in E2 as (err3 & t3 & t4 & E3 & E4 & ->).
  destruct err3 as [e|]; [by apply bind_ok_inv in E4 as (? & ? & ? & _ & ? & _)|].
  destruct err as [e|]; [discriminate|].
  destruct (isSynced (wsrepLocalStateComment out)) eqn:Hs; [|discriminate].
  apply errOf_none in E3. split; [|eexists _, t3; split; [exact E3|set_solver]].
  eexists c, _, out. split; [apply list_elem_of_here|done].
Qed.

(** Neither deletion of a synced pod deletes a pod or a claim before the
    state command, run without error in the pod's own container, has printed a
    synced state; and a deletion that returns no error has seen that state and
    has deleted the pod. *)
Theorem synced_deletion (g : Galera) (pod : Pod) (user pw sc : string) (env : Env) (h : history) :
  let ns := g.(g_Namespace) in
  let name := pod.(pod_Name) in
  (let (o, t) := realGaleraPodControl.DeleteSyncedPod g pod user pw env h in
   deletes_synced ns name t ∧
   (o = Ok tt → synced_exec ns name t ∧ EvPodDelete ns name None ∈ t)) ∧
  (let (o, t) := realGaleraPodControl.DeleteSyncedPodForUpgrade g pod user pw sc env h in
   deletes_synced ns name t ∧
   (o = Ok tt → synced_exec ns name t ∧ EvPodDelete ns name None ∈ t)).
Proof.
  cbn zeta. split.
  - destruct (realGaleraPodControl.DeleteSyncedPod g pod user pw env h) as [o t] eqn:E.
    pose proof (real_laws.deleteSynced_synced g pod user pw
      (podDelete g.(g_Namespace) pod.(pod_Name)) env h) as Hd.
    unfold realGaleraPodControl.DeleteSyncedPod in E. rewrite E in Hd. split; [done|].
    intros ->. apply deleteSynced_ok in E as (Hs & h' & t' & E' & Hsub). split; [done|].
    apply (call_ok _ (EvPodDelete _ _)) in E' as ->. set_solver.
  - destruct (realGaleraPodControl.DeleteSyncedPodForUpgrade g pod user pw sc env h)
      as [o t] eqn:E.
    pose proof (real_laws.deleteSynced_synced g pod user pw (
      (if pod_has pod GaleraBackupLabel Backup
       then realGaleraPodControl.deleteUnmatched g (getBackupPersistentVolumeClaimName g.(g_Name)
              (getPodSuffix pod.(pod_Name))) sc
       else mret tt);;
      realGaleraPodControl.deleteUnmatched g
        (getPersistentVolumeClaimName g.(g_Name) (getPodSuffix pod.(pod_Name))) sc;;
      podDelete g.(g_Namespace) pod.(pod_Name)) env h) as Hd.
    unfold realGaleraPodControl.DeleteSyncedPodForUpgrade in E. rewrite E in Hd. split; [done|].
    intros ->. apply deleteSynced_ok in E as (Hs & h' & t' & E' & Hsub). split; [done|].
    apply bind_ok_inv in E' as (_ & t1 & t2 & _ & E' & ->).
    apply bind_ok_inv in E' as (_ & t3 & t4 & _ & E' & ->).
    apply (call_ok _ (EvPodDelete _ _)) in E' as ->. set_solver.
Qed.

(** Patching the labels of a pod sends, at every attempt, the labels of the
    pod it was given after all the actions (not those of the pod as read again from the
    lister); it succeeds exactly when an attempt succeeds, and nothing is sent
    after that; on a pod without labels an action that writes panics before any
    call. *)
Theorem PatchPodLabels_spec `{RetryLaws} (g : Galera) (pod : Pod) (actions : list PatchAction)
    (env : Env) (h : history) :
  let (o, t) := realGaleraPodControl.PatchPodLabels g pod actions env h in
  match applyActions actions pod.(pod_Labels) with
  | Ok m =>
      Forall (ev_patchPod g.(g_Namespace) m) t ∧
      (o = Ok tt ↔ ∃ n, EvPodPatch g.(g_Namespace) n m None ∈ t) ∧
      (∃ n err, EvPodPatch g.(g_Namespace) n m err ∈ t) ∧
      (∀ t1 ns n m' t2, t = t1 ++ EvPodPatch ns n m' None :: t2 → Forall ev_record t2)
  | _ => is_ok o = false ∧ t = []
  end.
Proof.
  destruct (realGaleraPodControl.PatchPodLabels g pod actions env h) as [o t] eqn:E.
  pose proof (real_laws.real_patchPod_emits g pod actions) as Hem.
  pose proof (real_laws.real_patchPod_nil g pod actions) as Hnil.
  destruct (applyActions actions (pod_Labels pod)) as [m|e| |] eqn:Ha;
    [|specialize (Hnil eq_refl env h); rewrite E in Hnil; tauto..].
  apply emits_run with (P := ev_patchPod g.(g_Namespace) m) in E as Hall; [|by apply Hem].
  split; [done|]. clear Hem Hnil.
  unfold realGaleraPodControl.PatchPodLabels in E. rewrite Ha in E.
  change (pureM (Ok m) ≫= ?f) with (mret m ≫= f) in E. rewrite ret_bind in E.
  match type of E with (RetryOnConflict ?f _ ≫= _) _ _ = _ => set (once := f) in * end.
  pose proof (RetryOnConflict_runs once pod env h) as Hr.
  eapply (update_runs _ _ _ (λ p, EvPodPatch g.(g_Namespace) p.(pod_Name) m)) in Hr
    as (err & pod' & Ho & (s1 & e1 & Hex) & Hiff & Hlast);
    [|done|done|intros p; emits_ops; congruence|intros; apply read_total].
  destruct (RetryOnConflict once pod env h) as [o1 t1] eqn:E1. cbn in Ho, Hex, Hiff, Hlast. subst o1.
  rewrite (bind_Ok _ _ _ _ _ _ E1) in E. cbn beta iota in E.
  destruct ((recordPodEvent "patch" g pod' err;; retErr err) env (h ++ t1)) as [o2 t2] eqn:E2.
  cbn in E. simplify_eq.
  assert (Hrec : Forall ev_record t2) by (eapply emits_run; [|exact E2]; emits_ops).
  assert (Hno : ∀ ns n m' e, EvPodPatch ns n m' e ∉ t2).
  { intros ns n m' e Hin. rewrite Forall_forall in Hrec. by apply Hrec in Hin. }
  apply rec_retErr in E2 as ->; [|by destruct err].
  set (named n := mkPod n "" "" "" None [] false pod.(pod_Spec) pod.(pod_Status)).
  split_and!.
  - transitivity (err = None); [by destruct err|]. rewrite Hiff. split.
    + intros [s Hin]. exists s.(pod_Name). set_solver.
    + intros [n [Hin|Hin]%elem_of_app]; [by exists (named n)|by apply Hno in Hin].
  - exists s1.(pod_Name), e1. set_solver.
  - intros t3 ns n m' t4 Heq.
    apply app_eq_inv in Heq as [(t5 & -> & Heq)|(t5 & -> & ->)].
    + destruct t5 as [|e5 t5]; cbn in Heq.
      * destruct (Hno ns n m' None). rewrite <- Heq. apply list_elem_of_here.
      * injection Heq as <- ->. rewrite (Hlast t3 (named n) t5); [done|].
        rewrite <- app_assoc in Hall. cbn in Hall.
        by apply Forall_app in Hall as [_ [[-> ->] _]%Forall_cons].
    + destruct (Hno ns n m' None). set_solver.
Qed.

(** A claim the lister knows and that is not terminating, or that was created *)
Definition claim_ready (claim : PersistentVolumeClaim) (t : history) : Prop :=
  (∃ c, EvClaimGet claim.(claim_Namespace) claim.(claim_Name) (inl c) ∈ t ∧
        c.(claim_DeletionTimestamp) = false) ∨
  EvClaimCreate claim.(claim_Namespace) claim None ∈ t.

Lemma createClaim_ready g claim what env h t :
  realGaleraPodControl.createClaim g claim what env h = (Ok tt, t) → claim_ready claim t.
Proof.
  unfold realGaleraPodControl.createClaim. intros (r & t1 & t2 & E1 & E2 & ->)%bind_ok_inv.
  apply bind_ok_inv in E2 as (err & t3 & t4 & E3 & E4 & ->).
  destruct err; [by apply bind_ok_inv in E4 as (? & ? & ? & _ & ? & _)|].
  destruct r as [c|e].
  - left. exists c. destruct (claim_DeletionTimestamp c) eqn:Hd; [discriminate|]. split; [|done].
    unfold attempt, claimGet, call, orErr, mbind, M_bind, mret, M_ret, errM in E1.
    destruct (env_claimGet env h (claim_Namespace claim) (claim_Name claim)); cbn in E1;
      simplify_eq. apply list_elem_of_here.
  - right. case_decide; [|discriminate]. apply errOf_none in E3.
    apply (call_ok _ (EvClaimCreate _ _)) in E3 as ->. set_solver.
Qed.

Lemma createClaims_ready g pod role env h t :
  realGaleraPodControl.createClaims g pod role env h = (Ok tt, t) →
  claim_ready (getPersistentVolumeClaim g pod) t ∧
  (role = Backup → claim_ready (getBackupPersistentVolumeClaim g pod) t).
Proof.
  assert (Hmono : ∀ c t1 t2 t, claim_ready c t1 ∨ claim_ready c t2 → t = t1 ++ t2 → claim_ready c t).
  { unfold claim_ready. intros c t1 t2 ? Hc ->. set_solver. }
  intros ([] & t1 & t2 & E1 & E2 & ->)%bind_ok_inv. apply createClaim_ready in E1. split; [eauto|].
  intros ->. rewrite decide_True in E2 by done. apply createClaim_ready in E2. eauto.
Qed.

Lemma createClaims_no_pod g pod role :
  emits (λ e, is_podCreate e = false) (realGaleraPodControl.createClaims g pod role).
Proof.
  unfold realGaleraPodControl.createClaims, realGaleraPodControl.createPersistentVolumeClaim,
    realGaleraPodControl.createBackupPersistentVolumeClaim, realGaleraPodControl.createClaim.
  emits_ops.
Qed.

(** C32: a pod is created only once its data claim, and its backup claim for the
    backup role, is known and not terminating or has just been created; no other
    pod is created, no claim is deleted or patched, and no error is returned
    exactly when the pod was created. *)
Theorem CreatePodAndClaim_spec (g : Galera) (pod : Pod) (role : string) (env : Env) (h : history) :
  let (o, t) := realGaleraPodControl.CreatePodAndClaim g pod role env h in
  Forall (ev_create g.(g_Namespace) pod) t ∧
  (o = Ok tt ↔ EvPodCreate g.(g_Namespace) pod None ∈ t) ∧
  (∀ t1 ns p err t2, t = t1 ++ EvPodCreate ns p err :: t2 →
     claim_ready (getPersistentVolumeClaim g pod) t1 ∧
     (role = Backup → claim_ready (getBackupPersistentVolumeClaim g pod) t1)).
Proof.
  destruct (realGaleraPodControl.CreatePodAndClaim g pod role env h) as [o t] eqn:E.
  split; [eapply emits_run; [apply real_laws.real_create_emits|exact E]|].
  assert (Hok : o = Ok tt → EvPodCreate g.(g_Namespace) pod None ∈ t)
    by (intros ->; by eapply real_laws.real_create_ok).
  assert (Hno : ∀ t' ns p err, Forall (λ e, is_podCreate e = false) t' → EvPodCreate ns p err ∉ t').
  { intros t' ns p err Ht Hin. rewrite Forall_forall in Ht. by apply Ht in Hin. }
  pose proof (createClaims_no_pod g pod role env h) as Hc.
  unfold realGaleraPodControl.CreatePodAndClaim in E.
  apply bind_inv in E as [([] & t1 & t2 & E1 & E & ->)|(Ho & o' & E & _)]; rewrite ?E1, ?E in Hc.
  - apply createClaims_ready in E1 as [Hr1 Hr2]. split; [split; [done|]|].
    + intros [Hin|Hin]%elem_of_app; [by apply Hno in Hin|]. revert E Hin.
      unfold errOf, attempt, podCreate, call, retErr, mbind, M_bind, mret, M_ret, errM.
      destruct (env_podCreate env (h ++ t1) (g_Namespace g) pod) as [e|]; cbn; [|by intros [= <- _]].
      case_decide; cbn; intros [= <- <-]; set_unfold; naive_solver.
    + intros ta ns p err tb Heq. apply app_split_right in Heq as (ta' & -> & _); [|by apply Hno].
      unfold claim_ready in *. set_solver.
  - split; [split; [done|by intros ?%Hno]|]. intros ta ns p err tb ->. exfalso.
    apply (Hno _ ns p err Hc). set_solver.
Qed.

(** A lookup that fails *)
Lemma claimGet_err ns name e env h :
  env.(env_claimGet) h ns name = inr e →
  claimGet ns name env h = (Err e, [EvClaimGet ns name (inr e)]).
Proof.
  intros Hg. unfold claimGet, call, orErr, mbind, M_bind, errM. by rewrite Hg.
Qed.

(** A pod created with the restore role gets a data claim only, while its
    forced deletion with its claims asks for a backup claim first: as long as
    the lister has no such claim, that deletion fails and deletes nothing, so
    the pod of a restored cluster is never removed this way. *)
Theorem restore_pod_not_deleted (g : Galera) (pod : Pod) (env : Env) (h : history) (e : error) :
  pod_has pod GaleraRoleLabel Restore = true →
  env.(env_claimGet) h g.(g_Namespace)
    (getBackupPersistentVolumeClaimName g.(g_Name) (getPodSuffix pod.(pod_Name))) = inr e →
  (let (_, t) := realGaleraPodControl.CreatePodAndClaim g pod Restore env h in
   ∀ ns c err, EvClaimCreate ns c err ∈ t → c = getPersistentVolumeClaim g pod) ∧
  (let (o, t) := realGaleraPodControl.ForceDeletePodAndClaim g pod env h in
   o = Err e ∧ Forall (λ e, is_delete e = false) t).
Proof.
  intros Hr Hg. split.
  - set (P := λ ev, ∀ ns c err, ev = EvClaimCreate ns c err → c = getPersistentVolumeClaim g pod).
    assert (Hem : emits P (realGaleraPodControl.CreatePodAndClaim g pod Restore)).
    { unfold realGaleraPodControl.CreatePodAndClaim, realGaleraPodControl.createClaims,
        realGaleraPodControl.createPersistentVolumeClaim, realGaleraPodControl.createClaim.
      rewrite decide_False by done.
      assert (∀ ns c err, P (EvClaimGet ns c err)) by done.
      assert (∀ a b c, P (EvRecord a b c)) by done.
      assert (∀ ns p err, P (EvPodCreate ns p err)) by done.
      assert (∀ ns err, P (EvClaimCreate ns (getPersistentVolumeClaim g pod) err))
        by (intros ns err ns' c err' [=]; congruence).
      clearbody P. emits_ops. }
    specialize (Hem env h).
    destruct (realGaleraPodControl.CreatePodAndClaim g pod Restore env h) as [o t].
    rewrite Forall_forall in Hem. intros ns c err Hin. by eapply Hem.
  - unfold realGaleraPodControl.ForceDeletePodAndClaim.
    unfold pod_has in Hr. apply bool_decide_eq_true in Hr. rewrite Hr, decide_True by auto.
    erewrite bind_Err by (eapply bind_Err, claimGet_err, Hg).
    split; [done|]. repeat constructor.
Qed.

Lemma restore_pod_not_deleted_witness :
  let pod := example_pod "a" Restore "10.0.0.1" in
  pod_has pod GaleraRoleLabel Restore = true ∧
  fst (realGaleraPodControl.ForceDeletePodAndClaim example_galera pod env_ok [])
    = Err (mkError NotFound "claim").
Proof.
  cbn zeta. assert (H : pod_has (example_pod "a" Restore "10.0.0.1") GaleraRoleLabel Restore = true)
    by reflexivity.
  split; [exact H|].
  pose proof (proj2 (restore_pod_not_deleted example_galera _ env_ok [] _ H eq_refl)) as H'.
  exact (proj1 H').
Defined.

(** On a backup pod as the operator labels it, the deletion for an upgrade
    never looks at the backup claim, whose specification is therefore never
    compared with the new one: the label it tests has the value true, not the
    name of the role. *)
Theorem backup_claim_not_checked (g : Galera) (pod : Pod) (rev st user pw sc : string)
    (env : Env) (h : history) (r : PersistentVolumeClaim + error) :
  pod.(pod_Labels) = Some (PodLabelsForGalera g.(g_Name) g.(g_Namespace) Backup rev st) →
  EvClaimGet g.(g_Namespace)
    (getBackupPersistentVolumeClaimName g.(g_Name) (getPodSuffix pod.(pod_Name))) r
  ∉ snd (realGaleraPodControl.DeleteSyncedPodForUpgrade g pod user pw sc env h).
Proof.
  intros Hl Hin.
  set (bkp := getBackupPersistentVolumeClaimName g.(g_Name) (getPodSuffix pod.(pod_Name))) in *.
  set (P := λ ev, ∀ ns r, ev ≠ EvClaimGet ns bkp r).
  assert (Hem : emits P (realGaleraPodControl.DeleteSyncedPodForUpgrade g pod user pw sc)).
  { unfold realGaleraPodControl.DeleteSyncedPodForUpgrade, realGaleraPodControl.deleteSynced,
      realGaleraPodControl.deleteUnmatched, realGaleraPodControl.deleteClaimRecorded,
      realGaleraPodControl.DeleteClaim.
    assert (pod_has pod GaleraBackupLabel Backup = false) as ->
      by (unfold pod_has, pod_label; rewrite Hl; reflexivity).
    assert (∀ ns c r, c ≠ bkp → P (EvClaimGet ns c r)) by (unfold P; congruence).
    assert (getPersistentVolumeClaimName g.(g_Name) (getPodSuffix pod.(pod_Name)) ≠ bkp).
    { unfold bkp, getPersistentVolumeClaimName, getBackupPersistentVolumeClaimName,
        BuildClaimNameForGalera, BuildBackupClaimNameForGalera, buildName. discriminate. }
    assert (∀ a b c, P (EvRecord a b c)) by done.
    assert (∀ a b c, P (EvClaimDelete a b c)) by done.
    assert (∀ a b c, P (EvPodDelete a b c)) by done.
    assert (∀ a b c d e f, P (EvExec a b c d e f)) by done.
    clearbody P bkp. emits_ops. }
  specialize (Hem env h). rewrite Forall_forall in Hem. by eapply Hem.
Qed.

Lemma backup_claim_not_checked_witness :
  let pod := example_pod "a" Backup "10.0.0.1" in
  pod.(pod_Labels) = Some (PodLabelsForGalera "gal" "ns" Backup "r1" StateCluster) ∧
  EvClaimGet "ns" "pvcbkp-gal-a" (inr (mkError NotFound "claim"))
    ∉ snd (realGaleraPodControl.DeleteSyncedPodForUpgrade example_galera pod "u" "p" "" env_ok []).
Proof.
  split; [reflexivity|].
  exact (backup_claim_not_checked example_galera (example_pod "a" Backup "10.0.0.1") "r1"
    StateCluster "u" "p" "" env_ok [] _ eq_refl).
Defined.

Lemma PatchPodLabels_spec_witness :
  @RetryLaws RetryLib_steps ∧
  (∃ n, EvPodPatch "ns" n (Some (<[GaleraReaderLabel := "true"]>
          (PodLabelsForGalera "gal" "ns" RoleWriter "r1" StateCluster))) None
     ∈ snd (@realGaleraPodControl.PatchPodLabels RetryLib_steps example_galera
              (example_pod "a" RoleWriter "10.0.0.1") [AddReader] env_ok [])).
Proof.
  split; [exact RetryLaws_steps|].
  exact (proj1 (proj1 (proj2 (@PatchPodLabels_spec RetryLib_steps RetryLaws_steps example_galera
    (example_pod "a" RoleWriter "10.0.0.1") [AddReader] env_ok []))) eq_refl).
Defined.

(** A node whose state command prints a non-primary status is taken for a
    primary node: the expression that is searched is a part of that word. *)
Theorem IsPrimary_non_primary (g : Galera) (pod : Pod) (user pw a b out : string)
    (env : Env) (h : history) (c : Container) (l : list Container) :
  pod.(pod_Spec).(ps_Containers) = c :: l →
  env.(env_exec) h g.(g_Namespace) pod.(pod_Name) c.(c_Name)
    ["mysqladmin"; "extended-status"; "-u" +:+ user; "-p" +:+ pw] = (out, None) →
  wsrepClusterStatus out = a +:+ "non-Primary" +:+ b →
  fst (realGaleraPodControl.IsPrimary g pod user pw env h) = Ok true.
Proof.
  intros Hc He Hl. unfold realGaleraPodControl.IsPrimary, ExecCmd. rewrite Hc.
  unfold mbind, M_bind, call, mret, M_ret. rewrite He. cbn [fst snd]. rewrite Hl.
  unfold isPrimary.
  change ("non-Primary" +:+ b) with ("non-" +:+ ("Primary" +:+ b)).
  by rewrite <- str_app_assoc, Contains_app.
Qed.

Lemma IsPrimary_non_primary_witness :
  let env :=
    env_with_exec (λ _ _ _ _ _, ("| wsrep_cluster_status | non-Primary |", None)) env_ok in
  fst (realGaleraPodControl.IsPrimary example_galera (example_pod "a" Reader "10.0.0.3") "u" "p"
         env []) = Ok true.
Proof.
  intros env.
  exact (IsPrimary_non_primary example_galera (example_pod "a" Reader "10.0.0.3") "u" "p"
    "| wsrep_cluster_status | " " |" "| wsrep_cluster_status | non-Primary |" env []
    (galeraContainer "mariadb:10.4.5" "u" "p" Reader) [] eq_refl eq_refl eq_refl).
Defined.
