(* ===== verification/Controls.v ===== *)
(** * Services, disruption budget, credentials, storage and status

    Models [galera_service_control.go], [galera_pod_disruption_budget_control.go],
    [galera_secret_control.go], [galera_storage_control.go] and
    [galera_status_updater.go].  A lister that fails returns no object, so that a
    failure that is not [NotFound] makes the code dereference nil. *)
From S2P Require Import Prelude Types Objects Names PodLib Kube Utils.

(** ** Services *)

(** [curSvc.Labels = svc.Labels] *)
Definition with_svc_Labels (labels : labels_t) (svc : Service) : Service :=
  mkService svc.(svc_Name) labels svc.(svc_OwnerReferences) svc.(svc_Ports) svc.(svc_Type)
    svc.(svc_ClusterIP) svc.(svc_Selector).

(** The part the six functions of the source share: look the service up, create
    it when it is not found, and update it when its labels have changed. *)
Definition createOrUpdateService (galera : Galera) (svcName : string) (svc : Service)
    : M string :=
  curSvc ← attempt (serviceGet galera.(g_Namespace) svcName);
  (match curSvc with
   | inr e => if decide (e.(err_kind) = NotFound) then serviceCreate galera.(g_Namespace) svc
              else pureM Panic
   | inl curSvc =>
       if decide (curSvc.(svc_Labels) = svc.(svc_Labels)) then mret tt
       else serviceUpdate galera.(g_Namespace) (with_svc_Labels svc.(svc_Labels) curSvc)
   end);;
  mret svcName.

Definition CreateOrUpdateGaleraServiceWriter (galera : Galera) : M string :=
  let svcName := getServiceName galera.(g_Name) ServiceWriterSuffix MaxServiceWriterLength in
  createOrUpdateService galera svcName (newGaleraService galera svcName RoleWriter).

Definition CreateOrUpdateGaleraServiceWriterBackup (galera : Galera) : M string :=
  let svcName :=
    getServiceName galera.(g_Name) ServiceWriterBackupSuffix MaxServiceWriterBackupLength in
  createOrUpdateService galera svcName (newGaleraService galera svcName RoleBackupWriter).

Definition CreateOrUpdateGaleraServiceReader (galera : Galera) : M string :=
  let svcName := getServiceName galera.(g_Name) ServiceReaderSuffix MaxServiceReaderLength in
  createOrUpdateService galera svcName (newGaleraService galera svcName Reader).

(** Without special node, the service is deleted when the lister has it. *)
Definition CreateOrUpdateGaleraServiceSpecial (galera : Galera) : M string :=
  let svcName := getServiceName galera.(g_Name) ServiceSpecialSuffix MaxServiceSpecialLength in
  match galera.(g_Spec).(spec_Special) with
  | None =>
      curSvc ← attempt (serviceGet galera.(g_Namespace) svcName);
      (match curSvc with
       | inl _ => serviceDelete galera.(g_Namespace) svcName
       | inr _ => mret tt
       end);;
      mret ""
  | Some _ => createOrUpdateService galera svcName (newGaleraService galera svcName RoleSpecial)
  end.

Definition CreateOrUpdateGaleraServiceMonitor (galera : Galera) : M string :=
  let svcName := getServiceName galera.(g_Name) ServiceMonitorSuffix MaxServiceMonitorLength in
  svc ← pureM (newGaleraServiceMonitor galera);
  createOrUpdateService galera svcName svc.

Definition CreateOrUpdateGaleraServiceInternal (galera : Galera) : M string :=
  let svcName := getServiceName galera.(g_Name) HeadlessServiceSuffix MaxHeadlessServiceLength in
  createOrUpdateService galera svcName (newGaleraHeadlessService galera).

(** ** Disruption budget *)

Definition with_pdb_Labels (labels : labels_t) (pdb : PodDisruptionBudget) : PodDisruptionBudget :=
  mkPDB pdb.(pdb_Name) labels pdb.(pdb_OwnerReferences) pdb.(pdb_MaxUnavailable)
    pdb.(pdb_MatchLabels) pdb.(pdb_MatchExpressions).

Definition CreateOrUpdateGaleraPDB (galera : Galera) : M string :=
  let pdbName := getPDBName galera.(g_Name) in
  let pdb := newGaleraPodDisruptionBudget galera in
  curPdb ← attempt (pdbGet galera.(g_Namespace) pdbName);
  (match curPdb with
   | inr e => if decide (e.(err_kind) = NotFound) then pdbCreate galera.(g_Namespace) pdb
              else pureM Panic
   | inl curPdb =>
       if decide (curPdb.(pdb_Labels) = pdb.(pdb_Labels)) then mret tt
       else pdbUpdate galera.(g_Namespace) (with_pdb_Labels pdb.(pdb_Labels) curPdb)
   end);;
  mret pdbName.

(** ** Credentials *)

Definition GetGaleraCreds (galera : Galera) : M (gmap string string) :=
  pod ← pureM (deref galera.(g_Spec).(spec_Pod));
  name ← pureM (deref pod.(pt_CredentialsSecret));
  creds ← secretGet galera.(g_Namespace) name;
  let credsMap := creds.(secret_Data) in
  if decide (default "" (credsMap !! "user") = "" ∨ default "" (credsMap !! "password") = "")
  then errM (errorf ("user and/or password are not set in secret " +:+ name))
  else mret credsMap.

(** ** Default storage class *)

Definition defaultClassAnnotation : string := "storageclass.kubernetes.io/is-default-class".

Fixpoint findDefaultStorageClass (l : list StorageClass) : string :=
  match l with
  | [] => ""
  | sc :: l' =>
      if decide (default "" (sc.(sc_Annotations) !! defaultClassAnnotation) = "true")
      then sc.(sc_Name) else findDefaultStorageClass l'
  end.

Definition GetNameDefaultStorageClass : M string :=
  storageClasses ← storageClasses; mret (findDefaultStorageClass storageClasses).

(** ** Status updater *)

(** The closure assigns the status before each attempt, also to the object that
    was read again. *)
Definition UpdateGaleraStatus `{RetryLib} (galera : Galera) (status : GaleraStatus) : M unit :=
  '(err, _) ← RetryOnConflict
     (updateOnce (λ galera, statusUpdate (with_Status status galera))
                 (λ galera, galeraGet galera.(g_Namespace) galera.(g_Name))) galera;
  retErr err.

(** ** Lemmas *)

(** The writes to services and budgets *)
Definition ev_service (e : event) : Prop :=
  match e with
  | EvServiceCreate _ _ _ | EvServiceUpdate _ _ _ | EvServiceDelete _ _ _ | EvServiceGet _ _ => True
  | _ => False
  end.

Ltac emits_controls :=
  repeat first
    [ progress (unfold createOrUpdateService, serviceGet, serviceCreate, serviceUpdate,
        serviceDelete, pdbGet, pdbCreate, pdbUpdate, secretGet, storageClasses, statusUpdate,
        galeraGet)
    | emits_step
    | apply emits_attempt
    | apply emits_errOf
    | progress eauto 3 with emits
    | done ].

Lemma services_emit g :
  emits ev_service (CreateOrUpdateGaleraServiceWriter g) ∧
  emits ev_service (CreateOrUpdateGaleraServiceWriterBackup g) ∧
  emits ev_service (CreateOrUpdateGaleraServiceReader g) ∧
  emits ev_service (CreateOrUpdateGaleraServiceSpecial g) ∧
  emits ev_service (CreateOrUpdateGaleraServiceMonitor g) ∧
  emits ev_service (CreateOrUpdateGaleraServiceInternal g).
Proof.
  unfold CreateOrUpdateGaleraServiceWriter, CreateOrUpdateGaleraServiceWriterBackup,
    CreateOrUpdateGaleraServiceReader, CreateOrUpdateGaleraServiceSpecial,
    CreateOrUpdateGaleraServiceMonitor, CreateOrUpdateGaleraServiceInternal.
  split_and!; emits_controls.
Qed.

(** ** Properties *)

(** Looking a service up and creating or updating it: when the lister does
    not find it the service is created as built, when its labels are those of the
    Galera nothing is written, when they are not the service of the lister is
    updated with the new labels and keeps all the rest (its selector too), and when
    the lister fails otherwise the operator panics.  The name is returned exactly
    when the write, if any, succeeded. *)
Theorem createOrUpdateService_spec (g : Galera) (name : string) (svc : Service)
    (env : Env) (h : history) :
  let ns := g.(g_Namespace) in
  let get := EvServiceGet ns name in
  let ret err := match err with None => Ok name | Some e => Err e end in
  createOrUpdateService g name svc env h =
    match env.(env_serviceGet) h ns name with
    | inl cur =>
        if decide (cur.(svc_Labels) = svc.(svc_Labels)) then (Ok name, [get])
        else let new := with_svc_Labels svc.(svc_Labels) cur in
             let err := env.(env_serviceUpdate) (h ++ [get]) ns new in
             (ret err, [get; EvServiceUpdate ns new err])
    | inr e =>
        if decide (e.(err_kind) = NotFound)
        then let err := env.(env_serviceCreate) (h ++ [get]) ns svc in
             (ret err, [get; EvServiceCreate ns svc err])
        else (Panic, [get])
    end.
Proof.
  cbn zeta. unfold createOrUpdateService, serviceGet, serviceUpdate, serviceCreate, attempt, call,
    orErr, retErr, pureM, mbind, M_bind, mret, M_ret, errM.
  destruct (env_serviceGet env h (g_Namespace g) name) as [cur|e]; cbn; case_decide; cbn;
    rewrite ?app_nil_r; try done.
  - by destruct (env_serviceUpdate _ _ _ _).
  - by destruct (env_serviceCreate _ _ _ _).
Qed.

(** The status updater sends the given status at every attempt, to the
    object it has or has read again; it succeeds exactly when an attempt was
    accepted, and makes no other write. *)
Theorem UpdateGaleraStatus_spec `{RetryLaws} (g : Galera) (st : GaleraStatus)
    (env : Env) (h : history) :
  let (o, t) := UpdateGaleraStatus g st env h in
  (∃ ns n err, EvStatusUpdate ns n st err ∈ t) ∧
  (o = Ok tt ↔ ∃ ns n, EvStatusUpdate ns n st None ∈ t) ∧
  Forall (λ e, match e with
               | EvStatusUpdate _ _ st' _ => st' = st
               | EvGaleraGet _ _ => True
               | _ => False
               end) t.
Proof.
  destruct (UpdateGaleraStatus g st env h) as [o t] eqn:E. unfold UpdateGaleraStatus in E.
  match type of E with (RetryOnConflict ?f _ ≫= _) _ _ = _ => set (once := f) in * end.
  set (P := λ e, match e with
               | EvStatusUpdate _ _ st' _ => st' = st
               | EvGaleraGet _ _ => True
               | _ => False
               end).
  assert (Hall : emits P (RetryOnConflict once g)).
  { apply emits_retry; [apply _|]. intros s. unfold once, updateOnce. emits_controls. }
  pose proof (RetryOnConflict_runs once g env h) as Hr.
  eapply (update_runs _ _ _ (λ g, EvStatusUpdate g.(g_Namespace) g.(g_Name) st)) in Hr
    as (err & s' & Ho & (s1 & e1 & Hex) & Hiff & _);
    [|done|done|intros s; emits_controls; congruence|intros; apply read_total].
  specialize (Hall env h).
  destruct (RetryOnConflict once g env h) as [o1 t1] eqn:E1. cbn in Ho, Hex, Hiff, Hall. subst o1.
  rewrite (bind_Ok _ _ _ _ _ _ E1) in E. cbn in E.
  assert (t = t1 ∧ o = match err with None => Ok tt | Some e => Err e end) as [-> ->].
  { destruct err; cbn in E; rewrite app_nil_r in E; by simplify_eq. }
  split_and!; [eauto| |done].
  transitivity (err = None); [by destruct err|]. rewrite Hiff. split.
  - intros [s Hs]. eauto.
  - intros (ns & n & Hs). by exists (mkGalera n ns "" None ∅ 0 false g.(g_Spec) st).
Qed.

Lemma UpdateGaleraStatus_spec_witness :
  @RetryLaws RetryLib_steps ∧
  ∃ ns n err, EvStatusUpdate ns n emptyStatus err ∈
    snd (@UpdateGaleraStatus RetryLib_steps example_galera emptyStatus env_ok []).
Proof.
  split; [exact RetryLaws_steps|].
  exact (proj1 (@UpdateGaleraStatus_spec RetryLib_steps RetryLaws_steps example_galera emptyStatus
    env_ok [])).
Defined.
