(* ===== verification/Upgrade.v ===== *)
(** * Upgrades

    Models [galera_upgrade_config_control.go]: the version of an image, the
    comparison of versions, and the validation of [my.cnf] against the rules of
    an upgrade configuration. *)
From Stdlib Require Import OrdersEx.
From S2P Require Import Prelude Types Objects PodLib Kube.

(** ** Versions *)

(** [[0-9]*], greedy *)
Fixpoint takeDigits (s : string) : string * string :=
  match s with
  | "" => ("", "")
  | String c s' =>
      if is_digit c then let (d, r) := takeDigits s' in (String c d, r) else ("", s)
  end.

(** Three groups of digits separated by dots, at the start of a text *)
Definition parseVersion (s : string) : option (string * string * string) :=
  let (major, r) := takeDigits s in
  match r with
  | String "." r =>
      let (minor, r) := takeDigits r in
      match r with
      | String "." r => let (patch, _) := takeDigits r in Some (major, minor, patch)
      | _ => None
      end
  | _ => None
  end.

(** The first group of [imageVersionRegex] is greedy: the version follows the
    last colon that a version follows. *)
Fixpoint findVersion (s : string) : option (string * string * string) :=
  match s with
  | "" => None
  | String c s' =>
      match findVersion s' with
      | Some v => Some v
      | None => if decide (c = ":"%char) then parseVersion s' else None
      end
  end.

(** A dot does not match a newline, and the expression ends with the text. *)
Definition imageVersionRegex (name : string) : option (string * string * string) :=
  findVersion (last_line name).

Definition getImageVersion (name : string) : string * string * string :=
  default ("", "", "") (imageVersionRegex name).

(** [isImageGreater] compares strings, byte by byte. *)
Definition isImageGreater (current next : string) : bool :=
  let '(majorCurrent, minorCurrent, patchCurrent) := getImageVersion current in
  let '(majorNext, minorNext, patchNext) := getImageVersion next in
  if String.ltb majorNext majorCurrent then false
  else if String.ltb majorCurrent majorNext then true
  else if String.ltb minorNext minorCurrent then false
  else if String.ltb minorCurrent minorNext then true
  else if String.ltb patchNext patchCurrent then false
  else true.

(** What precedes the first dot, and what follows it if there is one *)
Fixpoint cutDot (s : string) : string * option string :=
  match s with
  | "" => ("", None)
  | String c s' =>
      if decide (c = "."%char) then ("", Some s')
      else let (a, r) := cutDot s' in (String c a, r)
  end.

(** [semverRegex.Split(s, 3)]: at most three parts, the last one unsplit *)
Fixpoint splitDot (n : nat) (s : string) : list string :=
  match n with
  | O => [s]
  | S n' =>
      match cutDot s with
      | (a, Some r) => a :: splitDot n' r
      | (a, None) => [a]
      end
  end.

Definition semverSplit (s : string) : list string := splitDot 2 s.

(** ** Rules *)

(** An option of a rule is the start of a regular expression.  The names of
    options are literal; what another expression finds is a parameter, which may
    also panic, as [MustCompile] does. *)
Class Regexp := { regexpFind : string → string → outcome bool }.

Definition is_literal (c : ascii) : bool :=
  is_digit c || is_lower c || is_upper c || bool_decide (c = "_"%char) || bool_decide (c = "-"%char).

(** A line that starts with the option, whatever the case *)
Definition findOption `{Regexp} (option cnf : string) : outcome bool :=
  if str_forall is_literal option
  then Ok (existsb (λ l, HasPrefix (ToLower l) (ToLower option)) (lines cnf))
  else regexpFind option cnf.

Record realGaleraUpgradeConfigControl := mkUpgradeControl {
  gucc_upgradeConfigName : string;
  gucc_namespace : string }.

Section upgrade.
Context `{Regexp} (gucc : realGaleraUpgradeConfigControl).

Definition recordUpgradeEvent (galera : Galera) (err : option error) : M unit :=
  let subject := "Validate my.cnf for Galera " +:+ galera.(g_Namespace) +:+ "/"
                   +:+ galera.(g_Name) in
  match err with
  | None => recordEvent "SuccessfulValidate" (subject +:+ " successful") true
  | Some e => recordEvent "FailedValidate" (subject +:+ " failed error: " +:+ e.(err_msg)) false
  end.

Definition recordChangedDefaultOptionValueEvent (galera : Galera) (msg : string) : M unit :=
  recordEvent "Checked" msg false.

Definition ns_name (name : string) : string := gucc.(gucc_namespace) +:+ "/" +:+ name.

(** [err] of a lookup wrapped in a message *)
Definition wrapErr {A} (what : string) (m : M A) : M A :=
  r ← attempt m;
  match r with
  | inl a => mret a
  | inr e => errM (errorf (what +:+ " : " +:+ e.(err_msg)))
  end.

Definition getRule (name : string) : M UpgradeRule :=
  wrapErr ("unable to retrieve operator upgrade rule " +:+ ns_name name)
    (upgradeRuleGet gucc.(gucc_namespace) name).

Fixpoint checkRemovedRules (rules : list string) (cnf : string) : M unit :=
  match rules with
  | [] => mret tt
  | rule :: rules' =>
      upgRule ← getRule rule;
      (match upgRule.(ur_RemovedOption) with
       | None => mret tt
       | Some o =>
           found ← pureM (findOption o.(rem_Option) cnf);
           if (found : bool) then errM (errorf ("removed option found : " +:+ o.(rem_Option)))
           else mret tt
       end);;
      checkRemovedRules rules' cnf
  end.

Fixpoint checkChangedDefaultOptionRules (rules : list string) (cnf : string) (galera : Galera)
    : M unit :=
  match rules with
  | [] => mret tt
  | rule :: rules' =>
      upgRule ← getRule rule;
      (match upgRule.(ur_ChangedDefaultOption) with
       | None => mret tt
       | Some o =>
           found ← pureM (findOption o.(chg_Option) cnf);
           if (found : bool) then mret tt
           else recordChangedDefaultOptionValueEvent galera
                  (o.(chg_Option) +:+ " not found in my.cnf, default value changed from "
                     +:+ o.(chg_Old) +:+ " to " +:+ o.(chg_New))
       end);;
      checkChangedDefaultOptionRules rules' cnf galera
  end.

(** Whether the rules of a target version, given by one, two or three of its
    components, are those of the version of the image *)
Definition targets (version : string * string * string) (semver : list string) : option bool :=
  let '(major, minor, patch) := version in
  match semver with
  | [a] => Some (bool_decide (major = a))
  | [a; b] => Some (bool_decide (major = a ∧ minor = b))
  | [a; b; c] => Some (bool_decide (major = a ∧ minor = b ∧ patch = c))
  | _ => None
  end.

Fixpoint checkRules (rules : list RulesForVersion) (cnf version : string) (galera : Galera)
    : M unit :=
  match rules with
  | [] => mret tt
  | versionRules :: rules' =>
      match targets (getImageVersion version) (semverSplit versionRules.(rfv_TargetVersion)) with
      | Some true =>
          checkRemovedRules versionRules.(rfv_Rules) cnf;;
          checkChangedDefaultOptionRules versionRules.(rfv_Rules) cnf galera
      | Some false => mret tt
      | None => errM (errorf ("unexpexted semver version : " +:+ versionRules.(rfv_TargetVersion)))
      end;;
      checkRules rules' cnf version galera
  end.

Definition validateConfig (upgradeConfig : UpgradeConfig) (configMap : ConfigMap)
    (version : string) (galera : Galera) : M unit :=
  match configMap.(cm_Data) !! "my.cnf" with
  | None => errM (errorf ("unable to retrieve my.cnf from configMap "
                            +:+ configMap.(cm_Namespace) +:+ "/" +:+ configMap.(cm_Name)))
  | Some mycnf => checkRules upgradeConfig.(uc_UpgradeRules) mycnf version galera
  end.

Definition canUpgrade (currentImage nextImage : string) (config : option string) (galera : Galera)
    : M unit :=
  upgradeConfig ←
    wrapErr ("unable to retrieve operator upgrade config " +:+ ns_name gucc.(gucc_upgradeConfigName))
      (upgradeConfigGet gucc.(gucc_namespace) gucc.(gucc_upgradeConfigName));
  config ← pureM (deref config);
  configMap ← wrapErr ("unable to retrieve configMap " +:+ ns_name config)
                (configMapGet gucc.(gucc_namespace) config);
  validateConfig upgradeConfig configMap nextImage galera.

Definition CanUpgrade (currentImage nextImage : string) (config : option string) (galera : Galera)
    : M bool :=
  if decide (currentImage = nextImage) then mret true
  else if negb (isImageGreater currentImage nextImage) then mret false
  else if decide (gucc.(gucc_upgradeConfigName) = "") then mret true
  else
    err ← errOf (canUpgrade currentImage nextImage config galera);
    recordUpgradeEvent galera err;;
    match err with None => mret true | Some e => errM e end.
End upgrade.

(** ** The order on versions *)

(** Lexicographic comparison of the components, as strings *)
Definition ver_compare (v w : string * string * string) : comparison :=
  let '(a, b, c) := v in
  let '(a', b', c') := w in
  match String.compare a a' with
  | Eq => match String.compare b b' with Eq => String.compare c c' | r => r end
  | r => r
  end.

Lemma str_compare_refl s : String.compare s s = Eq.
Proof. pose proof (String.compare_antisym s s). by destruct (String.compare s s). Qed.

Lemma str_compare_gt s t : String.compare s t = Gt ↔ String.compare t s = Lt.
Proof. rewrite (String.compare_antisym s t). by destruct (String.compare t s). Qed.

Lemma ltb_compare s t : String.ltb s t = bool_decide (String.compare s t = Lt).
Proof. unfold String.ltb. by destruct (String.compare s t). Qed.

Lemma isImageGreater_compare current next :
  isImageGreater current next =
    bool_decide (ver_compare (getImageVersion current) (getImageVersion next) ≠ Gt).
Proof.
  unfold isImageGreater, ver_compare.
  destruct (getImageVersion current) as [[a b] c], (getImageVersion next) as [[a' b'] c'].
  rewrite !ltb_compare.
  rewrite (String.compare_antisym a' a), (String.compare_antisym b' b),
    (String.compare_antisym c' c).
  by destruct (String.compare a a'), (String.compare b b'), (String.compare c c').
Qed.

Lemma ver_compare_antisym v w : ver_compare v w = CompOpp (ver_compare w v).
Proof.
  destruct v as [[a b] c], w as [[a' b'] c']. cbn.
  rewrite (String.compare_antisym a a'), (String.compare_antisym b b'),
    (String.compare_antisym c c').
  by destruct (String.compare a' a), (String.compare b' b), (String.compare c' c).
Qed.

Lemma ver_compare_eq v w : ver_compare v w = Eq → v = w.
Proof.
  destruct v as [[a b] c], w as [[a' b'] c']. cbn.
  destruct (String.compare a a') eqn:Ha; try done.
  destruct (String.compare b b') eqn:Hb; try done. intros Hc.
  by rewrite (String.compare_eq_iff _ _ Ha), (String.compare_eq_iff _ _ Hb),
    (String.compare_eq_iff _ _ Hc).
Qed.

Lemma str_lt_trans s t u :
  String.compare s t = Lt → String.compare t u = Lt → String.compare s u = Lt.
Proof. intros H1 H2. exact (StrictOrder_Transitive (R := String_as_OT.lt) _ _ _ H1 H2). Qed.

Lemma ver_lt_trans v w x : ver_compare v w = Lt → ver_compare w x = Lt → ver_compare v x = Lt.
Proof.
  destruct v as [[a b] c], w as [[a' b'] c'], x as [[a2 b2] c2]. cbn.
  destruct (String.compare a a') eqn:Ha, (String.compare a' a2) eqn:Ha2; try done;
    try apply String.compare_eq_iff in Ha as ->; try apply String.compare_eq_iff in Ha2 as ->;
    rewrite ?Ha, ?Ha2, ?str_compare_refl, ?(str_lt_trans _ _ _ Ha Ha2); try done.
  destruct (String.compare b b') eqn:Hb, (String.compare b' b2) eqn:Hb2; try done;
    try apply String.compare_eq_iff in Hb as ->; try apply String.compare_eq_iff in Hb2 as ->;
    rewrite ?Hb, ?Hb2, ?str_compare_refl, ?(str_lt_trans _ _ _ Hb Hb2); try done.
  apply str_lt_trans.
Qed.

(** The number a text of digits stands for *)
Fixpoint digits_value (s : string) : Z :=
  match s with
  | "" => 0
  | String c s' => (Z.of_nat (nat_of_ascii c) - 48) * 10 ^ Z.of_nat (String.length s') + digits_value s'
  end.

Lemma digits_value_bound s :
  str_forall is_digit s = true → 0 ≤ digits_value s < 10 ^ Z.of_nat (String.length s).
Proof.
  induction s as [|c s IH]; [done|]. intros [Hc Hs]%andb_true_iff. specialize (IH Hs).
  unfold is_digit in Hc. apply andb_true_iff in Hc as [H1%Nat.leb_le H2%Nat.leb_le].
  cbn [digits_value String.length]. rewrite Nat2Z.inj_succ, Z.pow_succ_r by lia. nia.
Qed.

Lemma ascii_compare_nat c d :
  Ascii.compare c d = (Z.of_nat (nat_of_ascii c) ?= Z.of_nat (nat_of_ascii d)).
Proof. unfold Ascii.compare, nat_of_ascii. by rewrite !N_nat_Z, N2Z.inj_compare. Qed.

Lemma nat_of_ascii_inj c d : nat_of_ascii c = nat_of_ascii d → c = d.
Proof. intros H. rewrite <- (ascii_nat_embedding c), <- (ascii_nat_embedding d). by rewrite H. Qed.

(** On texts of digits of the same length the order of strings is the order of
    numbers. *)
Lemma digits_compare s t :
  str_forall is_digit s = true → str_forall is_digit t = true →
  String.length s = String.length t → String.compare s t = (digits_value s ?= digits_value t).
Proof.
  revert t. induction s as [|c s IH]; intros [|d t] Hs Ht Hl; try done.
  cbn in Hs, Ht, Hl. injection Hl as Hl.
  apply andb_true_iff in Hs as [_ Hs], Ht as [_ Ht].
  pose proof (digits_value_bound s Hs) as B1. pose proof (digits_value_bound t Ht) as B2.
  cbn [String.compare digits_value]. rewrite Hl in *. rewrite ascii_compare_nat.
  set (x := Z.of_nat (nat_of_ascii c)). set (y := Z.of_nat (nat_of_ascii d)).
  set (p := 10 ^ Z.of_nat (String.length t)) in *. symmetry.
  destruct (Z.compare_spec x y) as [E|E|E].
  - rewrite E. rewrite IH by done. destruct (Z.compare_spec (digits_value s) (digits_value t));
      [apply Z.compare_eq_iff|apply Z.compare_lt_iff|apply Z.compare_gt_iff]; lia.
  - apply Z.compare_lt_iff. nia.
  - apply Z.compare_gt_iff. nia.
Qed.

Lemma takeDigits_digits s : str_forall is_digit (fst (takeDigits s)) = true.
Proof.
  induction s as [|c s IH]; [done|]. cbn. destruct (is_digit c) eqn:Hc; [|done].
  destruct (takeDigits s). cbn in *. by rewrite Hc.
Qed.

Definition wf_version (v : string * string * string) : Prop :=
  str_forall is_digit (fst (fst v)) = true ∧ str_forall is_digit (snd (fst v)) = true ∧
  str_forall is_digit (snd v) = true.

Lemma parseVersion_wf s v : parseVersion s = Some v → wf_version v.
Proof.
  unfold parseVersion. pose proof (takeDigits_digits s) as H1.
  destruct (takeDigits s) as [a [|[[] [] [] [] [] [] [] []] r]]; try done.
  pose proof (takeDigits_digits r) as H2.
  destruct (takeDigits r) as [b [|[[] [] [] [] [] [] [] []] r2]]; try done.
  pose proof (takeDigits_digits r2) as H3.
  destruct (takeDigits r2) as [c ?]. intros [= <-]. done.
Qed.

Lemma findVersion_wf s v : findVersion s = Some v → wf_version v.
Proof.
  induction s as [|c s IH]; cbn; [done|].
  destruct (findVersion s) as [w|]; [intros [= <-]; by apply IH|].
  case_decide; [apply parseVersion_wf|done].
Qed.

Lemma getImageVersion_wf image : wf_version (getImageVersion image).
Proof.
  unfold getImageVersion. destruct (imageVersionRegex image) as [v|] eqn:E; [|done].
  by eapply findVersion_wf.
Qed.

(** Versions as numbers, and their order *)
Definition version_numbers (v : string * string * string) : Z * Z * Z :=
  let '(a, b, c) := v in (digits_value a, digits_value b, digits_value c).

Definition numbers_le (v w : Z * Z * Z) : Prop :=
  let '(a, b, c) := v in
  let '(a', b', c') := w in
  a < a' ∨ a = a' ∧ (b < b' ∨ b = b' ∧ c ≤ c').

(** The corresponding components have as many digits. *)
Definition same_width (v w : string * string * string) : Prop :=
  let '(a, b, c) := v in
  let '(a', b', c') := w in
  String.length a = String.length a' ∧ String.length b = String.length b' ∧
  String.length c = String.length c'.

Lemma ver_compare_numbers v w :
  wf_version v → wf_version w → same_width v w →
  ver_compare v w ≠ Gt ↔ numbers_le (version_numbers v) (version_numbers w).
Proof.
  destruct v as [[a b] c], w as [[a' b'] c']. intros (Ha & Hb & Hc) (Ha' & Hb' & Hc') (La & Lb & Lc).
  cbn in *. rewrite !digits_compare by done.
  destruct (Z.compare_spec (digits_value a) (digits_value a'));
  destruct (Z.compare_spec (digits_value b) (digits_value b'));
  destruct (Z.compare_spec (digits_value c) (digits_value c'));
    (split; [intros; lia || done|intros; try discriminate; lia]).
Qed.

(** ** Properties *)

(** The test that decides whether an image may replace another one is a total
    preorder on images, whose equivalent images have the same version, so that a
    chain of upgrades never comes back to a smaller version; it is the order of
    the version numbers when the components have the same number of digits.  It is
    not that order in general: version 10.9.0 may not be upgraded to 10.10.0, and 10.10.0
    may be replaced by 10.9.0. *)
Theorem isImageGreater_spec :
  (∀ a b, isImageGreater a b = true ∨ isImageGreater b a = true) ∧
  (∀ a b c, isImageGreater a b = true → isImageGreater b c = true → isImageGreater a c = true) ∧
  (∀ a b, isImageGreater a b = true → isImageGreater b a = true →
     getImageVersion a = getImageVersion b) ∧
  (∀ a b, same_width (getImageVersion a) (getImageVersion b) →
     isImageGreater a b = true ↔
     numbers_le (version_numbers (getImageVersion a)) (version_numbers (getImageVersion b))) ∧
  isImageGreater "mariadb:10.9.0" "mariadb:10.10.0" = false ∧
  isImageGreater "mariadb:10.10.0" "mariadb:10.9.0" = true.
Proof.
  split_and!; [| | | |reflexivity|reflexivity];
    setoid_rewrite isImageGreater_compare; setoid_rewrite bool_decide_eq_true.
  - intros a b. pose proof (ver_compare_antisym (getImageVersion a) (getImageVersion b)) as Ha.
    destruct (ver_compare (getImageVersion a) (getImageVersion b)); [left; discriminate..|right].
    destruct (ver_compare (getImageVersion b) (getImageVersion a)); discriminate.
  - intros a b c. generalize (getImageVersion a), (getImageVersion b), (getImageVersion c).
    intros u v w Hu Hv. destruct (ver_compare u v) eqn:E1; [|destruct (ver_compare v w) eqn:E2|done].
    + apply ver_compare_eq in E1. by subst.
    + apply ver_compare_eq in E2. subst. rewrite E1. discriminate.
    + rewrite (ver_lt_trans _ _ _ E1 E2). discriminate.
    + done.
  - intros a b Hab Hba. apply ver_compare_eq.
    pose proof (ver_compare_antisym (getImageVersion a) (getImageVersion b)) as Ha.
    by destruct (ver_compare (getImageVersion a) (getImageVersion b)),
      (ver_compare (getImageVersion b) (getImageVersion a)).
  - intros a b Hw. apply ver_compare_numbers; auto using getImageVersion_wf.
Qed.

(** ** Validation on a cluster whose rules do not change meanwhile *)

Section stable.
Context `{Regexp} (gucc : realGaleraUpgradeConfigControl) (env : Env).
Context (uc : UpgradeConfig) (cm : ConfigMap) (mycnf : string) (rules : string → UpgradeRule).

(** The lister has the configuration, the my.cnf and every rule, and the options of
    the rules are literal. *)
Record stable : Prop := {
  st_config h : env.(env_upgradeConfigGet) h gucc.(gucc_namespace) gucc.(gucc_upgradeConfigName)
                = inl uc;
  st_configMap h name : env.(env_configMapGet) h gucc.(gucc_namespace) name = inl cm;
  st_mycnf : cm.(cm_Data) !! "my.cnf" = Some mycnf;
  st_rule h name : env.(env_upgradeRuleGet) h gucc.(gucc_namespace) name = inl (rules name);
  st_removed name o : (rules name).(ur_RemovedOption) = Some o →
                      str_forall is_literal o.(rem_Option) = true;
  st_changed name o : (rules name).(ur_ChangedDefaultOption) = Some o →
                      str_forall is_literal o.(chg_Option) = true }.

(** No line of [my.cnf] starts with the option a rule says is removed. *)
Definition rule_allows (name : string) : Prop :=
  match (rules name).(ur_RemovedOption) with
  | None => True
  | Some o => findOption o.(rem_Option) mycnf = Ok false
  end.

(** The rules a target version gives for an image *)
Definition version_allows (next : string) (v : RulesForVersion) : Prop :=
  targets (getImageVersion next) (semverSplit v.(rfv_TargetVersion)) = Some true →
  Forall rule_allows v.(rfv_Rules).

Context (Hst : stable).

Lemma getRule_stable name h :
  getRule gucc name env h = (Ok (rules name), [EvGet "upgraderule" gucc.(gucc_namespace) name]).
Proof using Hst.
  unfold getRule, wrapErr, upgradeRuleGet, attempt, call, orErr, mbind, M_bind, mret, M_ret.
  by rewrite (st_rule Hst).
Qed.

Lemma checkRemovedRules_stable l h :
  match fst (checkRemovedRules gucc l mycnf env h) with
  | Ok _ => Forall rule_allows l
  | Err _ => ¬ Forall rule_allows l
  | _ => False
  end.
Proof using Hst.
  revert h. induction l as [|name l IH]; intros h; cbn [checkRemovedRules]; [by constructor|].
  rewrite bind_fst, getRule_stable. cbv beta iota.
  rewrite bind_fst.
  pose proof (Forall_cons rule_allows name l) as Hcons. unfold rule_allows at 2 in Hcons.
  destruct (ur_RemovedOption (rules name)) as [o|] eqn:Ho.
  - assert (∃ b, findOption (rem_Option o) mycnf = Ok b) as [b Hb].
    { unfold findOption. rewrite (st_removed Hst _ _ Ho). eauto. }
    rewrite Hb in *. destruct b; unM; cbn [fst]; [naive_solver|].
    match goal with |- context [checkRemovedRules gucc l mycnf env ?h'] => specialize (IH h') end.
    destruct (fst _); tauto.
  - unM. match goal with |- context [checkRemovedRules gucc l mycnf env ?h'] => specialize (IH h') end.
    destruct (fst _); tauto.
Qed.

Lemma checkChanged_stable l g h :
  fst (checkChangedDefaultOptionRules gucc l mycnf g env h) = Ok tt.
Proof using Hst.
  revert h. induction l as [|name l IH]; intros h; cbn [checkChangedDefaultOptionRules]; [done|].
  rewrite bind_fst, getRule_stable. cbv beta iota. rewrite bind_fst.
  destruct (ur_ChangedDefaultOption (rules name)) as [o|] eqn:Ho; [|apply IH].
  assert (∃ b, findOption (chg_Option o) mycnf = Ok b) as [b Hb].
  { unfold findOption. rewrite (st_changed Hst _ _ Ho). eauto. }
  rewrite Hb. destruct b; unfold recordChangedDefaultOptionValueEvent; unM; apply IH.
Qed.

(** A split gives one, two or three parts. *)
Lemma semverSplit_length s : (1 ≤ length (semverSplit s) ≤ 3)%nat.
Proof using.
  unfold semverSplit. cbn. destruct (cutDot s) as [a [r|]]; cbn; [|lia].
  destruct (cutDot r) as [a' [r'|]]; cbn; lia.
Qed.

Lemma targets_split v s : ∃ b, targets v (semverSplit s) = Some b.
Proof using.
  clear. pose proof (semverSplit_length s) as Hl. destruct v as [[a b] c]. unfold targets.
  destruct (semverSplit s) as [|? [|? [|? [|? ?]]]]; cbn in Hl; try lia; eauto.
Qed.

Lemma checkRules_stable l next g h :
  match fst (checkRules gucc l mycnf next g env h) with
  | Ok _ => Forall (version_allows next) l
  | Err _ => ¬ Forall (version_allows next) l
  | _ => False
  end.
Proof using Hst.
  revert h. induction l as [|v l IH]; intros h; cbn [checkRules]; [by constructor|].
  pose proof (Forall_cons (version_allows next) v l) as Hcons.
  unfold version_allows at 2 in Hcons. rewrite bind_fst.
  destruct (targets_split (getImageVersion next) (rfv_TargetVersion v)) as [[] Hb];
    rewrite Hb in *.
  - pose proof (checkRemovedRules_stable v.(rfv_Rules) h) as Hrem.
    match goal with |- context [(?m ≫= ?f) env h] => destruct ((m ≫= f) env h) as [o t] eqn:E end.
    assert (Ho : o = fst (checkRemovedRules gucc (rfv_Rules v) mycnf env h)).
    { apply (f_equal fst) in E. cbn in E. rewrite <- E, bind_fst.
      destruct (checkRemovedRules gucc (rfv_Rules v) mycnf env h) as [[[]|e| |] t1]; try done.
      by rewrite checkChanged_stable. }
    rewrite <- Ho in Hrem. destruct o as [[]|e| |]; [|naive_solver|done..].
    specialize (IH (h ++ t)). destruct (fst (checkRules _ _ _ _ _ _ _)); naive_solver.
  - unM. specialize (IH (h ++ [])). destruct (fst (checkRules _ _ _ _ _ _ _)); naive_solver.
Qed.

Lemma canUpgrade_stable current next config g h :
  match fst (canUpgrade gucc current next (Some config) g env h) with
  | Ok _ => Forall (version_allows next) uc.(uc_UpgradeRules)
  | Err _ => ¬ Forall (version_allows next) uc.(uc_UpgradeRules)
  | _ => False
  end.
Proof using Hst.
  unfold canUpgrade. rewrite bind_fst.
  assert (Hw : ∀ {A} what (m : M A) a h t, m env h = (Ok a, t) → wrapErr what m env h = (Ok a, t)).
  { intros A what m a h' t Hm. unfold wrapErr. unM. by rewrite Hm, app_nil_r. }
  erewrite Hw; [|unfold upgradeConfigGet; unM; by rewrite (st_config Hst)].
  rewrite bind_fst. unfold deref. cbn [pureM]. rewrite bind_fst.
  erewrite Hw; [|unfold configMapGet; unM; by rewrite (st_configMap Hst)].
  unfold validateConfig. rewrite (st_mycnf Hst). apply checkRules_stable.
Qed.
End stable.

(** C38: for a cluster that has a configuration, when the upgrade configuration, my.cnf
    and all the rules are found and do not change meanwhile, and the options of the rules
    are plain names, an image may be replaced exactly when it is the same, or its version
    is not smaller in the order of the code and, if the operator has an upgrade
    configuration, no rule that targets the new version says that an option used in my.cnf
    is removed; when rules forbid it, an error is returned, not a panic.  The order of the
    code compares major, minor and patch in turn as strings, byte by byte: it is not the
    semantic versioning that the documentation promises, and 10.9 may not be replaced by
    10.10. *)
Theorem CanUpgrade_spec `{Regexp} (gucc : realGaleraUpgradeConfigControl) (env : Env)
    (uc : UpgradeConfig) (cm : ConfigMap) (mycnf : string) (rules : string → UpgradeRule)
    (current next config : string) (g : Galera) (h : history) :
  stable gucc env uc cm mycnf rules →
  let o := fst (CanUpgrade gucc current next (Some config) g env h) in
  let allowed := gucc.(gucc_upgradeConfigName) = "" ∨
                 Forall (version_allows mycnf rules next) uc.(uc_UpgradeRules) in
  (o = Ok true ↔ current = next ∨ isImageGreater current next = true ∧ allowed) ∧
  (o = Ok false ↔ current ≠ next ∧ isImageGreater current next = false) ∧
  o ≠ Panic ∧ o ≠ OutOfFuel ∧
  (isImageGreater current next = true ↔
     ver_compare (getImageVersion current) (getImageVersion next) ≠ Gt) ∧
  (same_width (getImageVersion current) (getImageVersion next) →
     isImageGreater current next = true ↔
     numbers_le (version_numbers (getImageVersion current)) (version_numbers (getImageVersion next))) ∧
  isImageGreater "mariadb:10.9.0" "mariadb:10.10.0" = false.
Proof.
  intros Hst. cbn zeta.
  enough (Hcan : let o := fst (CanUpgrade gucc current next (Some config) g env h) in
    let allowed := gucc.(gucc_upgradeConfigName) = "" ∨
                   Forall (version_allows mycnf rules next) uc.(uc_UpgradeRules) in
    (o = Ok true ↔ current = next ∨ isImageGreater current next = true ∧ allowed) ∧
    (o = Ok false ↔ current ≠ next ∧ isImageGreater current next = false) ∧ o ≠ Panic ∧ o ≠ OutOfFuel).
  { destruct Hcan as (H1 & H2 & H3 & H4).
    split_and!; [exact H1|exact H2|exact H3|exact H4| | |reflexivity]; rewrite isImageGreater_compare, bool_decide_eq_true; [done|].
    intros Hw. apply ver_compare_numbers; auto using getImageVersion_wf. }
  cbn zeta. unfold CanUpgrade.
  case_decide as Heq; [unM; cbn; naive_solver|].
  destruct (isImageGreater current next) eqn:Hg; cbn [negb]; [|unM; cbn; naive_solver].
  case_decide as Hn; [unM; cbn; naive_solver|].
  pose proof (canUpgrade_stable gucc env uc cm mycnf rules Hst current next config g h) as Hc.
  rewrite bind_fst. unfold errOf. unM.
  destruct (canUpgrade gucc current next (Some config) g env h) as [[[]|e| |] t]; cbn in Hc |- *;
    unfold recordUpgradeEvent; unM; cbn; naive_solver.
Qed.

Definition example_rules (name : string) : UpgradeRule :=
  mkUpgradeRule (Some (mkRemovedOption "innodb_locks_unsafe_for_binlog")) None.

Definition example_upgrade : UpgradeConfig :=
  mkUpgradeConfig [mkRulesForVersion "10.5" ["rule"]].

Definition example_mycnf : string :=
  "[mysqld]" +:+ String newline "Innodb_Locks_Unsafe_For_Binlog=1".

Definition example_cnf : ConfigMap := mkConfigMap "ns" "mycnf" {["my.cnf" := example_mycnf]}.

Definition example_upgrade_env : Env :=
  env_with_upgrade example_upgrade example_cnf example_rules env_ok.

Lemma CanUpgrade_spec_witness :
  let reg := {| regexpFind _ _ := Ok false |} in
  let gucc := mkUpgradeControl "upg" "ns" in
  @stable gucc example_upgrade_env example_upgrade example_cnf example_mycnf example_rules ∧
  fst (@CanUpgrade reg gucc "mariadb:10.4.2" "mariadb:10.5.0" (Some "mycnf") example_galera
         example_upgrade_env []) ≠ Panic ∧
  is_ok (fst (@CanUpgrade reg gucc "mariadb:10.4.2" "mariadb:10.5.0" (Some "mycnf") example_galera
         example_upgrade_env [])) = false.
Proof.
  cbn zeta.
  assert (H : @stable (mkUpgradeControl "upg" "ns") example_upgrade_env example_upgrade example_cnf
                example_mycnf example_rules).
  { constructor; try reflexivity; [intros name o [= <-]; reflexivity|discriminate]. }
  split; [exact H|]. split; [|vm_compute; reflexivity].
  exact (proj1 (proj2 (proj2 (@CanUpgrade_spec {| regexpFind _ _ := Ok false |}
    (mkUpgradeControl "upg" "ns") example_upgrade_env example_upgrade example_cnf example_mycnf
    example_rules "mariadb:10.4.2" "mariadb:10.5.0" "mycnf" example_galera [] H)))).
Defined.
