(* ===== verification/Revisions.v ===== *)
(** * Revisions of a Galera

    Models the revision history: [getPatch], [newRevision], [ApplyRevision] and
    [newNextRevision] of [galera_utils.go], [ListRevisions], [AdoptOrphanRevisions],
    [truncateHistory] and [getGaleraRevisions] of [galera_control.go].

    The history package of Kubernetes, the codecs and the strategic merge patch
    are parameters.  What the source does with their results is modelled, down to
    [json.Unmarshal] into an object that already has values: a field that the
    document leaves out keeps its value. *)
From stdpp Require Import sorting.
From S2P Require Import Prelude Types Objects PodLib Kube Utils.

(** ** Parameters *)

(** [encodePatch] is the document [getPatch] marshals, from the sections of the
    specification it keeps; [patchedSections] the same sections of the document
    [StrategicMergePatch] returns; [mergeOpaque] what decoding a struct of
    Kubernetes over an old value gives. *)
Class RevisionLib := {
  encodePatch : PodTemplate → PVCSpec → string;
  patchedSections : string → (PodTemplate * PVCSpec) + error;
  mergeOpaque : Opaque → Opaque → Opaque;
  SortControllerRevisions : list ControllerRevision → list ControllerRevision;
  EqualRevision : ControllerRevision → ControllerRevision → bool;
  FindEqualRevisions : list ControllerRevision → ControllerRevision → list ControllerRevision;
  NewControllerRevision : Galera → labels_t → string → Z → Z → ControllerRevision + error
}.

(** An empty list of access modes is not written. *)
Definition encodable (c : PVCSpec) : Prop := c.(pvc_AccessModes) ≠ Some [].

(** The patch replaces the two sections; decoding a value over itself changes
    nothing; the functions of the history package do what they document. *)
Class RevisionLaws `{RevisionLib} := {
  patchedSections_encode p c : encodable c → patchedSections (encodePatch p c) = inl (p, c);
  mergeOpaque_idemp x : mergeOpaque x x = x;
  Sort_perm l : SortControllerRevisions l ≡ₚ l;
  Sort_sorted l : StronglySorted (λ r r', r.(cr_Revision) ≤ r'.(cr_Revision))
                    (SortControllerRevisions l);
  FindEqual_filter l r :
    FindEqualRevisions l r = filter (λ r', EqualRevision r' r = true) l;
  NewControllerRevision_fields g labels data revision collisions r :
    NewControllerRevision g labels data revision collisions = inl r →
    r.(cr_Revision) = revision ∧ r.(cr_Data) = data
}.

(** ** Patches *)

Section revisions.
Context `{RevisionLib}.

(** The type assertion on the section of the pod fails when it is null. *)
Definition getPatch (galera : Galera) : outcome string :=
  pod ← deref galera.(g_Spec).(spec_Pod);
  mret (encodePatch pod galera.(g_Spec).(spec_PersistentVolumeClaimSpec)).

Definition Match (galera : Galera) (history : ControllerRevision) : outcome bool :=
  patch ← getPatch galera; mret (bool_decide (patch = history.(cr_Data))).

Definition with_cr_Annotations (x : labels_t) (cr : ControllerRevision) : ControllerRevision :=
  mkRevision cr.(cr_Name) cr.(cr_Labels) x cr.(cr_OwnerReferences) cr.(cr_Data) cr.(cr_Revision).

Definition newRevision (galera : Galera) (revision collisionCount : Z)
    : outcome ControllerRevision :=
  patch ← getPatch galera;
  match NewControllerRevision galera galera.(g_Labels) patch revision collisionCount with
  | inr e => Err e
  | inl cr =>
      mret (with_cr_Annotations
              (Some (galera.(g_Annotations) ∪ default ∅ cr.(cr_Annotations))) cr)
  end.

(** ** Decoding a document over an object

    Fields marked [omitempty] that are empty are not in the document, and keep
    the old value; a list is decoded element by element over the old elements; a map
    gets the new keys; a pointer that is null becomes nil when it is written. *)
Definition keep {A} `{EqDecision A} (zero old new : A) : A :=
  if decide (new = zero) then old else new.

Fixpoint mergeList {A} (merge : A → A → A) (old new : list A) : list A :=
  match new with
  | [] => []
  | n :: new' =>
      match old with
      | [] => n :: new'
      | o :: old' => merge o n :: mergeList merge old' new'
      end
  end.

Definition keepList {A} (merge : A → A → A) (old new : list A) : list A :=
  match new with [] => old | _ => mergeList merge old new end.

Definition keepOption {A} (merge : A → A → A) (old new : option A) : option A :=
  match old, new with
  | Some o, Some n => Some (merge o n)
  | o, None => o
  | None, n => n
  end.

(** A reference by name, written even when it is nil *)
Definition mergeRef (old new : option string) : option string :=
  match new, old with
  | Some n, Some o => Some (keep "" o n)
  | _, _ => new
  end.

Definition mergeEnvVar (old new : EnvVar) : EnvVar :=
  mkEnvVar new.(env_Name) (keep "" old.(env_Value) new.(env_Value))
    (keepOption mergeOpaque old.(env_ValueFrom) new.(env_ValueFrom)).

Definition mergeMetric (old new : MetricSpec) : MetricSpec :=
  mkMetric new.(metric_Image) (keepOption (λ _ n, n) old.(metric_Port) new.(metric_Port))
    (keepList mergeEnvVar old.(metric_Env) new.(metric_Env))
    (mergeOpaque old.(metric_Resources) new.(metric_Resources)).

Definition mergePodTemplate (old new : PodTemplate) : PodTemplate :=
  mkPodTemplate
    (keepList mergeOpaque old.(pt_Tolerations) new.(pt_Tolerations))
    (new.(pt_NodeSelector) ∪ old.(pt_NodeSelector))
    (keepOption mergeOpaque old.(pt_Affinity) new.(pt_Affinity))
    (mergeRef old.(pt_CredentialsSecret) new.(pt_CredentialsSecret))
    new.(pt_Image)
    (mergeOpaque old.(pt_Resources) new.(pt_Resources))
    (keepList mergeEnvVar old.(pt_Env) new.(pt_Env))
    (mergeRef old.(pt_MycnfConfigMap) new.(pt_MycnfConfigMap))
    (keepOption mergeMetric old.(pt_Metric) new.(pt_Metric))
    (keep "" old.(pt_PriorityClassName) new.(pt_PriorityClassName))
    (keepOption mergeOpaque old.(pt_SecurityContext) new.(pt_SecurityContext)).

Definition mergePVCSpec (old new : PVCSpec) : PVCSpec :=
  mkPVCSpec
    (match new.(pvc_AccessModes) with None => old.(pvc_AccessModes) | n => n end)
    (keepOption mergeOpaque old.(pvc_Selector) new.(pvc_Selector))
    (mergeOpaque old.(pvc_Resources) new.(pvc_Resources))
    (keepOption (λ _ n, n) old.(pvc_StorageClassName) new.(pvc_StorageClassName))
    (keepOption (λ _ n, n) old.(pvc_VolumeMode) new.(pvc_VolumeMode)).

(** The rest of the document is the encoding of the object itself. *)
Definition ApplyRevision (galera : Galera) (revision : ControllerRevision) : outcome Galera :=
  match patchedSections revision.(cr_Data) with
  | inr e => Err e
  | inl (pod, claim) =>
      let s := galera.(g_Spec) in
      let pod' := match s.(spec_Pod) with None => pod | Some old => mergePodTemplate old pod end in
      mret (with_Spec
        (mkSpec s.(spec_Replicas) (Some pod')
           (mergePVCSpec s.(spec_PersistentVolumeClaimSpec) claim)
           s.(spec_Special) s.(spec_Restore) s.(spec_RevisionHistoryLimit)) galera)
  end.

(** ** The history *)

Definition newNextRevision (revisions : list ControllerRevision) : Z :=
  match last revisions with
  | None => 1
  | Some r => r.(cr_Revision) + 1
  end.

Definition ListRevisions (galera : Galera) : M (list ControllerRevision) := revisionList.

Fixpoint AdoptOrphanRevisions (galera : Galera) (revisions : list ControllerRevision)
    : M (list ControllerRevision) :=
  match revisions with
  | [] => mret []
  | r :: revisions' =>
      adopted ← revisionAdopt r;
      rest ← AdoptOrphanRevisions galera revisions';
      mret (adopted :: rest)
  end.

(** The revisions that are live: those of the status and of the pods *)
Definition liveRevisions (pods : list Pod) (current update : ControllerRevision) : gset string :=
  {[ current.(cr_Name); update.(cr_Name) ]} ∪ list_to_set (getPodRevision <$> pods).

(** Deleting a nil revision dereferences it. *)
Fixpoint deleteRevisions (l : list (option ControllerRevision)) : M unit :=
  match l with
  | [] => mret tt
  | None :: _ => pureM Panic
  | Some r :: l' => revisionDelete r.(cr_Name);; deleteRevisions l'
  end.

(** [historySl[:n]]: up to the capacity of the slice, which is the number of
    revisions; the elements past its length are nil. *)
Definition sliceTo (n : Z) (capacity : nat) (l : list ControllerRevision)
    : outcome (list (option ControllerRevision)) :=
  if decide (n < 0 ∨ Z.of_nat capacity < n) then Panic
  else mret (take (Z.to_nat n) ((Some <$> l) ++ replicate (capacity - length l) None)).

Definition truncateHistory (galera : Galera) (pods : list Pod) (revisions : list ControllerRevision)
    (current update : ControllerRevision) : M unit :=
  let live := liveRevisions pods current update in
  let historySl := filter (λ r, r.(cr_Name) ∉ live) revisions in
  let historyLen := Z.of_nat (length historySl) in
  let historyLimit := default DefaultRevisionHistoryLimit galera.(g_Spec).(spec_RevisionHistoryLimit) in
  if decide (historyLen ≤ historyLimit) then mret tt
  else
    historySl ← pureM (sliceTo (historyLen - historyLimit) (length revisions) historySl);
    deleteRevisions historySl.

(** The last revision of a name *)
Definition findRevision (name : string) (revisions : list ControllerRevision)
    : option ControllerRevision :=
  last (filter (λ r, r.(cr_Name) = name) revisions).

Definition getGaleraRevisions (galera : Galera) (revisions : list ControllerRevision)
    : M (ControllerRevision * ControllerRevision * Z) :=
  let revisions := SortControllerRevisions revisions in
  let collisionCount := default 0 galera.(g_Status).(st_CollisionCount) in
  nextRevision ← pureM (newRevision galera (newNextRevision revisions) collisionCount);
  let equalRevisions := FindEqualRevisions revisions nextRevision in
  '(nextRevision, collisionCount) ←
    match last equalRevisions with
    | Some equal =>
        newest ← pureM (deref (last revisions));
        if EqualRevision newest equal then mret (newest, collisionCount)
        else r ← revisionUpdate equal nextRevision.(cr_Revision); mret (r, collisionCount)
    | None => revisionCreate nextRevision collisionCount
    end;
  let currentRevision :=
    default nextRevision (findRevision galera.(g_Status).(st_CurrentRevision) revisions) in
  mret (currentRevision, nextRevision, collisionCount).
End revisions.

(** ** Lemmas *)

Lemma deleteRevisions_nil l env h :
  None ∈ l → is_ok (fst (deleteRevisions l env h)) = false.
Proof.
  revert h. induction l as [|[r|] l IH]; intros h Hin; [by apply elem_of_nil in Hin| |done].
  apply elem_of_cons in Hin as [Hin|Hin]; [done|]. cbn [deleteRevisions]. rewrite bind_fst.
  destruct (revisionDelete (cr_Name r) env h) as [[]?]; [by apply IH|done..].
Qed.

(** The names of the revisions a trace deletes, or tries to *)
Definition deletedRevisions (t : history) : list string :=
  omap (λ e, match e with EvRevisionDelete name _ => Some name | _ => None end) t.

(** Deleting revisions one by one: in order, up to the first error *)
Lemma deleteRevisions_run l env h :
  let (o, t) := deleteRevisions (Some <$> l) env h in
  (∃ k, deletedRevisions t = cr_Name <$> take k l) ∧
  (o = Ok tt → deletedRevisions t = cr_Name <$> l) ∧
  o ≠ Panic.
Proof.
  revert h. induction l as [|r l IH]; intros h; cbn [fmap list_fmap deleteRevisions].
  - split_and!; [by exists 0%nat|done|done].
  - destruct (revisionDelete r.(cr_Name) env h) as [o1 t1] eqn:E1.
    assert (∃ err, t1 = [EvRevisionDelete r.(cr_Name) err] ∧
      o1 = match err with None => Ok tt | Some e => Err e end) as (err & -> & ->).
    { revert E1. unfold revisionDelete. unM.
      destruct (env_revisionDelete env h (cr_Name r)); intros [= <- <-]; eauto. }
    specialize (IH (h ++ [EvRevisionDelete r.(cr_Name) err])).
    destruct err as [e|].
    + erewrite bind_Err by exact E1. split_and!; [exists 1%nat; by destruct l|done|done].
    + rewrite (bind_Ok _ _ _ _ _ _ E1).
      destruct (deleteRevisions (Some <$> l) env _) as [o t]. cbn.
      destruct IH as ((k & Hk) & Hok & Hp). split_and!; [exists (S k); cbn; by rewrite <- Hk| |done].
      intros ->. by rewrite <- Hok.
Qed.

Section apply.
Context `{RevisionLaws}.

Lemma keep_idemp {A} `{EqDecision A} (zero x : A) : keep zero x x = x.
Proof. unfold keep. by case_decide. Qed.

Lemma mergeList_idemp {A} (merge : A → A → A) l : (∀ x, merge x x = x) → mergeList merge l l = l.
Proof. intros Hm. induction l; cbn; congruence. Qed.

Lemma keepList_idemp {A} (merge : A → A → A) l : (∀ x, merge x x = x) → keepList merge l l = l.
Proof. intros Hm. destruct l; [done|]. by apply mergeList_idemp. Qed.

Lemma keepOption_idemp {A} (merge : A → A → A) o : (∀ x, merge x x = x) → keepOption merge o o = o.
Proof. intros Hm. destruct o; cbn; by rewrite ?Hm. Qed.

Lemma mergeRef_idemp o : mergeRef o o = o.
Proof. destruct o; cbn; by rewrite ?keep_idemp. Qed.

Lemma mergeEnvVar_idemp e : mergeEnvVar e e = e.
Proof.
  unfold mergeEnvVar. rewrite keep_idemp, keepOption_idemp by apply mergeOpaque_idemp. by destruct e.
Qed.

Lemma mergeMetric_idemp m : mergeMetric m m = m.
Proof.
  unfold mergeMetric. rewrite keepOption_idemp, keepList_idemp, mergeOpaque_idemp
    by (done || apply mergeEnvVar_idemp). by destruct m.
Qed.

Lemma mergeRef_named old new : new ≠ Some "" → mergeRef old new = new.
Proof.
  unfold mergeRef, keep. intros Hn. destruct new as [n|], old as [o|]; try done.
  destruct (decide (n = "")); congruence.
Qed.

Lemma mergePodTemplate_idemp p : mergePodTemplate p p = p.
Proof.
  unfold mergePodTemplate. rewrite !keepList_idemp by (apply mergeOpaque_idemp || apply mergeEnvVar_idemp).
  rewrite !keepOption_idemp by (apply mergeOpaque_idemp || apply mergeMetric_idemp).
  rewrite !mergeRef_idemp, mergeOpaque_idemp, keep_idemp, (idemp (∪) (pt_NodeSelector p)).
  by destruct p.
Qed.

Lemma mergePVCSpec_idemp c : mergePVCSpec c c = c.
Proof.
  unfold mergePVCSpec. rewrite !keepOption_idemp by (done || apply mergeOpaque_idemp).
  rewrite mergeOpaque_idemp. by destruct c as [[]].
Qed.
End apply.

(** ** Properties *)

(** Maintaining the history never deletes a revision of the status or of a
    pod; with a limit that is not negative it deletes the oldest of the other
    revisions, in order and no more than needed, does not panic, and without error
    leaves at most the limit; with a negative limit, which the specification does
    not exclude, it never succeeds. *)
Theorem truncateHistory_spec (g : Galera) (pods : list Pod) (revisions : list ControllerRevision)
    (current update : ControllerRevision) (env : Env) (h : history) :
  let live := liveRevisions pods current update in
  let old := filter (λ r, r.(cr_Name) ∉ live) revisions in
  let limit := default DefaultRevisionHistoryLimit g.(g_Spec).(spec_RevisionHistoryLimit) in
  let excess := Z.to_nat (Z.of_nat (length old) - limit) in
  let (o, t) := truncateHistory g pods revisions current update env h in
  (0 ≤ limit →
   (∃ k, deletedRevisions t = cr_Name <$> take k (take excess old)) ∧
   Forall (λ name, name ∉ live) (deletedRevisions t) ∧
   (o = Ok tt → deletedRevisions t = cr_Name <$> take excess old ∧
                Z.of_nat (length (drop excess old)) ≤ limit) ∧
   o ≠ Panic) ∧
  (limit < 0 → is_ok o = false).
Proof.
  cbn zeta. unfold truncateHistory.
  set (live := liveRevisions pods current update).
  set (old := filter (λ r, cr_Name r ∉ live) revisions).
  set (limit := default DefaultRevisionHistoryLimit _).
  assert (Hold : Forall (λ r, r.(cr_Name) ∉ live) old).
  { apply Forall_forall. intros r Hr. by apply list_elem_of_filter in Hr as [? _]. }
  assert (Hlen : (length old ≤ length revisions)%nat) by apply length_filter.
  case_decide as Hl.
  { unM. split; [|lia]. intros Hp. rewrite Z2Nat.nonpos by lia. rewrite take_0, drop_0.
    split_and!; [by exists 0%nat|constructor|done|done]. }
  destruct (decide (0 ≤ limit)) as [Hp|Hp].
  - unfold sliceTo. rewrite decide_False by lia. set (n := Z.to_nat _).
    assert (Ht : take n ((Some <$> old) ++ replicate (length revisions - length old) None)
                 = Some <$> take n old).
    { rewrite take_app_le by (rewrite length_fmap; lia). by rewrite fmap_take. }
    change (pureM (mret ?x) ≫= ?f) with (mret x ≫= f). rewrite ret_bind, Ht.
    pose proof (deleteRevisions_run (take n old) env h) as Hr.
    destruct (deleteRevisions _ env h) as [o t]. destruct Hr as ((k & Hk) & Hok & Hnp).
    split; [|lia]. intros _. split_and!; [by exists k| |intros Ho; split; [by apply Hok|]|done].
    + rewrite Hk. apply Forall_fmap. by apply Forall_take, Forall_take.
    + rewrite length_drop. lia.
  - match goal with |- context [(?m ≫= ?f) env h] => destruct ((m ≫= f) env h) as [o t] eqn:E end.
    split; [lia|]. intros _. apply (f_equal fst) in E.
    cbn in E. subst o. unfold sliceTo. case_decide as Hc; [done|].
    change (pureM (mret ?x) ≫= ?f) with (mret x ≫= f). rewrite ret_bind.
    apply deleteRevisions_nil. rewrite take_app_ge by (rewrite length_fmap; lia).
    apply elem_of_app. right. rewrite take_replicate, length_fmap. apply elem_of_replicate. split; [done|lia].
Qed.


(** Computing the revisions makes at most one call: none when the newest
    recorded revision is equal to the new one, an update of the number when an older
    one is (the new number is greater than all), a creation when none is.  The
    current revision is the recorded one that the status names, or the next one
    when there is none. *)
Theorem getGaleraRevisions_spec `{RevisionLaws} (g : Galera) (revisions : list ControllerRevision)
    (new : ControllerRevision) (env : Env) (h : history) :
  let sorted := SortControllerRevisions revisions in
  let collisions := default 0 g.(g_Status).(st_CollisionCount) in
  newRevision g (newNextRevision sorted) collisions = Ok new →
  let (o, t) := getGaleraRevisions g revisions env h in
  (∀ r, r ∈ revisions → r.(cr_Revision) < new.(cr_Revision)) ∧
  t = match last (FindEqualRevisions sorted new), last sorted with
      | Some equal, Some newest =>
          if EqualRevision newest equal then []
          else [EvRevisionUpdate equal.(cr_Name) new.(cr_Revision)]
      | _, _ => [EvRevisionCreate new]
      end ∧
  o ≠ Panic ∧ o ≠ OutOfFuel ∧
  (∀ current next collisions', o = Ok (current, next, collisions') →
     (current ∈ revisions ∧ current.(cr_Name) = g.(g_Status).(st_CurrentRevision)) ∨
     (current = next ∧ ∀ r, r ∈ revisions → r.(cr_Name) ≠ g.(g_Status).(st_CurrentRevision))).
Proof.
  cbn zeta. intros Hnew. unfold getGaleraRevisions.
  set (sorted := SortControllerRevisions revisions) in *.
  assert (Hmem : ∀ r, r ∈ revisions ↔ r ∈ sorted) by (intros r; unfold sorted; by rewrite Sort_perm).
  assert (Hnum : new.(cr_Revision) = newNextRevision sorted).
  { unfold newRevision in Hnew. destruct (getPatch g) as [patch|e| |]; try done. cbn in Hnew.
    destruct (NewControllerRevision _ _ _ _ _) as [r|] eqn:E; [|done].
    apply NewControllerRevision_fields in E as [Er _]. injection Hnew as <-. done. }
  rewrite Hnew. change (pureM (Ok new) ≫= ?f) with (mret new ≫= f). rewrite ret_bind.
  match goal with |- context [(?m ≫= ?f) env h] => destruct ((m ≫= f) env h) as [o t] eqn:E end.
  assert (Hlt : ∀ r, r ∈ revisions → r.(cr_Revision) < new.(cr_Revision)).
  { intros r Hr. rewrite Hnum. unfold newNextRevision.
    pose proof (Sort_sorted revisions) as Hs. fold sorted in Hs.
    apply Hmem in Hr. destruct (last sorted) as [m|] eqn:Hl;
      [|apply last_None in Hl; rewrite Hl in Hr; by apply elem_of_nil in Hr].
    apply last_Some in Hl as [l Hl]. rewrite Hl in Hr, Hs.
    apply elem_of_app in Hr as [Hr|Hr%list_elem_of_singleton]; [|subst; lia].
    pose proof (StronglySorted_app_1_elem_of _ _ _ _ _ Hs Hr (list_elem_of_here _ _)).
    cbn in *. lia. }
  assert (Hcur : ∀ next current,
     current = default next (findRevision g.(g_Status).(st_CurrentRevision) sorted) →
     (current ∈ revisions ∧ current.(cr_Name) = g.(g_Status).(st_CurrentRevision)) ∨
     (current = next ∧ ∀ r, r ∈ revisions → r.(cr_Name) ≠ g.(g_Status).(st_CurrentRevision))).
  { intros next current ->. unfold findRevision.
    destruct (last (filter _ sorted)) as [m|] eqn:Hl; cbn.
    - left. apply last_Some_elem_of, list_elem_of_filter in Hl as [? ?]. by rewrite Hmem.
    - right. split; [done|]. intros r Hr Hn. apply last_None in Hl.
      assert (r ∈ filter (λ r, cr_Name r = st_CurrentRevision (g_Status g)) sorted) as Hin
        by (apply list_elem_of_filter; by rewrite <- Hmem).
      rewrite Hl in Hin. by apply elem_of_nil in Hin. }
  assert (Hne : ∀ equal, last (FindEqualRevisions sorted new) = Some equal → last sorted ≠ None).
  { intros equal Heq Hl. apply last_None in Hl. rewrite FindEqual_filter, Hl in Heq. done. }
  split; [exact Hlt|].
  destruct (last (FindEqualRevisions sorted new)) as [equal|] eqn:Heq.
  - specialize (Hne _ eq_refl). destruct (last sorted) as [newest|]; [|done].
    revert E. unfold revisionUpdate. unM. cbn.
    destruct (EqualRevision newest equal); [intros [= <- <-]|
      destruct (env_revisionUpdate _ _ _ _) as [r|e]; cbn; intros [= <- <-]];
      (split_and!; [done..|]); intros ??? [=]; subst; by apply Hcur.
  - revert E. unfold revisionCreate. unM. cbn.
    destruct (env_revisionCreate _ _ _ _) as [[r c]|e]; cbn; intros [= <- <-];
      (split_and!; [by destruct (last sorted)|done|done|]); intros ??? [=]; subst; by apply Hcur.
Qed.


(** ** An implementation of the parameters

    Documents are written in binary, and the history package as its comments
    say: it shows that the laws can hold. *)

#[global] Instance EnvVar_countable : Countable EnvVar.
Proof.
  refine (inj_countable' (λ e, (e.(env_Name), e.(env_Value), e.(env_ValueFrom)))
    (λ '(a, b, c), mkEnvVar a b c) _). by intros [].
Defined.

#[global] Instance MetricSpec_eq_dec : EqDecision MetricSpec.
Proof. solve_decision. Defined.
#[global] Instance PodTemplate_eq_dec : EqDecision PodTemplate.
Proof. solve_decision. Defined.
#[global] Instance PVCSpec_eq_dec : EqDecision PVCSpec.
Proof. solve_decision. Defined.

#[global] Instance MetricSpec_countable : Countable MetricSpec.
Proof.
  refine (inj_countable' (λ m, (m.(metric_Image), m.(metric_Port), m.(metric_Env), m.(metric_Resources)))
    (λ '(a, b, c, d), mkMetric a b c d) _). by intros [].
Defined.

#[global] Instance PodTemplate_countable : Countable PodTemplate.
Proof.
  refine (inj_countable' (λ p, (p.(pt_Tolerations), p.(pt_NodeSelector), p.(pt_Affinity),
      p.(pt_CredentialsSecret), p.(pt_Image), p.(pt_Resources), p.(pt_Env), p.(pt_MycnfConfigMap),
      p.(pt_Metric), p.(pt_PriorityClassName), p.(pt_SecurityContext)))
    (λ '(a, b, c, d, e, f, g, h, i, j, k), mkPodTemplate a b c d e f g h i j k) _). by intros [].
Defined.

#[global] Instance PVCSpec_countable : Countable PVCSpec.
Proof.
  refine (inj_countable' (λ c, (c.(pvc_AccessModes), c.(pvc_Selector), c.(pvc_Resources),
      c.(pvc_StorageClassName), c.(pvc_VolumeMode)))
    (λ '(a, b, c, d, e), mkPVCSpec a b c d e) _). by intros [].
Defined.

Definition revision_le (r r' : ControllerRevision) : Prop := r.(cr_Revision) ≤ r'.(cr_Revision).

#[global] Instance revision_le_dec : RelDecision revision_le.
Proof. intros r r'. unfold revision_le. apply _. Defined.

#[global] Instance revision_le_trans : Transitive revision_le.
Proof. intros r r' r'' H1 H2. unfold revision_le in *. lia. Qed.

#[global] Instance revision_le_total : Total revision_le.
Proof. intros r r'. unfold revision_le. lia. Qed.

Definition exampleRevisionLib : RevisionLib := {|
  encodePatch p c := bits (encode (p, c));
  patchedSections s := match decode (unbits s) with
                       | Some x => inl x
                       | None => inr (errorf "invalid patch")
                       end;
  mergeOpaque old new := keep "" old new;
  SortControllerRevisions l := merge_sort revision_le l;
  EqualRevision r r' := bool_decide (r.(cr_Data) = r'.(cr_Data));
  FindEqualRevisions l r := filter (λ r', bool_decide (r'.(cr_Data) = r.(cr_Data)) = true) l;
  NewControllerRevision g labels data revision collisions :=
    inl (mkRevision (g.(g_Name) +:+ "-" +:+ pretty revision) labels None [AsOwner g] data revision)
|}.

Lemma exampleRevisionLaws : @RevisionLaws exampleRevisionLib.
Proof.
  constructor; cbn.
  - intros p c _. by rewrite unbits_bits, decode_encode.
  - intros x. apply keep_idemp.
  - intros l. apply merge_sort_Permutation.
  - intros l. apply (StronglySorted_merge_sort revision_le).
  - done.
  - intros g labels data revision collisions r [= <-]. done.
Qed.


Lemma getGaleraRevisions_spec_witness :
  ∃ new, @newRevision exampleRevisionLib example_galera 1 0 = Ok new ∧
  fst (@getGaleraRevisions exampleRevisionLib example_galera [] env_ok []) ≠ Panic.
Proof.
  eexists. split; [reflexivity|].
  pose proof (@getGaleraRevisions_spec exampleRevisionLib exampleRevisionLaws example_galera [] _
    env_ok [] eq_refl) as H.
  exact (proj1 (proj2 (proj2 H))).
Defined.
