(* ===== verification/Control.v ===== *)
(** * The steps of a round of reconciliation

    Models the methods of [defaultGaleraControl] in [galera_control.go] that
    [runGalera] is made of: labels, phase and conditions, claims, upgrades,
    creation and termination of pods.  They use the pod control through its
    interface.  A copy of a pod is the pod itself: the callee does not keep it. *)
From S2P Require Import Prelude Types Objects Names PodLib Kube Utils PodControl.

(** The images the operator was started with *)
Record defaultGaleraControl := mkControl {
  gc_bootstrapImage : string;
  gc_backupImage : string }.

(** ** Lists of pods and claims *)

(** Data claims, and backup claims *)
Definition splitClaim (claims : list PersistentVolumeClaim)
    : list PersistentVolumeClaim * list PersistentVolumeClaim :=
  fold_left (λ '(dataClaims, bkpClaims) claim,
    let '(_, isbkp) := getClaimSuffixAndBackup claim.(claim_Name) in
    if (isbkp : bool) then (dataClaims, bkpClaims ++ [claim]) else (dataClaims ++ [claim], bkpClaims))
    claims ([], []).

Definition getMembersName (readyPods unreadyPods : list Pod) : list string * list string :=
  (pod_Name <$> readyPods, pod_Name <$> unreadyPods).

(** ** Labels *)

Section control.
Context `{GaleraPodControl} `{PodUtil} (gc : defaultGaleraControl).

Definition patch (galera : Galera) (pod : Pod) (actions : list PatchAction) : SM unit :=
  lift (PatchPodLabels galera pod actions).

Definition has_label (pod : Pod) (key : string) : bool := bool_decide (pod_label pod key ≠ None).

(** The last ready pod with a backup label *)
Definition findBackup (readyPods : list Pod) : option Pod :=
  last (filter (λ pod, has_label pod GaleraBackupLabel = true) readyPods).

(** With two ready pods and no writer: the writer is not the backup pod, if
    there is one. *)
Definition setLabelsTwoNoWriter (galera : Galera) (pod0 pod1 : Pod) : SM unit :=
  match findBackup [pod0; pod1] with
  | None =>
      modify (with_Writer pod0.(pod_Name));;
      patch galera pod0 [RemoveReader; AddWriter];;
      modify (with_BackupWriter pod1.(pod_Name));;
      patch galera pod1 [AddReader; AddBackupWriter]
  | Some backup =>
      let writer := if decide (backup = pod0) then pod1 else pod0 in
      modify (with_Writer writer.(pod_Name));;
      patch galera writer [RemoveReader; AddWriter];;
      modify (with_BackupWriter backup.(pod_Name));;
      patch galera backup [AddReader; AddBackupWriter]
  end.

(** The first loop of the branch with a writer: every other pod is patched, since
    the loop has no break. *)
Fixpoint setBackupWriters (galera : Galera) (pods : list Pod) : SM unit :=
  match pods with
  | [] => mret tt
  | pod :: pods' =>
      st ← getStatus;
      (if decide (pod.(pod_Name) ≠ st.(st_Members).(mem_Writer)) then
         modify (with_BackupWriter pod.(pod_Name));;
         patch galera pod [AddReader; AddBackupWriter]
       else mret tt);;
      setBackupWriters galera pods'
  end.

(** The last loop of two branches: the writer is no reader. *)
Fixpoint removeWriterReader (galera : Galera) (pods : list Pod) : SM unit :=
  match pods with
  | [] => mret tt
  | pod :: pods' =>
      st ← getStatus;
      if decide (pod.(pod_Name) = st.(st_Members).(mem_Writer) ∧
                 label_or_empty pod.(pod_Labels) GaleraReaderLabel = "true")
      then patch galera pod [RemoveReader]
      else removeWriterReader galera pods'
  end.

(** The first pod without backup label and without role *)
Definition candidates (readyPods : list Pod) : list Pod :=
  filter (λ pod, has_label pod GaleraBackupLabel = false ∧ has_label pod GaleraRoleLabel = false)
    readyPods.

Definition noCandidate (role : string) (galera : Galera) : error :=
  errorf ("no " +:+ role +:+ " Role candidate for galera " +:+ galera.(g_Namespace) +:+ "/"
            +:+ galera.(g_Name) +:+ " ").

(** The name of the backup writer is stored as the one of the writer. *)
Definition setLabelsMany (galera : Galera) (readyPods : list Pod) : SM unit :=
  st ← getStatus;
  (if decide (st.(st_Members).(mem_Writer) = "") then
     match head (candidates readyPods) with
     | None => lift (errM (noCandidate "Writer" galera))
     | Some candidate =>
         modify (with_Writer candidate.(pod_Name));;
         patch galera candidate [RemoveReader; AddWriter]
     end
   else mret tt);;
  st ← getStatus;
  (if decide (st.(st_Members).(mem_BackupWriter) = "") then
     match head (filter (λ pod, st.(st_Members).(mem_Writer) ≠ pod.(pod_Name))
                        (candidates readyPods)) with
     | None => lift (errM (noCandidate "BackupWriter" galera))
     | Some candidate =>
         modify (with_Writer candidate.(pod_Name));;
         patch galera candidate [AddReader; AddBackupWriter]
     end
   else mret tt);;
  removeWriterReader galera readyPods.

Definition setLabels (galera : Galera) (readyPods : list Pod) : SM unit :=
  match readyPods with
  | [] => mret tt
  | [pod] => patch galera pod [AddReader; AddWriter]
  | [pod0; pod1] =>
      st ← getStatus;
      if decide (st.(st_Members).(mem_Writer) = "") then setLabelsTwoNoWriter galera pod0 pod1
      else
        (if decide (st.(st_Members).(mem_BackupWriter) = "")
         then setBackupWriters galera [pod0; pod1] else mret tt);;
        removeWriterReader galera [pod0; pod1]
  | _ => setLabelsMany galera readyPods
  end.

(** ** Phase and conditions *)

Definition setCondition (f : Z → GaleraStatus → GaleraStatus) : SM unit :=
  t ← lift now; modify (f t).

Definition setFailed (galera : Galera) (nbUnreadyPods : Z) : SM unit :=
  modify (with_Phase GaleraPhaseFailed);;
  setCondition SetFailedCondition;;
  modify (ClearCondition GaleraConditionReady);;
  modify (ClearCondition GaleraConditionScaling);;
  modify (ClearCondition GaleraConditionUpgrading);;
  lift (metric "failed" 1);;
  lift (metric "total" (-1));;
  lift (errM (errorf ("cluter " +:+ galera.(g_Namespace) +:+ "/" +:+ galera.(g_Name)
    +:+ " is failed, all nodes (" +:+ pretty nbUnreadyPods +:+ ") are not PRIMARY"))).

Definition setScaling (n : Z) : SM unit :=
  st ← getStatus;
  if decide (st.(st_Replicas) = n) then modify (ClearCondition GaleraConditionScaling)
  else if decide (st.(st_Replicas) < n) then setCondition (SetScalingUpCondition st.(st_Replicas) n)
  else setCondition (SetScalingDownCondition st.(st_Replicas) n).

Definition setStatusPhaseAndConditions (galera : Galera) (nbReadyPods nbUnreadyPods : Z)
    (newImage : bool) : SM unit :=
  if decide (nbReadyPods = 0 ∧ 1 < nbUnreadyPods) then setFailed galera nbUnreadyPods
  else
    n ← lift (pureM (replicas galera));
    setScaling n;;
    st ← getStatus;
    if decide (st.(st_Phase) = GaleraPhaseCreating ∨ st.(st_Phase) = GaleraPhaseRestoring) then
      if decide (st.(st_Replicas) = n) then
        modify (ClearCondition GaleraConditionRestoring);;
        setCondition SetReadyCondition;;
        modify (with_Phase GaleraPhaseRunning)
      else mret tt
    else if decide (st.(st_Phase) = GaleraPhaseBackuping ∨ st.(st_Phase) = GaleraPhaseRunning) then
      if newImage then
        pod ← lift (pureM (deref galera.(g_Spec).(spec_Pod)));
        setCondition (SetUpgradingCondition pod.(pt_Image));;
        if IsUpgrading (Some galera.(g_Status)) then mret tt else lift (metric "modified" 1)
      else modify (ClearCondition GaleraConditionUpgrading)
    else mret tt.

(** ** Claims *)

(** The loop stops, with [true], at a claim that is terminating and after a claim
    has been deleted; otherwise it returns the suffixes of the unused claims. *)
Fixpoint unusedClaims (galera : Galera) (podSuffix backupSuffix : list string)
    (defaultSCName : string) (claims : list PersistentVolumeClaim) (claimSuffix : list string)
    : M (list string * bool) :=
  match claims with
  | [] => mret (claimSuffix, false)
  | claim :: claims' =>
      if isClaimTerminating claim then mret (claimSuffix, true)
      else
        let '(suffix, backup) := getClaimSuffixAndBackup claim.(claim_Name) in
        if (backup : bool) then
          if decide (suffix ∈ backupSuffix)
          then unusedClaims galera podSuffix backupSuffix defaultSCName claims' claimSuffix
          else DeleteClaim galera claim;; mret (claimSuffix, true)
        else if decide (suffix ∈ podSuffix)
        then unusedClaims galera podSuffix backupSuffix defaultSCName claims' claimSuffix
        else
          matching ← pureM (isClaimMatching galera claim defaultSCName);
          if (matching : bool)
          then unusedClaims galera podSuffix backupSuffix defaultSCName claims'
                 (claimSuffix ++ [suffix])
          else DeleteClaim galera claim;; mret (claimSuffix, true)
  end.

Definition deleteNoMatchingClaimsAndListUnusedClaims (galera : Galera)
    (podSuffix backupSuffix : list string) (claims : list PersistentVolumeClaim)
    (defaultSCName : string) : M (list string * bool) :=
  unusedClaims galera podSuffix backupSuffix defaultSCName claims [].

(** ** Upgrades *)

Definition user (mapCredGalera : gmap string string) : string :=
  default "" (mapCredGalera !! "user").
Definition password (mapCredGalera : gmap string string) : string :=
  default "" (mapCredGalera !! "password").

(** What is done to a node whose data are of an older revision than the node *)
Definition upgradeNode (galera : Galera) (pod : Pod) (podRev : string)
    (mapCredGalera : gmap string string) : M unit :=
  RunUpgradeGalera galera pod (user mapCredGalera) (password mapCredGalera);;
  ForceDeletePod galera pod;;
  PatchClaimLabels galera pod podRev.

Fixpoint checkMysqlUpgrade (galera : Galera) (unreadyPods : list Pod)
    (mapCredGalera : gmap string string) : M bool :=
  match unreadyPods with
  | [] => mret false
  | pod :: unreadyPods' =>
      if isRunningAndReady pod then
        let podRev := getPodRevision pod in
        '(_, claimRev) ← GetClaimRevision galera.(g_Namespace) pod.(pod_Name);
        if decide (podRev ≠ claimRev)
        then upgradeNode galera pod podRev mapCredGalera;; mret true
        else checkMysqlUpgrade galera unreadyPods' mapCredGalera
      else checkMysqlUpgrade galera unreadyPods' mapCredGalera
  end.

Definition incCurrent (st : GaleraStatus) : GaleraStatus :=
  with_CurrentReplicas (i32 (st.(st_CurrentReplicas) + 1)) st.
Definition decCurrent (st : GaleraStatus) : GaleraStatus :=
  with_CurrentReplicas (i32 (st.(st_CurrentReplicas) - 1)) st.
Definition incNext (st : GaleraStatus) : GaleraStatus :=
  with_NextReplicas (i32 (st.(st_NextReplicas) + 1)) st.
Definition decNext (st : GaleraStatus) : GaleraStatus :=
  with_NextReplicas (i32 (st.(st_NextReplicas) - 1)) st.
Definition incReplicas (st : GaleraStatus) : GaleraStatus :=
  with_Replicas (i32 (st.(st_Replicas) + 1)) st.
Definition decReplicas (st : GaleraStatus) : GaleraStatus :=
  with_Replicas (i32 (st.(st_Replicas) - 1)) st.

(** A pod of a revision is gone. *)
Definition uncountPod (pod : Pod) (currentRevision nextRevision : string) (st : GaleraStatus)
    : GaleraStatus :=
  let st := if decide (getPodRevision pod = currentRevision) then decCurrent st else st in
  if decide (getPodRevision pod = nextRevision) then decNext st else st.

(** ** Creation *)

Definition recreatingFailedPod (galera : Galera) (what : string) (pod : Pod) : M unit :=
  recordEvent "RecreatingFailedPod"
    ("Galera " +:+ galera.(g_Namespace) +:+ "/" +:+ galera.(g_Name) +:+ " is recreating failed "
       +:+ what +:+ " " +:+ pod.(pod_Name)) false.

(** The loop over the unready pods: whether the round stops there *)
Fixpoint examineUnready (galera : Galera) (unreadyPods : list Pod)
    (currentRevision nextRevision : string) : SM bool :=
  match unreadyPods with
  | [] => mret false
  | pod :: unreadyPods' =>
      if isFailed pod then
        lift (recreatingFailedPod galera "Pod" pod);;
        lift (ForceDeletePod galera pod);;
        modify (uncountPod pod currentRevision nextRevision);;
        mret true
      else if isTerminating pod then mret true
      else if negb (isRunningAndReady pod) then mret true
      else examineUnready galera unreadyPods' currentRevision nextRevision
  end.

(** The name of a new pod: no string is drawn when an unused claim gives the
    suffix. *)
Definition newPodName (galera : Galera) (podSuffixes unusedClaimSuffixes : list string) : M string :=
  drawn ← match unusedClaimSuffixes with [] => draws | _ => mret [] end;
  pureM (createUniquePodName galera.(g_Name) podSuffixes unusedClaimSuffixes drawn).

(** The state of a new node: standalone when its claim is of another revision *)
Definition newState (found : bool) (rev chosenRevision : string) : string :=
  if decide (found = true ∧ rev ≠ chosenRevision) then StateStandalone else StateCluster.

Definition createPod (galera : Galera) (chosenRevision currentRevision role addresses : string)
    (init : bool) (mapCredGalera : gmap string string)
    (podSuffixes unusedClaimSuffixes : list string) : SM unit :=
  podName ← lift (newPodName galera podSuffixes unusedClaimSuffixes);
  '(found, rev) ← lift (GetClaimRevision galera.(g_Namespace) podName);
  let state :=
    if decide (role = Restore) then StateStandalone else newState found rev chosenRevision in
  pod ← lift (pureM (newGaleraPod galera chosenRevision podName role state addresses
          gc.(gc_bootstrapImage) gc.(gc_backupImage) init mapCredGalera));
  lift (CreatePodAndClaim galera pod role);;
  modify incReplicas;;
  modify (if decide (chosenRevision = currentRevision) then incCurrent else incNext).

Definition checkUnreadyPodBeforeCreatingPod (galera : Galera) (unreadyPods : list Pod)
    (chosenRevision currentRevision nextRevision role addresses : string)
    (mapCredGalera : gmap string string) (podSuffixes unusedClaimSuffixes : list string) : SM unit :=
  st ← getStatus;
  let init := bool_decide (st.(st_Phase) ≠ GaleraPhaseRestoring ∧ addresses = "") in
  stop ← examineUnready galera unreadyPods currentRevision nextRevision;
  if (stop : bool) then mret tt
  else createPod galera chosenRevision currentRevision role addresses init mapCredGalera
         podSuffixes unusedClaimSuffixes.

Definition createSpecial (galera : Galera) (nextRevision addresses : string)
    (podSuffix claimSuffix : list string) (mapCredGalera : gmap string string) : M unit :=
  podName ← newPodName galera podSuffix claimSuffix;
  '(found, claimRev) ← GetClaimRevision galera.(g_Namespace) podName;
  pod ← pureM (newGaleraPod galera nextRevision podName RoleSpecial
          (newState found claimRev nextRevision) addresses gc.(gc_bootstrapImage)
          gc.(gc_backupImage) false mapCredGalera);
  CreatePodAndClaim galera pod RoleSpecial.

Definition manageSpecialNode (galera : Galera) (nextRevision : string) (specialPod : option Pod)
    (addresses : string) (podSuffix claimSuffix : list string)
    (mapCredGalera : gmap string string) (defaultSCName : string) : M unit :=
  match specialPod with
  | None => createSpecial galera nextRevision addresses podSuffix claimSuffix mapCredGalera
  | Some specialPod =>
      if isFailed specialPod then
        recreatingFailedPod galera "Special Pod" specialPod;;
        ForceDeletePod galera specialPod
      else if isTerminating specialPod then mret tt
      else if negb (isRunningAndReady specialPod) then mret tt
      else
        let podRev := getPodRevision specialPod in
        '(_, claimRev) ← GetClaimRevision galera.(g_Namespace) specialPod.(pod_Name);
        if decide (podRev ≠ claimRev) then upgradeNode galera specialPod podRev mapCredGalera
        else if decide (podRev ≠ nextRevision) then
          DeleteSyncedPodForUpgrade galera specialPod (user mapCredGalera) (password mapCredGalera)
            defaultSCName
        else mret tt
  end.

(** ** Termination *)

(** The first claim whose suffix is unused *)
Definition orphanClaim (unusedClaimSuffixes : list string) (claims : list PersistentVolumeClaim)
    : option PersistentVolumeClaim :=
  head (filter (λ claim, getClaimSuffix claim.(claim_Name) ∈ unusedClaimSuffixes) claims).

Fixpoint forceDeletePods (galera : Galera) (pods : list Pod) : M unit :=
  match pods with
  | [] => mret tt
  | pod :: pods' => ForceDeletePod galera pod;; forceDeletePods galera pods'
  end.

(** The first ready pod without role and without backup label *)
Definition surplusPod (readyPods : list Pod) : option Pod :=
  head (filter (λ pod, has_label pod GaleraRoleLabel = false ∧ has_label pod GaleraBackupLabel = false)
          readyPods).

Definition scaleDown (galera : Galera) (readyPods : list Pod) (replicas : Z)
    (currentRevision nextRevision : string) (mapCredGalera : gmap string string) : SM unit :=
  if decide (replicas < len32 readyPods) then
    match surplusPod readyPods with
    | None => mret tt
    | Some pod =>
        lift (DeleteSyncedPod galera pod (user mapCredGalera) (password mapCredGalera));;
        modify (uncountPod pod currentRevision nextRevision)
    end
  else mret tt.

Definition considerPodAndClaimTermination (galera : Galera) (readyPods unreadyPods : list Pod)
    (claims : list PersistentVolumeClaim) (unusedClaimSuffixes : list string) (replicas : Z)
    (currentRevision nextRevision : string) (mapCredGalera : gmap string string) : SM unit :=
  st ← getStatus;
  if decide (galera.(g_Spec).(spec_Special) ≠ None ∧ st.(st_Members).(mem_Special) = "")
  then scaleDown galera readyPods replicas currentRevision nextRevision mapCredGalera
  else
    match orphanClaim unusedClaimSuffixes claims with
    | Some claim => lift (DeleteClaim galera claim)
    | None =>
        lift (forceDeletePods galera unreadyPods);;
        scaleDown galera readyPods replicas currentRevision nextRevision mapCredGalera
    end.

Fixpoint upgradeFirst (galera : Galera) (pods : list Pod) (nextRevision : string)
    (mapCredGalera : gmap string string) (defaultSCName : string) : SM bool :=
  match pods with
  | [] => mret false
  | pod :: pods' =>
      if negb (isHealthy pod) then mret true
      else if decide (getPodRevision pod ≠ nextRevision ∧ isTerminating pod = false) then
        err ← lift (errOf (DeleteSyncedPodForUpgrade galera pod (user mapCredGalera)
                             (password mapCredGalera) defaultSCName));
        modify decCurrent;;
        lift (retErr err);;
        mret true
      else upgradeFirst galera pods' nextRevision mapCredGalera defaultSCName
  end.

Definition deletePodForUpgrade (galera : Galera) (pods : list Pod)
    (currentRevision nextRevision : string) (mapCredGalera : gmap string string)
    (defaultSCName : string) : SM bool :=
  if decide (currentRevision = nextRevision) then mret false
  else upgradeFirst galera pods nextRevision mapCredGalera defaultSCName.

(** ** Lemmas *)

Context `{!GaleraPodControlLaws}.

(** What patching may do, whatever the actions *)
Definition ev_patch (e : event) : Prop :=
  match e with EvPodPatch _ _ _ _ | EvPodGet _ _ | EvRecord _ _ _ => True | _ => False end.

Lemma patch_emits g pod actions : emits ev_patch (PatchPodLabels g pod actions).
Proof.
  destruct (applyActions actions pod.(pod_Labels)) as [m|e| |] eqn:E.
  - eapply emits_impl; [by apply PatchPodLabels_emits|]. by intros [].
  - intros env h. destruct (PatchPodLabels_nil g pod actions) with env h as [-> _]; [by rewrite E|done].
  - intros env h. destruct (PatchPodLabels_nil g pod actions) with env h as [-> _]; [by rewrite E|done].
  - intros env h. destruct (PatchPodLabels_nil g pod actions) with env h as [-> _]; [by rewrite E|done].
Qed.
End control.

(** The events of the operations of the pod control, weakened to what a lemma needs *)
Create HintDb ops.
#[export] Hint Resolve patch_emits CreatePodAndClaim_emits PatchClaimLabels_emits
  DeleteSyncedPod_emits DeleteSyncedPodForUpgrade_emits ForceDeletePod_emits
  ForceDeletePodAndClaim_emits DeleteClaim_emits GetClaimRevision_emits RunUpgradeGalera_emits
  IsPrimary_emits : ops.

Ltac op_emits :=
  eapply emits_impl; [solve [eauto 3 with ops]|intros []; cbn; try done; naive_solver].

(** [emits_tac], through [lift] and the operations *)
Ltac emits_sm :=
  repeat first
    [ emits_step
    | apply emitsS_lift
    | apply emits_attempt
    | apply emits_errOf
    | op_emits
    | exact I
    | reflexivity
    | progress unfold recordEvent, now, mapOrder, draws, metric, spawnRestore
    | progress eauto 3 with emits ].

(** The suffixes of the data claims that no pod uses *)
Definition unusedSuffixes (podSuffix : list string) (claims : list PersistentVolumeClaim)
    : list string :=
  fst <$> filter (λ '(suffix, backup), backup = false ∧ suffix ∉ podSuffix)
            ((λ c, getClaimSuffixAndBackup c.(claim_Name)) <$> claims).

Section claims.
Context `{GaleraPodControl}.

(** What a round does with a claim it meets *)
Inductive claim_fate := Keep | Wait | Remove.

Definition fate (galera : Galera) (podSuffix backupSuffix : list string) (defaultSCName : string)
    (claim : PersistentVolumeClaim) : claim_fate :=
  let '(suffix, backup) := getClaimSuffixAndBackup claim.(claim_Name) in
  if isClaimTerminating claim then Wait
  else if (backup : bool) then if decide (suffix ∈ backupSuffix) then Keep else Remove
  else if decide (suffix ∈ podSuffix) then Keep
  else if decide (isClaimMatching galera claim defaultSCName = Ok true) then Keep else Remove.

Lemma unusedSuffixes_cons podSuffix claim claims :
  unusedSuffixes podSuffix (claim :: claims) =
    (let '(suffix, backup) := getClaimSuffixAndBackup claim.(claim_Name) in
     if decide (backup = false ∧ suffix ∉ podSuffix) then [suffix] else [])
    ++ unusedSuffixes podSuffix claims.
Proof.
  unfold unusedSuffixes. rewrite fmap_cons, filter_cons.
  destruct (getClaimSuffixAndBackup (claim_Name claim)) as [s b]. by repeat case_decide.
Qed.

Lemma unusedClaims_skip galera podSuffix backupSuffix sc c1 c2 l env h :
  Forall (λ c, fate galera podSuffix backupSuffix sc c = Keep) c1 →
  unusedClaims galera podSuffix backupSuffix sc (c1 ++ c2) l env h =
    unusedClaims galera podSuffix backupSuffix sc c2 (l ++ unusedSuffixes podSuffix c1) env h.
Proof.
  intros HF. revert l. induction HF as [|c c1 Hc _ IH]; intros l; cbn [app unusedClaims].
  { unfold unusedSuffixes. cbn. by rewrite app_nil_r. }
  rewrite unusedSuffixes_cons, app_assoc. revert Hc. unfold fate.
  destruct (getClaimSuffixAndBackup (claim_Name c)) as [s b].
  destruct (isClaimTerminating c); [done|]. destruct b.
  - case_decide; [|done]. intros _. rewrite (decide_False (P := true = false ∧ _)) by naive_solver.
    by rewrite app_nil_r, IH.
  - case_decide.
    + intros _. rewrite (decide_False (P := _ ∧ _)) by naive_solver. by rewrite app_nil_r, IH.
    + unfold isClaimMatching. destruct (CheckClaim_total galera c sc) as [[] ->];
        case_decide; try done. intros _.
      rewrite (decide_True (P := _ ∧ _)) by done.
      change (pureM (Ok true)) with (mret true : M bool). rewrite ret_bind. by rewrite IH.
Qed.

Lemma unusedClaims_keep galera podSuffix backupSuffix sc claims l env h :
  Forall (λ c, fate galera podSuffix backupSuffix sc c = Keep) claims →
  unusedClaims galera podSuffix backupSuffix sc claims l env h =
    (Ok (l ++ unusedSuffixes podSuffix claims, false), []).
Proof. intros HF. rewrite <- (app_nil_r claims) at 1. by rewrite unusedClaims_skip. Qed.

(** C30: one round over the claims.  When every claim is kept, nothing is done and
    the suffixes of the data claims without pod are returned, in order.  Otherwise
    the first claim that is not kept ends the round: a terminating one without
    any call, an unused backup claim or an unused data claim that does not match
    the specification with its deletion, and only its own. *)
Theorem unusedClaims_spec (galera : Galera) (podSuffix backupSuffix : list string)
    (claims : list PersistentVolumeClaim) (sc : string) (env : Env) (h : history) :
  let run := deleteNoMatchingClaimsAndListUnusedClaims galera podSuffix backupSuffix claims sc env h in
  let fate := fate galera podSuffix backupSuffix sc in
  (Forall (λ c, fate c = Keep) claims → run = (Ok (unusedSuffixes podSuffix claims, false), [])) ∧
  (∀ c1 c c2, claims = c1 ++ c :: c2 → Forall (λ c, fate c = Keep) c1 →
     (fate c = Wait → run = (Ok (unusedSuffixes podSuffix c1, true), [])) ∧
     (fate c = Remove →
        run = (DeleteClaim galera c;; mret (unusedSuffixes podSuffix c1, true)) env h)).
Proof.
  cbv zeta. unfold deleteNoMatchingClaimsAndListUnusedClaims.
  change (unusedSuffixes podSuffix claims) with ([] ++ unusedSuffixes podSuffix claims).
  split.
  - intros HF. by apply unusedClaims_keep.
  - intros c1 c c2 -> HF. rewrite unusedClaims_skip by done. cbn [app].
    unfold fate. cbn [unusedClaims]. destruct (getClaimSuffixAndBackup (claim_Name c)) as [s b].
    destruct (isClaimTerminating c); [by split_and!|]. destruct b; [by case_decide|].
    case_decide; [done|]. unfold isClaimMatching.
    destruct (CheckClaim_total galera c sc) as [[] ->]; case_decide; try done.
    split; [done|]. intros _. by change (pureM (Ok false)) with (mret false : M bool); rewrite ret_bind.
Qed.
End claims.

(** ** Upgrades of data *)

Definition is_podDelete (e : event) : Prop :=
  match e with EvPodDelete _ _ _ => True | _ => False end.
Definition is_claimPatch (e : event) : Prop :=
  match e with EvClaimPatch _ _ _ _ => True | _ => False end.

(** [mysql_upgrade] has run in a pod without error. *)
Definition mysql_upgraded (ns name : string) (t : history) : Prop :=
  ∃ container cmd stdout,
    EvExec ns name container ("mysql_upgrade" :: cmd) stdout None ∈ t ∧ isKO stdout = false.

(** What the deletion of a pod, or the new revision of its claim, has to wait for *)
Definition upgrade_order (galera : Galera) (pod : Pod) (t : history) : Prop :=
  preceded is_podDelete
    (λ e t1, (∃ err, e = EvPodDelete galera.(g_Namespace) pod.(pod_Name) err) ∧
             mysql_upgraded galera.(g_Namespace) pod.(pod_Name) t1) t ∧
  preceded is_claimPatch
    (λ e t1, (∃ name err, e = EvClaimPatch galera.(g_Namespace) name
                (Some (claimLabelsForGalera galera (getPodRevision pod))) err) ∧
             mysql_upgraded galera.(g_Namespace) pod.(pod_Name) t1 ∧
             EvPodDelete galera.(g_Namespace) pod.(pod_Name) None ∈ t1) t.

Lemma upgrade_order_reads galera pod t : Forall ev_read t → upgrade_order galera pod t.
Proof. intros HF. split; apply preceded_none; (eapply Forall_impl; [exact HF|intros []; cbn; tauto]). Qed.

Lemma mysql_upgraded_app ns name t1 t2 :
  mysql_upgraded ns name t1 → mysql_upgraded ns name (t1 ++ t2).
Proof. unfold mysql_upgraded. set_solver. Qed.

Lemma mysql_upgraded_mono ns name t1 t2 :
  mysql_upgraded ns name t2 → mysql_upgraded ns name (t1 ++ t2).
Proof. unfold mysql_upgraded. set_solver. Qed.

Section upgrades.
Context `{GaleraPodControlLaws} `{PodUtil}.

Lemma upgradeNode_inv galera pod creds env h o t :
  upgradeNode galera pod (getPodRevision pod) creds env h = (o, t) →
  upgrade_order galera pod t.
Proof.
  unfold upgradeNode. intros [([] & t1 & t2 & E1 & E & ->)|(_ & o' & E & _)]%bind_inv;
    [|by apply upgrade_order_reads; eapply emits_run; [apply RunUpgradeGalera_emits|exact E]].
  pose proof (RunUpgradeGalera_ok _ _ _ _ _ _ _ E1) as Hup.
  assert (Hr1 : Forall ev_read t1) by (eapply emits_run; [apply RunUpgradeGalera_emits|exact E1]).
  assert (Hd : ∀ o2 t2 h, ForceDeletePod galera pod env h = (o2, t2) →
     Forall (ev_deletePod galera.(g_Namespace) pod.(pod_Name)) t2)
    by (intros; by eapply emits_run; [apply ForceDeletePod_emits|]).
  assert (Hord : ∀ t2 t3, Forall (ev_deletePod galera.(g_Namespace) pod.(pod_Name)) t2 →
     Forall (ev_patchClaim galera.(g_Namespace)
               (Some (claimLabelsForGalera galera (getPodRevision pod)))) t3 →
     (t3 = [] ∨ EvPodDelete galera.(g_Namespace) pod.(pod_Name) None ∈ t2) →
     upgrade_order galera pod (t1 ++ t2 ++ t3)).
  { clear -Hup Hr1. intros t2 t3 H2 H3 Hok. destruct (upgrade_order_reads galera pod t1 Hr1) as [Ha Hb].
    split; (apply preceded_app; [done|]).
    - apply preceded_app.
      + intros ta e tb -> He. split; [|by apply mysql_upgraded_app].
        apply Forall_app in H2 as [_ [H2 _]%Forall_cons]. destruct e; try done.
        destruct H2 as [-> ->]. eauto.
      + apply preceded_none. eapply Forall_impl; [exact H3|]. intros []; cbn; tauto.
    - apply preceded_app.
      + apply preceded_none. eapply Forall_impl; [exact H2|]. intros []; cbn; tauto.
      + intros ta e tb -> He. destruct Hok as [Hok|Hok]; [by destruct ta|].
        split_and!; [|by apply mysql_upgraded_app|set_solver].
        apply Forall_app in H3 as [_ [H3 _]%Forall_cons]. destruct e; try done.
        destruct H3 as [-> ->]. eauto. }
  apply bind_inv in E as [([] & t3 & t4 & E3 & E4 & ->)|(_ & o' & E & _)].
  - apply Hord; [by eapply Hd| |right; by eapply ForceDeletePod_ok].
    eapply emits_run; [apply PatchClaimLabels_emits|exact E4].
  - rewrite <- (app_nil_r t2). apply Hord; [by eapply Hd|constructor|by left].
Qed.

Lemma upgradeNode_ok galera pod creds env h t :
  upgradeNode galera pod (getPodRevision pod) creds env h = (Ok tt, t) →
  mysql_upgraded galera.(g_Namespace) pod.(pod_Name) t ∧
  EvPodDelete galera.(g_Namespace) pod.(pod_Name) None ∈ t.
Proof.
  unfold upgradeNode. intros ([] & ? & ? & Eu%RunUpgradeGalera_ok & ([] & ? & ? & E%ForceDeletePod_ok & _ & ->)%bind_ok_inv
    & ->)%bind_ok_inv. split; [by apply mysql_upgraded_app|set_solver].
Qed.

(** The commands of an upgrade are run in the pod that is upgraded. *)
Definition exec_in (ns name : string) (e : event) : Prop :=
  match e with EvExec ns' name' _ _ _ _ => ns' = ns ∧ name' = name | _ => True end.

Lemma upgradeNode_inside galera pod creds :
  emits (exec_in galera.(g_Namespace) pod.(pod_Name)) (upgradeNode galera pod (getPodRevision pod) creds).
Proof.
  unfold upgradeNode. repeat (apply emits_bind; [|intros _]); eapply emits_impl;
    [apply RunUpgradeGalera_inside| |apply ForceDeletePod_emits| |apply PatchClaimLabels_emits|]; by intros [].
Qed.

(** A node that is found of the revision of its claim *)
Definition upToDate (galera : Galera) (env : Env) (pod : Pod) : Prop :=
  isRunningAndReady pod = true → ∃ h b, fst (GetClaimRevision galera.(g_Namespace) pod.(pod_Name) env h)
                                          = Ok (b, getPodRevision pod).

(** A round of upgrades: all the nodes are up to date; the claim of one could not be read,
    after nodes that are up to date; or a node is upgraded, the first that is not up to
    date. *)
Definition all_upToDate (galera : Galera) (unready : list Pod) (env : Env) (o : outcome bool) (t : history) : Prop :=
  o = Ok false ∧ Forall ev_look t ∧ Forall (upToDate galera env) unready.
Definition claim_unread (galera : Galera) (unready : list Pod) (env : Env) (o : outcome bool) (t : history) : Prop :=
  is_ok o = false ∧ Forall ev_look t ∧ ∃ l1 pod l2 h', unready = l1 ++ pod :: l2 ∧
    Forall (upToDate galera env) l1 ∧ isRunningAndReady pod = true ∧
    is_ok (fst (GetClaimRevision galera.(g_Namespace) pod.(pod_Name) env h')) = false.

(** The first node that is not up to date, with what was read before its upgrade *)
Definition outdated (galera : Galera) (unready : list Pod) (env : Env) (h : history) (pod : Pod) (t0 : history) : Prop :=
  ∃ l1 l2 t1 tg b rev, unready = l1 ++ pod :: l2 ∧ Forall (upToDate galera env) l1 ∧
    isRunningAndReady pod = true ∧ t0 = t1 ++ tg ∧ Forall ev_look t0 ∧
    GetClaimRevision galera.(g_Namespace) pod.(pod_Name) env (h ++ t1) = (Ok (b, rev), tg) ∧
    rev ≠ getPodRevision pod.

Lemma checkMysqlUpgrade_cases galera unready creds env h o t :
  checkMysqlUpgrade galera unready creds env h = (o, t) →
  all_upToDate galera unready env o t ∨ claim_unread galera unready env o t ∨
  ∃ pod t0 t1, t = t0 ++ t1 ∧ outdated galera unready env h pod t0 ∧
    (upgradeNode galera pod (getPodRevision pod) creds;; mret true) env (h ++ t0) = (o, t1).
Proof.
  revert h o t. induction unready as [|pod l IH]; intros h o t; cbn [checkMysqlUpgrade].
  { intros [= <- <-]. left. by split_and!. }
  assert (Hskip : ∀ t2 t, upToDate galera env pod → Forall ev_look t2 →
    checkMysqlUpgrade galera l creds env (h ++ t2) = (o, t) →
    all_upToDate galera (pod :: l) env o (t2 ++ t) ∨ claim_unread galera (pod :: l) env o (t2 ++ t) ∨
    ∃ p t0 t1, t2 ++ t = t0 ++ t1 ∧ outdated galera (pod :: l) env h p t0 ∧
      (upgradeNode galera p (getPodRevision p) creds;; mret true) env (h ++ t0) = (o, t1)).
  { clear t. intros t2 t Hup H2 [(Ho & Ht & HF)|[(Ho & Ht & l1 & p & l2 & h' & -> & HF & Hp)|
      (p & t0 & t1 & -> & (l1 & l2 & ta & tb & b & rev & -> & HF & Hr & -> & Hl & Hg & Hn) & E)]]%IH.
    - left. split_and!; [done|by apply Forall_app|by constructor].
    - right. left. split_and!; [done|by apply Forall_app|]. exists (pod :: l1), p, l2, h'.
      split_and!; [done|by constructor|apply Hp..].
    - right. right. exists p, (t2 ++ ta ++ tb), t1. split_and!; [by rewrite <- !app_assoc| |by rewrite app_assoc].
      exists (pod :: l1), l2, (t2 ++ ta), tb, b, rev.
      split_and!; [done|by constructor|done|by rewrite <- app_assoc|by apply Forall_app|by rewrite app_assoc|done]. }
  destruct (isRunningAndReady pod) eqn:Hr.
  2:{ intros E. apply (Hskip [] t); [unfold upToDate; by rewrite Hr|done|by rewrite app_nil_r]. }
  intros [([b rev] & t2 & t3 & E1 & E2 & ->)|(Ho & o' & E & Ho')]%bind_inv.
  2:{ right. left. split_and!; [done|eapply emits_run; [apply GetClaimRevision_looks|exact E]|].
      exists [], pod, l, h. split_and!; [done..|]. rewrite E. by destruct o'. }
  assert (H2 : Forall ev_look t2) by (eapply emits_run; [apply GetClaimRevision_looks|exact E1]).
  case_decide as Hrev.
  - right. right. exists pod, t2, t3. split_and!; [done| |done].
    exists [], l, [], t2, b, rev. rewrite app_nil_r. by split_and!.
  - subst rev. revert E2. apply Hskip; [|done]. intros _. exists h, b. by rewrite E1.
Qed.

Lemma checkMysqlUpgrade_inv galera unready creds env h o t :
  checkMysqlUpgrade galera unready creds env h = (o, t) →
  ∃ t0 t1, t = t0 ++ t1 ∧ Forall ev_read t0 ∧
    ((t1 = [] ∧ (o = Ok false → Forall (upToDate galera env) unready) ∧ o ≠ Ok true) ∨
     ∃ pod, pod ∈ unready ∧ isRunningAndReady pod = true ∧
       (upgradeNode galera pod (getPodRevision pod) creds;; mret true) env (h ++ t0) = (o, t1)).
Proof.
  assert (Hread : ∀ t, Forall ev_look t → Forall ev_read t).
  { intros t' Ht. eapply Forall_impl; [exact Ht|]. by intros []. }
  intros [(-> & Ht & HF)|[(Ho & Ht & _)|(p & t0 & t1 & -> & Hp & E)]]%checkMysqlUpgrade_cases.
  - exists t, []. rewrite app_nil_r. split_and!; auto.
  - exists t, []. rewrite app_nil_r. split_and!; [done|auto|left]. split_and!; [done|by intros ->|by intros ->].
  - exists t0, t1. destruct Hp as (l1 & l2 & ta & tb & b & rev & -> & _ & Hr & _ & Hl & _).
    split_and!; [done|auto|right]. exists p. split_and!; [set_solver|done|done].
Qed.

(** C9: at most one node has its data upgraded in a round: the first running and
    ready one whose claim, as it is read then, is of another revision than itself; no
    command is run in another pod.  Its pod is
    deleted only after [mysql_upgrade] has run in it without error, and the claim
    gets the revision of the pod only after that deletion has succeeded: if a
    step fails, the next round starts again from the upgrade, and never from a
    claim marked as upgraded.  The round goes on exactly when every running and
    ready node was found of the revision of its claim, and has then only read claims; it
    stops with an error, having changed nothing, when a claim cannot be read. *)
Theorem checkMysqlUpgrade_spec (galera : Galera) (unready : list Pod) (creds : gmap string string)
    (env : Env) (h : history) :
  let (o, t) := checkMysqlUpgrade galera unready creds env h in
  all_upToDate galera unready env o t ∨
  claim_unread galera unready env o t ∨
  (∃ pod t0 t1, t = t0 ++ t1 ∧ outdated galera unready env h pod t0 ∧ o ≠ Ok false ∧
     upgrade_order galera pod t ∧
     (∀ ns name container cmd stdout err, EvExec ns name container cmd stdout err ∈ t →
        ns = galera.(g_Namespace) ∧ name = pod.(pod_Name)) ∧
     o = fst ((upgradeNode galera pod (getPodRevision pod) creds;; mret true) env (h ++ t0)) ∧
     (o = Ok true → mysql_upgraded galera.(g_Namespace) pod.(pod_Name) t ∧
        EvPodDelete galera.(g_Namespace) pod.(pod_Name) None ∈ t)).
Proof.
  destruct (checkMysqlUpgrade galera unready creds env h) as [o t] eqn:E.
  apply checkMysqlUpgrade_cases in E as [E|[E|(p & t0 & t1 & -> & Hp & E)]]; [by left|by right; left|right; right].
  assert (Hl : Forall ev_look t0) by (destruct Hp as (? & ? & ? & ? & ? & ? & _ & _ & _ & _ & Hl & _); exact Hl).
  assert (Hu : ∃ o' , upgradeNode galera p (getPodRevision p) creds env (h ++ t0) = (o', t1) ∧
    ((o' = Ok tt ∧ o = Ok true) ∨ is_ok o' = false ∧ is_ok o = false)).
  { apply bind_inv in E as [([] & ta & tb & Ea & [= <- <-] & ->)|(Ho & o' & Ea & Ho')].
    - exists (Ok tt). rewrite app_nil_r. auto.
    - exists o'. split; [exact Ea|]. right. split; [by destruct o'|done]. }
  destruct Hu as (o' & Eu & Ho). pose proof (upgradeNode_inv _ _ _ _ _ _ _ Eu) as [Ha Hb].
  destruct (upgrade_order_reads galera p t0) as [Hc Hd].
  { eapply Forall_impl; [exact Hl|]. by intros []. }
  exists p, t0, t1. split_and!; [done|done| | | | |].
  - destruct Ho as [[_ ->]|[_ Ho]]; [done|by intros ->].
  - split; (apply preceded_app; [done|]);
      [eapply preceded_impl; [exact Ha|auto|]|eapply preceded_impl; [exact Hb|auto|]];
      intros e t' _; cbn; rewrite ?elem_of_app; intuition eauto using mysql_upgraded_mono.
  - intros ns name c cmd out err [Hin|Hin]%elem_of_app.
    + rewrite Forall_forall in Hl. by apply Hl in Hin.
    + pose proof (emits_run _ _ _ _ _ _ (upgradeNode_inside galera p creds) Eu) as HF. rewrite Forall_forall in HF.
      by apply HF in Hin.
  - by rewrite E.
  - intros ->. destruct Ho as [[-> _]|[_ [=]]]. apply upgradeNode_ok in Eu as [Hup Hdel].
    split; [by apply mysql_upgraded_mono|set_solver].
Qed.
End upgrades.

(** ** Creation of pods *)

Section creation.
Context `{GaleraPodControlLaws} `{PodUtil} (gc : defaultGaleraControl).

(** A pod that does not stop the creation of another one *)
Definition settled (pod : Pod) : Prop :=
  isFailed pod = false ∧ isTerminating pod = false ∧ isRunningAndReady pod = true.

#[global] Instance settled_dec pod : Decision (settled pod).
Proof. unfold settled. apply _. Defined.

(** The first pod that is not settled stops the round: it is deleted if it has
    failed. *)
Lemma examineUnready_inv galera unready cur next st env h o st' t :
  examineUnready galera unready cur next st env h = (o, st', t) →
  (Forall settled unready ∧ o = Ok false ∧ st' = st ∧ t = []) ∨
  ∃ l1 p l2, unready = l1 ++ p :: l2 ∧ Forall settled l1 ∧ ¬ settled p ∧ o ≠ Ok false ∧
    Forall (ev_deletePod galera.(g_Namespace) p.(pod_Name)) t ∧
    (isFailed p = false → t = []) ∧
    (o = Ok true → if isFailed p then EvPodDelete galera.(g_Namespace) p.(pod_Name) None ∈ t ∧
                                      st' = uncountPod p cur next st
                   else st' = st).
Proof.
  revert st h o st' t. induction unready as [|p l IH]; intros st h o st' t; cbn [examineUnready].
  { intros [= <- <- <-]. left. eauto. }
  destruct (isFailed p) eqn:Hf.
  { intros E. right. exists [], p, l. unfold settled at 2. rewrite Hf.
    split_and!; [done|constructor|by intros [? _]| | |done|].
    - intros ->. apply SM_bind_ok_inv in E as (? & ? & ? & ? & _ & E & _).
      apply SM_bind_ok_inv in E as (? & ? & ? & ? & _ & E & _). discriminate E.
    - eapply emitsS_run; [|exact E]. unfold recreatingFailedPod. emits_sm.
    - intros ->. apply SM_bind_ok_inv in E as (? & ? & ? & ? & [-> _]%lift_inv & E & ->).
      apply SM_bind_ok_inv in E as ([] & ? & ? & ? & [-> E%ForceDeletePod_ok]%lift_inv & E' & ->).
      unfold modify, mbind, SM_bind, mret, SM_ret in E'. simplify_eq. set_solver. }
  destruct (isTerminating p) eqn:Ht; [|destruct (isRunningAndReady p) eqn:Hr; cbn].
  1, 3: intros [= <- <- <-]; right; exists [], p, l; unfold settled at 2; rewrite Hf;
    (split_and!; [done|constructor|intros (_ & ? & ?); congruence|done|constructor|done|done]).
  intros [(? & -> & -> & ->)|(l1 & q & l2 & -> & Hl & Hq)]%IH.
  - left. split_and!; [by constructor|done..].
  - right. exists (p :: l1), q, l2. split_and!; [done|by constructor|apply Hq..].
Qed.

Lemma newGaleraPod_shape galera rev name role state addresses b k init creds pod :
  newGaleraPod galera rev name role state addresses b k init creds = Ok pod →
  pod_shape galera.(g_Spec) name galera.(g_Name) galera.(g_Namespace) role addresses rev state init
    creds (AsOwner galera) pod.
Proof.
  unfold newGaleraPod. intros E. destruct (decide (template_ok galera.(g_Spec) role)) as [Ht|Ht].
  - edestruct NewGaleraPod_ok as (p & Ep & Hs & _); [done|]. rewrite E in Ep. by simplify_eq.
  - by rewrite NewGaleraPod_panic in E.
Qed.

(** What is created: a pod of a revision and role, under the name found for it,
    whose state follows from the revision of the claim of that name *)
Definition new_pod (galera : Galera) (chosenRevision role addresses : string) (init : bool)
    (creds : gmap string string) (podSuffixes unused : list string) (env : Env) (pod : Pod) : Prop :=
  ∃ h1 h2 name found rev,
    fst (newPodName galera podSuffixes unused env h1) = Ok name ∧
    fst (GetClaimRevision galera.(g_Namespace) name env h2) = Ok (found, rev) ∧
    pod_shape galera.(g_Spec) name galera.(g_Name) galera.(g_Namespace) role addresses
      chosenRevision (if decide (role = Restore) then StateStandalone
                      else newState found rev chosenRevision) init creds (AsOwner galera) pod.

Definition countCreated (chosenRevision currentRevision : string) (st : GaleraStatus) : GaleraStatus :=
  (if decide (chosenRevision = currentRevision) then incCurrent else incNext) (incReplicas st).

(** At most one pod is created, a pod with a property, and nothing is deleted. *)
Definition creates_only (ns : string) (N : Pod → Prop) (t : history) : Prop :=
  Forall (λ e, is_delete e = false) t ∧ (count is_podCreate t ≤ 1)%nat ∧
  ∀ ns' pod err, EvPodCreate ns' pod err ∈ t → ns' = ns ∧ N pod.

Lemma CreatePodAndClaim_only (N : Pod → Prop) g pod role env h o t :
  N pod → CreatePodAndClaim g pod role env h = (o, t) → creates_only g.(g_Namespace) N t.
Proof.
  intros HN E. assert (Forall (ev_create g.(g_Namespace) pod) t) as Hall
    by (eapply emits_run; [apply CreatePodAndClaim_emits|exact E]).
  split_and!.
  - eapply Forall_impl; [exact Hall|]. by intros [].
  - pose proof (CreatePodAndClaim_once g pod role env h) as Ho. by rewrite E in Ho.
  - intros ns' pod' err Hin. rewrite Forall_forall in Hall. by apply Hall in Hin as [-> ->].
Qed.

(** Reads, and the draw of a suffix *)
Definition ev_name (e : event) : Prop := ev_read e ∨ e = EvRand.

Lemma newPodName_emits galera podSuffixes unused :
  emits ev_name (newPodName galera podSuffixes unused).
Proof. unfold newPodName. destruct unused; emits_sm. by right. Qed.

Lemma claimRevision_emits ns name : emits ev_name (GetClaimRevision ns name).
Proof. eapply emits_impl; [apply GetClaimRevision_emits|]. by left. Qed.

Lemma creates_only_app ns N t1 t2 :
  Forall ev_name t1 → creates_only ns N t2 → creates_only ns N (t1 ++ t2).
Proof.
  assert (Hn : ∀ e, ev_name e → is_delete e = false ∧ is_podCreate e = false)
    by (intros e [He| ->]; [by destruct e|done]).
  intros Ht (Hd & Hc & Hp). split_and!.
  - apply Forall_app. split; [|done]. eapply Forall_impl; [exact Ht|]. naive_solver.
  - rewrite count_app, count_none; [done|]. eapply Forall_impl; [exact Ht|]. naive_solver.
  - intros ns' pod' err [Hin|Hin]%elem_of_app; [|by eapply Hp].
    rewrite Forall_forall in Ht. by apply Ht, Hn in Hin as [_ ?].
Qed.

Lemma creates_only_none ns N t : Forall ev_name t → creates_only ns N t.
Proof.
  intros Ht. rewrite <- (app_nil_r t). apply creates_only_app; [done|]. split_and!; [constructor|cbn; lia|].
  by intros ??? ?%elem_of_nil.
Qed.

(** A creation creates the pod it built, and counts it when it succeeds. *)
Lemma createPod_inv galera chosenRevision currentRevision role addresses init creds podSuffixes
    unused st env h o st' t :
  createPod gc galera chosenRevision currentRevision role addresses init creds podSuffixes unused
    st env h = (o, st', t) →
  creates_only galera.(g_Namespace)
    (new_pod galera chosenRevision role addresses init creds podSuffixes unused env) t ∧
  (o = Ok tt → (∃ pod, EvPodCreate galera.(g_Namespace) pod None ∈ t) ∧
               st' = countCreated chosenRevision currentRevision st).
Proof.
  unfold createPod. set (N := new_pod _ _ _ _ _ _ _ _ _).
  intros [(name & st1 & t1 & t2 & [-> E1]%lift_inv & E & ->)|(Ho & o' & [-> E]%lift_inv & _)]%SM_bind_inv.
  2:{ split; [|by intros ->]. apply creates_only_none. eapply emits_run; [apply newPodName_emits|exact E]. }
  assert (Forall ev_name t1) as Ht1 by (eapply emits_run; [apply newPodName_emits|exact E1]).
  apply SM_bind_inv in E as [([found rev] & st2 & t3 & t4 & [-> E3]%lift_inv & E & ->)
                            |(Ho & o' & [-> E]%lift_inv & _)].
  2:{ split; [|by intros ->]. apply creates_only_none, Forall_app. split; [done|].
      eapply emits_run; [apply claimRevision_emits|exact E]. }
  assert (Forall ev_name t3) as Ht3 by (eapply emits_run; [apply claimRevision_emits|exact E3]).
  apply SM_bind_inv in E as [(pod & st3 & t5 & t6 & [-> E5]%lift_inv & E & ->)
                            |(Ho & o' & [-> E]%lift_inv & _)].
  2:{ split; [|by intros ->]. unfold pureM in E. simplify_eq. rewrite app_nil_r.
      apply creates_only_none, Forall_app. done. }
  unfold pureM in E5. simplify_eq. rewrite !app_nil_l.
  assert (N pod) as HN.
  { exists h, (h ++ t1), name, found, rev. rewrite E1, E3. split_and!; [done|done|].
    by eapply newGaleraPod_shape. }
  apply SM_bind_inv in E as [([] & st4 & t7 & t8 & [-> E7]%lift_inv & E & ->)
                            |(Ho & o' & [-> E]%lift_inv & _)].
  - assert (t8 = [] ∧ st' = countCreated chosenRevision currentRevision st) as [-> ->].
    { unfold modify, mbind, SM_bind in E. simplify_eq. unfold countCreated. by case_decide. }
    rewrite app_nil_r. split.
    + do 2 (apply creates_only_app; [done|]). by eapply CreatePodAndClaim_only.
    + intros _. split; [|done]. exists pod. apply CreatePodAndClaim_ok in E7. set_solver.
  - split; [|by intros ->]. do 2 (apply creates_only_app; [done|]). by eapply CreatePodAndClaim_only.
Qed.

(** Either no pod is created, or nothing is deleted. *)
Lemma checkUnready_creates galera unready chosenRevision currentRevision nextRevision role addresses
    creds podSuffixes unused st env h o st' t :
  checkUnreadyPodBeforeCreatingPod gc galera unready chosenRevision currentRevision nextRevision
    role addresses creds podSuffixes unused st env h = (o, st', t) →
  Forall (λ e, is_podCreate e = false) t ∨ ∃ init,
    creates_only galera.(g_Namespace)
      (new_pod galera chosenRevision role addresses init creds podSuffixes unused env) t.
Proof.
  unfold checkUnreadyPodBeforeCreatingPod.
  intros [(st0 & st1 & t1 & t2 & [= <- <- <-] & E & ->)|(_ & ? & [=] & ?)]%SM_bind_inv; [|by subst].
  assert (∀ p t, Forall (ev_deletePod galera.(g_Namespace) p) t →
            Forall (λ e, is_podCreate e = false) t) as Hd.
  { intros p t HF. eapply Forall_impl; [exact HF|]. by intros []. }
  apply SM_bind_inv in E as [(stop & st1 & t1 & t3 & E1 & E & ->)|(Ho & o' & E & Ho')].
  - apply examineUnready_inv in E1
      as [(_ & [= ->] & -> & ->)|(l1 & p & l2 & _ & _ & _ & Hne & Hdel & _)].
    + apply createPod_inv in E as [Hc _]. right. by eexists.
    + left. destruct stop; [|done]. injection E as _ _ <-. rewrite app_nil_r. by eapply Hd.
  - left. apply examineUnready_inv in E
      as [(_ & -> & _ & ->)|(l1 & p & l2 & _ & _ & _ & _ & Hdel & _)]; [done|by eapply Hd].
Qed.

(** C29: a pod is created only when every unready pod runs, is ready and is
    neither failed nor terminating; then nothing is deleted, at most one pod is
    created, of the chosen revision and role, on the name and state that the unused
    claims and the revision of its claim call for, and exactly the counters of
    the replicas move.  Otherwise no pod is created, and the first unready pod that
    stands in the way is deleted exactly when it has failed.  A pod bootstraps a new
    cluster exactly when there is no address to join and the cluster is not being
    restored. *)
Theorem checkUnreadyPodBeforeCreatingPod_spec (galera : Galera) (unready : list Pod)
    (chosenRevision currentRevision nextRevision role addresses : string)
    (creds : gmap string string) (podSuffixes unused : list string) (st : GaleraStatus)
    (env : Env) (h : history) :
  let '(o, st', t) := checkUnreadyPodBeforeCreatingPod gc galera unready chosenRevision
     currentRevision nextRevision role addresses creds podSuffixes unused st env h in
  let init := bool_decide (st.(st_Phase) ≠ GaleraPhaseRestoring ∧ addresses = "") in
  (Forall settled unready →
     creates_only galera.(g_Namespace)
       (new_pod galera chosenRevision role addresses init creds podSuffixes unused env) t ∧
     (o = Ok tt → (∃ pod, EvPodCreate galera.(g_Namespace) pod None ∈ t) ∧
                  st' = countCreated chosenRevision currentRevision st)) ∧
  (¬ Forall settled unready →
     ∃ l1 p l2, unready = l1 ++ p :: l2 ∧ Forall settled l1 ∧ ¬ settled p ∧
       Forall (ev_deletePod galera.(g_Namespace) p.(pod_Name)) t ∧
       (isFailed p = false → t = []) ∧
       (o = Ok tt → if isFailed p then EvPodDelete galera.(g_Namespace) p.(pod_Name) None ∈ t ∧
                                       st' = uncountPod p currentRevision nextRevision st
                    else st' = st)) ∧
  (∀ ns pod err c v, EvPodCreate ns pod err ∈ t → head pod.(pod_Spec).(ps_Containers) = Some c →
     (mkEnvVar "CLUSTER_INIT" v None ∈ c.(c_Env) ↔
      v = "true" ∧ addresses = "" ∧ st.(st_Phase) ≠ GaleraPhaseRestoring)).
Proof.
  destruct (checkUnreadyPodBeforeCreatingPod gc galera unready chosenRevision currentRevision
    nextRevision role addresses creds podSuffixes unused st env h) as [[o st'] t] eqn:E.
  cbv zeta. unfold checkUnreadyPodBeforeCreatingPod in E.
  apply SM_bind_inv in E as [(st0 & st1 & t1 & t2 & [= <- <- <-] & E & ->)|(_ & ? & [=] & ?)];
    [|by subst]. rewrite app_nil_r in E. cbn [app].
  apply SM_bind_inv in E as [(stop & st1 & t1 & t3 & E1 & E & ->)|(Ho & o' & E & Ho')].
  - apply examineUnready_inv in E1
      as [(Hs & [= ->] & -> & ->)|(l1 & p & l2 & -> & Hl & Hp & Hne & Hd & He & Hok)].
    + apply createPod_inv in E as [Hc Hok]. cbn [app]. split_and!; [by auto|done|].
      intros ns pod err c v Hin Hhd. apply Hc in Hin as [_ (? & ? & ? & ? & ? & _ & _ & Hsh)].
      destruct Hsh as (_ & _ & _ & _ & _ & Hsh). rewrite (Hsh c Hhd v), bool_decide_eq_true. tauto.
    + destruct stop; [|done]. unfold mret, SM_ret in E. simplify_eq. rewrite app_nil_r.
      split_and!; [by intros [_ [? _]%Forall_cons]%Forall_app| |].
      * intros _. exists l1, p, l2. split_and!; try done. intros _. by apply Hok.
      * intros ns pod err c v Hin. rewrite Forall_forall in Hd. by apply Hd in Hin.
  - apply examineUnready_inv in E
      as [(Hs & -> & _ & _)|(l1 & p & l2 & -> & Hl & Hp & Hne & Hd & He & Hok)]; [done|].
    split_and!; [by intros [_ [? _]%Forall_cons]%Forall_app| |].
    + intros _. exists l1, p, l2. split_and!; try done. by intros ->.
    + intros ns pod err c v Hin. rewrite Forall_forall in Hd. by apply Hd in Hin.
Qed.
End creation.

(** ** Termination of pods *)

Definition deletes_one_of (names : list string) (e : event) : Prop :=
  match e with EvPodDelete _ name _ => name ∈ names | _ => False end.

Definition after_sync (e : event) (t : history) : Prop :=
  match e with EvPodDelete ns name _ => synced_exec ns name t | _ => True end.

(** None of the pods is deleted before its node has said that it is synced. *)
Definition guarded (names : list string) (t : history) : Prop :=
  preceded (deletes_one_of names) after_sync t.

Lemma guarded_none names t : Forall (λ e, ¬ deletes_one_of names e) t → guarded names t.
Proof. apply preceded_none. Qed.

Lemma guarded_app names t1 t2 : guarded names t1 → guarded names t2 → guarded names (t1 ++ t2).
Proof.
  intros Ha Hb. apply preceded_app; [done|]. eapply preceded_impl; [exact Hb|auto|].
  intros [] t' _; cbn; try done. unfold synced_exec. set_solver.
Qed.

Lemma guarded_synced names ns name t :
  deletes_synced ns name t → Forall (ev_deletePodAndClaims ns name) t → guarded names t.
Proof.
  intros Hs HF t1 e t2 E He. rewrite E in HF. apply Forall_app in HF as [_ [Hev _]%Forall_cons].
  destruct e; try done. destruct Hev as [-> ->]. by eapply Hs.
Qed.

Lemma no_podDelete_guarded names t : Forall (λ e, ¬ is_podDelete e) t → guarded names t.
Proof. intros HF. apply guarded_none. eapply Forall_impl; [exact HF|]. by intros []. Qed.

Section termination.
Context `{GaleraPodControlLaws} `{PodUtil}.

Lemma surplusPod_spec ready pod :
  surplusPod ready = Some pod →
  pod ∈ ready ∧ pod_label pod GaleraRoleLabel = None ∧ pod_label pod GaleraBackupLabel = None.
Proof.
  intros Hh%head_Some_elem_of. apply list_elem_of_filter in Hh as [[H1' H2'] Hin].
  unfold has_label in *. rewrite bool_decide_eq_false in H1', H2'.
  split_and!; [done|by apply dec_stable..].
Qed.

Lemma forceDeletePods_emits galera pods :
  emits (λ e, ev_record e ∨ deletes_one_of (pod_Name <$> pods) e) (forceDeletePods galera pods).
Proof.
  induction pods as [|p l IH]; cbn [forceDeletePods]; [by apply emits_ret|].
  apply emits_bind; intros.
  - eapply emits_impl; [apply ForceDeletePod_emits|]. intros []; cbn; try tauto.
    intros [-> ->]. right. apply list_elem_of_here.
  - eapply emits_impl; [apply IH|]. intros []; cbn; rewrite ?elem_of_cons; tauto.
Qed.

Lemma forceDeletePods_ok galera pods env h t :
  forceDeletePods galera pods env h = (Ok tt, t) →
  Forall (λ p, EvPodDelete galera.(g_Namespace) p.(pod_Name) None ∈ t) pods.
Proof.
  revert h t. induction pods as [|p l IH]; intros h t; cbn [forceDeletePods]; [constructor|].
  intros ([] & t1 & t2 & E1%ForceDeletePod_ok & E2%IH & ->)%bind_ok_inv. constructor; [set_solver|].
  eapply Forall_impl; [exact E2|]. set_solver.
Qed.

(** The ready pod that a scale down deletes, if any *)
Definition scaledDown (ready : list Pod) (replicas : Z) : option Pod :=
  if decide (replicas < len32 ready) then surplusPod ready else None.

Lemma scaleDown_inv galera ready replicas cur next creds st env h o st' t :
  scaleDown galera ready replicas cur next creds st env h = (o, st', t) →
  match scaledDown ready replicas with
  | None => o = Ok tt ∧ st' = st ∧ t = []
  | Some pod =>
      DeleteSyncedPod galera pod (user creds) (password creds) env h = (o, t) ∧
      st' = if decide (o = Ok tt) then uncountPod pod cur next st else st
  end.
Proof.
  unfold scaleDown, scaledDown. case_decide; [|by intros [= <- <- <-]].
  destruct (surplusPod ready) as [pod|]; [|by intros [= <- <- <-]].
  unfold lift, modify, mbind, SM_bind.
  destruct (DeleteSyncedPod galera pod (user creds) (password creds) env h) as [[[]|e| |] t1];
    intros [= <- <- <-]; rewrite ?app_nil_r; split; try done; by case_decide.
Qed.

Lemma scaleDown_guarded names galera ready replicas cur next creds st env h :
  guarded names (snd (scaleDown galera ready replicas cur next creds st env h)).
Proof.
  destruct (scaleDown galera ready replicas cur next creds st env h) as [[o st'] t] eqn:E.
  apply scaleDown_inv in E. destruct (scaledDown ready replicas) as [pod|].
  - destruct E as [E _]. eapply guarded_synced.
    + pose proof (DeleteSyncedPod_synced galera pod (user creds) (password creds) env h) as Hs.
      by rewrite E in Hs.
    + eapply emits_run; [apply DeleteSyncedPod_emits|exact E].
  - destruct E as (_ & _ & ->). by apply guarded_none.
Qed.

(** The special node is awaited: unready pods and claims may be its own. *)
Definition awaitsSpecial (galera : Galera) (st : GaleraStatus) : Prop :=
  galera.(g_Spec).(spec_Special) ≠ None ∧ st.(st_Members).(mem_Special) = "".

#[global] Instance awaitsSpecial_dec galera st : Decision (awaitsSpecial galera st).
Proof. unfold awaitsSpecial. apply _. Defined.

(** What a scale down may do: delete a plain reader that has said it is synced *)
Definition scale_trace (galera : Galera) (ready : list Pod) (replicas : Z) (t : history) : Prop :=
  match scaledDown ready replicas with
  | None => t = []
  | Some pod =>
      pod ∈ ready ∧ pod_label pod GaleraRoleLabel = None ∧
      pod_label pod GaleraBackupLabel = None ∧
      Forall (ev_deletePodAndClaims galera.(g_Namespace) pod.(pod_Name)) t ∧
      deletes_synced galera.(g_Namespace) pod.(pod_Name) t
  end.

Definition scaledStatus (ready : list Pod) (replicas : Z) (cur next : string) (st : GaleraStatus)
    : GaleraStatus :=
  match scaledDown ready replicas with None => st | Some pod => uncountPod pod cur next st end.

Lemma scaleDown_trace galera ready replicas cur next creds st env h o st' t :
  scaleDown galera ready replicas cur next creds st env h = (o, st', t) →
  scale_trace galera ready replicas t ∧ (o = Ok tt → st' = scaledStatus ready replicas cur next st).
Proof.
  intros E%scaleDown_inv. unfold scale_trace, scaledStatus.
  destruct (scaledDown ready replicas) as [pod|] eqn:Hs; [|naive_solver].
  destruct E as [E ->]. split; [|by intros ->]. unfold scaledDown in Hs. case_decide; [|done].
  apply surplusPod_spec in Hs as (? & ? & ?). split_and!; try done.
  - eapply emits_run; [apply DeleteSyncedPod_emits|exact E].
  - pose proof (DeleteSyncedPod_synced galera pod (user creds) (password creds) env h) as Hd.
    by rewrite E in Hd.
Qed.

(** C33: once all the replicas are ready, a round first deletes a claim that
    neither a pod nor a new pod uses, and then does nothing else; without such a
    claim it deletes every unready pod, and when more pods are ready than asked for,
    one ready pod at most: a plain reader without role or backup, and only after
    its node has said that it is synced.  Nothing but the surplus is deleted as
    long as the special node is awaited. *)
Theorem considerPodAndClaimTermination_spec (galera : Galera) (ready unready : list Pod)
    (claims : list PersistentVolumeClaim) (unused : list string) (replicas : Z)
    (cur next : string) (creds : gmap string string) (st : GaleraStatus) (env : Env) (h : history) :
  let '(o, st', t) := considerPodAndClaimTermination galera ready unready claims unused replicas
                        cur next creds st env h in
  if decide (awaitsSpecial galera st) then
    scale_trace galera ready replicas t ∧ (o = Ok tt → st' = scaledStatus ready replicas cur next st)
  else
    match orphanClaim unused claims with
    | Some claim =>
        claim ∈ claims ∧ getClaimSuffix claim.(claim_Name) ∈ unused ∧ st' = st ∧
        (o, t) = DeleteClaim galera claim env h
    | None =>
        ∃ t1 t2, t = t1 ++ t2 ∧
          Forall (λ e, ev_record e ∨ deletes_one_of (pod_Name <$> unready) e) t1 ∧
          (t2 = [] ∨ scale_trace galera ready replicas t2) ∧
          (o = Ok tt →
             Forall (λ p, EvPodDelete galera.(g_Namespace) p.(pod_Name) None ∈ t1) unready ∧
             scale_trace galera ready replicas t2 ∧
             st' = scaledStatus ready replicas cur next st)
    end.
Proof.
  destruct (considerPodAndClaimTermination galera ready unready claims unused replicas
              cur next creds st env h) as [[o st'] t] eqn:E.
  unfold considerPodAndClaimTermination in E.
  apply SM_bind_inv in E as [(st0 & st1 & t1 & t2 & [= <- <- <-] & E & ->)|(_ & ? & [=] & ?)];
    [|by subst]. rewrite app_nil_r in E. cbn [app].
  change (galera.(g_Spec).(spec_Special) ≠ None ∧ st.(st_Members).(mem_Special) = "")
    with (awaitsSpecial galera st) in E.
  change (and_dec _ _) with (awaitsSpecial_dec galera st) in E.
  case_decide; [by eapply scaleDown_trace|].
  destruct (orphanClaim unused claims) as [claim|] eqn:Ho.
  - unfold orphanClaim in Ho. apply head_Some_elem_of, list_elem_of_filter in Ho as [Hs Hin].
    apply lift_inv in E as [-> E]. by split_and!.
  - apply SM_bind_inv in E as [([] & st1 & t1 & t3 & [-> E1]%lift_inv & E & ->)|(Hok & o' & [-> E]%lift_inv & _)].
    + apply scaleDown_trace in E as [Ht Hst]. exists t1, t3. split_and!; [done| |by right|].
      * eapply emits_run; [apply forceDeletePods_emits|exact E1].
      * intros Hok. split_and!; [by eapply forceDeletePods_ok|done|by apply Hst].
    + exists t2, []. rewrite app_nil_r. split_and!; [done| |by left|by intros ->].
      eapply emits_run; [apply forceDeletePods_emits|exact E].
Qed.
End termination.

(** ** Guarded computations *)

Definition guardedS {A} (names : list string) (m : SM A) : Prop :=
  ∀ st env h, guarded names (snd (m st env h)).

Section guarded.
Context `{GaleraPodControlLaws} `{PodUtil} (names : list string).

Lemma guardedS_bind {A B} (m : SM A) (f : A → SM B) :
  guardedS names m → (∀ a, guardedS names (f a)) → guardedS names (m ≫= f).
Proof.
  intros Hm Hf st env h. destruct ((m ≫= f) st env h) as [[o st'] t] eqn:E. cbn.
  apply SM_bind_inv in E as [(a & st1 & t1 & t2 & E1 & E2 & ->)|(_ & o' & E & _)].
  - apply guarded_app; [specialize (Hm st env h); by rewrite E1 in Hm|].
    specialize (Hf a st1 env (h ++ t1)). by rewrite E2 in Hf.
  - specialize (Hm st env h). by rewrite E in Hm.
Qed.

Lemma guardedS_emits {A} (m : SM A) :
  emitsS (λ e, ¬ deletes_one_of names e) m → guardedS names m.
Proof. intros Hm st env h. apply guarded_none, Hm. Qed.

Lemma guardedS_if {A} (P : Prop) `{Decision P} (m1 m2 : SM A) :
  guardedS names m1 → guardedS names m2 → guardedS names (if decide P then m1 else m2).
Proof. by case_decide. Qed.

Lemma guardedS_synced galera pod (m : M unit) :
  emits (ev_deletePodAndClaims galera.(g_Namespace) pod.(pod_Name)) m →
  (∀ env h, deletes_synced galera.(g_Namespace) pod.(pod_Name) (snd (m env h))) →
  guardedS names (lift m).
Proof.
  intros He Hs st env h. unfold lift. specialize (He env h). specialize (Hs env h).
  destruct (m env h) as [o t]. by eapply guarded_synced.
Qed.

Lemma considerPodAndClaimTermination_guarded galera ready unready claims unused replicas cur next
    creds :
  (∀ p, p ∈ unready → p.(pod_Name) ∉ names) →
  guardedS names (considerPodAndClaimTermination galera ready unready claims unused replicas cur
                    next creds).
Proof.
  intros Hd. unfold considerPodAndClaimTermination.
  apply guardedS_bind; [by apply guardedS_emits, emitsS_getStatus|intros st].
  apply guardedS_if; [intros ?; apply scaleDown_guarded|].
  destruct (orphanClaim unused claims) as [claim|].
  - apply guardedS_emits. emits_sm.
  - apply guardedS_bind; [|intros _ ?; apply scaleDown_guarded].
    apply guardedS_emits, emitsS_lift. eapply emits_impl; [apply forceDeletePods_emits|].
    intros []; cbn; try tauto. intros [[]|Hin] Hn.
    apply list_elem_of_fmap in Hin as (p & -> & Hp). by eapply Hd.
Qed.

(** ** Rolling upgrade *)

Definition upgraded (next : string) (pod : Pod) : Prop :=
  isHealthy pod = true ∧ getPodRevision pod = next.

(** The first pod that is not upgraded stops the round. *)
Lemma upgradeFirst_inv galera pods next creds sc st env h o st' t :
  upgradeFirst galera pods next creds sc st env h = (o, st', t) →
  (Forall (upgraded next) pods ∧ o = Ok false ∧ st' = st ∧ t = []) ∨
  ∃ l1 p l2, pods = l1 ++ p :: l2 ∧ Forall (upgraded next) l1 ∧ ¬ upgraded next p ∧ o ≠ Ok false ∧
    if isHealthy p
    then t = snd (DeleteSyncedPodForUpgrade galera p (user creds) (password creds) sc env h) ∧
         (o = Ok true ↔
            fst (DeleteSyncedPodForUpgrade galera p (user creds) (password creds) sc env h) = Ok tt) ∧
         (o = Ok true → st' = decCurrent st)
    else o = Ok true ∧ st' = st ∧ t = [].
Proof.
  revert st h o st' t. induction pods as [|p l IH]; intros st h o st' t; cbn [upgradeFirst].
  { intros [= <- <- <-]. left. eauto. }
  destruct (isHealthy p) eqn:Hh; cbn [negb].
  2:{ intros [= <- <- <-]. right. exists [], p, l. rewrite Hh. unfold upgraded at 2. rewrite Hh.
      split_and!; try done. by intros [? _]. }
  assert (isTerminating p = false) as Ht.
  { unfold isHealthy in Hh. apply andb_true_iff in Hh as [_ Hh]. by apply negb_true_iff in Hh. }
  case_decide as Hrev.
  - destruct Hrev as [Hrev _]. intros E. right. exists [], p, l. rewrite Hh.
    destruct (DeleteSyncedPodForUpgrade galera p (user creds) (password creds) sc env h)
      as [[[]|e| |] t1] eqn:Ed;
      unfold errOf, attempt, retErr, lift, modify, mbind, SM_bind, M_bind, mret, SM_ret, M_ret, errM in E;
      rewrite Ed in E; cbn in E; rewrite ?app_nil_r in E; simplify_eq; cbn;
      unfold upgraded at 2; split_and!; try done; by intros [_ ?].
  - assert (getPodRevision p = next) as Hp by (apply dec_stable; tauto).
    intros [(? & -> & -> & ->)|(l1 & q & l2 & -> & Hl & Hq)]%IH.
    + left. split_and!; [by constructor|done..].
    + right. exists (p :: l1), q, l2. split_and!; [done|by constructor|apply Hq..].
Qed.

(** C10: an upgrade replaces the ready pods one at a time and in order: a round
    deletes at most one of them, the first that is not of the next revision, only
    if all those before it are healthy and of the next revision, if it is healthy
    itself and after its node has said that it is synced; an unhealthy pod stops the
    round.  The round goes on exactly when there is no upgrade or when all the pods
    are healthy and upgraded, and nothing was done then. *)
Theorem deletePodForUpgrade_spec (galera : Galera) (pods : list Pod) (cur next : string)
    (creds : gmap string string) (sc : string) (st : GaleraStatus) (env : Env) (h : history) :
  let '(o, st', t) := deletePodForUpgrade galera pods cur next creds sc st env h in
  (o = Ok false ↔ cur = next ∨ Forall (upgraded next) pods) ∧
  (o = Ok false → t = [] ∧ st' = st) ∧
  (t ≠ [] → cur ≠ next ∧
     ∃ l1 p l2, pods = l1 ++ p :: l2 ∧ Forall (upgraded next) l1 ∧
       isHealthy p = true ∧ getPodRevision p ≠ next ∧
       Forall (ev_deletePodAndClaims galera.(g_Namespace) p.(pod_Name)) t ∧
       deletes_synced galera.(g_Namespace) p.(pod_Name) t ∧
       (o = Ok true → st' = decCurrent st)).
Proof.
  destruct (deletePodForUpgrade galera pods cur next creds sc st env h) as [[o st'] t] eqn:E.
  unfold deletePodForUpgrade in E. case_decide as Hcn; [injection E as <- <- <-; split_and!; [by split; auto|done|done]|].
  apply upgradeFirst_inv in E as [(HF & -> & -> & ->)|(l1 & p & l2 & -> & Hl & Hp & Hne & Hc)].
  { split_and!; [by split; auto|done|done]. }
  assert (¬ Forall (upgraded next) (l1 ++ p :: l2)) as Hnf
    by (by intros [_ [? _]%Forall_cons]%Forall_app).
  split_and!; [by split; [|intros [|]]|done|]. intros Ht. split; [done|]. exists l1, p, l2.
  destruct (isHealthy p) eqn:Hh; [|by destruct Hc as (_ & _ & ->)].
  destruct Hc as (-> & Ho & Hst). split_and!; try done.
  - intros Hr. by destruct Hp.
  - apply DeleteSyncedPodForUpgrade_emits.
  - apply DeleteSyncedPodForUpgrade_synced.
Qed.
End guarded.

(** ** Examples *)

#[local] Existing Instances RetryLib_steps RetryLaws_steps NewRealGaleraPodControl
  realGaleraPodControl_laws examplePodUtil.

(** A member of the first revision, and a claim as an older revision left it *)
Definition pod_a : Pod := example_pod "a" Reader "10.0.0.1".

Definition old_claim (name : string) : PersistentVolumeClaim :=
  mkClaim name "ns" "" "" (Some (<[GaleraRevisionLabel := "r0"]> ∅)) [] false example_pvc.

Definition old_claims : Env := env_with_claims (λ _ _ name, inl (old_claim name)) env_ok.

Lemma checkMysqlUpgrade_spec_witness :
  @GaleraPodControlLaws NewRealGaleraPodControl ∧
  EvPodDelete "ns" "gal-a" None ∈ snd (checkMysqlUpgrade example_galera [pod_a] ∅ old_claims []).
Proof.
  split; [exact realGaleraPodControl_laws|].
  pose proof (checkMysqlUpgrade_spec example_galera [pod_a] ∅ old_claims []) as H.
  assert (fst (checkMysqlUpgrade example_galera [pod_a] ∅ old_claims []) = Ok true) as Ho
    by (vm_compute; reflexivity).
  destruct (checkMysqlUpgrade example_galera [pod_a] ∅ old_claims []) as [o t]. cbn [fst snd] in *. subst o.
  destruct H as [(Ho & _)|[(Ho & _)|(p & t0 & t1 & -> & Hp & _ & _ & _ & _ & Hd)]]; [done..|].
  destruct Hp as (l1 & l2 & ? & ? & ? & ? & E & _). destruct l1 as [|? [|? ?]]; [|discriminate..]. injection E as <-.
  exact (proj2 (Hd eq_refl)).
Defined.

Lemma checkUnreadyPodBeforeCreatingPod_spec_witness :
  let run := checkUnreadyPodBeforeCreatingPod (mkControl "b" "k") example_galera [] "r1" "r1" "r2"
               Reader "10.0.0.1" ∅ [] [] emptyStatus env_ok [] in
  @GaleraPodControlLaws NewRealGaleraPodControl ∧
  (∃ pod, EvPodCreate "ns" pod None ∈ snd run) ∧
  snd (fst run) = countCreated "r1" "r1" emptyStatus.
Proof.
  cbv zeta. split; [exact realGaleraPodControl_laws|].
  pose proof (checkUnreadyPodBeforeCreatingPod_spec (mkControl "b" "k") example_galera [] "r1" "r1"
    "r2" Reader "10.0.0.1" ∅ [] [] emptyStatus env_ok []) as H.
  assert (fst (fst (checkUnreadyPodBeforeCreatingPod (mkControl "b" "k") example_galera [] "r1" "r1"
    "r2" Reader "10.0.0.1" ∅ [] [] emptyStatus env_ok [])) = Ok tt) as Ho by (vm_compute; reflexivity).
  destruct (checkUnreadyPodBeforeCreatingPod (mkControl "b" "k") example_galera [] "r1" "r1"
    "r2" Reader "10.0.0.1" ∅ [] [] emptyStatus env_ok []) as [[o st'] t].
  exact (proj2 (proj1 H (Forall_nil_2 _)) Ho).
Defined.

Lemma considerPodAndClaimTermination_spec_witness :
  let run := considerPodAndClaimTermination example_galera [pod_a] [pod_a] [] [] 3 "r1" "r1" ∅
               emptyStatus env_ok [] in
  @GaleraPodControlLaws NewRealGaleraPodControl ∧ snd run = [].
Proof.
  cbv zeta. split; [exact realGaleraPodControl_laws|].
  pose proof (considerPodAndClaimTermination_spec example_galera [pod_a] [pod_a] [] [] 3 "r1" "r1" ∅
    emptyStatus env_ok []) as H.
  destruct (considerPodAndClaimTermination example_galera [pod_a] [pod_a] [] [] 3 "r1" "r1" ∅
    emptyStatus env_ok []) as [[o st'] t].
  exact (proj1 H).
Defined.

Lemma deletePodForUpgrade_spec_witness :
  let run := deletePodForUpgrade example_galera [pod_a] "r1" "r2" ∅ "" emptyStatus old_claims [] in
  @GaleraPodControlLaws NewRealGaleraPodControl ∧ snd run ≠ [] ∧
  ∃ l1 p l2, [pod_a] = l1 ++ p :: l2 ∧ deletes_synced "ns" p.(pod_Name) (snd run).
Proof.
  cbv zeta. split; [exact realGaleraPodControl_laws|].
  pose proof (deletePodForUpgrade_spec example_galera [pod_a] "r1" "r2" ∅ "" emptyStatus old_claims [])
    as H.
  assert (snd (deletePodForUpgrade example_galera [pod_a] "r1" "r2" ∅ "" emptyStatus old_claims [])
            ≠ []) as Hne by (vm_compute; discriminate).
  split; [exact Hne|].
  destruct (deletePodForUpgrade example_galera [pod_a] "r1" "r2" ∅ "" emptyStatus old_claims [])
    as [[o st'] t].
  destruct (proj2 (proj2 (proj2 H) Hne)) as (l1 & p & l2 & Hl & _ & _ & _ & _ & Hs & _).
  exists l1, p, l2. exact (conj Hl Hs).
Defined.
