(* ===== verification/Sync.v ===== *)
(** * A round of reconciliation

    Models [runGalera], [scheduleGaleraRestore], [syncGalera],
    [createOrUpdateServices], [updateGaleraStatus] and [SyncGalera] of
    [galera_control.go].  [runGalera] is split where its text is: the pods without
    claims, the classification of the pods, and what is done with them. *)
From S2P Require Import Prelude Types Objects Names PodLib Kube Utils PodControl Controls Upgrade.
From S2P Require Import Revisions Control.

(** The lists and variables of [runGalera] *)
Record members := mkMembership {
  m_ready : list Pod;
  m_unready : list Pod;
  m_special : option Pod;
  m_podSuffixes : list string;
  m_bkpSuffixes : list string;
  m_terminating : bool }.

Definition noMembers : members := mkMembership [] [] None [] [] false.

Definition add_ready (pod : Pod) (m : members) : members :=
  mkMembership (m.(m_ready) ++ [pod]) m.(m_unready) m.(m_special) m.(m_podSuffixes)
    m.(m_bkpSuffixes) m.(m_terminating).
Definition add_unready (pod : Pod) (m : members) : members :=
  mkMembership m.(m_ready) (m.(m_unready) ++ [pod]) m.(m_special) m.(m_podSuffixes)
    m.(m_bkpSuffixes) m.(m_terminating).
Definition set_special (pod : Pod) (m : members) : members :=
  mkMembership m.(m_ready) m.(m_unready) (Some pod) m.(m_podSuffixes) m.(m_bkpSuffixes)
    m.(m_terminating).
Definition add_podSuffix (s : string) (m : members) : members :=
  mkMembership m.(m_ready) m.(m_unready) m.(m_special) (m.(m_podSuffixes) ++ [s])
    m.(m_bkpSuffixes) m.(m_terminating).
Definition add_bkpSuffix (s : string) (m : members) : members :=
  mkMembership m.(m_ready) m.(m_unready) m.(m_special) m.(m_podSuffixes)
    (m.(m_bkpSuffixes) ++ [s]) m.(m_terminating).
Definition set_terminating (m : members) : members :=
  mkMembership m.(m_ready) m.(m_unready) m.(m_special) m.(m_podSuffixes) m.(m_bkpSuffixes) true.

Section sync.
Context `{GaleraPodControl} `{PodUtil} `{RetryLib} `{RevisionLib} `{Regexp}.
Context (gc : defaultGaleraControl) (gucc : realGaleraUpgradeConfigControl).

(** ** Pods without claims *)

(** A backup pod needs a data and a backup claim, another one any claim. *)
Definition hasClaims (pod : Pod) (claims : list PersistentVolumeClaim) : bool :=
  let podSuffix := getPodSuffix pod.(pod_Name) in
  if pod_has pod GaleraBackupLabel "true" then
    existsb (λ c, bool_decide (getClaimSuffixAndBackup c.(claim_Name) = (podSuffix, true))) claims
    && existsb (λ c, bool_decide (getClaimSuffixAndBackup c.(claim_Name) = (podSuffix, false))) claims
  else existsb (λ c, bool_decide (podSuffix = getClaimSuffix c.(claim_Name))) claims.

Definition podWithoutClaims (pods : list Pod) (claims : list PersistentVolumeClaim) : option Pod :=
  head (filter (λ pod, isHealthy pod = true ∧ hasClaims pod claims = false) pods).

(** ** Classification *)

(** A pod that is not ready or not primary: [specialPod] or one of the unready
    pods *)
Definition classifyUnready (pod : Pod) (m : members) : members :=
  let m := if pod_has pod GaleraRoleLabel RoleSpecial then set_special pod m
           else add_unready pod m in
  if pod_has pod GaleraBackupLabel "true" then add_bkpSuffix (getPodSuffix pod.(pod_Name)) m else m.

(** The role of a primary pod: [None] when the round stops, otherwise whether the
    pod is a member *)
Definition primaryRole (galera : Galera) (pod : Pod) (m : members) : SM (option (bool * members)) :=
  st ← getStatus;
  match pod_label pod GaleraRoleLabel with
  | None => mret (Some (false, m))
  | Some role =>
      if decide (role = RoleWriter) then
        (if decide (st.(st_Members).(mem_Writer) = "") then modify (with_Writer pod.(pod_Name))
         else patch galera pod [RemoveRole; AddReader]);;
        mret (Some (true, m))
      else if decide (role = RoleBackupWriter) then
        (if decide (st.(st_Members).(mem_BackupWriter) = "")
         then modify (with_BackupWriter pod.(pod_Name))
         else patch galera pod [RemoveRole; AddReader]);;
        mret (Some (true, m))
      else if decide (role = RoleSpecial) then
        modify decReplicas;;
        if decide (st.(st_Members).(mem_Special) = "") then
          modify (with_Special pod.(pod_Name));;
          mret (Some (false, set_special pod m))
        else lift (ForceDeletePodAndClaim galera pod);; mret None
      else lift (ForceDeletePodAndClaim galera pod);; mret None
  end.

Definition primaryBackup (galera : Galera) (pod : Pod) (added : bool) (m : members)
    : SM (option (bool * members)) :=
  if pod_has pod GaleraBackupLabel "true" then
    st ← getStatus;
    if decide (st.(st_Members).(mem_Backup) = "") then
      modify (with_Backup pod.(pod_Name));;
      mret (Some (true, add_bkpSuffix (getPodSuffix pod.(pod_Name)) m))
    else lift (ForceDeletePodAndClaim galera pod);; mret None
  else mret (Some (added, m)).

Definition classifyPrimary (galera : Galera) (pod : Pod) (m : members) : SM (option members) :=
  r ← primaryRole galera pod m;
  match r with
  | None => mret None
  | Some (added, m) =>
      r ← primaryBackup galera pod added m;
      match r with
      | None => mret None
      | Some (added, m) =>
          mret (Some (if added || pod_has pod GaleraReaderLabel "true" then add_ready pod m else m))
      end
  end.

(** Counting the pod among those of the current and next revisions *)
Definition countPod (pod : Pod) (currentRevision nextRevision : string) (m : members)
    (st : GaleraStatus) : GaleraStatus :=
  if isCreated pod && negb (isTerminating pod) && bool_decide (m.(m_special) ≠ Some pod) then
    let st := if decide (getPodRevision pod = currentRevision) then incCurrent st else st in
    if decide (getPodRevision pod = nextRevision) then incNext st else st
  else st.

Definition classifyPod (galera : Galera) (currentRevision nextRevision : string)
    (creds : gmap string string) (pod : Pod) (m : members) : SM (option members) :=
  modify incReplicas;;
  if isTerminating pod then mret (Some (set_terminating m))
  else
    r ← (if isRunningAndReady pod then
           primary ← lift (IsPrimary galera pod (user creds) (password creds));
           if (primary : bool) then classifyPrimary galera pod m
           else mret (Some (classifyUnready pod m))
         else mret (Some (classifyUnready pod m)));
    match r with
    | None => mret None
    | Some m =>
        modify (countPod pod currentRevision nextRevision m);;
        mret (Some (add_podSuffix (getPodSuffix pod.(pod_Name)) m))
    end.

Fixpoint classify (galera : Galera) (currentRevision nextRevision : string)
    (creds : gmap string string) (pods : list Pod) (m : members) : SM (option members) :=
  match pods with
  | [] => mret (Some m)
  | pod :: pods' =>
      r ← classifyPod galera currentRevision nextRevision creds pod m;
      match r with
      | None => mret None
      | Some m => classify galera currentRevision nextRevision creds pods' m
      end
  end.

(** ** Acting on the members *)

Definition image (galera : Galera) : outcome string :=
  pod ← deref galera.(g_Spec).(spec_Pod); mret pod.(pt_Image).

(** When too few pods are ready: no update during a restoration *)
Definition growCluster (nextGalera : Galera) (currentRevision nextRevision addresses : string)
    (creds : gmap string string) (m : members) (unused : list string) : SM unit :=
  st ← getStatus;
  let chosenRevision :=
    if decide (st.(st_Phase) = GaleraPhaseRestoring) then currentRevision else nextRevision in
  checkUnreadyPodBeforeCreatingPod gc nextGalera m.(m_unready) chosenRevision currentRevision
    nextRevision (choseRole st) addresses creds m.(m_podSuffixes) unused.

(** The special node, once nothing else has to be done *)
Definition specialStep (nextGalera : Galera) (nextRevision addresses : string)
    (creds : gmap string string) (m : members) (unused : list string) (defaultSCName : string)
    : M unit :=
  match nextGalera.(g_Spec).(spec_Special) with
  | Some _ =>
      manageSpecialNode gc nextGalera nextRevision m.(m_special) addresses m.(m_podSuffixes) unused
        creds defaultSCName
  | None =>
      match m.(m_special) with
      | None => mret tt
      | Some specialPod =>
          if isTerminating specialPod then mret tt
          else ForceDeletePodAndClaim nextGalera specialPod
      end
  end.

(** When all the replicas are ready *)
Definition settleCluster (nextGalera : Galera) (currentRevision nextRevision addresses : string)
    (claims : list PersistentVolumeClaim) (creds : gmap string string) (m : members)
    (unused : list string) (defaultSCName : string) : SM unit :=
  n ← lift (pureM (replicas nextGalera));
  considerPodAndClaimTermination nextGalera m.(m_ready) m.(m_unready) claims unused n
    currentRevision nextRevision creds;;
  action ← deletePodForUpgrade nextGalera m.(m_ready) currentRevision nextRevision creds
             defaultSCName;
  if (action : bool) then mret tt
  else lift (specialStep nextGalera nextRevision addresses creds m unused defaultSCName).

Definition actOnMembers (currentGalera nextGalera : Galera) (currentRevision nextRevision : string)
    (claims : list PersistentVolumeClaim) (creds : gmap string string) (m : members) : SM unit :=
  let '(ready, unready) := getMembersName m.(m_ready) m.(m_unready) in
  modify (with_Ready_Unready ready unready);;
  setLabels currentGalera m.(m_ready);;
  if m.(m_terminating) then mret tt
  else
    currentImage ← lift (pureM (image currentGalera));
    nextImage ← lift (pureM (image nextGalera));
    let newImage := bool_decide (currentImage ≠ nextImage) in
    setStatusPhaseAndConditions nextGalera (len32 m.(m_ready)) (len32 m.(m_unready)) newImage;;
    defaultSCName ← lift GetNameDefaultStorageClass;
    '(unused, op) ← lift (deleteNoMatchingClaimsAndListUnusedClaims nextGalera m.(m_podSuffixes)
                            m.(m_bkpSuffixes) claims defaultSCName);
    if (op : bool) then mret tt
    else
      order ← lift mapOrder;
      let addresses := getBootstrapAddresses order m.(m_ready) in
      op ← lift (checkMysqlUpgrade nextGalera m.(m_unready) creds);
      if (op : bool) then mret tt
      else
        n ← lift (pureM (replicas currentGalera));
        if decide (len32 m.(m_ready) < n)
        then growCluster nextGalera currentRevision nextRevision addresses creds m unused
        else settleCluster nextGalera currentRevision nextRevision addresses claims creds m unused
               defaultSCName.

Definition runGalera (currentGalera nextGalera : Galera) (currentRevision nextRevision : string)
    (pods : list Pod) (claims : list PersistentVolumeClaim) (creds : gmap string string) : SM unit :=
  match podWithoutClaims pods claims with
  | Some pod => lift (ForceDeletePod currentGalera pod)
  | None =>
      r ← classify currentGalera currentRevision nextRevision creds pods noMembers;
      match r with
      | None => mret tt
      | Some m => actOnMembers currentGalera nextGalera currentRevision nextRevision claims creds m
      end
  end.

(** ** Restoration *)

(** The pods of a restoration: [None] when a pod was deleted *)
Fixpoint classifyRestore (galera : Galera) (revision : string) (pods : list Pod) (m : members)
    : SM (option members) :=
  match pods with
  | [] => mret (Some m)
  | pod :: pods' =>
      modify incReplicas;;
      if decide (pod_has pod GaleraRoleLabel Restore = true ∧ getPodRevision pod = revision) then
        modify incCurrent;;
        classifyRestore galera revision pods'
          (add_podSuffix (getPodSuffix pod.(pod_Name))
             (if isRunningAndReady pod then add_ready pod m else add_unready pod m))
      else lift (ForceDeletePodAndClaim galera pod);; mret None
  end.

Definition scheduleGaleraRestore (galera : Galera) (revision : string) (pods : list Pod)
    (claims : list PersistentVolumeClaim) (creds : gmap string string) : SM unit :=
  r ← classifyRestore galera revision pods noMembers;
  match r with
  | None => mret tt
  | Some m =>
      let '(ready, unready) := getMembersName m.(m_ready) m.(m_unready) in
      modify (with_Ready_Unready ready unready);;
      defaultSCName ← lift GetNameDefaultStorageClass;
      '(unused, op) ← lift (deleteNoMatchingClaimsAndListUnusedClaims galera m.(m_podSuffixes) []
                              claims defaultSCName);
      if (op : bool) then mret tt
      else
        n ← lift (pureM (replicas galera));
        if decide (len32 m.(m_ready) < n)
        then checkUnreadyPodBeforeCreatingPod gc galera m.(m_unready) revision revision revision
               Restore "" creds m.(m_podSuffixes) unused
        else considerPodAndClaimTermination galera m.(m_ready) m.(m_unready) claims unused n
               revision revision creds
  end.

(** ** Phases *)

Definition failCreds (galera : Galera) : error :=
  errorf ("cluter " +:+ galera.(g_Namespace) +:+ "/" +:+ galera.(g_Name)
    +:+ " is failed, credentials are incorrect").

Definition noMoreAction (galera : Galera) : error :=
  errorf ("cluter " +:+ galera.(g_Namespace) +:+ "/" +:+ galera.(g_Name)
    +:+ " is failed, no more action will be executed by the operator").

(** A cluster seen for the first time *)
Definition firstPhase (galera : Galera) : SM unit :=
  (match galera.(g_Spec).(spec_Restore) with
   | None =>
       modify (with_Phase GaleraPhaseCreating);;
       n ← lift (pureM (replicas galera));
       setCondition (SetScalingUpCondition 0 n)
   | Some restore =>
       modify (with_Phase GaleraPhaseScheduleRestore);;
       setCondition (SetRestoringCondition restore.(rs_Name))
   end);;
  lift (metric "created" 1);;
  lift (metric "total" 1).

Definition scheduleRestorePhase (galera : Galera) (currentRevision : string) (pods : list Pod)
    (claims : list PersistentVolumeClaim) (creds : gmap string string) : SM unit :=
  modify (with_Phase GaleraPhaseScheduleRestore);;
  scheduleGaleraRestore galera currentRevision pods claims creds;;
  st ← getStatus;
  n ← lift (pureM (replicas galera));
  if decide (len32 st.(st_Members).(mem_Ready) = n) then
    modify (with_Phase GaleraPhaseCopyRestore);;
    lift (spawnRestore galera pods creds)
  else mret tt.

Definition incReplicasCurrent (st : GaleraStatus) : GaleraStatus := incCurrent (incReplicas st).

Definition copyRestorePhase (pods : list Pod) (claims : list PersistentVolumeClaim) : SM unit :=
  modify (with_Phase GaleraPhaseCopyRestore);;
  modify (λ st, fold_left (λ st _, incReplicasCurrent st) pods st);;
  let '(ready, unready) :=
    getMembersName (filter (λ pod, isRunningAndReady pod = true) pods)
                   (filter (λ pod, isRunningAndReady pod = false) pods) in
  modify (with_Ready_Unready ready unready);;
  (match fst (splitClaim claims) with
   | [] => modify (with_Phase GaleraPhaseFailed)
   | _ => mret tt
   end);;
  match pods with [] => modify (with_Phase GaleraPhaseRestoring) | _ => mret tt end.

(** The Galera to run: the next one, unless the upgrade is refused *)
Definition chooseNext (currentGalera nextGalera : Galera) : SM Galera :=
  st ← getStatus;
  if IsUpgrading (Some st) then mret nextGalera
  else
    currentPod ← lift (pureM (deref currentGalera.(g_Spec).(spec_Pod)));
    nextPod ← lift (pureM (deref nextGalera.(g_Spec).(spec_Pod)));
    can ← lift (CanUpgrade gucc currentPod.(pt_Image) nextPod.(pt_Image)
                  nextPod.(pt_MycnfConfigMap) currentGalera);
    mret (if (can : bool) then nextGalera else currentGalera).

Definition phaseStep (currentGalera nextGalera : Galera) (currentRevision nextRevision : string)
    (pods : list Pod) (claims : list PersistentVolumeClaim) (creds : gmap string string) : SM unit :=
  let phase := currentGalera.(g_Status).(st_Phase) in
  if decide (phase = GaleraPhaseNone) then firstPhase currentGalera
  else if decide (phase = GaleraPhaseFailed) then
    modify (with_Phase GaleraPhaseFailed);; lift (errM (noMoreAction currentGalera))
  else if decide (phase = GaleraPhaseScheduleRestore) then
    scheduleRestorePhase currentGalera currentRevision pods claims creds
  else if decide (phase = GaleraPhaseCopyRestore) then copyRestorePhase pods claims
  else if decide (phase = GaleraPhaseCreating ∨ phase = GaleraPhaseBackuping ∨
                  phase = GaleraPhaseRestoring ∨ phase = GaleraPhaseRunning) then
    modify (with_Phase phase);;
    runGalera currentGalera nextGalera currentRevision nextRevision pods claims creds
  else modify (with_Phase GaleraPhaseFailed).

Definition initialStatus (currentGalera : Galera) (currentRevision nextRevision : string)
    (collisionCount : Z) : GaleraStatus :=
  with_CollisionCount (Some collisionCount)
    (with_NextRevision nextRevision
      (with_CurrentRevision currentRevision
        (with_ObservedGeneration currentGalera.(g_Generation) emptyStatus))).

(** The body of [syncGalera], on the status it starts from *)
Definition syncBody (currentGalera nextGalera : Galera) (currentRevision nextRevision : string)
    (pods : list Pod) (claims : list PersistentVolumeClaim) : SM unit :=
  if currentGalera.(g_DeletionTimestamp) then
    lift (metric "deleted" 1);; lift (metric "total" (-1))
  else
    creds ← lift (attempt (GetGaleraCreds currentGalera));
    match creds with
    | inr _ => modify (with_Phase GaleraPhaseFailed);; lift (errM (failCreds currentGalera))
    | inl creds =>
        modify (with_Conditions currentGalera.(g_Status).(st_Conditions));;
        nextGalera ← chooseNext currentGalera nextGalera;
        phaseStep currentGalera nextGalera currentRevision nextRevision pods claims creds
    end.

(** Run a computation from a status; the status is lost with an error. *)
Definition runStatus (m : SM unit) (st : GaleraStatus) : M GaleraStatus := λ env h,
  match m st env h with
  | (Ok _, st', t) => (Ok st', t)
  | (Err e, _, t) => (Err e, t)
  | (Panic, _, t) => (Panic, t)
  | (OutOfFuel, _, t) => (OutOfFuel, t)
  end.

Definition syncGalera (currentGalera nextGalera : Galera) (currentRevision nextRevision : string)
    (collisionCount : Z) (pods : list Pod) (claims : list PersistentVolumeClaim) : M GaleraStatus :=
  runStatus (syncBody currentGalera nextGalera currentRevision nextRevision pods claims)
    (initialStatus currentGalera currentRevision nextRevision collisionCount).

(** ** Services and status *)

Definition setService (set : string → GaleraStatus → GaleraStatus) (m : M string) : SM unit :=
  name ← lift m; modify (set name).

(** The services are created when the recorded status is running and ready. *)
Definition createOrUpdateServices (galera : Galera) : SM unit :=
  let s := galera.(g_Status) in
  if decide (s.(st_Phase) = GaleraPhaseBackuping ∨ s.(st_Phase) = GaleraPhaseRunning) then
    if IsReady (Some s) then
      setService with_ServiceWriter (CreateOrUpdateGaleraServiceWriter galera);;
      setService with_ServiceWriterBackup (CreateOrUpdateGaleraServiceWriterBackup galera);;
      setService with_ServiceReader (CreateOrUpdateGaleraServiceReader galera);;
      setService with_ServiceSpecial (CreateOrUpdateGaleraServiceSpecial galera);;
      pod ← lift (pureM (deref galera.(g_Spec).(spec_Pod)));
      (match pod.(pt_Metric) with
       | None => mret tt
       | Some _ => setService with_ServiceMonitor (CreateOrUpdateGaleraServiceMonitor galera)
       end);;
      setService with_HeadlessService (CreateOrUpdateGaleraServiceInternal galera)
    else mret tt
  else mret tt.

Definition updateGaleraStatus (galera : Galera) : SM unit :=
  st ← getStatus;
  st' ← lift (pureM (completeRollingUpdate galera st));
  modify (λ _, st');;
  if inconsistentStatus galera st' then lift (UpdateGaleraStatus galera st') else mret tt.

(** What follows [syncGalera] *)
Definition publish (galera : Galera) : SM unit :=
  st ← getStatus;
  (if decide (st.(st_Phase) ≠ GaleraPhaseRestoring) then createOrUpdateServices galera
   else mret tt);;
  pdbName ← lift (CreateOrUpdateGaleraPDB galera);
  modify (with_PodDisruptionBudgetName pdbName);;
  updateGaleraStatus galera.

Definition SyncGalera (galera : Galera) (pods : list Pod) (claims : list PersistentVolumeClaim)
    : M unit :=
  revisions ← ListRevisions galera;
  let revisions := SortControllerRevisions revisions in
  '(currentRevision, nextRevision, collisionCount) ← getGaleraRevisions galera revisions;
  currentGalera ← pureM (ApplyRevision galera currentRevision);
  nextGalera ← pureM (ApplyRevision galera nextRevision);
  status ← syncGalera currentGalera nextGalera currentRevision.(cr_Name) nextRevision.(cr_Name)
             collisionCount pods claims;
  runStatus (publish galera) status;;
  truncateHistory galera pods (SortControllerRevisions revisions) currentRevision nextRevision.
End sync.

(** ** Parameters to evaluate the definitions with *)

Definition exampleRegexp : Regexp := {| regexpFind _ _ := Ok false |}.

(** A history whose revisions all hold the same document *)
Definition constantRevisionLib : RevisionLib := {|
  encodePatch _ _ := "";
  patchedSections _ := inl (example_template, example_pvc);
  mergeOpaque _ new := new;
  SortControllerRevisions l := l;
  EqualRevision r r' := bool_decide (r.(cr_Data) = r'.(cr_Data));
  FindEqualRevisions l r := filter (λ r', bool_decide (r'.(cr_Data) = r.(cr_Data)) = true) l;
  NewControllerRevision g labels data revision _ :=
    inl (mkRevision (g.(g_Name) +:+ "-1") labels None [AsOwner g] data revision) |}.

Definition example_control : defaultGaleraControl := mkControl "bootstrap:1" "backup:1".
Definition example_gucc : realGaleraUpgradeConfigControl := mkUpgradeControl "" "ns".
