(* ===== verification/Phases.v ===== *)
(** * Phases and status

    The phases of a cluster as a step relation, refined by [syncGalera]; what a
    round writes as the status of a Galera. *)
From S2P Require Import Prelude Types Objects Names PodLib Kube Utils PodControl Controls Upgrade.
From S2P Require Import Revisions Control Sync.

(** ** The abstract machine *)

(** The phases in which the pods of the cluster are run *)
Definition run_phases : list GaleraPhase :=
  [GaleraPhaseCreating; GaleraPhaseBackuping; GaleraPhaseRestoring; GaleraPhaseRunning].

Definition known_phases : list GaleraPhase :=
  GaleraPhaseNone :: GaleraPhaseFailed :: GaleraPhaseScheduleRestore :: GaleraPhaseCopyRestore
    :: run_phases.

Definition run_step (p p' : GaleraPhase) : Prop :=
  p' = p ∨ (p = GaleraPhaseCreating ∨ p = GaleraPhaseRestoring) ∧ p' = GaleraPhaseRunning.

Inductive phase_step (restore : bool) : GaleraPhase → GaleraPhase → Prop :=
| step_create : restore = false → phase_step restore GaleraPhaseNone GaleraPhaseCreating
| step_restore : restore = true → phase_step restore GaleraPhaseNone GaleraPhaseScheduleRestore
| step_schedule : phase_step restore GaleraPhaseScheduleRestore GaleraPhaseScheduleRestore
| step_copy : phase_step restore GaleraPhaseScheduleRestore GaleraPhaseCopyRestore
| step_copying : phase_step restore GaleraPhaseCopyRestore GaleraPhaseCopyRestore
| step_copied : phase_step restore GaleraPhaseCopyRestore GaleraPhaseRestoring
| step_lost : phase_step restore GaleraPhaseCopyRestore GaleraPhaseFailed
| step_run p p' : p ∈ run_phases → run_step p p' → phase_step restore p p'
| step_unknown p : p ∉ known_phases → phase_step restore p GaleraPhaseFailed.

#[global] Instance run_step_preorder : PreOrder (λ st st', run_step st.(st_Phase) st'.(st_Phase)).
Proof.
  split; [by left|]. unfold run_step. intros x y z.
  intros [E1|[E1 E2]] [E3|[E3 E4]]; rewrite ?E1, ?E2, ?E3 in *; auto.
Qed.

Lemma run_phases_inv p :
  p ∈ run_phases → p = GaleraPhaseCreating ∨ p = GaleraPhaseBackuping ∨ p = GaleraPhaseRestoring ∨
                   p = GaleraPhaseRunning.
Proof. unfold run_phases. set_solver. Qed.

(** Nothing follows a failure. *)
Lemma phase_step_failed r p : ¬ phase_step r GaleraPhaseFailed p.
Proof.
  intros Hs. remember GaleraPhaseFailed as q eqn:Hq. destruct Hs as [| | | | | | |q p' Hr|q Hr];
    try discriminate Hq; subst.
  - by apply run_phases_inv in Hr as [?|[?|[?|?]]].
  - destruct Hr. unfold known_phases. set_solver.
Qed.

(** A cluster that runs does not fail in a step. *)
Lemma phase_step_run r p p' : p ∈ run_phases → phase_step r p p' → p' ≠ GaleraPhaseFailed.
Proof.
  intros Hr%run_phases_inv Hs. destruct Hs as [| | | | | | |q q' _ Hq|q Hq]; try done.
  - by intuition subst.
  - destruct Hq as [-> |[_ ->]]; [|done]. by intuition subst.
  - destruct Hq. unfold known_phases, run_phases. set_solver.
Qed.

(** How far a cluster is *)
Definition rank (p : GaleraPhase) : nat :=
  if decide (p = GaleraPhaseNone) then 0
  else if decide (p = GaleraPhaseScheduleRestore) then 1
  else if decide (p = GaleraPhaseCopyRestore) then 2
  else if decide (p = GaleraPhaseCreating ∨ p = GaleraPhaseRestoring) then 3
  else if decide (p = GaleraPhaseRunning ∨ p = GaleraPhaseBackuping) then 4 else 5.

(** A step goes on, or stays where it is. *)
Lemma phase_step_rank r p p' :
  p ∈ known_phases → phase_step r p p' →
  p' ∈ known_phases ∧ (p' = p ∨ (rank p < rank p')%nat) ∧ (p' = GaleraPhaseBackuping → p = p').
Proof.
  intros Hp Hs. destruct Hs as [| | | | | | |p p' Hr Hs|p Hr]; try done;
    try (split_and!; [unfold known_phases; set_solver|first [by left|right; vm_compute; lia]|done]).
  destruct Hs as [-> |[Hq ->]]; [by auto|]. split_and!; [|right|done].
  - unfold known_phases, run_phases. set_solver.
  - destruct Hq as [-> | ->]; vm_compute; lia.
Qed.

(** ** Computations that keep the phase *)

Definition same_phase (st st' : GaleraStatus) : Prop := st'.(st_Phase) = st.(st_Phase).

#[global] Instance same_phase_preorder : PreOrder same_phase.
Proof. split; unfold same_phase; congruence. Qed.

Lemma okrel_impl {A} (R R' : relation GaleraStatus) (m : SM A) :
  okrel R m → (∀ st st', R st st' → R' st st') → okrel R' m.
Proof. intros Hm HR st env h a st' t E. eapply HR, Hm, E. Qed.

Lemma setGaleraCondition_phase c gs : (setGaleraCondition c gs).(st_Phase) = gs.(st_Phase).
Proof. unfold setGaleraCondition. by repeat case_match. Qed.

Lemma ClearCondition_phase c gs : (ClearCondition c gs).(st_Phase) = gs.(st_Phase).
Proof. unfold ClearCondition. by repeat case_match. Qed.

(** An update of the status that keeps the phase *)
Ltac keeps_modify :=
  intros ?; unfold same_phase, uncountPod, countPod, SetScalingUpCondition, SetScalingDownCondition,
    SetFailedCondition, SetUpgradingCondition, SetReadyCondition, SetRestoringCondition;
  rewrite ?ClearCondition_phase, ?setGaleraCondition_phase; repeat case_match; done.

Ltac keeps_tac :=
  repeat first
    [ match goal with
      | |- okrel _ (_ ≫= _) => apply okrel_bind; [apply _| |intros ?]
      | |- okrel _ (lift _) => apply okrel_lift; apply _
      | |- okrel _ (mret _) => apply okrel_ret; apply _
      | |- okrel _ getStatus => apply okrel_getStatus; apply _
      end
    | match goal with |- okrel _ (modify _) => apply okrel_modify; keeps_modify end
    | progress unfold setCondition
    | progress cbv zeta
    | match goal with |- okrel _ (match ?x with _ => _ end) => destruct x eqn:? end ].

Section keeps.
Context `{GaleraPodControl} `{PodUtil} `{RetryLib} `{RevisionLib} `{Regexp}.
Context (gc : defaultGaleraControl).

Lemma patch_keeps g pod actions : okrel same_phase (patch g pod actions).
Proof. apply okrel_lift, _. Qed.

Lemma setBackupWriters_keeps g pods : okrel same_phase (setBackupWriters g pods).
Proof.
  induction pods; cbn [setBackupWriters]; unfold patch; keeps_tac. apply IHpods.
Qed.

Lemma removeWriterReader_keeps g pods : okrel same_phase (removeWriterReader g pods).
Proof.
  induction pods; cbn [removeWriterReader]; unfold patch; keeps_tac. apply IHpods.
Qed.

Lemma setLabels_keeps g pods : okrel same_phase (setLabels g pods).
Proof.
  unfold setLabels, setLabelsMany, setLabelsTwoNoWriter, patch.
  repeat first [apply setBackupWriters_keeps|apply removeWriterReader_keeps|progress keeps_tac].
Qed.

Lemma classify_keeps g cur next creds pods m :
  okrel same_phase (classify g cur next creds pods m).
Proof.
  revert m. induction pods as [|p l IH]; intros m; cbn [classify]; [apply okrel_ret, _|].
  apply okrel_bind; [apply _| |intros []; [apply IH|apply okrel_ret, _]].
  unfold classifyPod, classifyPrimary, primaryRole, primaryBackup, patch. keeps_tac.
Qed.

Lemma examineUnready_keeps g pods cur next : okrel same_phase (examineUnready g pods cur next).
Proof. induction pods; cbn [examineUnready]; keeps_tac. apply IHpods. Qed.

Lemma checkUnready_keeps g unready chosen cur next role addresses creds podSuffixes unused :
  okrel same_phase (checkUnreadyPodBeforeCreatingPod gc g unready chosen cur next role addresses
                      creds podSuffixes unused).
Proof.
  unfold checkUnreadyPodBeforeCreatingPod, createPod.
  repeat first [apply examineUnready_keeps|progress keeps_tac].
Qed.

Lemma consider_keeps g ready unready claims unused n cur next creds :
  okrel same_phase (considerPodAndClaimTermination g ready unready claims unused n cur next creds).
Proof. unfold considerPodAndClaimTermination, scaleDown. keeps_tac. Qed.

Lemma deletePodForUpgrade_keeps g pods cur next creds sc :
  okrel same_phase (deletePodForUpgrade g pods cur next creds sc).
Proof.
  unfold deletePodForUpgrade. case_decide; [apply okrel_ret, _|].
  induction pods; cbn [upgradeFirst]; keeps_tac. apply IHpods.
Qed.

Lemma scheduleGaleraRestore_keeps g rev pods claims creds :
  okrel same_phase (scheduleGaleraRestore gc g rev pods claims creds).
Proof.
  unfold scheduleGaleraRestore. apply okrel_bind; [apply _| |intros r].
  - generalize noMembers. induction pods as [|p l IH]; intros m; cbn [classifyRestore]; keeps_tac.
    apply IH.
  - repeat first [apply checkUnready_keeps|apply consider_keeps|progress keeps_tac].
Qed.

(** ** The phases of a run *)

Definition run_rel (st st' : GaleraStatus) : Prop := run_step st.(st_Phase) st'.(st_Phase).

#[local] Instance run_rel_preorder : PreOrder run_rel := run_step_preorder.

Lemma keeps_run {A} (m : SM A) : okrel same_phase m → okrel run_rel m.
Proof. intros Hm. eapply okrel_impl; [exact Hm|]. by left. Qed.

Lemma setFailed_not_ok g n st env h st' t : setFailed g n st env h ≠ (Ok tt, st', t).
Proof.
  unfold setFailed. intros E.
  repeat (apply SM_bind_ok_inv in E as (? & ? & ? & ? & _ & E & _)). by apply lift_inv in E as [_ ?].
Qed.

(** A computation that ends with the assignment of a phase *)
Lemma ends_phase (m : SM unit) p : okrel (λ _ st', st'.(st_Phase) = p) (m;; modify (with_Phase p)).
Proof. by intros st env h a st' t (? & ? & ? & ? & _ & [= _ <- _] & _)%SM_bind_ok_inv. Qed.

Lemma setStatusPhase_run g ready unready newImage :
  okrel run_rel (setStatusPhaseAndConditions g ready unready newImage).
Proof.
  unfold setStatusPhaseAndConditions. case_decide.
  { intros st env h [] st' t E. by apply setFailed_not_ok in E. }
  apply okrel_bind; [apply _|apply keeps_run, okrel_lift, _|intros n].
  apply okrel_bind; [apply _|apply keeps_run; unfold setScaling; keeps_tac|intros _].
  intros st env h a st' t (st1 & ? & ? & ? & [= <- <- <-] & E & _)%SM_bind_ok_inv.
  case_decide as Hp.
  - case_decide; [|injection E as _ <- _; by left]. right. split; [done|].
    apply SM_bind_ok_inv in E as (? & ? & ? & ? & _ & E & _). by eapply ends_phase in E.
  - left. case_decide; [|by injection E as _ <- _].
    match type of E with ?m st env _ = _ => assert (okrel same_phase m) as Hk by keeps_tac end.
    by eapply Hk.
Qed.

Lemma runGalera_run cg ng cur next pods claims creds :
  okrel run_rel (runGalera gc cg ng cur next pods claims creds).
Proof.
  unfold runGalera. destruct (podWithoutClaims pods claims); [apply keeps_run, okrel_lift, _|].
  apply okrel_bind; [apply _|apply keeps_run, classify_keeps|intros [m|]]; [|apply okrel_ret, _].
  unfold actOnMembers, growCluster, settleCluster.
  repeat first
    [ apply setStatusPhase_run
    | solve [apply keeps_run, okrel_modify; [done]]
    | solve [apply keeps_run; first [apply setLabels_keeps|apply checkUnready_keeps
             |apply consider_keeps|apply deletePodForUpgrade_keeps]]
    | progress keeps_tac ].
Qed.
End keeps.

(** ** Refinement *)

Section refinement.
Context `{GaleraPodControl} `{PodUtil} `{RetryLib} `{RevisionLib} `{Regexp}.
Context (gc : defaultGaleraControl) (gucc : realGaleraUpgradeConfigControl).
#[local] Existing Instance run_step_preorder.

Definition wants_restore (g : Galera) : bool := bool_decide (g.(g_Spec).(spec_Restore) ≠ None).

Lemma firstPhase_phase g st env h st' t :
  firstPhase g st env h = (Ok tt, st', t) →
  st'.(st_Phase) = if wants_restore g then GaleraPhaseScheduleRestore else GaleraPhaseCreating.
Proof.
  unfold firstPhase. intros (? & st1 & ? & ? & E & (? & ? & ? & ? & [-> _]%lift_inv &
    [-> _]%lift_inv & _)%SM_bind_ok_inv & _)%SM_bind_ok_inv.
  unfold wants_restore. destruct (spec_Restore (g_Spec g)) as [r|].
  - rewrite bool_decide_eq_true_2 by done.
    apply SM_bind_ok_inv in E as (? & st2 & ? & ? & [= _ <- _] & E & _).
    transitivity (with_Phase GaleraPhaseScheduleRestore st).(st_Phase); [|done].
    match type of E with ?m _ _ _ = _ => assert (okrel same_phase m) as Hk by keeps_tac end.
    by eapply Hk.
  - rewrite bool_decide_eq_false_2 by auto.
    apply SM_bind_ok_inv in E as (? & st2 & ? & ? & [= _ <- _] & E & _).
    transitivity (with_Phase GaleraPhaseCreating st).(st_Phase); [|done].
    match type of E with ?m _ _ _ = _ => assert (okrel same_phase m) as Hk by keeps_tac end.
    by eapply Hk.
Qed.

Lemma scheduleRestorePhase_phase g cur pods claims creds st env h st' t :
  scheduleRestorePhase gc g cur pods claims creds st env h = (Ok tt, st', t) →
  st'.(st_Phase) = GaleraPhaseScheduleRestore ∨ st'.(st_Phase) = GaleraPhaseCopyRestore.
Proof.
  unfold scheduleRestorePhase.
  intros (? & st1 & ? & ? & [= _ <- _] & (? & st2 & ? & ? & E & E' & _)%SM_bind_ok_inv & _)%SM_bind_ok_inv.
  apply scheduleGaleraRestore_keeps in E.
  apply SM_bind_ok_inv in E' as (? & ? & ? & ? & [= <- <- _] & E' & _).
  apply SM_bind_ok_inv in E' as (? & ? & ? & ? & [-> _]%lift_inv & E' & _). case_decide.
  - apply SM_bind_ok_inv in E' as (? & ? & ? & ? & [= _ <- _] & [-> _]%lift_inv & _). by right.
  - injection E' as <- _. left. by rewrite E.
Qed.

Lemma copyRestorePhase_phase pods claims st env h o st' t :
  copyRestorePhase pods claims st env h = (o, st', t) →
  o = Ok tt ∧ t = [] ∧
  st'.(st_Phase) = match pods with
                   | [] => GaleraPhaseRestoring
                   | _ => match fst (splitClaim claims) with
                          | [] => GaleraPhaseFailed | _ => GaleraPhaseCopyRestore end
                   end.
Proof.
  assert (∀ pods st, (fold_left (λ st (_ : Pod), incReplicasCurrent st) pods st).(st_Phase)
                       = st.(st_Phase)) as Hf.
  { clear. intros pods. induction pods as [|p l IH]; intros st; [done|]. cbn [fold_left]. by rewrite IH. }
  unfold copyRestorePhase, modify, mbind, SM_bind, mret, SM_ret, getMembersName. intros E.
  destruct (fst (splitClaim claims)), pods; cbn in E; simplify_eq; cbn; try done; by rewrite Hf.
Qed.

Lemma chooseNext_status cg ng : okrel eq (chooseNext gucc cg ng).
Proof.
  unfold chooseNext. apply okrel_bind; [apply _|apply okrel_getStatus, _|intros st].
  destruct (IsUpgrading (Some st)); [apply okrel_ret, _|].
  repeat (apply okrel_bind; [apply _|apply okrel_lift, _|intros ?]). apply okrel_ret, _.
Qed.

(** How a restoration goes on, from the pods and the claims *)
Definition copied (pods : list Pod) (claims : list PersistentVolumeClaim) : GaleraPhase :=
  match pods with
  | [] => GaleraPhaseRestoring
  | _ => match fst (splitClaim claims) with [] => GaleraPhaseFailed | _ => GaleraPhaseCopyRestore end
  end.

Lemma phaseStep_phase cg ng cur next pods claims creds st env h st' t :
  phaseStep gc cg ng cur next pods claims creds st env h = (Ok tt, st', t) →
  phase_step (wants_restore cg) cg.(g_Status).(st_Phase) st'.(st_Phase) ∧
  (cg.(g_Status).(st_Phase) = GaleraPhaseCopyRestore → st'.(st_Phase) = copied pods claims).
Proof.
  unfold phaseStep. generalize (st_Phase (g_Status cg)) as p. intros p.
  case_decide; [subst p; intros ->%firstPhase_phase|].
  { split; [|done]. destruct (wants_restore cg) eqn:Hr; by constructor. }
  case_decide; [intros (? & ? & ? & ? & _ & [_ ?]%lift_inv & _)%SM_bind_ok_inv; done|].
  case_decide; [subst p; intros [-> | ->]%scheduleRestorePhase_phase; by split; [constructor|]|].
  case_decide; [subst p; intros (_ & _ & E)%copyRestorePhase_phase|].
  { split; [|done]. rewrite E. destruct pods; [constructor|].
    destruct (fst (splitClaim claims)); constructor. }
  case_decide as Hp.
  - intros (? & st1 & ? & ? & [= _ <- _] & E & _)%SM_bind_ok_inv. apply runGalera_run in E.
    split; [|done]. apply step_run; [|exact E]. unfold run_phases. set_solver.
  - intros [= <- <-]. split; [|done]. apply step_unknown.
    unfold known_phases, run_phases. set_solver.
Qed.

Lemma syncGalera_phase cg ng cur next coll pods claims env h st' t :
  syncGalera gc gucc cg ng cur next coll pods claims env h = (Ok st', t) →
  if cg.(g_DeletionTimestamp) then st'.(st_Phase) = GaleraPhaseNone
  else phase_step (wants_restore cg) cg.(g_Status).(st_Phase) st'.(st_Phase) ∧
       (cg.(g_Status).(st_Phase) = GaleraPhaseCopyRestore → st'.(st_Phase) = copied pods claims).
Proof.
  unfold syncGalera, runStatus. set (st0 := initialStatus _ _ _ _).
  assert (st0.(st_Phase) = GaleraPhaseNone) as H0' by done. clearbody st0.
  destruct (syncBody gc gucc cg ng cur next pods claims st0 env h) as [[[[]|e| |] st1] t1] eqn:E;
    intros [= <- <-].
  unfold syncBody in E. destruct (g_DeletionTimestamp cg).
  { assert (okrel same_phase (lift (metric "deleted" 1);; lift (metric "total" (-1)))) as Hk by keeps_tac.
    apply Hk in E. by rewrite E. }
  apply SM_bind_ok_inv in E as ([creds|e] & st2 & ? & ? & [-> _]%lift_inv & E & _).
  - apply SM_bind_ok_inv in E as (? & st2 & ? & ? & [= _ <- _] & E & _).
    apply SM_bind_ok_inv in E as (ng' & st2 & ? & ? & <-%chooseNext_status & E & _).
    by apply phaseStep_phase in E.
  - by apply SM_bind_ok_inv in E as (? & ? & ? & ? & _ & [_ ?]%lift_inv & _).
Qed.

(** C2: a round that ends without error takes the phase of a cluster one step of
    the abstract machine: it is created or restored according to its
    specification, the copy of a restoration ends when its pods are gone and fails
    when its data claims are gone before, a running cluster stays so, an unknown
    phase is failed and a failed cluster makes no round without error.  A cluster being
    deleted ends its round without a phase. *)
Theorem syncGalera_phases (cg ng : Galera) (cur next : string) (coll : Z) (pods : list Pod)
    (claims : list PersistentVolumeClaim) (env : Env) (h : history) (st' : GaleraStatus) (t : history) :
  syncGalera gc gucc cg ng cur next coll pods claims env h = (Ok st', t) →
  if cg.(g_DeletionTimestamp) then st'.(st_Phase) = GaleraPhaseNone
  else phase_step (wants_restore cg) cg.(g_Status).(st_Phase) st'.(st_Phase) ∧
       (cg.(g_Status).(st_Phase) = GaleraPhaseCopyRestore → st'.(st_Phase) = copied pods claims) ∧
       cg.(g_Status).(st_Phase) ≠ GaleraPhaseFailed.
Proof.
  intros E%syncGalera_phase. destruct (g_DeletionTimestamp cg); [done|]. destruct E as [E1 E2].
  split_and!; [done..|]. intros Hf. rewrite Hf in E1. by apply phase_step_failed in E1.
Qed.
End refinement.

Section reachability.
Context `{GaleraPodControl} `{PodUtil} `{RetryLib} `{RevisionLib} `{Regexp}.
Context (gc : defaultGaleraControl) (gucc : realGaleraUpgradeConfigControl).

(** A cluster between two rounds: whether it is being deleted, which it is for ever once it
    is, and the phase that is recorded *)
Definition cluster_phase : Type := bool * GaleraPhase.

(** A round, from the recorded phase to the phase of the status it ends with *)
Definition sync_step (c c' : cluster_phase) : Prop :=
  (c.1 = true → c'.1 = true) ∧
  ∃ cg ng cur next coll pods claims env h st' t,
    cg.(g_DeletionTimestamp) = c'.1 ∧ c.2 = cg.(g_Status).(st_Phase) ∧
    syncGalera gc gucc cg ng cur next coll pods claims env h = (Ok st', t) ∧
    c'.2 = st'.(st_Phase).

Lemma sync_step_phase c c' : sync_step c c' → c.2 ∈ known_phases →
  if c'.1 then c'.2 = GaleraPhaseNone
  else c'.2 ∈ known_phases ∧ (c'.2 = c.2 ∨ (rank c.2 < rank c'.2)%nat) ∧
       (c'.2 = GaleraPhaseBackuping → c.2 = c'.2).
Proof.
  destruct c as [d p], c' as [d' p']. unfold sync_step. cbn.
  intros (_ & cg & ng & cur & next & coll & pods & claims & env & h & st' & t & <- & -> & E & ->) Hp.
  apply syncGalera_phase in E. destruct (g_DeletionTimestamp cg); [exact E|].
  destruct E as [E _]. by eapply phase_step_rank.
Qed.

(** C31: through any sequence of rounds a cluster never goes back to an earlier
    phase until it is deleted: each round leaves it where it is or takes it further, from
    its creation or restoration to running, and no sequence of rounds ever reaches the
    phase of a running backup.  Once it is being deleted, every round records that it has
    no phase. *)
Theorem phases_progress (c : cluster_phase) :
  rtc sync_step (false, GaleraPhaseNone) c →
  c.2 ∈ known_phases ∧ c.2 ≠ GaleraPhaseBackuping ∧ (c.1 = true → c.2 = GaleraPhaseNone) ∧
  ∀ c', sync_step c c' →
    if c'.1 then c'.2 = GaleraPhaseNone else c'.2 = c.2 ∨ (rank c.2 < rank c'.2)%nat.
Proof.
  intros Hr. assert (Hnone : GaleraPhaseNone ∈ known_phases) by (unfold known_phases; set_solver).
  assert (Hc : c.2 ∈ known_phases ∧ c.2 ≠ GaleraPhaseBackuping ∧ (c.1 = true → c.2 = GaleraPhaseNone)).
  { revert c Hr. apply (rtc_ind_r (λ c, c.2 ∈ known_phases ∧ c.2 ≠ GaleraPhaseBackuping ∧
      (c.1 = true → c.2 = GaleraPhaseNone))).
    - done.
    - intros p q _ Hs (Hk & Hb & _). apply sync_step_phase in Hs; [|done]. destruct q as [[] q]; cbn [fst snd] in *.
      + by subst q.
      + destruct Hs as (? & _ & Hq). split_and!; [done| |done]. intros E. specialize (Hq E). congruence. }
  destruct Hc as (Hk & Hb & Hd). split_and!; [done..|]. intros c' Hs.
  apply sync_step_phase in Hs; [|done]. destruct c' as [[] p']; [exact Hs|apply Hs].
Qed.
End reachability.

(** ** Examples *)

#[local] Existing Instances RetryLib_steps NewRealGaleraPodControl examplePodUtil
  constantRevisionLib exampleRegexp.

(** The first round of a cluster *)
Definition first_round : outcome GaleraStatus * history :=
  syncGalera example_control example_gucc example_galera example_galera "r1" "r1" 0 [] [] env_ok [].

Definition created_status : GaleraStatus :=
  match fst first_round with Ok st => st | _ => emptyStatus end.

Lemma first_round_ok : first_round = (Ok created_status, snd first_round).
Proof. vm_compute. reflexivity. Qed.

Lemma syncGalera_phases_witness :
  first_round = (Ok created_status, snd first_round) ∧
  phase_step false GaleraPhaseNone created_status.(st_Phase).
Proof.
  split; [exact first_round_ok|].
  exact (proj1 (syncGalera_phases example_control example_gucc example_galera example_galera "r1" "r1"
    0 [] [] env_ok [] created_status (snd first_round) first_round_ok)).
Defined.

Lemma phases_progress_witness :
  rtc (sync_step example_control example_gucc) (false, GaleraPhaseNone) (false, GaleraPhaseCreating) ∧
  GaleraPhaseCreating ∈ known_phases.
Proof.
  assert (rtc (sync_step example_control example_gucc) (false, GaleraPhaseNone) (false, GaleraPhaseCreating)) as Hr.
  { apply rtc_once. split; [done|]. exists example_galera, example_galera, "r1", "r1", 0, [], [], env_ok, [],
      created_status, (snd first_round).
    split; [reflexivity|]. split; [reflexivity|]. split; [exact first_round_ok|].
    vm_compute. reflexivity. }
  split; [exact Hr|].
  exact (proj1 (phases_progress example_control example_gucc (false, GaleraPhaseCreating) Hr)).
Defined.
