(* ===== verification/Rounds.v ===== *)
(** * What a round of reconciliation may do

    Safety of [runGalera] and of [syncGalera]: the calls a round makes, the pods
    it creates and deletes.  Proved against the laws of the pod control. *)
From S2P Require Import Prelude Types Objects Names PodLib Kube Utils PodControl Controls Upgrade.
From S2P Require Import Revisions Control Sync.

(** ** The calls of a round *)

(** A round works on pods and claims: it writes no status, service, disruption
    budget or revision. *)
Definition ev_round (e : event) : Prop :=
  match e with
  | EvServiceCreate _ _ _ | EvServiceUpdate _ _ _ | EvServiceDelete _ _ _ | EvServiceGet _ _
  | EvPDBCreate _ _ _ | EvPDBUpdate _ _ _ | EvPDBGet _ _ | EvRevisionList | EvRevisionCreate _
  | EvRevisionUpdate _ _ | EvRevisionDelete _ _ | EvRevisionAdopt _ | EvGaleraGet _ _
  | EvStatusUpdate _ _ _ _ | EvQueueGet _ | EvQueueAdd _ | EvQueueAddRateLimited _
  | EvQueueForget _ | EvQueueDone _ | EvList _ _ | EvGaleraLive _ _ _ | EvPodOwner _ _ _ _
  | EvClaimOwner _ _ _ _ | EvBackupStatus _ _ _ _ | EvHTTP _ _ _ _ | EvFatal _ => False
  | _ => True
  end.

Create HintDb rounds.

Ltac rounds_tac :=
  repeat first
    [ solve [eauto 2 with rounds]
    | progress unfold patch, setCondition, secretGet, storageClasses, configMapGet,
        upgradeConfigGet, upgradeRuleGet, GetNameDefaultStorageClass, recreatingFailedPod
    | progress emits_sm ].

Section rounds.
Context `{GaleraPodControlLaws} `{PodUtil} `{RetryLib} `{RevisionLib} `{Regexp}.
Context (gc : defaultGaleraControl) (gucc : realGaleraUpgradeConfigControl).

Lemma setBackupWriters_round g pods : emitsS ev_round (setBackupWriters g pods).
Proof. induction pods; cbn [setBackupWriters]; rounds_tac. Qed.

Lemma removeWriterReader_round g pods : emitsS ev_round (removeWriterReader g pods).
Proof. induction pods; cbn [removeWriterReader]; rounds_tac. Qed.
#[local] Hint Resolve setBackupWriters_round removeWriterReader_round : rounds.

Lemma setLabels_round g pods : emitsS ev_round (setLabels g pods).
Proof. unfold setLabels, setLabelsMany, setLabelsTwoNoWriter. rounds_tac. Qed.

Lemma classify_round g cur next creds pods m : emitsS ev_round (classify g cur next creds pods m).
Proof.
  revert m. induction pods as [|p l IH]; intros m; cbn [classify];
    unfold classifyPod, classifyPrimary, primaryRole, primaryBackup; rounds_tac.
Qed.

Lemma unusedClaims_round g podSuffix backupSuffix sc claims l :
  emits ev_round (unusedClaims g podSuffix backupSuffix sc claims l).
Proof. revert l. induction claims; intros l; cbn [unusedClaims]; rounds_tac. Qed.

Lemma checkMysqlUpgrade_round g pods creds : emits ev_round (checkMysqlUpgrade g pods creds).
Proof. induction pods; cbn [checkMysqlUpgrade]; unfold upgradeNode; rounds_tac. Qed.

Lemma examineUnready_round g pods cur next : emitsS ev_round (examineUnready g pods cur next).
Proof. induction pods; cbn [examineUnready]; rounds_tac. Qed.

Lemma forceDeletePods_round g pods : emits ev_round (forceDeletePods g pods).
Proof. induction pods; cbn [forceDeletePods]; rounds_tac. Qed.

Lemma upgradeFirst_round g pods next creds sc : emitsS ev_round (upgradeFirst g pods next creds sc).
Proof. induction pods; cbn [upgradeFirst]; rounds_tac. Qed.

#[local] Hint Resolve setLabels_round classify_round unusedClaims_round checkMysqlUpgrade_round
  examineUnready_round forceDeletePods_round upgradeFirst_round : rounds.

Lemma newPodName_round g podSuffixes unused : emits ev_round (newPodName g podSuffixes unused).
Proof. eapply emits_impl; [apply newPodName_emits|]. intros e [He| ->]; [by destruct e|done]. Qed.
#[local] Hint Resolve newPodName_round : rounds.

Lemma checkUnready_round g unready chosen cur next role addresses creds podSuffixes unused :
  emitsS ev_round (checkUnreadyPodBeforeCreatingPod gc g unready chosen cur next role addresses
                     creds podSuffixes unused).
Proof. unfold checkUnreadyPodBeforeCreatingPod, createPod. rounds_tac. Qed.

Lemma consider_round g ready unready claims unused n cur next creds :
  emitsS ev_round (considerPodAndClaimTermination g ready unready claims unused n cur next creds).
Proof. unfold considerPodAndClaimTermination, scaleDown. rounds_tac. Qed.

Lemma special_round g next addresses creds m unused sc :
  emits ev_round (specialStep gc g next addresses creds m unused sc).
Proof. unfold specialStep, manageSpecialNode, createSpecial, upgradeNode. rounds_tac. Qed.

Lemma setStatus_round g ready unready newImage :
  emitsS ev_round (setStatusPhaseAndConditions g ready unready newImage).
Proof. unfold setStatusPhaseAndConditions, setFailed, setScaling. rounds_tac. Qed.
#[local] Hint Resolve checkUnready_round consider_round special_round setStatus_round : rounds.

Lemma runGalera_round cg ng cur next pods claims creds :
  emitsS ev_round (runGalera gc cg ng cur next pods claims creds).
Proof.
  unfold runGalera, actOnMembers, growCluster, settleCluster, deletePodForUpgrade,
    deleteNoMatchingClaimsAndListUnusedClaims. rounds_tac.
Qed.

Lemma classifyRestore_round g rev pods m : emitsS ev_round (classifyRestore g rev pods m).
Proof. revert m. induction pods; intros m; cbn [classifyRestore]; rounds_tac. Qed.
#[local] Hint Resolve runGalera_round classifyRestore_round : rounds.

Lemma phaseStep_round cg ng cur next pods claims creds :
  emitsS ev_round (phaseStep gc cg ng cur next pods claims creds).
Proof.
  unfold phaseStep, firstPhase, scheduleRestorePhase, copyRestorePhase, scheduleGaleraRestore,
    deleteNoMatchingClaimsAndListUnusedClaims. rounds_tac.
Qed.

(** Checking an upgrade reads its rules and records what it finds. *)
Definition ev_upgrade (e : event) : Prop :=
  match e with EvGet _ _ _ | EvRecord _ _ _ => True | _ => False end.

Lemma checkRules_emits rules cnf version g : emits ev_upgrade (checkRules gucc rules cnf version g).
Proof.
  assert (∀ l, emits ev_upgrade (checkRemovedRules gucc l cnf)) as Hr.
  { induction l; cbn [checkRemovedRules]; unfold getRule, wrapErr; rounds_tac. }
  assert (∀ l, emits ev_upgrade (checkChangedDefaultOptionRules gucc l cnf g)) as Hc.
  { induction l; cbn [checkChangedDefaultOptionRules]; unfold getRule, wrapErr,
      recordChangedDefaultOptionValueEvent; rounds_tac. }
  induction rules; cbn [checkRules]; rounds_tac.
Qed.
#[local] Hint Resolve phaseStep_round checkRules_emits : rounds.

Lemma CanUpgrade_emits current next config g :
  emits ev_upgrade (CanUpgrade gucc current next config g).
Proof. unfold CanUpgrade, canUpgrade, validateConfig, wrapErr, recordUpgradeEvent. rounds_tac. Qed.

Lemma CanUpgrade_round current next config g :
  emits ev_round (CanUpgrade gucc current next config g).
Proof. eapply emits_impl; [apply CanUpgrade_emits|]. by intros []. Qed.
#[local] Hint Resolve CanUpgrade_round : rounds.

Lemma emits_runStatus P (m : SM unit) st : emitsS P m → emits P (runStatus m st).
Proof.
  intros Hm env h. specialize (Hm st env h). unfold runStatus. by destruct (m st env h) as [[[] ?] ?].
Qed.

Lemma syncGalera_round cg ng cur next coll pods claims :
  emits ev_round (syncGalera gc gucc cg ng cur next coll pods claims).
Proof.
  unfold syncGalera. apply emits_runStatus. unfold syncBody, GetGaleraCreds, chooseNext.
  rounds_tac.
Qed.
End rounds.

(** ** Pods created in a round *)

Definition no_create (e : event) : Prop := is_podCreate e = false.
Definition quiet (e : event) : Prop := is_delete e = false ∧ is_podCreate e = false.

(** A computation either ends without creating a pod, or comes to a point where
    it has neither created nor deleted anything and what is left satisfies [K]. *)
Definition reaches (env : Env) (K : outcome unit → GaleraStatus → history → Prop) (m : SM unit)
    : Prop :=
  ∀ st h o st' t, m st env h = (o, st', t) →
    Forall no_create t ∨ ∃ t1 t2, t = t1 ++ t2 ∧ Forall quiet t1 ∧ K o st' t2.

Lemma quiet_no_create t : Forall quiet t → Forall no_create t.
Proof. intros HF. eapply Forall_impl; [exact HF|]. by intros ? [? ?]. Qed.

Section reaches.
Context (env : Env) (K : outcome unit → GaleraStatus → history → Prop).

Lemma reaches_here m : (∀ st h o st' t, m st env h = (o, st', t) → K o st' t) → reaches env K m.
Proof. intros Hm st h o st' t E. right. exists [], t. eauto. Qed.

Lemma reaches_end m : emitsS no_create m → reaches env K m.
Proof. intros Hm st h o st' t E. left. by eapply emitsS_run. Qed.

Lemma reaches_bind {A} (m : SM A) (f : A → SM unit) :
  emitsS no_create m →
  (∀ a st h st' t, m st env h = (Ok a, st', t) →
     (Forall quiet t ∧ reaches env K (f a)) ∨ f a = mret tt) →
  reaches env K (m ≫= f).
Proof.
  intros Hm Hf st h o st' t [(a & st1 & t1 & t2 & E1 & E2 & ->)|(_ & o' & E & _)]%SM_bind_inv.
  - destruct (Hf _ _ _ _ _ E1) as [[Hq Hr]|Hr].
    + destruct (Hr _ _ _ _ _ E2) as [Hn|(t3 & t4 & -> & Hq' & Hk)].
      * left. apply Forall_app. split; [by apply quiet_no_create|done].
      * right. exists (t1 ++ t3), t4. rewrite app_assoc. split_and!; [done|by apply Forall_app|done].
    + rewrite Hr in E2. injection E2 as _ _ <-. left. rewrite app_nil_r. by eapply emitsS_run.
  - left. by eapply emitsS_run.
Qed.

(** A step that neither creates nor deletes *)
Lemma reaches_quiet {A} (m : SM A) (f : A → SM unit) :
  emitsS quiet m → (∀ a st h st' t, m st env h = (Ok a, st', t) → reaches env K (f a)) →
  reaches env K (m ≫= f).
Proof.
  intros Hm Hf. apply reaches_bind.
  - eapply emitsS_impl; [exact Hm|]. by intros ? [? ?].
  - intros a st h st' t E. left. split; [by eapply emitsS_run|by eapply Hf].
Qed.
End reaches.

(** None of the pods is deleted. *)
Definition spared (names : list string) (e : event) : Prop := ¬ deletes_one_of names e.

Ltac quiet_tac :=
  repeat first
    [ solve [eauto 2 with quiets]
    | progress unfold spared, patch, setCondition, secretGet, storageClasses, configMapGet,
        upgradeConfigGet, upgradeRuleGet, GetNameDefaultStorageClass, recreatingFailedPod
    | progress emits_sm
    | done ].

Create HintDb quiets.

Section creates.
Context `{GaleraPodControlLaws} `{PodUtil} `{RetryLib} `{RevisionLib} `{Regexp}.
Context (gc : defaultGaleraControl).

Lemma setBackupWriters_quiet g pods : emitsS quiet (setBackupWriters g pods).
Proof. induction pods; cbn [setBackupWriters]; quiet_tac. Qed.

Lemma removeWriterReader_quiet g pods : emitsS quiet (removeWriterReader g pods).
Proof. induction pods; cbn [removeWriterReader]; quiet_tac. Qed.
#[local] Hint Resolve setBackupWriters_quiet removeWriterReader_quiet : quiets.

Lemma setLabels_quiet g pods : emitsS quiet (setLabels g pods).
Proof. unfold setLabels, setLabelsMany, setLabelsTwoNoWriter. quiet_tac. Qed.

Lemma setStatus_quiet g ready unready newImage :
  emitsS quiet (setStatusPhaseAndConditions g ready unready newImage).
Proof. unfold setStatusPhaseAndConditions, setFailed, setScaling. quiet_tac. Qed.

(** The classification of the pods is quiet, unless it stops the round. *)
Lemma classify_no_create g cur next creds pods m :
  emitsS no_create (classify g cur next creds pods m).
Proof.
  revert m. induction pods as [|p l IH]; intros m; cbn [classify];
    unfold classifyPod, classifyPrimary, primaryRole, primaryBackup; quiet_tac.
Qed.

(** What a computation adds to the trace when it finds something *)
Definition emits_some {A} (P : event → Prop) (m : SM (option A)) : Prop :=
  ∀ st env h a st' t, m st env h = (Ok (Some a), st', t) → Forall P t.

Lemma some_emits {A} P (m : SM (option A)) : emitsS P m → emits_some P m.
Proof. intros Hm st env h a st' t E. by eapply emitsS_run. Qed.

Lemma some_bind {A B} P (m : SM A) (f : A → SM (option B)) :
  emitsS P m → (∀ a, emits_some P (f a)) → emits_some P (m ≫= f).
Proof.
  intros Hm Hf st env h b st' t (a & st1 & t1 & t2 & E1 & E2 & ->)%SM_bind_ok_inv.
  apply Forall_app. split; [by eapply emitsS_run|by eapply Hf].
Qed.

Lemma some_bind_opt {A B} P (m : SM (option A)) (f : option A → SM (option B)) :
  emits_some P m → (∀ a, emits_some P (f (Some a))) → f None = mret None →
  emits_some P (m ≫= f).
Proof.
  intros Hm Hf Hn st env h b st' t ([a|] & st1 & t1 & t2 & E1 & E2 & ->)%SM_bind_ok_inv.
  - apply Forall_app. split; [by eapply Hm|by eapply Hf].
  - rewrite Hn in E2. discriminate E2.
Qed.

Lemma some_none {A B} P (m : SM A) : emits_some P (m ≫= λ _, mret None : SM (option B)).
Proof. intros st env h b st' t (? & ? & ? & ? & _ & [=] & _)%SM_bind_ok_inv. Qed.

Ltac some_tac :=
  repeat first
    [ match goal with
      | |- emits_some _ (lift _ ≫= λ _, mret None) => apply some_none
      | |- emits_some _ (modify _ ≫= _) => apply some_bind; [apply emitsS_modify|intros ?]
      | |- emits_some _ (getStatus ≫= _) => apply some_bind; [apply emitsS_getStatus|intros ?]
      | |- emits_some _ (mret _) => apply some_emits, emitsS_ret
      | |- emits_some _ (match ?x with _ => _ end) => destruct x
      end ].

Lemma primaryRole_quiet g pod m : emits_some quiet (primaryRole g pod m).
Proof.
  unfold primaryRole. some_tac; try (apply some_emits; solve [quiet_tac]).
Qed.

Lemma primaryBackup_quiet g pod added m : emits_some quiet (primaryBackup g pod added m).
Proof. unfold primaryBackup. some_tac. Qed.

Lemma classifyPrimary_quiet g pod m : emits_some quiet (classifyPrimary g pod m).
Proof.
  unfold classifyPrimary. apply some_bind_opt; [apply primaryRole_quiet| |done].
  intros [added m']. apply some_bind_opt; [apply primaryBackup_quiet| |done].
  intros [added' m'']. some_tac.
Qed.

Lemma classifyPod_quiet g cur next creds pod m : emits_some quiet (classifyPod g cur next creds pod m).
Proof.
  unfold classifyPod. some_tac. apply some_bind_opt; [|intros m'; some_tac|done].
  destruct (isRunningAndReady pod); some_tac. apply some_bind; [quiet_tac|intros primary].
  destruct (primary : bool); [apply classifyPrimary_quiet|some_tac].
Qed.

Lemma classify_quiet g cur next creds pods m : emits_some quiet (classify g cur next creds pods m).
Proof.
  revert m. induction pods as [|p l IH]; intros m; cbn [classify]; [some_tac|].
  apply some_bind_opt; [apply classifyPod_quiet|apply IH|done].
Qed.

Lemma unusedClaims_quiet g podSuffix backupSuffix sc claims l env h l' t :
  unusedClaims g podSuffix backupSuffix sc claims l env h = (Ok (l', false), t) → t = [].
Proof.
  revert l h t. induction claims as [|c cl IH]; intros l h t; cbn [unusedClaims]; [by intros [= _ <-]|].
  destruct (isClaimTerminating c); [done|].
  destruct (getClaimSuffixAndBackup (claim_Name c)) as [s []]; case_decide; try apply IH.
  - intros (? & ? & ? & _ & [=] & _)%bind_ok_inv.
  - intros (b & t1 & t2 & E1 & E2 & ->)%bind_ok_inv. injection E1 as _ <-. destruct b; [by eapply IH|].
    by apply bind_ok_inv in E2 as (? & ? & ? & _ & [=] & _).
Qed.
(** At most one pod is created, and no pod but a special one after a deletion. *)
Definition one_create (t : history) : Prop :=
  (count is_podCreate t ≤ 1)%nat ∧
  ∀ ns pod err, EvPodCreate ns pod err ∈ t → pod_has pod GaleraRoleLabel RoleSpecial = false →
                Forall (λ e, is_delete e = false) t.

Lemma one_create_none t : Forall no_create t → one_create t.
Proof.
  intros HF. split; [by rewrite count_none; [lia|]|]. intros ns pod err Hin.
  rewrite Forall_forall in HF. by apply HF in Hin.
Qed.

Lemma one_create_quiet t1 t2 : Forall quiet t1 → one_create t2 → one_create (t1 ++ t2).
Proof.
  intros Hq [Hc Hd]. split.
  - rewrite count_app, count_none by (by apply quiet_no_create). exact Hc.
  - intros ns pod err [Hin|Hin]%elem_of_app Hs.
    + rewrite Forall_forall in Hq. by apply Hq in Hin as [_ ?].
    + apply Forall_app. split; [|by eapply Hd]. eapply Forall_impl; [exact Hq|]. by intros ? [? ?].
Qed.

Lemma one_create_only ns N t : creates_only ns N t → one_create t.
Proof. intros (Hd & Hc & _). by split. Qed.

(** Whatever was deleted before, a special pod may be created. *)
Lemma one_create_special t1 t2 ns :
  Forall no_create t1 →
  Forall no_create t2 ∨ creates_only ns (λ pod, pod_has pod GaleraRoleLabel RoleSpecial = true) t2 →
  one_create (t1 ++ t2).
Proof.
  intros Hn [Hn'|(Hd & Hc & Hp)]; [by apply one_create_none, Forall_app|]. split.
  - rewrite count_app, count_none by done. exact Hc.
  - intros ns' pod err [Hin|Hin]%elem_of_app Hs.
    + rewrite Forall_forall in Hn. by apply Hn in Hin.
    + apply Hp in Hin as [_ Hin]. congruence.
Qed.

Lemma shape_special spec name cluster ns addresses rev state init creds owner pod :
  pod_shape spec name cluster ns RoleSpecial addresses rev state init creds owner pod →
  pod_has pod GaleraRoleLabel RoleSpecial = true.
Proof.
  intros (_ & Hl & _). unfold pod_has, pod_label. rewrite Hl. apply bool_decide_eq_true.
  apply (PodLabels_role cluster ns RoleSpecial rev state). unfold pod_roles. set_solver.
Qed.

Lemma specialStep_creates g next addresses creds m unused sc env h o t :
  specialStep gc g next addresses creds m unused sc env h = (o, t) →
  Forall no_create t ∨
  creates_only g.(g_Namespace) (λ pod, pod_has pod GaleraRoleLabel RoleSpecial = true) t.
Proof.
  unfold specialStep. destruct (spec_Special (g_Spec g)) as [sp|].
  2:{ intros E. left. eapply emits_run; [|exact E]. quiet_tac. }
  unfold manageSpecialNode. destruct (m_special m) as [pod|].
  { intros E. left. eapply emits_run; [|exact E]. unfold upgradeNode. quiet_tac. }
  unfold createSpecial. intros [(name & t1 & t2 & E1 & E & ->)|(_ & o' & E & _)]%bind_inv; right.
  2:{ apply creates_only_none. eapply emits_run; [apply newPodName_emits|exact E]. }
  apply creates_only_app; [by eapply emits_run; [apply newPodName_emits|exact E1]|].
  apply bind_inv in E as [([found rev] & t3 & t4 & E3 & E & ->)|(_ & o' & E & _)].
  2:{ apply creates_only_none. eapply emits_run; [apply claimRevision_emits|exact E]. }
  apply creates_only_app; [by eapply emits_run; [apply claimRevision_emits|exact E3]|].
  apply bind_inv in E as [(pod & t5 & t6 & E5 & E & ->)|(_ & o' & E & _)];
    unfold pureM in *; simplify_eq; [|by apply creates_only_none].
  cbn [app]. eapply CreatePodAndClaim_only; [|exact E]. eapply shape_special, newGaleraPod_shape. done.
Qed.

Lemma consider_no_create g ready unready claims unused n cur next creds :
  emitsS no_create (considerPodAndClaimTermination g ready unready claims unused n cur next creds).
Proof.
  assert (emits no_create (forceDeletePods g unready)) as Hf
    by (induction unready; cbn [forceDeletePods]; quiet_tac).
  unfold considerPodAndClaimTermination, scaleDown. repeat first [exact Hf|progress quiet_tac].
Qed.

Lemma deletePodForUpgrade_no_create g pods cur next creds sc :
  emitsS no_create (deletePodForUpgrade g pods cur next creds sc).
Proof.
  unfold deletePodForUpgrade. case_decide; [apply emitsS_ret|].
  induction pods; cbn [upgradeFirst]; quiet_tac.
Qed.

Lemma settleCluster_creates ng cur next addresses claims creds m unused sc st env h o st' t :
  settleCluster gc ng cur next addresses claims creds m unused sc st env h = (o, st', t) →
  one_create t.
Proof.
  unfold settleCluster. intros [(n & st1 & t1 & t2 & [-> E1]%lift_inv & E & ->)
                               |(_ & o' & [_ E]%lift_inv & _)]%SM_bind_inv; unfold pureM in *; simplify_eq;
    [|by apply one_create_none]. cbn [app].
  apply SM_bind_inv in E as [(? & st2 & t3 & t4 & E3 & E & ->)|(_ & o' & E & _)].
  2:{ apply one_create_none. eapply emitsS_run; [apply consider_no_create|exact E]. }
  assert (Forall no_create t3) as Hn3 by (eapply emitsS_run; [apply consider_no_create|exact E3]).
  apply SM_bind_inv in E as [(action & st3 & t5 & t6 & E5 & E & ->)|(_ & o' & E & _)].
  2:{ apply one_create_none, Forall_app. split; [done|].
      eapply emitsS_run; [apply deletePodForUpgrade_no_create|exact E]. }
  rewrite app_assoc. apply (one_create_special _ _ ng.(g_Namespace)).
  { apply Forall_app. split; [done|]. eapply emitsS_run; [apply deletePodForUpgrade_no_create|exact E5]. }
  destruct action; [injection E as _ _ <-; by left|].
  apply lift_inv in E as [_ E]. by eapply specialStep_creates.
Qed.

Lemma growCluster_creates ng cur next addresses creds m unused st env h o st' t :
  growCluster gc ng cur next addresses creds m unused st env h = (o, st', t) → one_create t.
Proof.
  unfold growCluster.
  intros [(st0 & st1 & t1 & t2 & [= <- <- <-] & E & ->)|(_ & ? & [=] & ?)]%SM_bind_inv; [|by subst].
  apply checkUnready_creates in E as [E|[init E]]; [by apply one_create_none|].
  by eapply one_create_only.
Qed.

Lemma quiet_pure {A} (o : outcome A) : emitsS quiet (lift (pureM o)).
Proof. apply emitsS_lift, emits_pure. Qed.

Lemma actOnMembers_creates env cg ng cur next claims creds m :
  reaches env (λ _ _ t, one_create t) (actOnMembers gc cg ng cur next claims creds m).
Proof.
  unfold actOnMembers. cbn [getMembersName].
  apply reaches_quiet; [apply emitsS_modify|intros _ _ _ _ _ _].
  apply reaches_quiet; [apply setLabels_quiet|intros _ _ _ _ _ _].
  destruct (m_terminating m); [apply reaches_end, emitsS_ret|].
  apply reaches_quiet; [apply quiet_pure|intros ? _ _ _ _ _].
  apply reaches_quiet; [apply quiet_pure|intros ? _ _ _ _ _]. cbv zeta.
  apply reaches_quiet; [apply setStatus_quiet|intros _ _ _ _ _ _].
  apply reaches_quiet; [quiet_tac|intros sc _ _ _ _ _].
  apply reaches_bind.
  { apply emitsS_lift. eapply (emits_impl no_create); [|done].
    unfold deleteNoMatchingClaimsAndListUnusedClaims. generalize (@nil string) as l.
    induction claims; intros l; cbn [unusedClaims]; quiet_tac. }
  intros [unused []] st h st' t [_ E]%lift_inv; [by right|].
  apply unusedClaims_quiet in E as ->. left. split; [constructor|].
  apply reaches_quiet; [quiet_tac|intros order _ _ _ _ _]. cbv zeta.
  apply reaches_bind.
  { apply emitsS_lift. induction (m_unready m); cbn [checkMysqlUpgrade]; unfold upgradeNode; quiet_tac. }
  intros [] st2 h2 st2' t2 [_ E2]%lift_inv; [by right|]. left. split.
  { apply checkMysqlUpgrade_inv in E2 as (t0 & t1 & -> & Hr & [(-> & _)|(p & _ & _ & E2)]).
    - rewrite app_nil_r. eapply Forall_impl; [exact Hr|]. by intros [].
    - by apply bind_ok_inv in E2 as (? & ? & ? & _ & [=] & _). }
  apply reaches_quiet; [apply quiet_pure|intros n _ _ _ _ _].
  case_decide; apply reaches_here; intros st3 h3 o st4 t3 E3;
    [by eapply growCluster_creates|by eapply settleCluster_creates].
Qed.

(** C6: a round creates at most one pod, and when it creates one that is not the
    special node it deletes nothing at all, pod or claim: a member is added only
    in a round that has found nothing to remove. *)
Theorem runGalera_creates (cg ng : Galera) (cur next : string) (pods : list Pod)
    (claims : list PersistentVolumeClaim) (creds : gmap string string) (st : GaleraStatus)
    (env : Env) (h : history) :
  let '(o, st', t) := runGalera gc cg ng cur next pods claims creds st env h in
  (count is_podCreate t ≤ 1)%nat ∧
  (∀ ns pod err, EvPodCreate ns pod err ∈ t → pod_has pod GaleraRoleLabel RoleSpecial = false →
     Forall (λ e, is_delete e = false) t).
Proof.
  destruct (runGalera gc cg ng cur next pods claims creds st env h) as [[o st'] t] eqn:E.
  change (one_create t). unfold runGalera in E. destruct (podWithoutClaims pods claims) as [pod|].
  { apply one_create_none. eapply emitsS_run; [|exact E]. quiet_tac. }
  apply SM_bind_inv in E as [([m|] & st1 & t1 & t2 & E1 & E & ->)|(_ & o' & E & _)].
  - apply classify_quiet in E1. apply one_create_quiet; [done|].
    apply actOnMembers_creates in E as [E|(t3 & t4 & -> & Hq & Hk)]; [by apply one_create_none|].
    by apply one_create_quiet.
  - injection E as _ _ <-. rewrite app_nil_r. apply one_create_none.
    eapply emitsS_run; [apply classify_no_create|exact E1].
  - apply one_create_none. eapply emitsS_run; [apply classify_no_create|exact E].
Qed.
End creates.

(** ** Where the classification puts a pod *)

(** A special pod is neither a backup nor a reader, as the operator labels it. *)
Definition special_plain (pod : Pod) : Prop :=
  pod_has pod GaleraRoleLabel RoleSpecial = true →
  pod_has pod GaleraBackupLabel "true" = false ∧ pod_has pod GaleraReaderLabel "true" = false.

(** In one list at most *)
Definition placed (pod : Pod) (m m' : members) : Prop :=
  let place := (m'.(m_ready), m'.(m_unready), m'.(m_special)) in
  place = (m.(m_ready), m.(m_unready), m.(m_special)) ∨
  place = (m.(m_ready) ++ [pod], m.(m_unready), m.(m_special)) ∨
  place = (m.(m_ready), m.(m_unready) ++ [pod], m.(m_special)) ∨
  place = (m.(m_ready), m.(m_unready), Some pod).

(** Members that come from a list of pods, and ready ones that are nothing else *)
Definition separated (seen : list Pod) (m : members) : Prop :=
  (∀ p, p ∈ m.(m_ready) ∨ p ∈ m.(m_unready) ∨ m.(m_special) = Some p → p ∈ seen) ∧
  (∀ p q, p ∈ m.(m_ready) → q ∈ m.(m_unready) ∨ m.(m_special) = Some q → p.(pod_Name) ≠ q.(pod_Name)).

Lemma separated_placed seen pod m m' :
  separated seen m → placed pod m m' → pod.(pod_Name) ∉ pod_Name <$> seen →
  separated (seen ++ [pod]) m'.
Proof.
  intros [Hs Hd] Hp Hn.
  assert (∀ p, p ∈ seen → p.(pod_Name) ≠ pod.(pod_Name)) as Hne.
  { intros p Hin E. apply Hn. rewrite <- E. by apply list_elem_of_fmap_2. }
  unfold separated. destruct Hp as [[= -> -> ->]|[[= -> -> ->]|[[= -> -> ->]|[= -> -> ->]]]];
    (split; [intros p; rewrite !elem_of_app, ?list_elem_of_singleton; naive_solver|]);
    intros p q; rewrite ?elem_of_app, ?list_elem_of_singleton; naive_solver.
Qed.

Section classification.
Context `{GaleraPodControl} `{PodUtil}.

Lemma classifyUnready_placed pod m : placed pod m (classifyUnready pod m).
Proof.
  unfold classifyUnready, placed. destruct (pod_has pod GaleraRoleLabel RoleSpecial),
    (pod_has pod GaleraBackupLabel "true"); cbn; auto.
Qed.

Lemma primaryRole_placed g pod m st env h added m' st' t :
  primaryRole g pod m st env h = (Ok (Some (added, m')), st', t) →
  m' = m ∨ added = false ∧ m' = set_special pod m ∧ pod_has pod GaleraRoleLabel RoleSpecial = true.
Proof.
  unfold primaryRole.
  intros (st0 & ? & ? & ? & [= <- <- <-] & E & _)%SM_bind_ok_inv.
  destruct (pod_label pod GaleraRoleLabel) as [role|] eqn:Hr; [|injection E as _ <- _; by left].
  case_decide.
  { apply SM_bind_ok_inv in E as (? & ? & ? & ? & _ & E & _). injection E as _ <- _. by left. }
  case_decide.
  { apply SM_bind_ok_inv in E as (? & ? & ? & ? & _ & E & _). injection E as _ <- _. by left. }
  case_decide as Hs.
  - apply SM_bind_ok_inv in E as (? & ? & ? & ? & _ & E & _). case_decide;
      apply SM_bind_ok_inv in E as (? & ? & ? & ? & _ & E & _); [|discriminate E].
    injection E as <- <- _. right. split_and!; [done..|]. unfold pod_has. rewrite Hr, Hs.
    by apply bool_decide_eq_true.
  - by apply SM_bind_ok_inv in E as (? & ? & ? & ? & _ & [=] & _).
Qed.

Lemma primaryBackup_placed g pod added m st env h added' m' st' t :
  primaryBackup g pod added m st env h = (Ok (Some (added', m')), st', t) →
  m_ready m' = m_ready m ∧ m_unready m' = m_unready m ∧ m_special m' = m_special m ∧
  (pod_has pod GaleraBackupLabel "true" = false → added' = added).
Proof.
  unfold primaryBackup. destruct (pod_has pod GaleraBackupLabel "true").
  - intros (st0 & ? & ? & ? & [= <- <- <-] & E & _)%SM_bind_ok_inv. case_decide;
      apply SM_bind_ok_inv in E as (? & ? & ? & ? & _ & E & _); [|discriminate E].
    by injection E as _ <- _.
  - by intros [= <- <- _].
Qed.

Lemma classifyPod_placed g cur next creds pod m st env h m' st' t :
  special_plain pod → classifyPod g cur next creds pod m st env h = (Ok (Some m'), st', t) →
  placed pod m m'.
Proof.
  intros Hsp (? & ? & ? & ? & _ & E & _)%SM_bind_ok_inv.
  destruct (isTerminating pod); [injection E as <- _; by left|].
  apply SM_bind_ok_inv in E as (r & ? & ? & ? & E & E' & _).
  destruct r as [m1|]; [|discriminate E'].
  apply SM_bind_ok_inv in E' as (? & ? & ? & ? & _ & E' & _). injection E' as <- _.
  enough (placed pod m m1) as Hp by exact Hp.
  destruct (isRunningAndReady pod); [|injection E as <- _; apply classifyUnready_placed].
  apply SM_bind_ok_inv in E as (primary & ? & ? & ? & _ & E & _).
  destruct (primary : bool); [|injection E as <- _; apply classifyUnready_placed].
  apply SM_bind_ok_inv in E as ([[added m2]|] & ? & ? & ? & E2 & E & _); [|discriminate E].
  apply SM_bind_ok_inv in E as ([[added' m3]|] & ? & ? & ? & E3 & E & _); [|discriminate E].
  injection E as <- _. apply primaryRole_placed in E2. apply primaryBackup_placed in E3.
  unfold placed. destruct E3 as (Hr & Hu & Hs & Ha).
  destruct E2 as [-> |(-> & -> & Hsr)].
  - destruct (added' || _); cbn; rewrite Hr, Hu, Hs; auto.
  - destruct (Hsp Hsr) as [Hb Hre]. rewrite Ha, Hre by done. cbn. rewrite Hr, Hu, Hs. cbn. auto.
Qed.

Lemma classify_separated g cur next creds pods seen m st env h m' st' t :
  Forall special_plain pods → NoDup (pod_Name <$> seen ++ pods) → separated seen m →
  classify g cur next creds pods m st env h = (Ok (Some m'), st', t) →
  separated (seen ++ pods) m'.
Proof.
  intros HF. revert seen m st h st' t. induction HF as [|pod l Hp _ IH]; intros seen m st h st' t Hnd Hs;
    cbn [classify]; [rewrite app_nil_r; by intros [= <- _ _]|].
  intros ([m1|] & st1 & ? & ? & E1 & E & _)%SM_bind_ok_inv; [|discriminate E].
  rewrite cons_middle, app_assoc. eapply IH; [|  |exact E].
  - by rewrite <- app_assoc.
  - eapply separated_placed; [done|by eapply classifyPod_placed|].
    rewrite fmap_app in Hnd. apply NoDup_app in Hnd as (_ & Hd & _). intros Hin.
    apply (Hd _ Hin). apply list_elem_of_here.
Qed.
End classification.

(** ** The ready members are protected *)

(** What a computation does to the status, however it ends *)
Definition allS {A} (R : relation GaleraStatus) (m : SM A) : Prop :=
  ∀ st env h o st' t, m st env h = (o, st', t) → R st st'.

Definition same_ready (st st' : GaleraStatus) : Prop :=
  st'.(st_Members).(mem_Ready) = st.(st_Members).(mem_Ready).

#[global] Instance same_ready_preorder : PreOrder same_ready.
Proof. split; unfold same_ready; congruence. Qed.

Lemma allS_bind {A B} R `{!PreOrder R} (m : SM A) (f : A → SM B) :
  allS R m → (∀ a, allS R (f a)) → allS R (m ≫= f).
Proof.
  intros Hm Hf st env h o st' t [(a & st1 & t1 & t2 & E1 & E2 & ->)|(_ & o' & E & _)]%SM_bind_inv.
  - etrans; [by eapply Hm|by eapply Hf].
  - by eapply Hm.
Qed.

Lemma allS_ret {A} R `{!PreOrder R} (a : A) : allS R (mret a : SM A).
Proof. intros st env h o st' t [= _ <- _]. reflexivity. Qed.

Lemma allS_lift {A} R `{!PreOrder R} (m : M A) : allS R (lift m).
Proof. intros st env h o st' t [-> _]%lift_inv. reflexivity. Qed.

Lemma allS_getStatus R `{!PreOrder R} : allS R getStatus.
Proof. intros st env h o st' t [= _ <- _]. reflexivity. Qed.

Lemma allS_modify (R : relation GaleraStatus) f : (∀ st, R st (f st)) → allS R (modify f).
Proof. intros Hf st env h o st' t [= _ <- _]. apply Hf. Qed.

Lemma setGaleraCondition_members c gs : (setGaleraCondition c gs).(st_Members) = gs.(st_Members).
Proof. unfold setGaleraCondition. by repeat case_match. Qed.

Lemma ClearCondition_members c gs : (ClearCondition c gs).(st_Members) = gs.(st_Members).
Proof. unfold ClearCondition. by repeat case_match. Qed.

Ltac ready_modify :=
  intros ?; unfold same_ready, uncountPod, countPod, SetScalingUpCondition, SetScalingDownCondition,
    SetFailedCondition, SetUpgradingCondition, SetReadyCondition, SetRestoringCondition;
  rewrite ?ClearCondition_members, ?setGaleraCondition_members; repeat case_match; done.

Ltac ready_tac :=
  repeat first
    [ match goal with
      | |- allS _ (_ ≫= _) => apply allS_bind; [apply _| |intros ?]
      | |- allS _ (lift _) => apply allS_lift; apply _
      | |- allS _ (mret _) => apply allS_ret; apply _
      | |- allS _ getStatus => apply allS_getStatus; apply _
      | |- allS _ (patch _ _ _) => apply allS_lift; apply _
      end
    | match goal with |- allS _ (modify _) => apply allS_modify; ready_modify end
    | progress unfold setCondition
    | progress cbv zeta
    | match goal with |- allS _ (match ?x with _ => _ end) => destruct x eqn:? end ].

Section ready.
Context `{GaleraPodControl} `{PodUtil} `{RetryLib} `{RevisionLib} `{Regexp}.
Context (gc : defaultGaleraControl).

Lemma setLabels_ready g pods : allS same_ready (setLabels g pods).
Proof.
  assert (∀ l, allS same_ready (setBackupWriters g l)) as Hb
    by (induction l; cbn [setBackupWriters]; ready_tac; assumption).
  assert (∀ l, allS same_ready (removeWriterReader g l)) as Hr
    by (induction l; cbn [removeWriterReader]; ready_tac; assumption).
  unfold setLabels, setLabelsMany, setLabelsTwoNoWriter.
  repeat first [apply Hb|apply Hr|progress ready_tac].
Qed.

Lemma classify_ready g cur next creds pods m :
  allS same_ready (classify g cur next creds pods m).
Proof.
  revert m. induction pods as [|p l IH]; intros m; cbn [classify]; [apply allS_ret, _|].
  apply allS_bind; [apply _| |intros []; [apply IH|apply allS_ret, _]].
  unfold classifyPod, classifyPrimary, primaryRole, primaryBackup. ready_tac.
Qed.

Lemma checkUnready_ready g unready chosen cur next role addresses creds podSuffixes unused :
  allS same_ready (checkUnreadyPodBeforeCreatingPod gc g unready chosen cur next role addresses
                      creds podSuffixes unused).
Proof.
  assert (allS same_ready (examineUnready g unready cur next)) as He
    by (induction unready; cbn [examineUnready]; ready_tac; assumption).
  unfold checkUnreadyPodBeforeCreatingPod, createPod. repeat first [apply He|progress ready_tac].
Qed.

Lemma settleCluster_ready ng cur next addresses claims creds m unused sc :
  allS same_ready (settleCluster gc ng cur next addresses claims creds m unused sc).
Proof.
  assert (∀ l, allS same_ready (upgradeFirst ng l next creds sc)) as Hu
    by (induction l; cbn [upgradeFirst]; ready_tac; assumption).
  unfold settleCluster, considerPodAndClaimTermination, scaleDown, deletePodForUpgrade.
  repeat first [apply Hu|progress ready_tac].
Qed.

Lemma setStatus_ready g ready unready newImage :
  allS same_ready (setStatusPhaseAndConditions g ready unready newImage).
Proof. unfold setStatusPhaseAndConditions, setFailed, setScaling. ready_tac. Qed.

(** A round reports the ready members it has found, however it ends. *)
Lemma actOnMembers_ready cg ng cur next claims creds m st env h o st' t :
  actOnMembers gc cg ng cur next claims creds m st env h = (o, st', t) →
  st'.(st_Members).(mem_Ready) = pod_Name <$> m.(m_ready).
Proof.
  unfold actOnMembers. cbn [getMembersName].
  intros [(? & st1 & t1 & t2 & [= _ <- _] & E & _)|(_ & ? & [=] & ?)]%SM_bind_inv; [|by subst].
  match type of E with ?f _ _ _ = _ => assert (allS same_ready f) as Hr end.
  { unfold growCluster. repeat first [apply setLabels_ready|apply setStatus_ready
      |apply checkUnready_ready|apply settleCluster_ready|progress ready_tac]. }
  by apply Hr in E.
Qed.
End ready.

Section protected.
Context `{GaleraPodControlLaws} `{PodUtil} `{RetryLib} `{RevisionLib} `{Regexp}.
Context (gc : defaultGaleraControl).

Lemma quiet_spared names e : quiet e → spared names e.
Proof. unfold spared. intros [Hd _]. destruct e; cbn in *; congruence || tauto. Qed.

Section names.
Context (names : list string).

Lemma guardedS_quiet {A} (m : SM A) : emitsS quiet m → guardedS names m.
Proof. intros Hm. apply guardedS_emits. eapply emitsS_impl; [exact Hm|]. apply quiet_spared. Qed.

Lemma spared_podDelete ns name e : name ∉ names → ev_deletePod ns name e → spared names e.
Proof. unfold spared. intros Hn He. destruct e; cbn in *; try tauto. by destruct He as [_ ->]. Qed.

Lemma spared_podDeleteAll ns name e : name ∉ names → ev_deletePodAndClaims ns name e → spared names e.
Proof. unfold spared. intros Hn He. destruct e; cbn in *; try tauto. by destruct He as [_ ->]. Qed.

Lemma upgradeNode_spared g pod rev creds :
  pod.(pod_Name) ∉ names → emits (spared names) (upgradeNode g pod rev creds).
Proof.
  intros Hn. unfold upgradeNode. apply emits_bind; [quiet_tac|intros _].
  apply emits_bind; [|intros _; quiet_tac].
  eapply emits_impl; [apply ForceDeletePod_emits|]. intros e. by apply spared_podDelete.
Qed.

Lemma checkMysqlUpgrade_spared g unready creds :
  (∀ p, p ∈ unready → p.(pod_Name) ∉ names) → emits (spared names) (checkMysqlUpgrade g unready creds).
Proof.
  intros Hu. induction unready as [|p l IH]; cbn [checkMysqlUpgrade]; [apply emits_ret|].
  assert (emits (spared names) (checkMysqlUpgrade g l creds)) as Hl
    by (apply IH; intros q Hq; apply Hu; set_solver).
  destruct (isRunningAndReady p); [|exact Hl]. apply emits_bind; [quiet_tac|intros [found rev]].
  case_decide; [|exact Hl]. apply emits_bind; [apply upgradeNode_spared, Hu; set_solver|intros _].
  apply emits_ret.
Qed.

Lemma growCluster_spared ng cur next addresses creds m unused :
  (∀ p, p ∈ m.(m_unready) → p.(pod_Name) ∉ names) →
  emitsS (spared names) (growCluster gc ng cur next addresses creds m unused).
Proof.
  intros Hu. unfold growCluster. apply emitsS_bind; [apply emitsS_getStatus|intros st].
  cbv zeta. unfold checkUnreadyPodBeforeCreatingPod. apply emitsS_bind; [apply emitsS_getStatus|intros st'].
  apply emitsS_bind.
  - intros st1 env h. destruct (examineUnready ng (m_unready m) cur next st1 env h) as [[o st2] t] eqn:E.
    apply examineUnready_inv in E
      as [(_ & _ & _ & ->)|(l1 & p & l2 & Hl & _ & _ & _ & Hd & _)]; [constructor|].
    eapply Forall_impl; [exact Hd|]. intros e. apply spared_podDelete, Hu. rewrite Hl. set_solver.
  - intros []; [apply emitsS_ret|]. intros st1 env h.
    destruct (createPod gc ng _ cur (choseRole st) addresses _ creds (m_podSuffixes m) unused st1 env h)
      as [[o st2] t] eqn:E. apply createPod_inv in E as [(Hd & _) _].
    eapply Forall_impl; [exact Hd|]. unfold spared. intros []; cbn; congruence || tauto.
Qed.

Lemma specialStep_spared ng next addresses creds m unused sc :
  (∀ p, m.(m_special) = Some p → p.(pod_Name) ∉ names) →
  emits (spared names) (specialStep gc ng next addresses creds m unused sc).
Proof.
  intros Hs. unfold specialStep, manageSpecialNode.
  destruct (spec_Special (g_Spec ng)), (m_special m) as [pod|] eqn:Hm; try apply emits_ret.
  - specialize (Hs pod eq_refl).
    assert (emits (spared names) (recreatingFailedPod ng "Special Pod" pod;; ForceDeletePod ng pod)).
    { apply emits_bind; [quiet_tac|intros _]. eapply emits_impl; [apply ForceDeletePod_emits|].
      intros e. by apply spared_podDelete. }
    assert (∀ rev, emits (spared names) (upgradeNode ng pod rev creds)) by (intros; by apply upgradeNode_spared).
    assert (emits (spared names) (DeleteSyncedPodForUpgrade ng pod (user creds) (password creds) sc)).
    { eapply emits_impl; [apply DeleteSyncedPodForUpgrade_emits|]. intros e. by apply spared_podDeleteAll. }
    assert (emits (spared names) (GetClaimRevision ng.(g_Namespace) pod.(pod_Name))) by quiet_tac.
    repeat first [solve [auto]|emits_step|apply emits_ret].
  - assert (emits (spared names) (newPodName ng (m_podSuffixes m) unused)).
    { eapply emits_impl; [apply newPodName_emits|]. unfold spared. intros e [He| ->]; [destruct e; cbn in *; tauto|].
      tauto. }
    unfold createSpecial, spared. quiet_tac.
  - assert (emits (spared names) (ForceDeletePodAndClaim ng pod)).
    { eapply emits_impl; [apply ForceDeletePodAndClaim_emits|]. intros e. by apply spared_podDeleteAll, Hs. }
    repeat first [solve [auto]|emits_step|apply emits_ret].
Qed.

Lemma settleCluster_guarded ng cur next addresses claims creds m unused sc :
  (∀ p, p ∈ m.(m_unready) → p.(pod_Name) ∉ names) →
  (∀ p, m.(m_special) = Some p → p.(pod_Name) ∉ names) →
  guardedS names (settleCluster gc ng cur next addresses claims creds m unused sc).
Proof.
  intros Hu Hs. unfold settleCluster.
  apply guardedS_bind; [apply guardedS_quiet, quiet_pure|intros n].
  apply guardedS_bind; [by apply considerPodAndClaimTermination_guarded|intros _].
  apply guardedS_bind.
  - unfold deletePodForUpgrade. apply guardedS_if; [apply guardedS_emits, emitsS_ret|].
    intros st env h. destruct (upgradeFirst ng (m_ready m) next creds sc st env h) as [[o st'] t] eqn:E.
    apply upgradeFirst_inv in E as [(_ & _ & _ & ->)|(l1 & p & l2 & _ & _ & _ & _ & E)];
      [by apply guarded_none|].
    destruct (isHealthy p); [|by destruct E as (_ & _ & ->); apply guarded_none].
    destruct E as [-> _]. eapply guarded_synced;
      [apply DeleteSyncedPodForUpgrade_synced|apply DeleteSyncedPodForUpgrade_emits].
  - intros []; apply guardedS_emits; [apply emitsS_ret|]. by apply emitsS_lift, specialStep_spared.
Qed.

Lemma actOnMembers_guarded cg ng cur next claims creds m :
  (∀ p, p ∈ m.(m_unready) → p.(pod_Name) ∉ names) →
  (∀ p, m.(m_special) = Some p → p.(pod_Name) ∉ names) →
  guardedS names (actOnMembers gc cg ng cur next claims creds m).
Proof.
  intros Hu Hs. unfold actOnMembers. cbn [getMembersName].
  apply guardedS_bind; [apply guardedS_quiet, emitsS_modify|intros _].
  apply guardedS_bind; [apply guardedS_quiet, setLabels_quiet|intros _].
  destruct (m_terminating m); [apply guardedS_quiet, emitsS_ret|].
  apply guardedS_bind; [apply guardedS_quiet, quiet_pure|intros ?].
  apply guardedS_bind; [apply guardedS_quiet, quiet_pure|intros ?]. cbv zeta.
  apply guardedS_bind; [apply guardedS_quiet, setStatus_quiet|intros _].
  apply guardedS_bind; [apply guardedS_quiet; quiet_tac|intros sc].
  apply guardedS_bind; [|intros [unused []]; [apply guardedS_quiet, emitsS_ret|]].
  { apply guardedS_emits, emitsS_lift. unfold deleteNoMatchingClaimsAndListUnusedClaims.
    generalize (@nil string) as l. induction claims; intros l; cbn [unusedClaims]; quiet_tac. }
  apply guardedS_bind; [apply guardedS_quiet; quiet_tac|intros order]. cbv zeta.
  apply guardedS_bind; [|intros []; [apply guardedS_quiet, emitsS_ret|]].
  { apply guardedS_emits, emitsS_lift. by apply checkMysqlUpgrade_spared. }
  apply guardedS_bind; [apply guardedS_quiet, quiet_pure|intros n].
  apply guardedS_if; [|by apply settleCluster_guarded].
  by apply guardedS_emits, growCluster_spared.
Qed.
Lemma emitsS_pure_bind {A B} P (a : A) (f : A → SM B) :
  emitsS P (f a) → emitsS P (lift (pureM (Ok a)) ≫= f).
Proof. intros Hf st env h. change (lift (pureM (Ok a))) with (mret a : SM A). rewrite SM_ret_bind. apply Hf. Qed.

(** With too few ready members, the round does not come to the deletion of one. *)
Lemma actOnMembers_spared cg ng cur next claims creds m n :
  replicas cg = Ok n → len32 m.(m_ready) < n →
  (∀ p, p ∈ m.(m_unready) → p.(pod_Name) ∉ names) →
  emitsS (spared names) (actOnMembers gc cg ng cur next claims creds m).
Proof.
  intros Hn Hl Hu. unfold actOnMembers. cbn [getMembersName].
  assert (∀ {A} (x : SM A), emitsS quiet x → emitsS (spared names) x) as Hq
    by (intros A x Hx; eapply emitsS_impl; [exact Hx|apply quiet_spared]).
  apply emitsS_bind; [apply Hq, emitsS_modify|intros _].
  apply emitsS_bind; [apply Hq, setLabels_quiet|intros _].
  destruct (m_terminating m); [apply emitsS_ret|].
  apply emitsS_bind; [apply Hq, quiet_pure|intros ?].
  apply emitsS_bind; [apply Hq, quiet_pure|intros ?]. cbv zeta.
  apply emitsS_bind; [apply Hq, setStatus_quiet|intros _].
  apply emitsS_bind; [apply Hq; quiet_tac|intros sc].
  apply emitsS_bind; [|intros [unused []]; [apply emitsS_ret|]].
  { apply emitsS_lift. unfold deleteNoMatchingClaimsAndListUnusedClaims.
    generalize (@nil string) as l. induction claims; intros l; cbn [unusedClaims]; quiet_tac. }
  apply emitsS_bind; [apply Hq; quiet_tac|intros order]. cbv zeta.
  apply emitsS_bind; [by apply emitsS_lift, checkMysqlUpgrade_spared|intros []; [apply emitsS_ret|]].
  rewrite Hn. apply emitsS_pure_bind. rewrite decide_True by done. by apply growCluster_spared.
Qed.
End names.

(** What a round finds, or that it stops without a ready member *)
Lemma runGalera_cases cg ng cur next pods claims creds st env h o st' t :
  NoDup (pod_Name <$> pods) → Forall special_plain pods → st.(st_Members).(mem_Ready) = [] →
  runGalera gc cg ng cur next pods claims creds st env h = (o, st', t) →
  st'.(st_Members).(mem_Ready) = [] ∨
  ∃ m st1 h1 t1 t2, t = t1 ++ t2 ∧ Forall quiet t1 ∧
    actOnMembers gc cg ng cur next claims creds m st1 env h1 = (o, st', t2) ∧
    st'.(st_Members).(mem_Ready) = pod_Name <$> m.(m_ready) ∧
    (∀ p, p ∈ m.(m_unready) ∨ m.(m_special) = Some p → p.(pod_Name) ∉ pod_Name <$> m.(m_ready)).
Proof.
  intros Hnd Hsp Hst E. unfold runGalera in E. destruct (podWithoutClaims pods claims) as [pod|].
  { apply lift_inv in E as [-> _]. by left. }
  apply SM_bind_inv in E as [([m|] & st1 & t1 & t2 & E1 & E & ->)|(_ & o' & E & _)].
  - right. exists m, st1, (h ++ t1), t1, t2. split_and!; [done| |done| |].
    + by apply classify_quiet in E1.
    + by eapply actOnMembers_ready.
    + apply (classify_separated _ _ _ _ _ []) in E1 as [_ Hd]; [|done|done|].
      2:{ split; cbn; [intros p|intros p q Hp]; rewrite ?elem_of_nil in *; naive_solver. }
      intros p Hp (q & Hpq & Hq)%list_elem_of_fmap. by apply (Hd q p).
  - left. apply classify_ready in E1. injection E as _ <- _. unfold same_ready in E1. by rewrite E1.
  - left. apply classify_ready in E. unfold same_ready in E. by rewrite E.
Qed.

(** C1: a pod that a round reports as a ready member is never deleted in that
    round before its own node has said that it is synced, by whichever path the
    round takes and whatever the calls return: scale down, upgrade, special node,
    claims, failed pods. *)
Theorem runGalera_protects (cg ng : Galera) (cur next : string) (pods : list Pod)
    (claims : list PersistentVolumeClaim) (creds : gmap string string) (st : GaleraStatus)
    (env : Env) (h : history) :
  NoDup (pod_Name <$> pods) → Forall special_plain pods → st.(st_Members).(mem_Ready) = [] →
  let '(o, st', t) := runGalera gc cg ng cur next pods claims creds st env h in
  guarded st'.(st_Members).(mem_Ready) t.
Proof.
  intros Hnd Hsp Hst.
  destruct (runGalera gc cg ng cur next pods claims creds st env h) as [[o st'] t] eqn:E.
  apply runGalera_cases in E as [-> |(m & st1 & h1 & t1 & t2 & -> & Hq & E & -> & Hd)]; try done.
  - apply guarded_none, Forall_forall. intros [] _; cbn; try tauto. by intros ?%elem_of_nil.
  - apply guarded_app.
    + apply guarded_none. eapply Forall_impl; [exact Hq|]. apply quiet_spared.
    + pose proof (actOnMembers_guarded (pod_Name <$> m_ready m) cg ng cur next claims creds m) as Hg.
      assert (guardedS (pod_Name <$> m_ready m) (actOnMembers gc cg ng cur next claims creds m)) as Hg'
        by (apply Hg; auto).
      specialize (Hg' st1 env h1). by rewrite E in Hg'.
Qed.

(** C11: while fewer members are ready than the cluster has replicas, a round
    deletes none of those that are ready, synced or not: neither the scale
    down nor the upgrade is reached, only failed pods and pods whose data were
    upgraded are replaced. *)
Theorem runGalera_keeps_members (cg ng : Galera) (cur next : string) (pods : list Pod)
    (claims : list PersistentVolumeClaim) (creds : gmap string string) (st : GaleraStatus)
    (env : Env) (h : history) (n : Z) :
  NoDup (pod_Name <$> pods) → Forall special_plain pods → st.(st_Members).(mem_Ready) = [] →
  replicas cg = Ok n →
  let '(o, st', t) := runGalera gc cg ng cur next pods claims creds st env h in
  let ready := st'.(st_Members).(mem_Ready) in
  len32 ready < n → ∀ ns name err, EvPodDelete ns name err ∈ t → name ∉ ready.
Proof.
  intros Hnd Hsp Hst Hn.
  destruct (runGalera gc cg ng cur next pods claims creds st env h) as [[o st'] t] eqn:E.
  cbv zeta. intros Hl ns name err Hin Hr.
  apply runGalera_cases in E as [Hnil|(m & st1 & h1 & t1 & t2 & -> & Hq & E & Hm & Hd)]; try done.
  { rewrite Hnil in Hr. by apply elem_of_nil in Hr. }
  rewrite Hm in Hl, Hr. unfold len32 in Hl. rewrite length_fmap in Hl.
  assert (Forall (spared (pod_Name <$> m_ready m)) (t1 ++ t2)) as Hs.
  { apply Forall_app. split; [eapply Forall_impl; [exact Hq|apply quiet_spared]|].
    eapply emitsS_run; [|exact E]. eapply actOnMembers_spared; [done|done|auto]. }
  rewrite Forall_forall in Hs. by apply (Hs _ Hin).
Qed.
End protected.

(** ** Examples *)

#[local] Existing Instances RetryLib_steps RetryLaws_steps NewRealGaleraPodControl
  realGaleraPodControl_laws examplePodUtil constantRevisionLib exampleRegexp.

Definition creds_up : gmap string string := <["user" := "u"]> (<["password" := "p"]> ∅).

Definition claim_of (name : string) : PersistentVolumeClaim :=
  mkClaim name "ns" "" "" None [] false example_pvc.

Definition example_claims : list PersistentVolumeClaim :=
  claim_of <$> ["pvc-gal-a"; "pvc-gal-b"; "pvc-gal-c"].

(** Every node says it is synced and primary, every claim is known. *)
Definition primary_env : Env :=
  env_with_claims (λ _ _ name, inl (claim_of name))
    (env_with_exec (λ _ _ _ _ _,
       ("| wsrep_local_state_comment | Synced |" +:+ String newline
          "| wsrep_cluster_status | Primary |", None)) env_ok).

Definition running_status : GaleraStatus := with_Phase GaleraPhaseRunning emptyStatus.

(** A round that upgrades a cluster of three members *)
Definition upgrade_round : outcome unit * GaleraStatus * history :=
  runGalera example_control example_galera example_galera "r1" "r2" example_pods example_claims
    creds_up running_status primary_env [].

(** A round that creates the first member *)
Definition create_round : outcome unit * GaleraStatus * history :=
  runGalera example_control example_galera example_galera "r1" "r1" [] [] creds_up
    running_status env_ok [].

Lemma runGalera_creates_witness :
  @GaleraPodControlLaws NewRealGaleraPodControl ∧
  count is_podCreate (snd create_round) = 1%nat ∧ (count is_podCreate (snd create_round) ≤ 1)%nat.
Proof.
  split; [exact realGaleraPodControl_laws|]. split; [vm_compute; reflexivity|].
  pose proof (runGalera_creates example_control example_galera example_galera "r1" "r1" [] [] creds_up
    running_status env_ok []) as H.
  change (runGalera example_control example_galera example_galera "r1" "r1" [] [] creds_up
    running_status env_ok []) with create_round in H.
  destruct create_round as [[o st'] t]. exact (proj1 H).
Defined.

Lemma runGalera_protects_witness :
  (snd (fst upgrade_round)).(st_Members).(mem_Ready) = ["gal-a"; "gal-b"; "gal-c"] ∧
  existsb (λ e, match e with EvPodDelete _ "gal-a" None => true | _ => false end)
    (snd upgrade_round) = true ∧
  guarded (snd (fst upgrade_round)).(st_Members).(mem_Ready) (snd upgrade_round).
Proof.
  split; [vm_compute; reflexivity|]. split; [vm_compute; reflexivity|].
  assert (NoDup (pod_Name <$> example_pods)) as Hnd
    by (apply (bool_decide_unpack _); vm_compute; exact I).
  assert (Forall special_plain example_pods) as Hsp.
  { repeat (apply Forall_cons; split; [intros H; vm_compute in H; discriminate H|]).
    apply Forall_nil_2. }
  pose proof (runGalera_protects example_control example_galera example_galera "r1" "r2" example_pods
    example_claims creds_up running_status primary_env [] Hnd Hsp eq_refl) as H.
  change (runGalera example_control example_galera example_galera "r1" "r2" example_pods
    example_claims creds_up running_status primary_env []) with upgrade_round in H.
  destruct upgrade_round as [[o st'] t]. exact H.
Defined.

(** A round that finds two ready members out of three *)
Definition short_round : outcome unit * GaleraStatus * history :=
  runGalera example_control example_galera example_galera "r1" "r2" (take 2 example_pods)
    example_claims creds_up running_status primary_env [].

Lemma runGalera_keeps_members_witness :
  len32 (snd (fst short_round)).(st_Members).(mem_Ready) < 3 ∧
  (∀ ns name err, EvPodDelete ns name err ∈ snd short_round →
     name ∉ (snd (fst short_round)).(st_Members).(mem_Ready)).
Proof.
  assert (len32 (snd (fst short_round)).(st_Members).(mem_Ready) < 3) as Hl
    by (vm_compute; reflexivity).
  split; [exact Hl|].
  assert (NoDup (pod_Name <$> take 2 example_pods)) as Hnd
    by (apply (bool_decide_unpack _); vm_compute; exact I).
  assert (Forall special_plain (take 2 example_pods)) as Hsp.
  { repeat (apply Forall_cons; split; [intros H; vm_compute in H; discriminate H|]).
    apply Forall_nil_2. }
  pose proof (runGalera_keeps_members example_control example_galera example_galera "r1" "r2"
    (take 2 example_pods) example_claims creds_up running_status primary_env [] 3 Hnd Hsp eq_refl
    eq_refl) as H.
  change (runGalera example_control example_galera example_galera "r1" "r2" (take 2 example_pods)
    example_claims creds_up running_status primary_env []) with short_round in H.
  destruct short_round as [[o st'] t]. exact (H Hl).
Defined.

(** The pods deleted in a trace *)
Definition deleted (t : history) : list string :=
  omap (λ e, match e with EvPodDelete _ name None => Some name | _ => None end) t.

(** A cluster that is scaled down and upgraded at once loses two ready members in
    the same round: the upgrade does not look at what the scale down has done. *)
Example two_members_deleted :
  let pods := example_pods ++ [example_pod "d" Reader "10.0.0.4"] in
  let claims := claim_of "pvc-gal-d" :: example_claims in
  deleted (snd (runGalera example_control example_galera example_galera "r1" "r2" pods claims
                  creds_up running_status primary_env [])) = ["gal-c"; "gal-a"].
Proof. vm_compute. reflexivity. Qed.
