(* ===== verification/Settled.v ===== *)
(** * Rounds on a healthy cluster

    What [runGalera] does when every pod is healthy and has its role: a cluster that
    has all its members is left alone, and one that lacks members gets one.  The other
    files say what a round must not do; this one says that it does what it must, and
    then stops.  Proved against the laws of the pod control. *)
From S2P Require Import Prelude Types Objects Names PodLib Kube Utils PodControl Controls Upgrade.
From S2P Require Import Revisions Control Sync Rounds.

(** ** Calls that change nothing *)

Definition reading (e : event) : Prop :=
  match e with
  | EvClaimGet _ _ _ | EvPodGet _ _ | EvServiceGet _ _ | EvPDBGet _ _ | EvRevisionList | EvGet _ _ _
  | EvExec _ _ _ _ _ _ | EvRecord _ _ _ | EvMapOrder | EvNow | EvRand => True
  | _ => False
  end.

(** Total correctness on an environment: the computation ends, it first only reads, and
    what it ends with and does then satisfy [K]. *)
Definition ends {A} (env : Env) (m : SM A) (st : GaleraStatus)
    (K : outcome A → GaleraStatus → history → Prop) : Prop :=
  ∀ h, ∃ o st' t1 t2, m st env h = (o, st', t1 ++ t2) ∧ Forall reading t1 ∧ K o st' t2.

(** It only reads, and ends well. *)
Definition ok_with {A} (Q : A → GaleraStatus → Prop) (o : outcome A) (st : GaleraStatus) (t : history) : Prop :=
  t = [] ∧ ∃ a, o = Ok a ∧ Q a st.
Definition yields {A} (env : Env) (m : SM A) (st : GaleraStatus) (Q : A → GaleraStatus → Prop) : Prop :=
  ends env m st (ok_with Q).

Section ends.
Context (env : Env).

Lemma yields_ret {A} (a : A) st (Q : A → GaleraStatus → Prop) : Q a st → yields env (mret a) st Q.
Proof. intros HQ h. exists (Ok a), st, [], []. split_and!; [done..|]. split; eauto. Qed.

Lemma ends_here {A} (m : SM A) st K : (∀ h o st' t, m st env h = (o, st', t) → K o st' t) → ends env m st K.
Proof. intros Hm h. destruct (m st env h) as [[o st'] t] eqn:E. exists o, st', [], t. eauto. Qed.

Lemma ends_impl {A} (m : SM A) st (K K' : outcome A → GaleraStatus → history → Prop) :
  ends env m st K → (∀ o st' t, K o st' t → K' o st' t) → ends env m st K'.
Proof. intros Hm HK h. destruct (Hm h) as (o & st' & t1 & t2 & ? & ? & ?). exists o, st', t1, t2. auto. Qed.

Lemma ends_bind {A B} (m : SM A) (f : A → SM B) st R K :
  yields env m st R → (∀ a st', R a st' → ends env (f a) st' K) → ends env (m ≫= f) st K.
Proof.
  intros Hm Hf h. destruct (Hm h) as (o & st1 & t1 & t & E1 & F1 & -> & a & -> & H1).
  rewrite app_nil_r in E1. destruct (Hf a st1 H1 (h ++ t1)) as (o & st2 & t2 & t3 & E2 & F2 & HK).
  exists o, st2, (t1 ++ t2), t3. split_and!; [|by apply Forall_app|done].
  unfold mbind, SM_bind. by rewrite E1, E2, app_assoc.
Qed.

Lemma ends_getStatus {B} (f : GaleraStatus → SM B) st K : ends env (f st) st K → ends env (getStatus ≫= f) st K.
Proof. intros Hf h. rewrite getStatus_bind. apply Hf. Qed.

Lemma ends_modify {B} g (f : unit → SM B) st K : ends env (f tt) (g st) K → ends env (modify g ≫= f) st K.
Proof. intros Hf h. rewrite modify_bind. apply Hf. Qed.

Lemma yields_modify g st (Q : unit → GaleraStatus → Prop) : Q tt (g st) → yields env (modify g) st Q.
Proof. intros HQ h. exists (Ok tt), (g st), [], []. split_and!; [done..|]. split; eauto. Qed.

Lemma ends_lift {A B} (m : M A) (f : A → SM B) st (R : A → Prop) K :
  (∀ h, ∃ a t, m env h = (Ok a, t) ∧ R a ∧ Forall reading t) → (∀ a, R a → ends env (f a) st K) →
  ends env (lift m ≫= f) st K.
Proof.
  intros Hm Hf. apply (ends_bind _ _ _ (λ a st', R a ∧ st' = st)).
  - intros h. destruct (Hm h) as (a & t & E & HR & HF). exists (Ok a), st, t, [].
    unfold lift. rewrite E, app_nil_r. split_and!; [done..|]. split; eauto.
  - intros a st' [HR ->]. by apply Hf.
Qed.

Lemma ends_pure {A B} (a : A) (f : A → SM B) st K : ends env (f a) st K → ends env (lift (pureM (Ok a)) ≫= f) st K.
Proof. intros Hf. apply (ends_lift _ _ _ (λ a', a' = a)); [intros h; by exists a, []|by intros a' ->]. Qed.

Lemma ends_ret_bind {A B} (a : A) (f : A → SM B) st K : ends env (f a) st K → ends env (mret a ≫= f) st K.
Proof. intros Hf h. rewrite SM_ret_bind. apply Hf. Qed.

Lemma ends_assoc {A B C} (m : SM A) (f : A → SM B) (g : B → SM C) st K :
  ends env (m ≫= λ a, f a ≫= g) st K → ends env ((m ≫= f) ≫= g) st K.
Proof. intros Hf h. rewrite SM_bind_assoc. apply Hf. Qed.

Lemma ends_run {A} (m : SM A) st K h o st' t : ends env m st K → m st env h = (o, st', t) →
  ∃ t1 t2, t = t1 ++ t2 ∧ Forall reading t1 ∧ K o st' t2.
Proof. intros Hm E. destruct (Hm h) as (? & ? & t1 & t2 & E' & ? & ?). rewrite E in E'. simplify_eq. eauto. Qed.
End ends.

(** ** Members *)

Section members.
Context `{GaleraPodControlLaws} `{PodUtil}.

Definition role_of (pod : Pod) : option string := pod_label pod GaleraRoleLabel.
Definition is_backup (pod : Pod) : bool := pod_has pod GaleraBackupLabel "true".

(** A healthy pod of the cluster, with a role that a member may have *)
Record member (pod : Pod) : Prop := {
  mb_healthy : isHealthy pod = true;
  mb_name : pod.(pod_Name) ≠ "";
  mb_role : role_of pod = Some RoleWriter ∨ role_of pod = Some RoleBackupWriter ∨
    (role_of pod = None ∧ (is_backup pod = true ∨ pod_has pod GaleraReaderLabel "true" = true)) }.

(** What the classification records of a member *)
Definition record_role (pod : Pod) (st : GaleraStatus) : GaleraStatus :=
  if decide (role_of pod = Some RoleWriter) then with_Writer pod.(pod_Name) st
  else if decide (role_of pod = Some RoleBackupWriter) then with_BackupWriter pod.(pod_Name) st else st.
Definition record_backup (pod : Pod) (st : GaleraStatus) : GaleraStatus :=
  if is_backup pod then with_Backup pod.(pod_Name) st else st.
Definition recorded (currentRevision nextRevision : string) (st : GaleraStatus) (pod : Pod) : GaleraStatus :=
  countPod pod currentRevision nextRevision noMembers (record_backup pod (record_role pod (incReplicas st))).

(** Its place in the lists of the round *)
Definition with_backup (pod : Pod) (m : members) : members :=
  if is_backup pod then add_bkpSuffix (getPodSuffix pod.(pod_Name)) m else m.
Definition placed (m : members) (pod : Pod) : members :=
  add_podSuffix (getPodSuffix pod.(pod_Name)) (add_ready pod (with_backup pod m)).

(** A member whose roles are free *)
Definition role_free (st : GaleraStatus) (pod : Pod) : Prop :=
  (role_of pod = Some RoleWriter → st.(st_Members).(mem_Writer) = "") ∧
  (role_of pod = Some RoleBackupWriter → st.(st_Members).(mem_BackupWriter) = "") ∧
  (is_backup pod = true → st.(st_Members).(mem_Backup) = "").

(** The node of each pod answers that it is primary. *)
Definition primary (env : Env) (galera : Galera) (creds : gmap string string) (pods : list Pod) : Prop :=
  Forall (λ pod, ∀ h, fst (IsPrimary galera pod (user creds) (password creds) env h) = Ok true) pods.

Lemma IsPrimary_reading env g pod creds h :
  fst (IsPrimary g pod (user creds) (password creds) env h) = Ok true →
  ∃ a t, IsPrimary g pod (user creds) (password creds) env h = (Ok a, t) ∧ a = true ∧ Forall reading t.
Proof.
  intros Ho. pose proof (IsPrimary_emits g pod (user creds) (password creds) env h) as HF.
  destruct (IsPrimary _ _ _ _ env h) as [o t]. cbn in *. subst o. exists true, t. split_and!; [done..|].
  eapply Forall_impl; [exact HF|]. by intros [].
Qed.

Lemma primaryRole_member env g pod m st : member pod → role_free st pod →
  yields env (primaryRole g pod m) st
    (λ r st', r = Some (bool_decide (role_of pod ≠ None), m) ∧ st' = record_role pod st).
Proof.
  intros [_ _ Hr] (Fw & Fb & _). unfold primaryRole, record_role. fold (role_of pod). apply ends_getStatus.
  destruct Hr as [E|[E|[E _]]]; rewrite E.
  - rewrite !decide_True by auto. by apply ends_modify, yields_ret.
  - rewrite !(decide_False (P := RoleBackupWriter = RoleWriter)) by done.
    rewrite !decide_True, decide_False by auto. by apply ends_modify, yields_ret.
  - rewrite !decide_False by done. by apply yields_ret.
Qed.

Lemma primaryBackup_member env g pod added m st : (is_backup pod = true → st.(st_Members).(mem_Backup) = "") →
  yields env (primaryBackup g pod added m) st
    (λ r st', r = Some (added || is_backup pod, with_backup pod m) ∧ st' = record_backup pod st).
Proof.
  intros Fk. unfold primaryBackup, record_backup, with_backup. fold (is_backup pod).
  destruct (is_backup pod) eqn:E.
  - apply ends_getStatus. rewrite decide_True by auto. apply ends_modify, yields_ret.
    by rewrite orb_true_r.
  - apply yields_ret. by rewrite orb_false_r.
Qed.

Lemma record_role_backup pod st :
  (record_role pod st).(st_Members).(mem_Backup) = st.(st_Members).(mem_Backup).
Proof. unfold record_role. by repeat case_decide. Qed.

Lemma with_backup_special pod m : (with_backup pod m).(m_special) = m.(m_special).
Proof. unfold with_backup. by destruct (is_backup pod). Qed.

Lemma classifyPrimary_member env g pod m st : member pod → role_free st pod →
  yields env (classifyPrimary g pod m) st
    (λ r st', r = Some (add_ready pod (with_backup pod m)) ∧ st' = record_backup pod (record_role pod st)).
Proof.
  intros Hm Hf. unfold classifyPrimary. eapply ends_bind; [by apply primaryRole_member|].
  intros ? ? [-> ->]. eapply ends_bind.
  { apply primaryBackup_member. rewrite record_role_backup. apply Hf. }
  intros ? ? [-> ->]. apply yields_ret. split; [|done]. f_equal.
  destruct Hm as [_ _ [E|[E|[E Hr]]]]; rewrite E; cbn; [done..|].
  destruct Hr as [->| ->]; [done|]. by rewrite orb_true_r.
Qed.

Lemma classifyPod_member env g cur next creds pod m st :
  member pod → primary env g creds [pod] → role_free st pod → m.(m_special) = None →
  yields env (classifyPod g cur next creds pod m) st
    (λ r st', r = Some (placed m pod) ∧ st' = recorded cur next st pod).
Proof.
  intros Hm Hp Hf Hs. unfold primary in Hp. rewrite Forall_singleton in Hp.
  pose proof (mb_healthy pod Hm) as Hh. unfold isHealthy in Hh.
  apply andb_true_iff in Hh as [Hrun Hterm%negb_true_iff].
  unfold classifyPod. apply ends_modify. rewrite Hterm, Hrun. apply ends_assoc.
  apply (ends_lift _ _ _ _ (λ b, b = true)); [intros h; by apply IsPrimary_reading|intros ? ->].
  eapply ends_bind; [by apply classifyPrimary_member|]. intros ? ? [-> ->].
  apply ends_modify, yields_ret. split; [done|]. unfold recorded, countPod. cbn.
  by rewrite with_backup_special, Hs.
Qed.

(** ** All the members *)

Definition is_writer (pod : Pod) : bool := bool_decide (role_of pod = Some RoleWriter).
Definition is_backupWriter (pod : Pod) : bool := bool_decide (role_of pod = Some RoleBackupWriter).

(** At most one pod of a kind *)
Definition unique (f : Pod → bool) (pods : list Pod) : Prop := (length (filter (λ p, f p = true) pods) <= 1)%nat.

Lemma unique_cons f pod pods : unique f (pod :: pods) →
  unique f pods ∧ (f pod = true → Forall (λ p, f p = false) pods).
Proof.
  unfold unique. rewrite filter_cons. case_decide as E; cbn; intros Hl; split; try lia.
  - intros _. apply Forall_forall. intros p Hp. apply not_true_iff_false. intros Hf.
    destruct (filter (λ p, f p = true) pods) eqn:Ef; [|cbn in Hl; lia].
    eapply not_elem_of_nil. rewrite <- Ef. by apply list_elem_of_filter.
  - congruence.
Qed.

(** The roles that were not given yet *)
Definition free (st : GaleraStatus) (pods : list Pod) : Prop :=
  (st.(st_Members).(mem_Writer) = "" ∨ Forall (λ p, is_writer p = false) pods) ∧ unique is_writer pods ∧
  (st.(st_Members).(mem_BackupWriter) = "" ∨ Forall (λ p, is_backupWriter p = false) pods) ∧
  unique is_backupWriter pods ∧
  (st.(st_Members).(mem_Backup) = "" ∨ Forall (λ p, is_backup p = false) pods) ∧ unique is_backup pods.

(** The counters of a status, with its revisions *)
Record tally := mkTally {
  tl_generation : Z;
  tl_current : string;
  tl_next : string;
  tl_currentReplicas : Z;
  tl_nextReplicas : Z }.

Definition tally_of (st : GaleraStatus) : tally :=
  mkTally st.(st_ObservedGeneration) st.(st_CurrentRevision) st.(st_NextRevision) st.(st_CurrentReplicas)
    st.(st_NextReplicas).

(** A pod is counted in its revision. *)
Definition counted (cur next : string) (t : tally) (pod : Pod) : tally :=
  if isCreated pod && negb (isTerminating pod) then
    mkTally t.(tl_generation) t.(tl_current) t.(tl_next)
      (if decide (getPodRevision pod = cur) then i32 (t.(tl_currentReplicas) + 1) else t.(tl_currentReplicas))
      (if decide (getPodRevision pod = next) then i32 (t.(tl_nextReplicas) + 1) else t.(tl_nextReplicas))
  else t.

(** What a round records of the pods *)
Definition kept (st : GaleraStatus) : MembersStatus * Z * GaleraPhase * tally :=
  (st.(st_Members), st.(st_Replicas), st.(st_Phase), tally_of st).

Lemma kept_inv st M n phase t : kept st = (M, n, phase, t) →
  st.(st_Members) = M ∧ st.(st_Replicas) = n ∧ st.(st_Phase) = phase ∧ tally_of st = t.
Proof. unfold kept. generalize (tally_of st). by intros ? [= -> -> -> ->]. Qed.

Lemma countPod_kept pod cur next st :
  kept (countPod pod cur next noMembers st) =
    (st.(st_Members), st.(st_Replicas), st.(st_Phase), counted cur next (tally_of st) pod).
Proof.
  unfold countPod, counted, incCurrent, incNext. rewrite (bool_decide_true (_ ≠ _)), andb_true_r by done.
  by destruct (_ && _); repeat case_decide.
Qed.

Lemma recorded_kept cur next st pod :
  kept (recorded cur next st pod) =
    (mkMembers st.(st_Members).(mem_Ready) st.(st_Members).(mem_Unready)
       (if is_writer pod then pod.(pod_Name) else st.(st_Members).(mem_Writer))
       (if is_backupWriter pod then pod.(pod_Name) else st.(st_Members).(mem_BackupWriter))
       (if is_backup pod then pod.(pod_Name) else st.(st_Members).(mem_Backup))
       st.(st_Members).(mem_Special),
     i32 (st.(st_Replicas) + 1), st.(st_Phase), counted cur next (tally_of st) pod).
Proof.
  unfold recorded. rewrite countPod_kept. destruct st as [? ? ? ? ? ? ? ? ? ? [] ? ? ? ? ? ?].
  unfold record_backup, record_role, is_writer, is_backupWriter.
  destruct (decide (role_of pod = Some RoleWriter)) as [E|E].
  - rewrite bool_decide_true, bool_decide_false by (done || by rewrite E). by destruct (is_backup pod).
  - rewrite (bool_decide_false _ E). case_decide as E'.
    + rewrite bool_decide_true by done. by destruct (is_backup pod).
    + rewrite bool_decide_false by done. by destruct (is_backup pod).
Qed.

Lemma free_step cur next st pod pods : free st (pod :: pods) →
  role_free st pod ∧ free (recorded cur next st pod) pods.
Proof.
  intros (Hw & Uw & Hb & Ub & Hk & Uk). pose proof (f_equal (fst ∘ fst ∘ fst) (recorded_kept cur next st pod)) as E. cbn in E.
  apply unique_cons in Uw as [Uw Nw], Ub as [Ub Nb], Uk as [Uk Nk]. split.
  - unfold role_free. rewrite !Forall_cons in *. unfold is_writer, is_backupWriter in *. split_and!; intros Hr.
    + destruct Hw as [?|[Hf _]]; [done|]. by apply bool_decide_eq_false in Hf.
    + destruct Hb as [?|[Hf _]]; [done|]. by apply bool_decide_eq_false in Hf.
    + destruct Hk as [?|[Hf _]]; [done|congruence].
  - unfold free. rewrite E. cbn. rewrite !Forall_cons in *. split_and!; try done.
    + destruct (is_writer pod); [right; auto|]. destruct Hw as [?|[_ ?]]; auto.
    + destruct (is_backupWriter pod); [right; auto|]. destruct Hb as [?|[_ ?]]; auto.
    + destruct (is_backup pod); [right; auto|]. destruct Hk as [?|[_ ?]]; auto.
Qed.

Lemma placed_fields pods m :
  let m' := fold_left placed pods m in
  m'.(m_ready) = m.(m_ready) ++ pods ∧ m'.(m_unready) = m.(m_unready) ∧ m'.(m_special) = m.(m_special) ∧
  m'.(m_terminating) = m.(m_terminating) ∧
  m'.(m_podSuffixes) = m.(m_podSuffixes) ++ (getPodSuffix ∘ pod_Name <$> pods) ∧
  m'.(m_bkpSuffixes) = m.(m_bkpSuffixes) ++ (getPodSuffix ∘ pod_Name <$> filter (λ p, is_backup p = true) pods).
Proof.
  revert m. induction pods as [|p pods IH]; intros m; [by rewrite !app_nil_r|].
  destruct (IH (placed m p)) as (E1 & E2 & E3 & E4 & E5 & E6). cbn [fold_left]. rewrite E1, E2, E3, E4, E5, E6.
  unfold placed, with_backup. rewrite filter_cons.
  destruct (is_backup p); cbn; rewrite <- ?app_assoc; by split_and!.
Qed.

Lemma classify_members env g cur next creds pods : ∀ m st,
  Forall member pods → primary env g creds pods → free st pods → m.(m_special) = None →
  yields env (classify g cur next creds pods m) st
    (λ r st', r = Some (fold_left placed pods m) ∧ st' = fold_left (recorded cur next) pods st).
Proof.
  induction pods as [|p pods IH]; intros m st Hm Hp Hf Hs; cbn [classify]; [by apply yields_ret|].
  apply Forall_cons in Hm as [Hm Hms]. unfold primary in Hp. rewrite Forall_cons in Hp. destruct Hp as [Hp Hps].
  destruct (free_step cur next st p pods Hf) as [Hfp Hfs].
  eapply ends_bind; [apply classifyPod_member; try done; by apply Forall_singleton|].
  intros ? ? [-> ->]. apply IH; try done. unfold placed. cbn. by rewrite with_backup_special.
Qed.

(** The one that has a role in the end: the last pod with it, or who had it before *)
Definition holder (f : Pod → bool) (old : string) (pods : list Pod) : string :=
  default old (pod_Name <$> last (filter (λ p, f p = true) pods)).

Lemma holder_cons f old p pods : holder f old (p :: pods) = holder f (if f p then p.(pod_Name) else old) pods.
Proof.
  unfold holder. rewrite filter_cons. destruct (f p); cbn [decide]; [|by case_decide].
  rewrite decide_True by done. rewrite last_cons. by destruct (last _).
Qed.

(** What is recorded in the end *)
Lemma recorded_fold cur next pods : ∀ st, 0 ≤ st.(st_Replicas) →
  st.(st_Replicas) + Z.of_nat (length pods) < 2147483648 →
  kept (fold_left (recorded cur next) pods st) =
    (mkMembers st.(st_Members).(mem_Ready) st.(st_Members).(mem_Unready)
       (holder is_writer st.(st_Members).(mem_Writer) pods)
       (holder is_backupWriter st.(st_Members).(mem_BackupWriter) pods)
       (holder is_backup st.(st_Members).(mem_Backup) pods)
       st.(st_Members).(mem_Special),
     st.(st_Replicas) + Z.of_nat (length pods), st.(st_Phase), fold_left (counted cur next) pods (tally_of st)).
Proof.
  induction pods as [|p pods IH]; intros st Hr Hl.
  { cbn. unfold holder. cbn. rewrite Z.add_0_r. by destruct st as [? ? ? ? ? ? ? ? ? ? []]. }
  pose proof (recorded_kept cur next st p) as E. apply kept_inv in E as (EM & E1 & E2 & ET).
  cbn [length] in Hl.
  rewrite i32_id in E1 by (unfold i32_range; lia).
  cbn [fold_left]. rewrite IH, !holder_cons, EM, E1, E2, ET by (rewrite E1; lia). cbn [length mem_Ready mem_Unready mem_Writer mem_BackupWriter mem_Backup mem_Special]. do 3 f_equal. lia.
Qed.

(** ** The steps of the round, when there is nothing to do *)

Lemma removeWriterReader_none env g pods st :
  Forall (λ p, p.(pod_Name) = st.(st_Members).(mem_Writer) →
               label_or_empty p.(pod_Labels) GaleraReaderLabel ≠ "true") pods →
  yields env (removeWriterReader g pods) st (λ _ st', st' = st).
Proof.
  induction pods as [|p pods IH]; intros HF; cbn [removeWriterReader]; [by apply yields_ret|].
  apply Forall_cons in HF as [Hp HF]. apply ends_getStatus. rewrite decide_False; [by apply IH|].
  intros [Hn Hl]. by apply Hp.
Qed.

Lemma setLabels_none env g pods st : (2 <= length pods)%nat →
  st.(st_Members).(mem_Writer) ≠ "" → st.(st_Members).(mem_BackupWriter) ≠ "" →
  Forall (λ p, p.(pod_Name) = st.(st_Members).(mem_Writer) →
               label_or_empty p.(pod_Labels) GaleraReaderLabel ≠ "true") pods →
  yields env (setLabels g pods) st (λ _ st', st' = st).
Proof.
  intros Hl Hw Hb HF. destruct pods as [|p0 [|p1 [|p2 pods]]]; cbn in Hl; [lia..| |]; cbn [setLabels].
  - apply ends_getStatus. rewrite !decide_False by done. apply ends_ret_bind. by apply removeWriterReader_none.
  - unfold setLabelsMany. apply ends_getStatus. rewrite decide_False by done.
    apply ends_ret_bind, ends_getStatus. rewrite decide_False by done. apply ends_ret_bind.
    by apply removeWriterReader_none.
Qed.

Lemma kept_conditions f st : (∀ gs, ∃ l, f gs = with_Conditions l gs) → kept (f st) = kept st.
Proof. intros Hf. by destruct (Hf st) as [l ->]. Qed.

Lemma setCondition_keeps env f st : (∀ t gs, ∃ l, f t gs = with_Conditions l gs) →
  yields env (setCondition f) st (λ _ st', kept st' = kept st).
Proof.
  intros Hf. unfold setCondition. apply (ends_lift _ _ _ _ (λ _, True)).
  - intros h. do 2 eexists. split_and!; [reflexivity|done|by repeat constructor].
  - intros t _. apply yields_modify. by apply kept_conditions.
Qed.

Lemma setScaling_keeps env n st : yields env (setScaling n) st (λ _ st', kept st' = kept st).
Proof.
  unfold setScaling. apply ends_getStatus. repeat case_decide.
  - apply yields_modify, (kept_conditions (ClearCondition _)), ClearCondition_frame.
  - apply setCondition_keeps. intros. apply setGaleraCondition_frame.
  - apply setCondition_keeps. intros. apply setGaleraCondition_frame.
Qed.

(** The phase of a cluster whose pods are all members: one that is created or restored
    runs once it is complete. *)
Definition next_phase (complete : bool) (phase : GaleraPhase) : GaleraPhase :=
  if decide (phase = GaleraPhaseCreating ∨ phase = GaleraPhaseRestoring) then
    if complete then GaleraPhaseRunning else phase
  else phase.

Lemma setStatus_keeps env g ready n st : replicas g = Ok n →
  yields env (setStatusPhaseAndConditions g ready 0 false) st (λ _ st',
    kept st' = (st.(st_Members), st.(st_Replicas),
                next_phase (bool_decide (st.(st_Replicas) = n)) st.(st_Phase), tally_of st)).
Proof.
  intros Hn. unfold setStatusPhaseAndConditions. rewrite decide_False by lia. rewrite Hn. apply ends_pure.
  eapply ends_bind; [apply setScaling_keeps|]. intros [] st1 E1. apply kept_inv in E1 as (EM & ER & EP & ET).
  apply ends_getStatus. unfold next_phase. rewrite EP, ER, <- EM, <- ER, <- ET. case_decide as Hp.
  - case_decide as Hr; [rewrite bool_decide_true by done|rewrite bool_decide_false by done].
    + apply ends_modify. eapply ends_bind.
      { apply setCondition_keeps. intros. apply setGaleraCondition_frame. }
      intros [] st2 E2. apply yields_modify.
      rewrite (kept_conditions (ClearCondition _)) in E2 by apply ClearCondition_frame.
      apply kept_inv in E2 as (E2M & E2R & _ & E2T). unfold kept.
      change (tally_of (with_Phase _ st2)) with (tally_of st2). rewrite E2T. cbn. by rewrite E2M, E2R.
    + apply yields_ret. unfold kept. by rewrite EP.
  - case_decide.
    + apply yields_modify. rewrite kept_conditions by apply ClearCondition_frame. unfold kept. by rewrite EP.
    + apply yields_ret. unfold kept. by rewrite EP.
Qed.

(** The claim of a member *)
Definition claimed (podSuffix backupSuffix : list string) (claim : PersistentVolumeClaim) : Prop :=
  isClaimTerminating claim = false ∧
  let '(suffix, backup) := getClaimSuffixAndBackup claim.(claim_Name) in
  if (backup : bool) then suffix ∈ backupSuffix else suffix ∈ podSuffix.

Lemma unusedClaims_claimed g podSuffix backupSuffix sc claims l env h :
  Forall (claimed podSuffix backupSuffix) claims →
  unusedClaims g podSuffix backupSuffix sc claims l env h = (Ok (l, false), []).
Proof.
  induction claims as [|c claims IH]; intros HF; cbn [unusedClaims]; [done|].
  apply Forall_cons in HF as [[Ht Hc] HF]. rewrite Ht.
  destruct (getClaimSuffixAndBackup (claim_Name c)) as [s []]; rewrite decide_True by done; by apply IH.
Qed.

(** ** Healthy clusters *)

Definition suffixes (pods : list Pod) : list string := getPodSuffix ∘ pod_Name <$> pods.
Definition backupSuffixes (pods : list Pod) : list string := suffixes (filter (λ p, is_backup p = true) pods).

(** Every pod is a member and has its claims, every claim has its pod, and there are one
    writer, one backup writer and at most one backup. *)
Record healthy (env : Env) (g : Galera) (creds : gmap string string) (pods : list Pod)
    (claims : list PersistentVolumeClaim) : Prop := {
  hl_members : Forall member pods;
  hl_primary : primary env g creds pods;
  hl_names : NoDup (pod_Name <$> pods);
  hl_backup : unique is_backup pods;
  hl_pods : podWithoutClaims pods claims = None;
  hl_claims : Forall (claimed (suffixes pods) (backupSuffixes pods)) claims;
  hl_template : is_Some g.(g_Spec).(spec_Pod);
  hl_classes : ∀ h, ∃ l, env.(env_storageClasses) h = inl l;
  hl_count : Z.of_nat (length pods) < 2147483648 }.

(** The pods that write *)
Record writers (pods : list Pod) (w b : Pod) : Prop := {
  wr_writer : filter (λ p, is_writer p = true) pods = [w];
  wr_backup : filter (λ p, is_backupWriter p = true) pods = [b];
  wr_reader : pod_has w GaleraReaderLabel "true" = false }.

(** The members that are recorded *)
Definition members_of (pods : list Pod) (w b : Pod) : MembersStatus :=
  mkMembers (pod_Name <$> pods) [] w.(pod_Name) b.(pod_Name) (holder is_backup "" pods) "".

Lemma writers_two pods w b : writers pods w b → (2 <= length pods)%nat.
Proof.
  intros [Hw Hb _]. destruct pods as [|p [|p' pods]]; cbn; [done| |lia].
  rewrite filter_cons in Hw, Hb. unfold is_writer, is_backupWriter in *. exfalso.
  destruct (decide (role_of p = Some RoleWriter)) as [E|E].
  - by rewrite E in Hb.
  - by rewrite (bool_decide_false _ E) in Hw.
Qed.

Lemma writers_in pods w b : writers pods w b → w ∈ pods ∧ b ∈ pods.
Proof.
  intros [Hw Hb _]. split.
  - assert (w ∈ filter (λ p, is_writer p = true) pods) as Hin by (rewrite Hw; set_solver).
    by apply list_elem_of_filter in Hin as [_ ?].
  - assert (b ∈ filter (λ p, is_backupWriter p = true) pods) as Hin by (rewrite Hb; set_solver).
    by apply list_elem_of_filter in Hin as [_ ?].
Qed.

Section healthy.
Context (env : Env) (g : Galera) (creds : gmap string string) (pods : list Pod)
  (claims : list PersistentVolumeClaim) (w b : Pod) (rev : string) (gc : defaultGaleraControl)
  (Hh : healthy env g creds pods claims) (Hw : writers pods w b).

Lemma healthy_free st : st.(st_Members) = emptyStatus.(st_Members) → free st pods.
Proof.
  intros E. unfold free. rewrite E. destruct Hw as [Ew Eb _], Hh as [_ _ _ Hk _ _ _ _ _].
  unfold unique. rewrite Ew, Eb. split_and!; auto.
Qed.

Lemma classify_healthy phase t st : kept st = (emptyStatus.(st_Members), 0, phase, t) →
  yields env (classify g rev rev creds pods noMembers) st (λ r st', ∃ m, r = Some m ∧
    m = mkMembership pods [] None (suffixes pods) (backupSuffixes pods) false ∧
    kept st' = (mkMembers [] [] w.(pod_Name) b.(pod_Name) (holder is_backup "" pods) "",
                Z.of_nat (length pods), phase, fold_left (counted rev rev) pods t)).
Proof.
  intros Hk h. apply kept_inv in Hk as (EM & ER & EP & ET). destruct Hh as [Hm Hp _ _ _ _ _ _ Hl].
  destruct (classify_members env g rev rev creds pods noMembers st Hm Hp (healthy_free st EM) eq_refl h)
    as (o & st' & t1 & t2 & E & HF & -> & r & -> & -> & ->).
  do 4 eexists. split_and!; [exact E|exact HF|split; [done|]]. eexists. split; [done|]. eexists.
  split_and!; [done| |].
  - destruct (placed_fields pods noMembers) as (E1 & E2 & E3 & E4 & E5 & E6).
    destruct (fold_left placed pods noMembers). cbn in *. by subst.
  - rewrite recorded_fold by (rewrite ER; lia). rewrite EM, ER, EP, ET. cbn. destruct Hw as [Ew Eb _].
    unfold holder. by rewrite Ew, Eb.
Qed.

Lemma actOnMembers_healthy n phase t st K : replicas g = Ok n →
  kept st = (mkMembers [] [] w.(pod_Name) b.(pod_Name) (holder is_backup "" pods) "",
             Z.of_nat (length pods), phase, t) →
  let m := mkMembership pods [] None (suffixes pods) (backupSuffixes pods) false in
  (∀ addresses sc st', kept st' = (members_of pods w b, Z.of_nat (length pods),
                                   next_phase (bool_decide (Z.of_nat (length pods) = n)) phase, t) →
     ends env (if decide (Z.of_nat (length pods) < n) then growCluster gc g rev rev addresses creds m []
               else settleCluster gc g rev rev addresses claims creds m [] sc) st' K) →
  ends env (actOnMembers gc g g rev rev claims creds m) st K.
Proof.
  intros Hn Hk m HK. apply kept_inv in Hk as (EM & ER & EP & ET). pose proof (writers_two _ _ _ Hw) as H2.
  pose proof (writers_in _ _ _ Hw) as [Hiw Hib]. destruct Hh as [Hm _ Hnd _ _ Hc [tpl Ht] Hsc Hl].
  unfold actOnMembers. cbn [getMembersName m_ready m_unready m]. apply ends_modify.
  eapply ends_bind.
  { rewrite Forall_forall in Hm. apply setLabels_none; [done|cbn; rewrite EM; by apply Hm..|].
    cbn. rewrite EM. apply Forall_forall. intros p Hp En. cbn in En. assert (p = w) as ->; [|].
    { apply list_elem_of_lookup in Hp as [i Hi], Hiw as [j Hj].
      assert (i = j) as ->; [|congruence].
      eapply NoDup_lookup; [exact Hnd| |]; rewrite list_lookup_fmap; [by rewrite Hi|by rewrite Hj, En]. }
    destruct Hw as [_ _ Hr]. apply bool_decide_eq_false in Hr. intros El. apply Hr.
    unfold label_or_empty in El. unfold pod_label. by destruct (label _ _); cbn in El; simplify_eq. }
  intros [] ? ->. cbn [m_terminating m]. unfold image. rewrite Ht. cbn [deref mbind outcome_bind mret].
  apply ends_pure, ends_pure. rewrite bool_decide_false by tauto.
  eapply ends_bind; [by apply setStatus_keeps|]. intros [] st' Hk'. cbn in Hk'. rewrite EM, ER, EP in Hk'.
  change (tally_of (with_Ready_Unready _ _ st)) with (tally_of st) in Hk'. rewrite ET in Hk'.
  apply (ends_lift _ _ _ _ (λ _, True)).
  { intros h. destruct (Hsc h) as [l E]. unfold GetNameDefaultStorageClass, storageClasses, call.
    do 2 eexists. unfold mbind, M_bind, mret, M_ret. rewrite E. cbn. split_and!; [done..|by repeat constructor]. }
  intros sc _. apply (ends_lift _ _ _ _ (λ r, r = ([], false))).
  { intros h. exists ([], false), []. split_and!; [|done..]. by apply unusedClaims_claimed. }
  intros ? ->. cbn [fst snd].
  apply (ends_lift _ _ _ _ (λ _, True)); [intros h; do 2 eexists; split_and!; [done..|by repeat constructor]|].
  intros order _. apply (ends_lift _ _ _ _ (λ r, r = false)); [intros h; by exists false, []|]. intros ? ->.
  rewrite Hn. apply ends_pure. cbn [m_ready m]. unfold len32. rewrite i32_id by (unfold i32_range; lia).
  apply HK. exact Hk'.
Qed.

(** With as many pods as replicas, nothing is left to do. *)
Lemma settleCluster_healthy addresses sc st :
  g.(g_Spec).(spec_Special) = None → replicas g = Ok (Z.of_nat (length pods)) →
  let m := mkMembership pods [] None (suffixes pods) (backupSuffixes pods) false in
  yields env (settleCluster gc g rev rev addresses claims creds m [] sc) st (λ _ st', st' = st).
Proof.
  intros Hs Hn m. pose proof (hl_count _ _ _ _ _ Hh) as Hc.
  unfold settleCluster. rewrite Hn. apply ends_pure. cbn [m_ready m_unready m].
  eapply (ends_bind _ _ _ _ (λ _ st', st' = st)).
  { unfold considerPodAndClaimTermination. apply ends_getStatus. rewrite decide_False by naive_solver.
    replace (orphanClaim [] claims) with (@None PersistentVolumeClaim).
    2:{ unfold orphanClaim. destruct (filter _ claims) as [|c l] eqn:Ef; [done|].
      assert (c ∈ c :: l) as Hin by set_solver. rewrite <- Ef in Hin. apply list_elem_of_filter in Hin as [Hin _].
      by apply elem_of_nil in Hin. }
    cbn [forceDeletePods]. apply (ends_lift _ _ _ _ (λ _, True)); [intros h; by exists tt, []|]. intros [] _.
    unfold scaleDown, len32. rewrite i32_id by (unfold i32_range; lia). rewrite decide_False by lia.
    by apply yields_ret. }
  intros [] ? ->. unfold deletePodForUpgrade. rewrite decide_True by done. apply ends_ret_bind.
  unfold specialStep. rewrite Hs. cbn [m_special m]. intros h. exists (Ok tt), st, [], []. split_and!; [done..|]. split; [done|by exists tt].
Qed.

(** One more pod of the current revision *)
Definition one_current (t : tally) : tally :=
  mkTally t.(tl_generation) t.(tl_current) t.(tl_next) (i32 (t.(tl_currentReplicas) + 1)) t.(tl_nextReplicas).

(** What a round that adds a member does at the end *)
Definition one_more (n : Z) (phase : GaleraPhase) (tl : tally) (o : outcome unit) (st' : GaleraStatus) (t : history) : Prop :=
  Forall (λ e, is_delete e = false) t ∧ (count is_podCreate t ≤ 1)%nat ∧
  (∀ ns pod err, EvPodCreate ns pod err ∈ t → ns = g.(g_Namespace) ∧ getPodRevision pod = rev ∧
     pod_has pod GaleraReaderLabel "true" = true) ∧
  (o = Ok tt → (∃ pod, EvPodCreate g.(g_Namespace) pod None ∈ t) ∧
     kept st' = (members_of pods w b, n, phase, one_current tl)).

Lemma growCluster_healthy addresses n phase tl st h o st' t :
  let m := mkMembership pods [] None (suffixes pods) (backupSuffixes pods) false in
  -1 ≤ n < 2147483647 → kept st = (members_of pods w b, n, phase, tl) →
  growCluster gc g rev rev addresses creds m [] st env h = (o, st', t) → one_more (n + 1) phase tl o st' t.
Proof.
  intros m Hn Hk E. apply kept_inv in Hk as (EM & ER & EP & ET).
  pose proof (writers_in _ _ _ Hw) as [Hiw Hib]. destruct Hh as [Hm _ _ _ _ _ _ _ _].
  rewrite Forall_forall in Hm. unfold growCluster in E. rewrite getStatus_bind in E.
  replace (if decide (st_Phase st = GaleraPhaseRestoring) then rev else rev) with rev in E by by case_decide.
  unfold checkUnreadyPodBeforeCreatingPod in E. rewrite getStatus_bind in E.
  cbn [examineUnready m_unready m] in E. rewrite SM_ret_bind in E.
  assert (choseRole st = Backup ∨ choseRole st = Reader) as Hrole.
  { unfold choseRole. rewrite EM. cbn. rewrite !decide_False by (by apply Hm). by destruct (decide _); auto. }
  apply createPod_inv in E as [(Hd & Hc & Hp) Hok]. split_and!; [done..| |].
  - intros ns pod err Hin. apply Hp in Hin as [-> (h1 & h2 & name & found & crev & _ & _ & _ & El & _)].
    split; [done|]. unfold getPodRevision, pod_has, pod_label, label_or_empty, label. rewrite El.
    by destruct Hrole as [-> | ->].
  - intros Ho. destruct (Hok Ho) as [Hpod ->]. split; [done|]. unfold countCreated.
    rewrite decide_True by done. unfold kept, one_current. rewrite <- ET. cbn. rewrite EM, ER, EP.
    by rewrite i32_id by (unfold i32_range; lia).
Qed.
End healthy.

Lemma runGalera_yields (gc : defaultGaleraControl) env g rev creds pods claims w b phase tl st :
  healthy env g creds pods claims → writers pods w b →
  g.(g_Spec).(spec_Special) = None → replicas g = Ok (Z.of_nat (length pods)) →
  kept st = (emptyStatus.(st_Members), 0, phase, tl) →
  yields env (runGalera gc g g rev rev pods claims creds) st (λ _ st',
    kept st' = (members_of pods w b, Z.of_nat (length pods), next_phase true phase,
                fold_left (counted rev rev) pods tl)).
Proof.
  intros Hh Hw Hs Hn Hk. unfold runGalera. rewrite (hl_pods _ _ _ _ _ Hh). eapply ends_bind; [by eapply classify_healthy|].
    intros ? st1 (m & -> & -> & Hk1). eapply actOnMembers_healthy; [done..|]. intros addresses sc st2 Hk2.
    rewrite decide_False by lia. rewrite bool_decide_true in Hk2 by done.
    eapply ends_impl; [by eapply settleCluster_healthy|]. intros o st3 t (-> & [] & -> & ->).
    split; [done|]. by exists tt.
Qed.

(** A cluster that is as it should be is left alone: with as many healthy members as
    replicas, each with its claims, one writer, one backup writer and at most one backup,
    and no special node asked for, a round ends well, only reads, and records exactly the members; a cluster that was
    being created or restored is running. *)
Theorem runGalera_settled (gc : defaultGaleraControl) (env : Env) (g : Galera) (rev : string)
    (creds : gmap string string) (pods : list Pod) (claims : list PersistentVolumeClaim) (w b : Pod)
    (phase : GaleraPhase) (tl : tally) (st : GaleraStatus) (h : history) :
  healthy env g creds pods claims → writers pods w b →
  g.(g_Spec).(spec_Special) = None → replicas g = Ok (Z.of_nat (length pods)) →
  kept st = (emptyStatus.(st_Members), 0, phase, tl) →
  let '(o, st', t) := runGalera gc g g rev rev pods claims creds st env h in
  o = Ok tt ∧ Forall reading t ∧
  kept st' = (members_of pods w b, Z.of_nat (length pods), next_phase true phase,
              fold_left (counted rev rev) pods tl).
Proof.
  intros Hh Hw Hs Hn Hk.
  destruct (runGalera_yields gc env g rev creds pods claims w b phase tl st Hh Hw Hs Hn Hk h)
    as (o & st' & t1 & t2 & -> & HF & -> & [] & -> & Hk'). by rewrite app_nil_r.
Qed.

(** A cluster that lacks members gets one: with fewer healthy members than replicas, a
    round that ends well has created exactly one pod, has counted it, and has deleted
    nothing. *)
Theorem runGalera_grows (gc : defaultGaleraControl) (env : Env) (g : Galera) (rev : string)
    (creds : gmap string string) (pods : list Pod) (claims : list PersistentVolumeClaim) (w b : Pod)
    (phase : GaleraPhase) (tl : tally) (n : Z) (st : GaleraStatus) (h : history) :
  healthy env g creds pods claims → writers pods w b → replicas g = Ok n →
  Z.of_nat (length pods) < n ≤ 2147483647 → kept st = (emptyStatus.(st_Members), 0, phase, tl) →
  let '(o, st', t) := runGalera gc g g rev rev pods claims creds st env h in
  one_more g pods w b rev (Z.of_nat (length pods) + 1) phase (fold_left (counted rev rev) pods tl) o st' t.
Proof.
  intros Hh Hw Hn Hl Hk.
  assert (ends env (runGalera gc g g rev rev pods claims creds) st
    (one_more g pods w b rev (Z.of_nat (length pods) + 1) phase (fold_left (counted rev rev) pods tl))) as He.
  { unfold runGalera. rewrite (hl_pods _ _ _ _ _ Hh). eapply ends_bind; [by eapply classify_healthy|].
    intros ? st1 (m & -> & -> & Hk1). eapply actOnMembers_healthy; [done..|]. intros addresses sc st2 Hk2.
    rewrite decide_True by lia. rewrite bool_decide_false in Hk2 by lia. apply ends_here.
    intros h' o st' t E. eapply growCluster_healthy; [done..|lia| |exact E]. rewrite Hk2. unfold next_phase. by case_decide. }
  destruct (He h) as (o & st' & t1 & t2 & -> & HF & Hd & Hc & Hp & Hok).
  assert (Forall quiet t1) as Hq by (eapply Forall_impl; [exact HF|]; by intros []). split_and!.
  - apply Forall_app. split; [|done]. eapply Forall_impl; [exact Hq|]. by intros ? [? ?].
  - by rewrite count_app, count_none by (by apply quiet_no_create).
  - intros ns pod err [Hin|Hin]%elem_of_app; [|by eapply Hp]. rewrite Forall_forall in Hq. by apply Hq in Hin as [_ ?].
  - intros Ho. destruct (Hok Ho) as [[pod Hin] E]. split; [|done]. exists pod. set_solver.
Qed.
End members.

(** ** Examples *)

#[local] Existing Instances RetryLib_steps RetryLaws_steps NewRealGaleraPodControl
  realGaleraPodControl_laws examplePodUtil.

(** A cluster without a special node *)
Definition plain_galera (status : GaleraStatus) : Galera :=
  mkGalera "gal" "ns" "uid" None ∅ 1 false (mkSpec (Some 3) (Some example_template) example_pvc None None None)
    status.

(** The first members of the example cluster, with their claims *)
Lemma example_healthy services pdbs revisions status k : k = 2%nat ∨ k = 3%nat →
  healthy (env_with_objects services pdbs revisions primary_env) (plain_galera status) creds_up (take k example_pods) (take k example_claims) ∧
  writers (take k example_pods) (example_pod "a" RoleWriter "10.0.0.1") (example_pod "b" RoleBackupWriter "10.0.0.2").
Proof.
  intros Hk. assert (Forall member (take k example_pods)) as Hm.
  { apply Forall_take. repeat apply Forall_cons_2; [constructor..|apply Forall_nil_2];
      [reflexivity|done|by left|reflexivity|done|by right; left|reflexivity|done|].
    right; right. split; [reflexivity|by right]. }
  assert (primary (env_with_objects services pdbs revisions primary_env) (plain_galera status) creds_up (take k example_pods)) as Hp.
  { apply Forall_take. repeat apply Forall_cons_2; [intros h; vm_compute; reflexivity..|apply Forall_nil_2]. }
  split.
  - destruct Hk as [-> | ->].
    all: split; [done|done|by apply (bool_decide_unpack _); vm_compute|by vm_compute; lia|by vm_compute| | | |].
    all: try (eexists; reflexivity); try (intros h; eexists; reflexivity); try (vm_compute; reflexivity).
    all: repeat apply Forall_cons_2; [split; [reflexivity|apply (bool_decide_unpack _); vm_compute; exact I]..|apply Forall_nil_2].
  - destruct Hk as [-> | ->]; (split; [reflexivity..|vm_compute; reflexivity]).
Qed.

Lemma runGalera_settled_witness :
  @GaleraPodControlLaws NewRealGaleraPodControl ∧ kept running_status = (emptyStatus.(st_Members), 0, GaleraPhaseRunning, tally_of running_status) ∧
  let '(o, st', t) := runGalera example_control (plain_galera emptyStatus) (plain_galera emptyStatus) "r1" "r1" example_pods
    example_claims creds_up running_status primary_env [] in
  o = Ok tt ∧ Forall reading t ∧ st'.(st_Members).(mem_Ready) = ["gal-a"; "gal-b"; "gal-c"].
Proof.
  split; [exact realGaleraPodControl_laws|]. split; [reflexivity|].
  destruct (example_healthy primary_env.(env_serviceGet) primary_env.(env_pdbGet) primary_env.(env_revisionList)
    emptyStatus 3 (or_intror eq_refl)) as [Hh Hw].
  pose proof (runGalera_settled example_control primary_env (plain_galera emptyStatus) "r1" creds_up example_pods example_claims
    _ _ GaleraPhaseRunning (tally_of running_status) running_status [] Hh Hw eq_refl eq_refl eq_refl) as Hs.
  destruct (runGalera _ _ _ _ _ _ _ _ _ _ _) as [[o st'] t]. destruct Hs as (Ho & HF & Hk).
  split; [exact Ho|]. split; [exact HF|]. exact (f_equal (λ k, mem_Ready (fst (fst (fst k)))) Hk).
Defined.

Lemma runGalera_grows_witness :
  @GaleraPodControlLaws NewRealGaleraPodControl ∧
  let '(o, st', t) := runGalera example_control (plain_galera emptyStatus) (plain_galera emptyStatus) "r1" "r1" (take 2 example_pods)
    (take 2 example_claims) creds_up running_status primary_env [] in
  (∃ pod, EvPodCreate "ns" pod None ∈ t) ∧ st'.(st_Replicas) = 3.
Proof.
  split; [exact realGaleraPodControl_laws|].
  destruct (example_healthy primary_env.(env_serviceGet) primary_env.(env_pdbGet) primary_env.(env_revisionList)
    emptyStatus 2 (or_introl eq_refl)) as [Hh Hw].
  pose proof (runGalera_grows example_control primary_env (plain_galera emptyStatus) "r1" creds_up (take 2 example_pods)
    (take 2 example_claims) _ _ GaleraPhaseRunning (tally_of running_status) 3 running_status [] Hh Hw eq_refl ltac:(cbn; lia) eq_refl) as Hs.
  assert (fst (fst (runGalera example_control (plain_galera emptyStatus) (plain_galera emptyStatus) "r1" "r1" (take 2 example_pods)
    (take 2 example_claims) creds_up running_status primary_env [])) = Ok tt) as Ho by (vm_compute; reflexivity).
  destruct (runGalera _ _ _ _ _ _ _ _ _ _ _) as [[o st'] t]. destruct Hs as (_ & _ & _ & Hok).
  destruct (Hok Ho) as [Hpod Hk]. split; [exact Hpod|]. exact (f_equal (λ k, snd (fst (fst k))) Hk).
Defined.
