(* ===== verification/Quiet.v ===== *)
(** * The operator on a cluster that is as it should be

    The fixed points of [SyncGalera]: when the pods are healthy, the services, the
    disruption budget and the newest revision are those of the specification, and the
    recorded status agrees, a whole round of the operator writes nothing.  Proved
    against the laws of the pod control and of the revisions. *)
From stdpp Require Import sorting.
From S2P Require Import Prelude Types Objects Names PodLib Kube Utils PodControl Controls Upgrade.
From S2P Require Import Revisions Control Sync Rounds Settled.

(** ** Computations that only read *)

Definition calm {A} (env : Env) (m : M A) (Q : A → Prop) : Prop :=
  ∀ h, ∃ a t, m env h = (Ok a, t) ∧ Q a ∧ Forall reading t.

Section calm.
Context (env : Env).

Lemma calm_ret {A} (a : A) (Q : A → Prop) : Q a → calm env (mret a) Q.
Proof. intros HQ h. by exists a, []. Qed.

Lemma calm_bind {A B} (m : M A) (f : A → M B) R Q :
  calm env m R → (∀ a, R a → calm env (f a) Q) → calm env (m ≫= f) Q.
Proof.
  intros Hm Hf h. destruct (Hm h) as (a & t1 & E1 & HR & F1).
  destruct (Hf a HR (h ++ t1)) as (b & t2 & E2 & HQ & F2). exists b, (t1 ++ t2).
  split_and!; [|done|by apply Forall_app]. unfold mbind, M_bind. by rewrite E1, E2.
Qed.

Lemma calm_pure {A B} (a : A) (f : A → M B) Q : calm env (f a) Q → calm env (pureM (Ok a) ≫= f) Q.
Proof. intros Hf. apply (calm_bind _ _ (λ a', a' = a)); [intros h; by exists a, []|by intros a' ->]. Qed.

(** A call whose answer is known *)
Lemma calm_call {R B} (g : Env → history → R) (ev : R → event) (f : R → M B) (P : R → Prop) Q :
  (∀ h, P (g env h)) → (∀ r, reading (ev r)) → (∀ r, P r → calm env (f r) Q) → calm env (call g ev ≫= f) Q.
Proof.
  intros Hg He Hf. apply (calm_bind _ _ P); [|done]. intros h. eexists _, _.
  split_and!; [reflexivity|by apply Hg|by repeat constructor].
Qed.

Lemma calm_attempt {A} (m : M A) Q : calm env m Q → calm env (attempt m) (λ r, ∃ a, r = inl a ∧ Q a).
Proof.
  intros Hm h. destruct (Hm h) as (a & t & E & HQ & HF). exists (inl a), t. unfold attempt. rewrite E. eauto.
Qed.

Lemma calm_runStatus (m : SM unit) st (Q : GaleraStatus → Prop) :
  yields env m st (λ _, Q) → calm env (runStatus m st) Q.
Proof.
  intros Hm h. destruct (Hm h) as (o & st' & t & t2 & E & HF & -> & [] & -> & HQ).
  exists st', t. unfold runStatus. rewrite E, app_nil_r. auto.
Qed.

Lemma yields_calm {A B} (m : M A) (f : A → SM B) st R K :
  calm env m R → (∀ a, R a → ends env (f a) st K) → ends env (lift m ≫= f) st K.
Proof. intros Hm Hf. by apply (ends_lift _ _ _ _ R). Qed.

Lemma yields_lift {A} (m : M A) st (R : A → Prop) (Q : A → GaleraStatus → Prop) :
  calm env m R → (∀ a, R a → Q a st) → yields env (lift m) st Q.
Proof.
  intros Hm HQ h. destruct (Hm h) as (a & t & E & HR & HF). exists (Ok a), st, t, [].
  unfold lift. rewrite E, app_nil_r. split_and!; [done..|]. split; [done|]. eauto.
Qed.
End calm.

Lemma GetGaleraCreds_known env g creds : (∀ h, fst (GetGaleraCreds g env h) = Ok creds) →
  calm env (GetGaleraCreds g) (λ c, c = creds).
Proof.
  intros Hc h. pose proof (Hc h) as Ho.
  assert (emits reading (GetGaleraCreds g)) as HF by (unfold GetGaleraCreds, secretGet; emits_ops).
  specialize (HF env h). destruct (GetGaleraCreds g env h) as [o t]. cbn in *. subst o. by exists creds, t.
Qed.

(** ** Services and disruption budget *)

(** A service with the labels it is given *)
Definition found (env : Env) (g : Galera) (name : string) (svc : Service) : Prop :=
  ∀ h, ∃ cur, env.(env_serviceGet) h g.(g_Namespace) name = inl cur ∧ cur.(svc_Labels) = svc.(svc_Labels).

(** Nothing to create, to update or to delete *)
Record served (env : Env) (g : Galera) (tpl : PodTemplate) : Prop := {
  sv_writer : let name := getServiceName g.(g_Name) ServiceWriterSuffix MaxServiceWriterLength in
    found env g name (newGaleraService g name RoleWriter);
  sv_writerBackup : let name := getServiceName g.(g_Name) ServiceWriterBackupSuffix MaxServiceWriterBackupLength in
    found env g name (newGaleraService g name RoleBackupWriter);
  sv_reader : let name := getServiceName g.(g_Name) ServiceReaderSuffix MaxServiceReaderLength in
    found env g name (newGaleraService g name Reader);
  sv_special : ∀ h, ∃ e, env.(env_serviceGet) h g.(g_Namespace)
    (getServiceName g.(g_Name) ServiceSpecialSuffix MaxServiceSpecialLength) = inr e;
  sv_monitor : tpl.(pt_Metric) ≠ None → ∃ svc, newGaleraServiceMonitor g = Ok svc ∧
    found env g (getServiceName g.(g_Name) ServiceMonitorSuffix MaxServiceMonitorLength) svc;
  sv_internal : found env g (getServiceName g.(g_Name) HeadlessServiceSuffix MaxHeadlessServiceLength)
    (newGaleraHeadlessService g);
  sv_pdb : ∀ h, ∃ cur, env.(env_pdbGet) h g.(g_Namespace) (getPDBName g.(g_Name)) = inl cur ∧
    cur.(pdb_Labels) = (newGaleraPodDisruptionBudget g).(pdb_Labels) }.

Section services.
Context (env : Env) (g : Galera).

Lemma createOrUpdateService_calm name svc : found env g name svc →
  calm env (createOrUpdateService g name svc) (λ _, True).
Proof.
  intros Hf h. destruct (Hf h) as (cur & E & El). exists name, [EvServiceGet g.(g_Namespace) name].
  split_and!; [|done|by repeat constructor].
  unfold createOrUpdateService, serviceGet, call, attempt, mbind, M_bind, orErr, mret, M_ret. cbn -[getPDBName]. rewrite E. cbn.
  by rewrite decide_True by done.
Qed.

Lemma CreateOrUpdateGaleraServiceSpecial_calm : g.(g_Spec).(spec_Special) = None →
  (∀ h, ∃ e, env.(env_serviceGet) h g.(g_Namespace)
     (getServiceName g.(g_Name) ServiceSpecialSuffix MaxServiceSpecialLength) = inr e) →
  calm env (CreateOrUpdateGaleraServiceSpecial g) (λ _, True).
Proof.
  intros Hs Hf h. destruct (Hf h) as [e E]. unfold CreateOrUpdateGaleraServiceSpecial. rewrite Hs.
  generalize dependent (getServiceName g.(g_Name) ServiceSpecialSuffix MaxServiceSpecialLength). intros name _ E.
  exists "", [EvServiceGet g.(g_Namespace) name]. split_and!; [|done|by repeat constructor].
  unfold serviceGet, call, attempt, mbind, M_bind, orErr, mret, M_ret. cbn. by rewrite E.
Qed.

Lemma CreateOrUpdateGaleraPDB_calm :
  (∀ h, ∃ cur, env.(env_pdbGet) h g.(g_Namespace) (getPDBName g.(g_Name)) = inl cur ∧
     cur.(pdb_Labels) = (newGaleraPodDisruptionBudget g).(pdb_Labels)) →
  calm env (CreateOrUpdateGaleraPDB g) (λ _, True).
Proof.
  intros Hf h. destruct (Hf h) as (cur & E & El). eexists _, [EvPDBGet g.(g_Namespace) (getPDBName g.(g_Name))].
  split_and!; [|done|by repeat constructor].
  unfold CreateOrUpdateGaleraPDB, pdbGet, call, attempt, mbind, M_bind, orErr, mret, M_ret. cbn -[getPDBName]. rewrite E. cbn.
  by rewrite decide_True by done.
Qed.

(** The names of the services are not what a round records of the pods. *)
Lemma setService_kept set (m : M string) st :
  (∀ name st, kept (set name st) = kept st) → calm env m (λ _, True) →
  yields env (setService set m) st (λ _ st', kept st' = kept st).
Proof. intros Hk Hm. unfold setService. eapply yields_calm; [exact Hm|]. intros name _. apply yields_modify, Hk. Qed.

Lemma createOrUpdateServices_kept tpl st : g.(g_Spec).(spec_Pod) = Some tpl →
  g.(g_Spec).(spec_Special) = None → served env g tpl →
  yields env (createOrUpdateServices g) st (λ _ st', kept st' = kept st).
Proof.
  intros Ht Hs [Hw Hb Hr Hsp Hm Hi _]. unfold createOrUpdateServices.
  case_decide; [|by apply yields_ret]. destruct (IsReady _); [|by apply yields_ret].
  eapply ends_bind; [apply setService_kept; [done|by apply createOrUpdateService_calm]|]. intros [] st1 E1.
  eapply ends_bind; [apply setService_kept; [done|by apply createOrUpdateService_calm]|]. intros [] st2 E2.
  eapply ends_bind; [apply setService_kept; [done|by apply createOrUpdateService_calm]|]. intros [] st3 E3.
  eapply ends_bind; [apply setService_kept; [done|by apply CreateOrUpdateGaleraServiceSpecial_calm]|]. intros [] st4 E4.
  rewrite Ht. apply ends_pure. apply (ends_bind _ _ _ _ (λ _ st5, kept st5 = kept st4)).
  { destruct (pt_Metric tpl) eqn:Et; [|by apply yields_ret].
    destruct (Hm ltac:(congruence)) as (svc & Es & Hf). apply setService_kept; [done|].
    unfold CreateOrUpdateGaleraServiceMonitor. rewrite Es. apply calm_pure. by apply createOrUpdateService_calm. }
  intros [] st5 E5. eapply ends_impl; [apply setService_kept; [done|by apply createOrUpdateService_calm]|].
  intros o st6 t (-> & [] & -> & E6). split; [done|]. exists tt. split; [done|]. congruence.
Qed.
End services.

(** ** The history *)

Section history.
Context `{RevisionLaws}.

Lemma ApplyRevision_same g cr tpl : g.(g_Spec).(spec_Pod) = Some tpl →
  encodable g.(g_Spec).(spec_PersistentVolumeClaimSpec) →
  cr.(cr_Data) = encodePatch tpl g.(g_Spec).(spec_PersistentVolumeClaimSpec) → ApplyRevision g cr = Ok g.
Proof.
  intros Ht He Hd. unfold ApplyRevision. rewrite Hd, patchedSections_encode, Ht by done.
  rewrite mergePodTemplate_idemp, mergePVCSpec_idemp, <- Ht. by destruct g as [? ? ? ? ? ? ? []].
Qed.

(** The newest revision is the one of the specification, and there are not too many of
    them. *)
Record current (g : Galera) (tpl : PodTemplate) (r : ControllerRevision) (l : list ControllerRevision) : Prop := {
  cu_in : r ∈ l;
  cu_newest : ∀ r', r' ∈ l → r' = r ∨ r'.(cr_Revision) < r.(cr_Revision);
  cu_names : ∀ r', r' ∈ l → r'.(cr_Name) = r.(cr_Name) → r' = r;
  cu_encodable : encodable g.(g_Spec).(spec_PersistentVolumeClaimSpec);
  cu_data : r.(cr_Data) = encodePatch tpl g.(g_Spec).(spec_PersistentVolumeClaimSpec);
  cu_refl : EqualRevision r r = true;
  cu_new : ∃ new, newRevision g (r.(cr_Revision) + 1) (default 0 g.(g_Status).(st_CollisionCount)) = Ok new ∧
    EqualRevision r new = true;
  cu_limit : Z.of_nat (length (filter (λ r', r'.(cr_Name) ≠ r.(cr_Name)) l)) ≤
    default DefaultRevisionHistoryLimit g.(g_Spec).(spec_RevisionHistoryLimit) }.

Lemma current_perm g tpl r l l' : l' ≡ₚ l → current g tpl r l → current g tpl r l'.
Proof. intros Hp []. split; try done; setoid_rewrite Hp; done. Qed.

Lemma current_last g tpl r l : current g tpl r l →
  StronglySorted (λ r r', r.(cr_Revision) ≤ r'.(cr_Revision)) l → last l = Some r.
Proof.
  intros [Hi Hn _ _ _ _ _ _] Hs. destruct l as [|x l'] using rev_ind; [set_solver|]. clear IHl'.
  rewrite last_snoc. f_equal. destruct (Hn x) as [|Hlt]; [set_solver|done|]. exfalso.
  apply StronglySorted_app_1_elem_of with (x1 := r) (x2 := x) in Hs; set_solver by lia.
Qed.

Lemma last_filter {A} (P : A → Prop) `{∀ x, Decision (P x)} l x : last l = Some x → P x → last (filter P l) = Some x.
Proof.
  intros Hl HP. destruct l as [|y l' _] using rev_ind; [done|]. rewrite last_snoc in Hl. injection Hl as ->.
  rewrite filter_app, filter_cons_True by done. rewrite filter_nil. by rewrite last_snoc.
Qed.

Lemma length_filter_impl {A} (P Q : A → Prop) `{∀ x, Decision (P x), ∀ x, Decision (Q x)} l :
  (∀ x, P x → Q x) → (length (filter P l) ≤ length (filter Q l))%nat.
Proof.
  intros HPQ. induction l as [|x l IH]; [done|]. rewrite !filter_cons. repeat case_decide; cbn; try lia. naive_solver.
Qed.

Lemma current_find g tpl r l : current g tpl r l → findRevision r.(cr_Name) l = Some r.
Proof.
  intros [Hi _ Hn _ _ _ _ _]. unfold findRevision.
  destruct (filter (λ r', cr_Name r' = cr_Name r) l) as [|x l' _] eqn:E using rev_ind.
  - assert (r ∈ filter (λ r', cr_Name r' = cr_Name r) l) as Hr by (by apply list_elem_of_filter).
    rewrite E in Hr. by apply elem_of_nil in Hr.
  - rewrite last_snoc. f_equal. assert (x ∈ l' ++ [x]) as Hx by set_solver. rewrite <- E in Hx.
    apply list_elem_of_filter in Hx as [? ?]. by apply Hn.
Qed.

Lemma getGaleraRevisions_current env g tpl r l : current g tpl r l →
  g.(g_Status).(st_CurrentRevision) = r.(cr_Name) →
  calm env (getGaleraRevisions g l) (λ res, ∃ c, res = (r, r, c)).
Proof.
  intros Hc Hr. apply (current_perm _ _ _ _ (SortControllerRevisions l)) in Hc; [|apply Sort_perm].
  pose proof (current_last _ _ _ _ Hc (Sort_sorted l)) as El. pose proof (current_find _ _ _ _ Hc) as Ef.
  unfold getGaleraRevisions. set (s := SortControllerRevisions l) in *.
  destruct (cu_new _ _ _ _ Hc) as (new & En & Eq). unfold newNextRevision. rewrite El, En. apply calm_pure.
  rewrite FindEqual_filter, (last_filter _ _ r El Eq). cbn [deref].
  apply (calm_bind _ _ _ (λ res, res = (r, default 0 (st_CollisionCount (g_Status g))))).
  { apply calm_pure. rewrite (cu_refl _ _ _ _ Hc). by apply calm_ret. }
  intros [? ?] [= -> ->]. rewrite Hr, Ef. apply calm_ret. eauto.
Qed.

Lemma truncateHistory_current env g tpl r l pods : current g tpl r l →
  calm env (truncateHistory g pods l r r) (λ _, True).
Proof.
  intros Hc. unfold truncateHistory. rewrite decide_True; [by apply calm_ret|].
  etrans; [|apply (cu_limit _ _ _ _ Hc)]. apply inj_le, length_filter_impl. intros r' Hn E. apply Hn.
  unfold liveRevisions. rewrite E. set_solver.
Qed.
End history.

(** ** A whole round *)

Section quiet.
Context `{GaleraPodControlLaws} `{PodUtil} `{RetryLib} `{RevisionLaws} `{Regexp}.
Context (gc : defaultGaleraControl) (gucc : realGaleraUpgradeConfigControl).

(** The recorded status is the one the pods call for. *)
Record up_to_date (g : Galera) (rev : string) (n : nat) (s : GaleraStatus) : Prop := {
  ud_phase : s.(st_Phase) = GaleraPhaseRunning ∨ s.(st_Phase) = GaleraPhaseBackuping;
  ud_generation : g.(g_Generation) ≤ s.(st_ObservedGeneration);
  ud_replicas : s.(st_Replicas) = Z.of_nat n;
  ud_currentReplicas : s.(st_CurrentReplicas) = Z.of_nat n;
  ud_nextReplicas : s.(st_NextReplicas) = 0;
  ud_currentRevision : s.(st_CurrentRevision) = rev;
  ud_nextRevision : s.(st_NextRevision) = "";
  ud_ready : length s.(st_Members).(mem_Ready) = n;
  ud_unready : s.(st_Members).(mem_Unready) = [];
  ud_special : s.(st_Members).(mem_Special) = "" }.

(** A cluster that is as its specification says *)
Record steady (env : Env) (g : Galera) (creds : gmap string string) (tpl : PodTemplate)
    (r : ControllerRevision) (pods : list Pod) (claims : list PersistentVolumeClaim) (w b : Pod) : Prop := {
  sd_healthy : healthy env g creds pods claims;
  sd_writers : writers pods w b;
  sd_revision : Forall (λ p, getPodRevision p = r.(cr_Name)) pods;
  sd_template : g.(g_Spec).(spec_Pod) = Some tpl;
  sd_special : g.(g_Spec).(spec_Special) = None;
  sd_replicas : replicas g = Ok (Z.of_nat (length pods));
  sd_alive : g.(g_DeletionTimestamp) = false;
  sd_creds : ∀ h, fst (GetGaleraCreds g env h) = Ok creds;
  sd_served : served env g tpl;
  sd_history : ∀ h, ∃ l, env.(env_revisionList) h = inl l ∧ current g tpl r l;
  sd_status : up_to_date g r.(cr_Name) (length pods) g.(g_Status) }.

Lemma member_created pod : member pod → isCreated pod && negb (isTerminating pod) = true.
Proof.
  intros Hm. pose proof (mb_healthy pod Hm) as Hh. unfold isHealthy, isRunningAndReady in Hh.
  repeat (apply andb_true_iff in Hh as [Hh ?]). apply bool_decide_eq_true in Hh. apply andb_true_iff. split; [|done].
  apply bool_decide_eq_true. by rewrite Hh.
Qed.

Lemma counted_all rev pods : ∀ t, Forall member pods → Forall (λ p, getPodRevision p = rev) pods →
  0 ≤ t.(tl_currentReplicas) → 0 ≤ t.(tl_nextReplicas) →
  t.(tl_currentReplicas) + Z.of_nat (length pods) < 2147483648 →
  t.(tl_nextReplicas) + Z.of_nat (length pods) < 2147483648 →
  fold_left (counted rev rev) pods t =
    mkTally t.(tl_generation) t.(tl_current) t.(tl_next) (t.(tl_currentReplicas) + Z.of_nat (length pods))
      (t.(tl_nextReplicas) + Z.of_nat (length pods)).
Proof.
  induction pods as [|p pods IH]; intros t Hm Hr Hc1 Hn1 Hc2 Hn2; cbn [fold_left length] in *.
  { rewrite !Z.add_0_r. by destruct t. }
  apply Forall_cons in Hm as [Hp Hm], Hr as [Hpr Hr]. unfold counted at 2.
  rewrite (member_created p Hp), !decide_True by done. rewrite !i32_id by (unfold i32_range; lia).
  rewrite IH by (try done; cbn; lia). cbn. f_equal; lia.
Qed.

Section round.
Context (env : Env) (g : Galera) (creds : gmap string string) (tpl : PodTemplate) (r : ControllerRevision)
  (pods : list Pod) (claims : list PersistentVolumeClaim) (w b : Pod)
  (Hsd : steady env g creds tpl r pods claims w b).

(** What is recorded at the end of the round, but for the conditions and names *)
Definition final : MembersStatus * Z * GaleraPhase * tally :=
  (members_of pods w b, Z.of_nat (length pods), g.(g_Status).(st_Phase),
   mkTally g.(g_Generation) r.(cr_Name) r.(cr_Name) (Z.of_nat (length pods)) (Z.of_nat (length pods))).


Lemma phaseStep_steady st : (st.(st_Members), st.(st_Replicas), tally_of st) =
    (emptyStatus.(st_Members), 0, mkTally g.(g_Generation) r.(cr_Name) r.(cr_Name) 0 0) →
  yields env (phaseStep gc g g r.(cr_Name) r.(cr_Name) pods claims creds) st (λ _ st', kept st' = final).
Proof.
  intros [= EM ER E1 E2 E3 E4 E5]. destruct Hsd as [Hh Hw Hr Ht Hs Hn _ _ _ _ [Hp _ _ _ _ _ _ _ _ _]].
  unfold phaseStep. rewrite !decide_False by (destruct Hp as [-> | ->]; done).
  rewrite decide_True by (destruct Hp as [-> | ->]; auto). apply ends_modify.
  eapply ends_impl; [eapply runGalera_yields; try done|].
  { unfold kept, tally_of. cbn. by rewrite EM, ER, E1, E2, E3, E4, E5. }
  intros o st' t (-> & [] & -> & Hk). split; [done|]. exists tt. split; [done|]. rewrite Hk. unfold final.
  rewrite counted_all by (try apply (hl_members _ _ _ _ _ Hh); try done; cbn; pose proof (hl_count _ _ _ _ _ Hh); lia).
  cbn. f_equal. f_equal. unfold next_phase. by destruct Hp as [-> | ->].
Qed.

Lemma syncGalera_steady c :
  calm env (syncGalera gc gucc g g r.(cr_Name) r.(cr_Name) c pods claims) (λ st, kept st = final).
Proof.
  unfold syncGalera. apply calm_runStatus. unfold syncBody. rewrite (sd_alive _ _ _ _ _ _ _ _ _ Hsd).
  eapply yields_calm; [apply calm_attempt, GetGaleraCreds_known, (sd_creds _ _ _ _ _ _ _ _ _ Hsd)|]. intros ? (? & -> & ->).
  apply ends_modify. apply (ends_bind _ _ _ _ (λ g' st', g' = g ∧
    st' = with_Conditions g.(g_Status).(st_Conditions) (initialStatus g r.(cr_Name) r.(cr_Name) c))).
  { unfold chooseNext. apply ends_getStatus. destruct (IsUpgrading _); [by apply yields_ret|].
    rewrite (sd_template _ _ _ _ _ _ _ _ _ Hsd). apply ends_pure, ends_pure. unfold CanUpgrade.
    rewrite decide_True by done. apply (yields_calm _ _ _ _ (λ can, can = true)); [by apply calm_ret|].
    intros ? ->. by apply yields_ret. }
  intros g' st' [-> ->]. by apply phaseStep_steady.
Qed.

Lemma publish_steady st : kept st = final → yields env (publish g) st (λ _ _, True).
Proof.
  intros Hk. destruct Hsd as [Hh _ _ Ht Hs Hn _ _ Hsv _ Hu]. unfold publish. apply ends_getStatus.
  apply (ends_bind _ _ _ _ (λ _ st', kept st' = final)).
  { case_decide; [|by apply yields_ret].
    eapply ends_impl; [by eapply createOrUpdateServices_kept|].
    intros o st' t (-> & [] & -> & Hk'). split; [done|]. exists tt. split; [done|]. congruence. }
  intros [] st1 Hk1. eapply yields_calm; [by apply CreateOrUpdateGaleraPDB_calm, Hsv|]. intros name _.
  apply ends_modify. unfold updateGaleraStatus. apply ends_getStatus.
  change (kept (with_PodDisruptionBudgetName name st1) = final) in Hk1.
  revert Hk1. generalize (with_PodDisruptionBudgetName name st1). intros st2 Hk2.
  apply kept_inv in Hk2 as (EM & ER & EP & ET). unfold tally_of in ET. injection ET as EG EC EN ECR ENR.
  pose proof (hl_count _ _ _ _ _ Hh) as Hl. unfold completeRollingUpdate.
  rewrite decide_True; [|by rewrite EM, ER, ENR; cbn; unfold len32; rewrite length_fmap, i32_id by (unfold i32_range; lia)].
  rewrite Hn. cbn [mbind outcome_bind mret]. rewrite decide_True by (by rewrite ER). apply ends_pure, ends_modify.
  assert (inconsistentStatus g (with_NextRevision "" (with_NextReplicas 0
    (with_CurrentRevision (st_NextRevision st2) (with_CurrentReplicas (st_NextReplicas st2) st2)))) = false) as ->;
    [|by apply yields_ret].
  unfold inconsistentStatus. apply bool_decide_eq_false. destruct Hu as [_ ? ? ? ? ? ? ? Hun ?]. cbn.
  rewrite EM, ER, EG, EN, ENR. cbn. rewrite Hun, length_fmap. cbn. intuition (try congruence; try lia).
Qed.

Lemma SyncGalera_calm : calm env (SyncGalera gc gucc g pods claims) (λ _, True).
Proof.
  pose proof Hsd as [_ _ _ Ht _ _ _ _ _ Hl Hu]. unfold SyncGalera, ListRevisions, revisionList.
  apply (calm_bind _ _ _ (λ l, current g tpl r l)).
  { intros h. destruct (Hl h) as (l & E & Hc). exists l, [EvRevisionList]. unfold call, mbind, M_bind, orErr.
    rewrite E. split_and!; [done..|by repeat constructor]. }
  intros l Hc. apply (current_perm _ _ _ _ (SortControllerRevisions l)) in Hc; [|apply Sort_perm].
  eapply calm_bind; [eapply getGaleraRevisions_current; [exact Hc|apply Hu]|]. intros ? [c ->].
  rewrite (ApplyRevision_same g r tpl Ht (cu_encodable _ _ _ _ Hc) (cu_data _ _ _ _ Hc)).
  apply calm_pure, calm_pure. eapply calm_bind; [apply syncGalera_steady|]. intros st Hk.
  eapply calm_bind; [by apply (calm_runStatus _ _ _ (λ _, True)), publish_steady|]. intros _ _.
  eapply truncateHistory_current, current_perm; [apply Sort_perm|exact Hc].
Qed.
End round.

(** C4: the operator has fixed points: when the pods are healthy members in the number that
    is asked for, when the services, the disruption budget and the newest revision are those
    of the specification, and the recorded status agrees, a whole call of [SyncGalera] ends
    well and only reads: it creates, updates and deletes nothing, and writes no status. *)
Theorem SyncGalera_quiet (env : Env) (g : Galera) (creds : gmap string string) (tpl : PodTemplate)
    (r : ControllerRevision) (pods : list Pod) (claims : list PersistentVolumeClaim) (w b : Pod) (h : history) :
  steady env g creds tpl r pods claims w b →
  let '(o, t) := SyncGalera gc gucc g pods claims env h in o = Ok tt ∧ Forall reading t.
Proof.
  intros Hsd. by destruct (SyncGalera_calm env g creds tpl r pods claims w b Hsd h) as ([] & t & -> & _ & HF).
Qed.
End quiet.

(** ** Example *)

#[local] Existing Instances RetryLib_steps RetryLaws_steps NewRealGaleraPodControl realGaleraPodControl_laws examplePodUtil
  exampleRegexp exampleRevisionLib exampleRevisionLaws.

(** The recorded status of three members, ready *)
Definition quiet_status : GaleraStatus :=
  SetReadyCondition 7
    (mkStatus 1 GaleraPhaseRunning "" "" "" "" "" "" "" 3
       (mkMembers ["gal-a"; "gal-b"; "gal-c"] [] "gal-a" "gal-b" "" "") "r1" 3 "" 0 None []).

Definition quiet_galera : Galera := plain_galera quiet_status.

(** The revision the members were created with *)
Definition quiet_revision : ControllerRevision :=
  mkRevision "r1" None None [] (encodePatch example_template example_pvc) 1.

(** Every service but the special one exists, and so do the budget and the revision. *)
Definition quiet_env : Env :=
  env_with_objects
    (λ _ _ name,
       if decide (name = getServiceName "gal" ServiceSpecialSuffix MaxServiceSpecialLength)
       then inr (mkError NotFound name)
       else inl (mkService name None [] [] "ClusterIP" "" ∅))
    (λ _ _ _, inl (newGaleraPodDisruptionBudget quiet_galera)) (λ _, inl [quiet_revision]) primary_env.

Lemma quiet_served : served quiet_env quiet_galera example_template.
Proof.
  split; try (intros h; eexists; split; [by vm_compute|reflexivity]).
  - intros h. eexists. by vm_compute.
  - intros _. eexists. split; [reflexivity|]. intros h. eexists. split; [by vm_compute|reflexivity].
Qed.

Lemma quiet_current : current quiet_galera example_template quiet_revision [quiet_revision].
Proof.
  split.
  - apply list_elem_of_here.
  - intros r' ->%list_elem_of_singleton. by left.
  - by intros r' ->%list_elem_of_singleton.
  - done.
  - reflexivity.
  - by apply bool_decide_eq_true.
  - eexists. split; [reflexivity|]. by apply bool_decide_eq_true.
  - by vm_compute.
Qed.

Lemma quiet_steady :
  steady quiet_env quiet_galera creds_up example_template quiet_revision example_pods example_claims
    (example_pod "a" RoleWriter "10.0.0.1") (example_pod "b" RoleBackupWriter "10.0.0.2").
Proof.
  destruct (example_healthy (env_serviceGet quiet_env) (env_pdbGet quiet_env) (env_revisionList quiet_env)
    quiet_status 3 (or_intror eq_refl)) as [Hh Hw].
  split; [exact Hh|exact Hw| |reflexivity..| |exact quiet_served| |].
  - repeat apply Forall_cons_2; [reflexivity..|apply Forall_nil_2].
  - intros h. reflexivity.
  - intros h. eexists. split; [reflexivity|exact quiet_current].
  - split; try reflexivity. by left.
Qed.

Lemma SyncGalera_quiet_witness :
  IsReady (Some quiet_status) = true ∧
  let '(o, t) := SyncGalera example_control example_gucc quiet_galera example_pods example_claims quiet_env [] in
  o = Ok tt ∧ Forall reading t.
Proof.
  split; [reflexivity|].
  pose proof (SyncGalera_quiet example_control example_gucc quiet_env quiet_galera creds_up example_template
    quiet_revision example_pods example_claims _ _ [] quiet_steady) as H.
  exact H.
Defined.
