(* ===== verification/Converge.v ===== *)
(** * Rounds converge

    From any healthy cluster with its two writers, rounds add the members that are
    missing, one at a time, and nothing else: after as many rounds as there were missing
    members the cluster is complete.  The pods that a round creates are assumed to start
    and the calls of the round to be answered; everything else, the status that is
    recorded and the order of the lists included, is arbitrary.  Proved for the pod
    control of the program. *)
From S2P Require Import Prelude Types Objects Names PodLib Kube Utils PodControl Controls Upgrade.
From S2P Require Import Revisions Control Sync Rounds Settled Quiet.

(** ** Clusters *)

Record cluster := mkCluster {
  cl_pods : list Pod;
  cl_claims : list PersistentVolumeClaim }.

(** What a round created *)
Definition created_pods (t : history) : list Pod :=
  omap (λ e, match e with EvPodCreate _ pod None => Some pod | _ => None end) t.
Definition created_claims (t : history) : list PersistentVolumeClaim :=
  omap (λ e, match e with EvClaimCreate _ claim None => Some claim | _ => None end) t.

(** A pod that was created runs and is ready, under its name and its labels. *)
Record started `{PodUtil} (pod pod' : Pod) : Prop := {
  sta_name : pod'.(pod_Name) = pod.(pod_Name);
  sta_labels : pod'.(pod_Labels) = pod.(pod_Labels);
  sta_healthy : isHealthy pod' = true }.

(** A claim that was created is bound. *)
Record bound (claim claim' : PersistentVolumeClaim) : Prop := {
  bo_name : claim'.(claim_Name) = claim.(claim_Name);
  bo_alive : isClaimTerminating claim' = false }.

(** The cluster after a round: what it created is there, in any order. *)
Definition starts `{PodUtil} (c : cluster) (t : history) (c' : cluster) : Prop :=
  ∃ pods claims, Forall2 started (created_pods t) pods ∧ Forall2 bound (created_claims t) claims ∧
    c'.(cl_pods) ≡ₚ c.(cl_pods) ++ pods ∧ c'.(cl_claims) ≡ₚ c.(cl_claims) ++ claims.

Section clusters.
Context `{GaleraPodControl} `{PodUtil}.

(** The part of [healthy] that the lists decide *)
Record sound (c : cluster) (w b : Pod) : Prop := {
  so_members : Forall member c.(cl_pods);
  so_names : NoDup (pod_Name <$> c.(cl_pods));
  so_backup : unique is_backup c.(cl_pods);
  so_pods : Forall (λ p, hasClaims p c.(cl_claims) = true) c.(cl_pods);
  so_claims : Forall (claimed (suffixes c.(cl_pods)) (backupSuffixes c.(cl_pods))) c.(cl_claims);
  so_writers : writers c.(cl_pods) w b }.

Lemma so_podWithoutClaims c w b : sound c w b → podWithoutClaims c.(cl_pods) c.(cl_claims) = None.
Proof.
  intros [_ _ _ Hp _ _]. unfold podWithoutClaims. rewrite Forall_forall in Hp.
  destruct (filter _ _) as [|p l] eqn:E; [done|]. assert (p ∈ p :: l) as Hin by set_solver.
  rewrite <- E in Hin. apply list_elem_of_filter in Hin as [[_ Hn] Hin]. by rewrite (Hp p Hin) in Hn.
Qed.

(** ** More pods *)

#[local] Instance suffixes_perm : Proper ((≡ₚ) ==> (≡ₚ)) suffixes.
Proof. intros l l' Hl. unfold suffixes. by rewrite Hl. Qed.

#[local] Instance backupSuffixes_perm : Proper ((≡ₚ) ==> (≡ₚ)) backupSuffixes.
Proof. intros l l' Hl. unfold backupSuffixes. by rewrite Hl. Qed.

Lemma existsb_mono {A} (f : A → bool) l l' : l ⊆ l' → existsb f l = true → existsb f l' = true.
Proof.
  intros Hl. rewrite !existsb_exists. intros (x & Hin & Hf). exists x. split; [|done].
  apply list_elem_of_In, Hl, list_elem_of_In, Hin.
Qed.

Lemma hasClaims_mono p claims claims' : claims ⊆ claims' → hasClaims p claims = true → hasClaims p claims' = true.
Proof.
  intros Hc. unfold hasClaims. destruct (pod_has _ _ _); [|by apply existsb_mono].
  rewrite !andb_true_iff. intros [? ?]. split; by eapply existsb_mono.
Qed.

Lemma claimed_mono s s' k k' claim : s ⊆ s' → k ⊆ k' → claimed s k claim → claimed s' k' claim.
Proof.
  intros Hs Hk [Ht Hc]. split; [done|]. destruct (getClaimSuffixAndBackup _) as [? []]; set_solver.
Qed.

Lemma writers_perm pods pods' w b : pods' ≡ₚ pods → writers pods w b → writers pods' w b.
Proof.
  intros Hp [Hw Hb Hr]. split; [| |done]; apply Permutation_singleton_r;
    [rewrite <- Hw|rewrite <- Hb]; by rewrite Hp.
Qed.

Lemma unique_perm f pods pods' : pods' ≡ₚ pods → unique f pods → unique f pods'.
Proof. intros Hp. unfold unique. by rewrite Hp. Qed.

Lemma filter_false (f : Pod → bool) l : Forall (λ q, f q = false) l → filter (λ q, f q = true) l = [].
Proof. induction 1 as [|q l Hq Hl IH]; [done|]. rewrite filter_cons_False; [done|by rewrite Hq]. Qed.

(** A member that is not a writer joins, with its claims. *)
Lemma sound_more c w b p claims c' : sound c w b →
  c'.(cl_pods) ≡ₚ c.(cl_pods) ++ [p] → c'.(cl_claims) ≡ₚ c.(cl_claims) ++ claims →
  member p → role_of p = None → getPodSuffix p.(pod_Name) ∉ suffixes c.(cl_pods) →
  (is_backup p = true → Forall (λ q, is_backup q = false) c.(cl_pods)) →
  hasClaims p claims = true →
  Forall (claimed [getPodSuffix p.(pod_Name)] (if is_backup p then [getPodSuffix p.(pod_Name)] else [])) claims →
  sound c' w b.
Proof.
  intros [Hm Hn Hk Hp Hc Hw] Ep Ec Hmp Hrp Hs Hb Hcp Hcc.
  assert (suffixes c'.(cl_pods) ≡ₚ suffixes c.(cl_pods) ++ [getPodSuffix p.(pod_Name)]) as Es.
  { rewrite Ep. unfold suffixes. by rewrite fmap_app. }
  assert (backupSuffixes c'.(cl_pods) ≡ₚ
            backupSuffixes c.(cl_pods) ++ (if is_backup p then [getPodSuffix p.(pod_Name)] else [])) as Ek.
  { rewrite Ep. unfold backupSuffixes, suffixes. rewrite filter_app, fmap_app, filter_cons.
    destruct (is_backup p); [rewrite decide_True by done|rewrite decide_False by done]; done. }
  split.
  - rewrite Ep. by apply Forall_app_2, Forall_singleton.
  - rewrite Ep, fmap_app. apply NoDup_app. split_and!; [done| |apply NoDup_singleton].
    intros x Hx ->%list_elem_of_singleton. apply Hs. unfold suffixes. rewrite list_fmap_compose.
    by apply list_elem_of_fmap_2.
  - eapply unique_perm; [exact Ep|]. unfold unique in *. rewrite filter_app, length_app, filter_cons.
    destruct (is_backup p) eqn:E; [|rewrite decide_False by done; cbn; lia]. rewrite decide_True by done.
    by rewrite filter_false by auto.
  - rewrite Ep. apply Forall_app. split; [|apply Forall_singleton; eapply hasClaims_mono; [|done]; rewrite Ec; set_solver].
    eapply Forall_impl; [exact Hp|]. intros q. apply hasClaims_mono. rewrite Ec. set_solver.
  - rewrite Ec. apply Forall_app. split; (eapply Forall_impl; [eassumption|]); intros k;
      apply claimed_mono; rewrite ?Es, ?Ek; set_solver.
  - eapply writers_perm; [exact Ep|]. destruct Hw as [Ew Eb Er]. split; [| |done]; rewrite filter_app, ?Ew, ?Eb.
    + rewrite filter_cons_False; [by rewrite filter_nil|]. unfold is_writer. by rewrite Hrp.
    + rewrite filter_cons_False; [by rewrite filter_nil|]. unfold is_backupWriter. by rewrite Hrp.
Qed.
End clusters.

(** ** Calls that are answered *)

(** The suffixes that the random generator gives *)
Definition good_suffix (s : string) : Prop := wf_suffix s ∧ (String.length s ≤ RandomSuffixLength)%nat.

(** What a round may ask of the cluster, and is answered *)
Record answers `{GaleraPodControl} (env : Env) (g : Galera) (creds : gmap string string) (c : cluster) : Prop := {
  an_primary : primary env g creds c.(cl_pods);
  an_creds : ∀ h, fst (GetGaleraCreds g env h) = Ok creds;
  an_classes : ∀ h, ∃ l, env.(env_storageClasses) h = inl l;
  an_rand : ∀ h, Forall good_suffix (env.(env_rand) h) ∧
    ∃ s, s ∈ env.(env_rand) h ∧ s ∉ suffixes c.(cl_pods);
  an_claimGet : ∀ h name, name ∉ claim_Name <$> c.(cl_claims) →
    ∃ e, env.(env_claimGet) h g.(g_Namespace) name = inr e ∧ e.(err_kind) = NotFound;
  an_claimCreate : ∀ h claim, env.(env_claimCreate) h g.(g_Namespace) claim = None;
  an_podCreate : ∀ h pod, env.(env_podCreate) h g.(g_Namespace) pod = None }.

(** A computation that ends well, with a result and a trace *)
Definition runs {A} (env : Env) (m : M A) (Q : A → history → Prop) : Prop :=
  ∀ h, ∃ a t, m env h = (Ok a, t) ∧ Q a t.

Lemma runs_bind {A B} env (m : M A) (f : A → M B) R Q :
  runs env m R → (∀ a t, R a t → runs env (f a) (λ b t', Q b (t ++ t'))) → runs env (m ≫= f) Q.
Proof.
  intros Hm Hf h. destruct (Hm h) as (a & t & E & HR). destruct (Hf a t HR (h ++ t)) as (b & t' & E' & HQ).
  exists b, (t ++ t'). split; [|done]. unfold mbind, M_bind. by rewrite E, E'.
Qed.

(** What a trace created *)
Definition creates (pods : list Pod) (claims : list PersistentVolumeClaim) (t : history) : Prop :=
  created_pods t = pods ∧ created_claims t = claims.

Lemma creates_app pods1 pods2 claims1 claims2 t1 t2 :
  creates pods1 claims1 t1 → creates pods2 claims2 t2 → creates (pods1 ++ pods2) (claims1 ++ claims2) (t1 ++ t2).
Proof. intros [<- <-] [<- <-]. unfold creates, created_pods, created_claims. by rewrite !omap_app. Qed.

Lemma reading_creates t : Forall reading t → creates [] [] t.
Proof.
  induction 1 as [|e t He Ht [IH1 IH2]]; [done|]. unfold creates, created_pods, created_claims in *. cbn.
  rewrite IH1, IH2. by destruct e.
Qed.

Section creation.
Context `{RetryLaws} (env : Env) (g : Galera) (creds : gmap string string) (c : cluster).
#[local] Existing Instances NewRealGaleraPodControl realGaleraPodControl_laws.
Context (Ha : answers env g creds c).

Lemma createClaim_runs claim what : claim.(claim_Namespace) = g.(g_Namespace) →
  claim.(claim_Name) ∉ claim_Name <$> c.(cl_claims) →
  runs env (realGaleraPodControl.createClaim g claim what) (λ _, creates [] [claim]).
Proof.
  intros Hns Hn h. destruct (an_claimGet _ _ _ _ Ha h _ Hn) as (e & E & Ek).
  unfold realGaleraPodControl.createClaim, claimGet, claimCreate, errOf, attempt, call, recordClaimEvent.
  unfold mbind, M_bind, mret, M_ret, orErr, retErr. rewrite Hns, E. cbn. rewrite Ek, decide_True by done. cbn.
  rewrite (an_claimCreate _ _ _ _ Ha). cbn. eexists _, _. split; [reflexivity|]. done.
Qed.

(** The claims of a new pod *)
Definition claims_of (pod : Pod) (role : string) : list PersistentVolumeClaim :=
  getPersistentVolumeClaim g pod :: if decide (role = Backup) then [getBackupPersistentVolumeClaim g pod] else [].

Lemma CreatePodAndClaim_runs pod role :
  Forall (λ k, k.(claim_Name) ∉ claim_Name <$> c.(cl_claims)) (claims_of pod role) →
  runs env (realGaleraPodControl.CreatePodAndClaim g pod role) (λ _, creates [pod] (claims_of pod role)).
Proof.
  intros [H1 H2]%Forall_cons. unfold realGaleraPodControl.CreatePodAndClaim.
  apply (runs_bind _ _ _ (λ _, creates [] (claims_of pod role))).
  { unfold realGaleraPodControl.createClaims, claims_of. eapply runs_bind; [by apply createClaim_runs|].
    intros [] t Ht. case_decide.
    - rewrite Forall_singleton in H2. intros h. destruct (createClaim_runs (getBackupPersistentVolumeClaim g pod)
        "Backup Persistent Volume Claim" eq_refl H2 h) as (a & t' & E & Ht').
      exists a, t'. split; [exact E|]. exact (creates_app _ _ _ _ _ _ Ht Ht').
    - intros h. exists tt, []. split; [done|]. by rewrite app_nil_r. }
  intros _ t Ht h. unfold podCreate, errOf, attempt, call, mbind, M_bind, mret, M_ret, retErr, recordPodEvent.
  rewrite (an_podCreate _ _ _ _ Ha). cbn. eexists _, _. split; [reflexivity|].
  rewrite <- (app_nil_r (claims_of pod role)). by apply (creates_app [] [pod]).
Qed.

(** ** The pod that a round adds *)

Context (gc : defaultGaleraControl) (rev : string) (w b : Pod).
Context (Hname : wf_name g.(g_Name)) (Hlen : (String.length g.(g_Name) ≤ MaxNameLength)%nat).

(** The pod has a name of its own, a role that is free, and the labels of the role. *)
Record added `{PodUtil} (role : string) (p : Pod) : Prop := {
  ad_suffix : ∃ s, p.(pod_Name) = getPodName g.(g_Name) s ∧ good_suffix s ∧ s ∉ suffixes c.(cl_pods);
  ad_labels : ∃ state, p.(pod_Labels) = Some (PodLabelsForGalera g.(g_Name) g.(g_Namespace) role rev state) }.

Lemma pod_suffix s : good_suffix s → getPodSuffix (getPodName g.(g_Name) s) = s.
Proof. intros [Hs _]. unfold getPodSuffix. by rewrite getPodName_short, parse_pod_name. Qed.

Lemma data_claim_parsed s : good_suffix s →
  getClaimSuffixAndBackup (getPersistentVolumeClaimName g.(g_Name) s) = (s, false) ∧
  getClaimSuffix (getPersistentVolumeClaimName g.(g_Name) s) = s.
Proof. intros [? ?]. unfold getClaimSuffixAndBackup, getClaimSuffix. by rewrite parse_data_claim. Qed.

Lemma backup_claim_parsed s : good_suffix s →
  getClaimSuffixAndBackup (getBackupPersistentVolumeClaimName g.(g_Name) s) = (s, true).
Proof. intros [? ?]. unfold getClaimSuffixAndBackup. by rewrite parse_backup_claim. Qed.

Lemma unknown_claim `{PodUtil} name s k : sound c w b → s ∉ suffixes c.(cl_pods) →
  getClaimSuffixAndBackup name = (s, k) → name ∉ claim_Name <$> c.(cl_claims).
Proof.
  intros Hs Hf Hp (claim & -> & Hin)%list_elem_of_fmap. destruct Hs as [_ _ _ _ Hc _].
  rewrite Forall_forall in Hc. destruct (Hc _ Hin) as [_ Hcl]. rewrite Hp in Hcl. destruct k; [|done].
  apply Hf. unfold backupSuffixes, suffixes in *. apply list_elem_of_fmap in Hcl as (p & -> & Hpin).
  apply list_elem_of_filter in Hpin as [_ ?]. by apply list_elem_of_fmap_2.
Qed.

Lemma newPodName_runs :
  runs env (newPodName g (suffixes c.(cl_pods)) []) (λ name t, Forall reading t ∧
    ∃ s, name = getPodName g.(g_Name) s ∧ good_suffix s ∧ s ∉ suffixes c.(cl_pods)).
Proof.
  intros h. destruct (an_rand _ _ _ _ Ha h) as [Hg (s & Hin & Hnot)].
  destruct (drawSuffix_progress _ _ _ Hin Hnot) as [s' E]. destruct (drawSuffix_fresh _ _ _ E) as [Hnot' Hin'].
  exists (getPodName g.(g_Name) s'), [EvRand]. rewrite Forall_forall in Hg.
  unfold newPodName, draws, call, mbind, M_bind, pureM, createUniquePodName. cbn. rewrite E. cbn.
  split_and!; [done|by repeat constructor|eauto].
Qed.

Lemma GetClaimRevision_runs s : getPersistentVolumeClaimName g.(g_Name) s ∉ claim_Name <$> c.(cl_claims) →
  runs env (GetClaimRevision g.(g_Namespace) (getPodName g.(g_Name) s)) (λ r t, r = (false, "") ∧ Forall reading t).
Proof.
  intros Hn h. destruct (an_claimGet _ _ _ _ Ha h _ Hn) as (e & E & Ek). cbn.
  unfold realGaleraPodControl.GetClaimRevision, claimGet, attempt, call, mbind, M_bind, mret, M_ret, orErr.
  unfold getPersistentVolumeClaimName in E. unfold getPersistentVolumeClaimNameForPod. rewrite E. cbn.
  rewrite decide_True by done. eexists _, _. split_and!; [done..|by repeat constructor].
Qed.

(** A computation on a status that ends well *)
Definition runsS {A} (m : SM A) (st : GaleraStatus) (Q : A → GaleraStatus → history → Prop) : Prop :=
  ∀ h, ∃ a st' t, m st env h = (Ok a, st', t) ∧ Q a st' t.

Lemma runsS_lift {A B} (m : M A) (f : A → SM B) st R Q :
  runs env m R → (∀ a t, R a t → runsS (f a) st (λ x st' t', Q x st' (t ++ t'))) → runsS (lift m ≫= f) st Q.
Proof.
  intros Hm Hf h. destruct (Hm h) as (a & t & E & HR). destruct (Hf a t HR (h ++ t)) as (x & st' & t' & E' & HQ).
  exists x, st', (t ++ t'). split; [|done]. unfold mbind, SM_bind, lift. by rewrite E, E'.
Qed.

Lemma createPod_runs `{PodUtil} role addresses init st : sound c w b → template_ok g.(g_Spec) role →
  runsS (createPod gc g rev rev role addresses init creds (suffixes c.(cl_pods)) []) st
    (λ _ _ t, ∃ p, added role p ∧ creates [p] (claims_of p role) t).
Proof.
  intros Hs Ht. unfold createPod. eapply runsS_lift; [apply newPodName_runs|].
  intros name t1 (F1 & s & -> & Hg & Hf). destruct (data_claim_parsed s Hg) as [Hd _].
  pose proof (backup_claim_parsed s Hg) as Hb.
  eapply runsS_lift; [eapply GetClaimRevision_runs, unknown_claim; done|]. intros ? t2 [-> F2].
  destruct (NewGaleraPod_ok g.(g_Spec) (getPodName g.(g_Name) s) g.(g_Name) g.(g_Namespace) role addresses
    gc.(gc_bootstrapImage) gc.(gc_backupImage) rev
    (if decide (role = Restore) then StateStandalone else newState false "" rev) init creds (AsOwner g) Ht)
    as (p & Ep & (En & El & _) & _). unfold newGaleraPod. rewrite Ep.
  eapply (runsS_lift _ _ _ (λ a t, a = p ∧ t = [])); [intros h; by exists p, []|]. intros ? ? [-> ->].
  eapply runsS_lift.
  { apply CreatePodAndClaim_runs. unfold claims_of. apply Forall_cons. unfold getPersistentVolumeClaim,
      getBackupPersistentVolumeClaim. rewrite En, pod_suffix by done. cbn. split; [by eapply unknown_claim|].
    destruct (decide (role = Backup)); [|apply Forall_nil_2]. apply Forall_singleton. by eapply unknown_claim. }
  intros [] t3 F3 h. eexists _, _, _. split; [reflexivity|]. exists p. split; [split; eauto|].
  cbn. rewrite app_nil_r. apply (creates_app [] [p] []); [by apply reading_creates|].
  by apply (creates_app [] [p] []); [apply reading_creates|].
Qed.

(** A role that a new pod may have *)
Definition free_role (role : string) : Prop :=
  role = Reader ∨ role = Backup ∧ Forall (λ p, is_backup p = false) c.(cl_pods).

(** It starts, and it is a member. *)
Lemma added_sound `{PodUtil} role p t c' : sound c w b → free_role role → added role p →
  creates [p] (claims_of p role) t → starts c t c' →
  sound c' w b ∧ length c'.(cl_pods) = S (length c.(cl_pods)) ∧ c.(cl_pods) ⊆ c'.(cl_pods).
Proof.
  intros Hs Hr [(s & En & Hg & Hf) [state El]] [Ep Ec] (pods & claims & Hps & Hcs & Hpp & Hcp).
  rewrite Ep in Hps. rewrite Ec in Hcs. apply Forall2_cons_inv_l in Hps as (p' & ? & [Sn Sl Sh] & ->%Forall2_nil_inv_l & ->).
  split_and!; [|rewrite Hpp, length_app; cbn; lia|rewrite Hpp; set_solver].
  destruct (data_claim_parsed s Hg) as [Hd Hd']. pose proof (backup_claim_parsed s Hg) as Hb.
  assert (role_of p' = None ∧ is_backup p' = bool_decide (role = Backup) ∧
          pod_has p' GaleraReaderLabel "true" = true) as (Hr1 & Hr2 & Hr3).
  { unfold role_of, is_backup, pod_has, pod_label, label. rewrite Sl, El. by destruct Hr as [-> |[-> _]]. }
  assert (getPodSuffix p'.(pod_Name) = s) as Es by (rewrite Sn, En; by apply pod_suffix).
  unfold claims_of, getPersistentVolumeClaim, getBackupPersistentVolumeClaim in Hcs.
  rewrite En, pod_suffix in Hcs by done.
  apply Forall2_cons_inv_l in Hcs as (k & ks & [Kn Ka] & Hks & ->). cbn in Kn.
  apply (sound_more c w b p' (k :: ks)); try done.
  - split; [done| |by auto]. rewrite Sn, En, getPodName_short by done. intros E0%(f_equal String.length).
    rewrite buildPodName_length in E0. cbn in E0. lia.
  - by rewrite Es.
  - rewrite Hr2. destruct Hr as [-> |[-> Hr]]; [done|by intros _].
  - unfold hasClaims. rewrite Es. unfold is_backup in Hr2. rewrite Hr2. case_bool_decide as Er.
    + rewrite decide_True in Hks by done. apply Forall2_cons_inv_l in Hks as (k' & ? & [Kn' _] & _ & ->). cbn in *.
      rewrite Kn, Kn', Hd, Hb. rewrite (bool_decide_true ((s, false) = (s, false))), (bool_decide_true ((s, true) = (s, true))) by done.
      by rewrite !orb_true_r.
    + cbn. rewrite Kn, Hd'. by rewrite bool_decide_true by done.
  - rewrite Es, Hr2. apply Forall_cons. split; [split; [done|]; rewrite Kn, Hd; set_solver|].
    case_bool_decide as Er; [rewrite decide_True in Hks by done|rewrite decide_False in Hks by done].
    + apply Forall2_cons_inv_l in Hks as (k' & ? & [Kn' Ka'] & ->%Forall2_nil_inv_l & ->). cbn in Kn'.
      apply Forall_singleton. split; [done|]. rewrite Kn', Hb. set_solver.
    + apply Forall2_nil_inv_l in Hks as ->. by apply Forall_nil_2.
Qed.

Lemma choseRole_free `{PodUtil} st : sound c w b → st.(st_Members) = members_of c.(cl_pods) w b →
  free_role (choseRole st).
Proof.
  intros Hs EM. destruct Hs as [Hm _ _ _ _ Hw]. pose proof (writers_in _ _ _ Hw) as [Hiw Hib].
  rewrite Forall_forall in Hm. unfold choseRole. rewrite EM. cbn. rewrite !decide_False by (by apply Hm).
  destruct (decide (holder is_backup "" (cl_pods c) = "")) as [Eh|]; [right; split; [done|]|by left].
  apply Forall_forall. intros p Hp. destruct (is_backup p) eqn:E; [|done]. exfalso. unfold holder in Eh.
  assert (p ∈ filter (λ p, is_backup p = true) (cl_pods c)) as Hin by (by apply list_elem_of_filter).
  destruct (last (filter _ _)) as [q|] eqn:El; [|apply last_None in El; rewrite El in Hin; by apply elem_of_nil in Hin].
  cbn in Eh. apply last_Some_elem_of in El. apply list_elem_of_filter in El as [_ Hq]. by apply (mb_name q (Hm q Hq)).
Qed.

Lemma sound_healthy `{PodUtil} : sound c w b → is_Some g.(g_Spec).(spec_Pod) →
  Z.of_nat (length c.(cl_pods)) < 2147483648 → healthy env g creds c.(cl_pods) c.(cl_claims).
Proof.
  intros Hs Ht Hl. pose proof (so_podWithoutClaims _ _ _ Hs) as Hp. destruct Hs as [Hm Hn Hk _ Hc _].
  destruct Ha as [Hpr _ Hcl _ _ _ _]. by split.
Qed.

(** A round on a cluster that lacks members adds one. *)
Lemma runGalera_adds `{PodUtil} n phase tl st : sound c w b →
  template_ok g.(g_Spec) Reader → template_ok g.(g_Spec) Backup →
  replicas g = Ok n → Z.of_nat (length c.(cl_pods)) < n ≤ 2147483647 →
  kept st = (emptyStatus.(st_Members), 0, phase, tl) →
  ends env (runGalera gc g g rev rev c.(cl_pods) c.(cl_claims) creds) st (λ o _ t,
    o = Ok tt ∧ Forall (λ e, is_delete e = false) t ∧
    ∃ role p, free_role role ∧ added role p ∧ creates [p] (claims_of p role) t).
Proof.
  intros Hs Htr Htb Hn Hl Hk. pose proof (so_writers _ _ _ Hs) as Hw.
  assert (healthy env g creds c.(cl_pods) c.(cl_claims)) as Hh.
  { apply sound_healthy; [done| |lia]. unfold template_ok in Htr. destruct (spec_Pod _); [by eexists|done]. }
  unfold runGalera. rewrite (hl_pods _ _ _ _ _ Hh). eapply ends_bind; [by eapply classify_healthy|].
  intros ? st1 (m & -> & -> & Hk1). eapply actOnMembers_healthy; [done..|]. intros addresses sc st2 Hk2.
  rewrite decide_True by lia. apply kept_inv in Hk2 as (EM & _ & _ & _).
  unfold growCluster. apply ends_getStatus. unfold checkUnreadyPodBeforeCreatingPod. apply ends_getStatus.
  cbn [examineUnready m_unready]. apply ends_ret_bind. cbn [m_podSuffixes].
  replace (if decide (st_Phase st2 = GaleraPhaseRestoring) then rev else rev) with rev by by case_decide.
  pose proof (choseRole_free st2 Hs EM) as Hr.
  intros h. destruct (createPod_runs (choseRole st2) addresses
    (bool_decide (st_Phase st2 ≠ GaleraPhaseRestoring ∧ addresses = "")) st2 Hs) with h as ([] & st' & t & E & p & Hp & Hc).
  { by destruct Hr as [-> |[-> _]]. }
  destruct (createPod_inv _ _ _ _ _ _ _ _ _ _ _ _ _ _ _ _ E) as [[Hd _] _].
  exists (Ok tt), st', [], t. split_and!; [exact E|done..|]. eauto.
Qed.
End creation.

(** ** Rounds *)

(** The phases in which a round reconciles the pods *)
Definition active (phase : GaleraPhase) : Prop :=
  phase = GaleraPhaseCreating ∨ phase = GaleraPhaseBackuping ∨ phase = GaleraPhaseRestoring ∨
  phase = GaleraPhaseRunning.

Section rounds.
Context `{RetryLaws} `{PodUtil} `{RevisionLib} `{Regexp}.
#[local] Existing Instances NewRealGaleraPodControl realGaleraPodControl_laws.
Context (gc : defaultGaleraControl) (gucc : realGaleraUpgradeConfigControl).
Context (rev : string) (creds : gmap string string).

(** What precedes [runGalera] in a round only reads. *)
Lemma syncGalera_runGalera env g coll c K : g.(g_DeletionTimestamp) = false → active g.(g_Status).(st_Phase) →
  is_Some g.(g_Spec).(spec_Pod) → (∀ h, fst (GetGaleraCreds g env h) = Ok creds) →
  (∀ t1 t2, Forall reading t1 → K t2 → K (t1 ++ t2)) →
  (∀ st phase tl, kept st = (emptyStatus.(st_Members), 0, phase, tl) →
     ends env (runGalera gc g g rev rev c.(cl_pods) c.(cl_claims) creds) st (λ o _ t, o = Ok tt ∧ K t)) →
  runs env (syncGalera gc gucc g g rev rev coll c.(cl_pods) c.(cl_claims)) (λ _, K).
Proof.
  intros Hd Hp [tpl Ht] Hc HK Hrun.
  assert (ends env (syncBody gc gucc g g rev rev c.(cl_pods) c.(cl_claims)) (initialStatus g rev rev coll)
    (λ o _ t, o = Ok tt ∧ K t)) as Hb.
  { unfold syncBody. rewrite Hd. eapply yields_calm; [apply calm_attempt, (GetGaleraCreds_known env g creds Hc)|].
    intros ? (? & -> & ->). apply ends_modify. apply (ends_bind _ _ _ _ (λ g' st', g' = g ∧
      kept st' = (emptyStatus.(st_Members), 0, GaleraPhaseNone, tally_of (initialStatus g rev rev coll)))).
    { unfold chooseNext. apply ends_getStatus. destruct (IsUpgrading _); [by apply yields_ret|].
      rewrite Ht. apply ends_pure, ends_pure. unfold CanUpgrade. rewrite decide_True by done.
      apply (yields_calm _ _ _ _ (λ can, can = true)); [by apply calm_ret|]. intros ? ->. by apply yields_ret. }
    intros g' st' [-> Hk]. unfold phaseStep. destruct (kept_inv _ _ _ _ _ Hk) as (EM & ER & _ & ET).
    rewrite !decide_False by (by destruct Hp as [-> |[-> |[-> | ->]]]).
    rewrite decide_True by (destruct Hp as [-> |[-> |[-> | ->]]]; auto). apply ends_modify.
    eapply Hrun. unfold kept. cbn. rewrite EM, ER. done. }
  intros h. destruct (Hb h) as (o & st' & t1 & t2 & E & HF & -> & Ht2).
  exists st', (t1 ++ t2). unfold syncGalera, runStatus. rewrite E. auto.
Qed.

(** What is asked for: [n] replicas, no special node, a template and a name that pods can
    be built from *)
Record asked (g : Galera) (n : nat) : Prop := {
  as_replicas : replicas g = Ok (Z.of_nat n);
  as_bound : Z.of_nat n ≤ 2147483647;
  as_special : g.(g_Spec).(spec_Special) = None;
  as_reader : template_ok g.(g_Spec) Reader;
  as_backup : template_ok g.(g_Spec) Backup;
  as_name : wf_name g.(g_Name);
  as_length : (String.length g.(g_Name) ≤ MaxNameLength)%nat;
  as_alive : g.(g_DeletionTimestamp) = false }.

Context (g : Galera) (n : nat) (Hg : asked g n).

(** One round, whatever was recorded before it and whenever it runs: it ends well, what
    it does satisfies [T], and the clusters it leads to satisfy [P]. *)
Definition round (T : history → Prop) (P : cluster → Prop) (c : cluster) : Prop :=
  ∀ env h status coll, active status.(st_Phase) → answers env (with_Status status g) creds c →
    ∃ st t, syncGalera gc gucc (with_Status status g) (with_Status status g) rev rev coll c.(cl_pods)
              c.(cl_claims) env h = (Ok st, t) ∧ T t ∧ ∀ c', starts c t c' → P c'.

(** [k] rounds that add a pod each *)
Definition one_pod (t : history) : Prop :=
  length (created_pods t) = 1%nat ∧ Forall (λ e, is_delete e = false) t.
Fixpoint rounds (k : nat) (P : cluster → Prop) (c : cluster) : Prop :=
  match k with O => P c | S k => round one_pod (rounds k P) c end.

Lemma asked_template : is_Some g.(g_Spec).(spec_Pod).
Proof. destruct Hg as [_ _ _ Hr _ _ _ _]. unfold template_ok in Hr. destruct (spec_Pod _); [by eexists|done]. Qed.

Lemma round_adds c w b P : sound c w b → (length c.(cl_pods) < n)%nat →
  (∀ c', sound c' w b → length c'.(cl_pods) = S (length c.(cl_pods)) → c.(cl_pods) ⊆ c'.(cl_pods) → P c') →
  round one_pod P c.
Proof.
  intros Hs Hl HP env h status coll Hact Ha. pose proof (as_bound _ _ Hg). pose proof (as_name _ _ Hg). pose proof (as_length _ _ Hg).
  set (g' := with_Status status g) in *.
  destruct (syncGalera_runGalera env g' coll c (λ t, Forall (λ e, is_delete e = false) t ∧
    ∃ role p, free_role c role ∧ added g' c rev role p ∧ creates [p] (claims_of g' p role) t)
    (as_alive _ _ Hg) Hact asked_template (an_creds _ _ _ _ Ha)) with h as (st & t & E & Hd & role & p & Hr & Hp & Hc).
  - intros t1 t2 HF (Hd & role & p & Hr & Hp & Hc). split.
    + apply Forall_app. split; [|done]. eapply Forall_impl; [exact HF|]. by intros [].
    + exists role, p. split_and!; [done..|]. apply (creates_app [] [p] []); [by apply reading_creates|done].
  - intros st phase tl Hk.
    by eapply (runGalera_adds env g' creds c Ha gc rev w b) with (n := Z.of_nat n); try apply Hg; [|lia|].
  - exists st, t. split_and!; [exact E| |].
    + split; [|done]. by destruct Hc as [-> _].
    + intros c' Hst. destruct (added_sound env g' creds c Ha rev w b (as_name _ _ Hg) (as_length _ _ Hg) role p t c') as (? & ? & ?);
        [done..|]. auto.
Qed.

Lemma rounds_add k c w b : sound c w b → (length c.(cl_pods) + k)%nat = n →
  ∀ P, (∀ c', sound c' w b → length c'.(cl_pods) = n → c.(cl_pods) ⊆ c'.(cl_pods) → P c') → rounds k P c.
Proof.
  revert c. induction k as [|k IH]; intros c Hs Hl P HP; cbn [rounds].
  - apply HP; [done|lia|done].
  - apply (round_adds _ w b); [done|lia|]. intros c1 Hs1 Hl1 Hi1. apply IH; [done|lia|].
    intros c2 Hs2 Hl2 Hi2. apply HP; [done..|]. by etrans.
Qed.

Lemma round_idle c w b : sound c w b → length c.(cl_pods) = n → round (Forall reading) (λ c', True) c.
Proof.
  intros Hs Hl env h status coll Hact Ha. pose proof (as_bound _ _ Hg). set (g' := with_Status status g) in *.
  destruct (syncGalera_runGalera env g' coll c (Forall reading) (as_alive _ _ Hg) Hact asked_template
    (an_creds _ _ _ _ Ha)) with h as (st & t & E & HF).
  - intros t1 t2 F1 F2. by apply Forall_app.
  - intros st phase tl Hk. eapply ends_impl.
    + eapply (runGalera_yields gc env g' rev creds); [|apply (so_writers _ _ _ Hs)|apply Hg| |done].
      * eapply sound_healthy; [done..|apply asked_template|lia].
      * rewrite Hl. apply Hg.
    + intros o st' t (-> & [] & -> & _). split; [done|apply Forall_nil_2].
  - by exists st, t.
Qed.
End rounds.

(** C3: rounds converge: from a healthy cluster with its writers that lacks members, each
    round of [syncGalera] creates exactly one pod and deletes nothing, and after as many
    rounds as there were missing members, if the pods that are created start, the
    cluster has all its members, none of the first ones was lost, the writers are the
    same, and one more round only reads.  The status that is recorded before each round,
    the times, the order of the lists and the suffixes that are drawn are arbitrary. *)
Theorem syncGalera_converges `{RetryLaws} `{PodUtil} `{RevisionLib} `{Regexp} (gc : defaultGaleraControl)
    (gucc : realGaleraUpgradeConfigControl) (rev : string) (creds : gmap string string) (g : Galera) (n : nat)
    (c : cluster) (w b : Pod) :
  asked g n → sound c w b → (length c.(cl_pods) ≤ n)%nat →
  rounds gc gucc rev creds g (n - length c.(cl_pods))
    (λ c', length c'.(cl_pods) = n ∧ c.(cl_pods) ⊆ c'.(cl_pods) ∧ sound c' w b ∧
       round gc gucc rev creds g (Forall reading) (λ _, True) c') c.
Proof.
  intros Hg Hs Hl. eapply (rounds_add gc gucc rev creds g n Hg _ c w b Hs); [lia|]. intros c' Hs' Hl' Hi.
  split_and!; [done..|]. by eapply round_idle.
Qed.

(** ** Example *)

#[local] Existing Instances RetryLib_steps RetryLaws_steps NewRealGaleraPodControl realGaleraPodControl_laws
  examplePodUtil exampleRegexp exampleRevisionLib.

(** Two members out of three *)
Definition two_members : cluster := mkCluster (take 2 example_pods) (take 2 example_claims).

(** Every node says that it is primary, no other claim exists. *)
Definition answering_env : Env :=
  env_with_exec (λ _ _ _ _ _, ("| wsrep_cluster_status | Primary |", None)) env_ok.

(** The kubelet starts a pod. *)
Definition start (pod : Pod) : Pod :=
  mkPod pod.(pod_Name) pod.(pod_Namespace) pod.(pod_UID) pod.(pod_ResourceVersion) pod.(pod_Labels)
    pod.(pod_OwnerReferences) false pod.(pod_Spec)
    (mkPodStatus "Running" [false] "10.0.0.9" [("Ready", "True")]).

(** The controller of volumes binds a claim. *)
Definition bind (claim : PersistentVolumeClaim) : PersistentVolumeClaim :=
  mkClaim claim.(claim_Name) claim.(claim_Namespace) claim.(claim_UID) claim.(claim_ResourceVersion)
    claim.(claim_Labels) claim.(claim_OwnerReferences) false claim.(claim_Spec).

Lemma two_members_sound :
  sound two_members (example_pod "a" RoleWriter "10.0.0.1") (example_pod "b" RoleBackupWriter "10.0.0.2").
Proof.
  destruct (example_healthy (env_serviceGet env_ok) (env_pdbGet env_ok) (env_revisionList env_ok)
    emptyStatus 2 (or_introl eq_refl)) as [[Hm _ Hn Hk _ Hc _ _ _] Hw].
  split; [exact Hm|exact Hn|exact Hk| |exact Hc|exact Hw].
  repeat apply Forall_cons_2; [vm_compute; reflexivity..|apply Forall_nil_2].
Qed.

Lemma two_members_asked : asked (plain_galera emptyStatus) 3.
Proof. split; try reflexivity; [lia|apply (bool_decide_unpack _); vm_compute; exact I..|by vm_compute; lia]. Qed.

Lemma two_members_answered status : answers answering_env (with_Status status (plain_galera emptyStatus)) creds_up two_members.
Proof.
  split.
  - repeat apply Forall_cons_2; [intros h; vm_compute; reflexivity..|apply Forall_nil_2].
  - intros h. reflexivity.
  - intros h. by eexists.
  - intros h. split; [repeat apply Forall_cons_2; [split; [split; [done|reflexivity]|vm_compute; lia]..|apply Forall_nil_2]|].
    exists "abcde". split; apply (bool_decide_unpack _); vm_compute; exact I.
  - intros h name _. by eexists.
  - done.
  - done.
Qed.

Lemma syncGalera_converges_witness :
  (∃ st t, syncGalera example_control example_gucc (plain_galera running_status) (plain_galera running_status) "r1" "r1" 0
       two_members.(cl_pods) two_members.(cl_claims) answering_env [] = (Ok st, t) ∧ one_pod t) ∧
  ∃ c', length c'.(cl_pods) = 3%nat ∧ two_members.(cl_pods) ⊆ c'.(cl_pods) ∧
    round example_control example_gucc "r1" creds_up (plain_galera emptyStatus) (Forall reading) (λ _, True) c'.
Proof.
  pose proof (syncGalera_converges example_control example_gucc "r1" creds_up (plain_galera emptyStatus) 3 two_members
    _ _ two_members_asked two_members_sound ltac:(cbn; lia)) as H.
  destruct (H answering_env [] running_status 0 ltac:(right; right; right; reflexivity)
    (two_members_answered running_status)) as (st & t & E & Ht & Hc).
  split; [exists st, t; split; [exact E|exact Ht]|].
  exists (mkCluster (two_members.(cl_pods) ++ (start <$> created_pods t)) (two_members.(cl_claims) ++ (bind <$> created_claims t))).
  destruct (Hc (mkCluster (two_members.(cl_pods) ++ (start <$> created_pods t))
    (two_members.(cl_claims) ++ (bind <$> created_claims t)))) as (Hl & Hi & _ & Hr).
  - exists (start <$> created_pods t), (bind <$> created_claims t). split_and!; [| |reflexivity..].
    + apply Forall2_fmap_r, Forall_Forall2_diag, Forall_forall. intros p _. by split.
    + apply Forall2_fmap_r, Forall_Forall2_diag, Forall_forall. intros k _. by split.
  - split; [exact Hl|]. split; [exact Hi|exact Hr].
Defined.
