(* ===== verification/Status.v ===== *)
(** * What is recorded as the status of a cluster

    [updateGaleraStatus] and [SyncGalera]: when a status is written, and which
    phases it may have. *)
From S2P Require Import Prelude Types Objects Names PodLib Kube Utils PodControl Controls Upgrade.
From S2P Require Import Revisions Control Sync Phases Rounds.

Definition is_statusUpdate (e : event) : Prop :=
  match e with EvStatusUpdate _ _ _ _ => True | _ => False end.

(** Every status that is written has a property. *)
Definition writes (P : GaleraStatus → Prop) (e : event) : Prop :=
  match e with EvStatusUpdate _ _ st _ => P st | _ => True end.

Section status.
Context `{RetryLaws}.

Lemma UpdateGaleraStatus_writes g st :
  emits (writes (λ st', st' = st)) (UpdateGaleraStatus g st).
Proof.
  unfold UpdateGaleraStatus. apply emits_bind; [|intros []; emits_controls].
  apply emits_retry; [apply _|]. intros s. unfold updateOnce. emits_controls.
Qed.

Lemma completeRollingUpdate_phase g st st' :
  completeRollingUpdate g st = Ok st' → st'.(st_Phase) = st.(st_Phase).
Proof.
  unfold completeRollingUpdate. case_decide; [|by intros [= <-]].
  destruct (replicas g) as [n|e| |]; cbn; try done. case_decide; by intros [= <-].
Qed.

(** At the end of a round the status is completed when the upgrade is over,
    and written exactly when it is not consistent with the recorded one: nothing
    else is ever written.  A round that changes only the phase, the conditions, the
    writers, the backup pod or the names of the services records nothing. *)
Theorem updateGaleraStatus_spec (g : Galera) (st : GaleraStatus) (env : Env) (h : history) :
  let run := updateGaleraStatus g st env h in
  match completeRollingUpdate g st with
  | Ok st1 =>
      run = (if inconsistentStatus g st1
             then let (o, t) := UpdateGaleraStatus g st1 env h in (o, st1, t)
             else (Ok tt, st1, [])) ∧
      (∀ phase conditions w bw b svc,
         st1 = with_ServiceWriter svc (with_Backup b (with_BackupWriter bw (with_Writer w
                 (with_Conditions conditions (with_Phase phase g.(g_Status)))))) →
         run = (Ok tt, st1, []))
  | _ => is_ok (fst (fst run)) = false ∧ snd run = []
  end.
Proof.
  cbv zeta. unfold updateGaleraStatus, getStatus, pureM, lift, modify, mbind, SM_bind, mret, SM_ret.
  destruct (completeRollingUpdate g st) as [st1|e| |] eqn:E; cbn; try done.
  rewrite !app_nil_r. destruct (inconsistentStatus g st1) eqn:Hi.
  - split; [by destruct (UpdateGaleraStatus g st1 env h)|].
    intros phase conditions w bw b svc ->. apply bool_decide_eq_true in Hi. cbn in Hi.
    exfalso. intuition (try congruence; lia).
  - by split.
Qed.

(** A computation that keeps the phase, and writes no status with another one *)
Definition phased {A} (m : SM A) : Prop :=
  okrel same_phase m ∧
  ∀ st env h, Forall (writes (λ st', st'.(st_Phase) = st.(st_Phase))) (snd (m st env h)).

Lemma phased_bind {A B} (m : SM A) (f : A → SM B) :
  phased m → (∀ a, phased (f a)) → phased (m ≫= f).
Proof.
  intros [Hk Hw] Hf. split; [apply okrel_bind; [apply _|done|intros a; apply Hf]|].
  intros st env h. destruct ((m ≫= f) st env h) as [[o st'] t] eqn:E. cbn [snd].
  apply SM_bind_inv in E as [(a & st1 & t1 & t2 & E1 & E2 & ->)|(_ & o' & E & _)].
  - apply Forall_app. split; [specialize (Hw st env h); by rewrite E1 in Hw|].
    destruct (Hf a) as [_ Hw']. specialize (Hw' st1 env (h ++ t1)). rewrite E2 in Hw'.
    by rewrite (Hk _ _ _ _ _ _ E1) in Hw'.
  - specialize (Hw st env h). by rewrite E in Hw.
Qed.

Lemma phased_quiet {A} (m : SM A) :
  okrel same_phase m → emitsS (λ e, ¬ is_statusUpdate e) m → phased m.
Proof.
  intros Hk He. split; [done|]. intros st env h. eapply Forall_impl; [apply He|].
  by intros [].
Qed.

Lemma phased_if {A} (b : bool) (m1 m2 : SM A) : phased m1 → phased m2 → phased (if b then m1 else m2).
Proof. by destruct b. Qed.

Lemma updateGaleraStatus_phased g : phased (updateGaleraStatus g).
Proof.
  split.
  - intros st env h a st' t (st0 & ? & ? & ? & [= <- <- <-] & E & _)%SM_bind_ok_inv.
    apply SM_bind_ok_inv in E as (st1 & ? & ? & ? & [-> E1]%lift_inv & E & _).
    apply SM_bind_ok_inv in E as (? & ? & ? & ? & [= _ <- <-] & E & _).
    injection E1 as E1 _. unfold same_phase. rewrite <- (completeRollingUpdate_phase g st st1 E1).
    destruct (inconsistentStatus g st1); [by apply lift_inv in E as [-> _]|by injection E as _ <- _].
  - intros st env h. destruct (updateGaleraStatus g st env h) as [[o st'] t] eqn:E. cbn [snd].
    apply SM_bind_inv in E as [(st0 & ? & ? & t0 & [= <- <- <-] & E & ->)|(_ & ? & [=] & ?)];
      [|by subst].
    apply SM_bind_inv in E as [(st1 & ? & ? & t1 & [-> E1]%lift_inv & E & ->)|(_ & ? & [_ E]%lift_inv & _)];
      [|by injection E as _ <-].
    injection E1 as E1 <-.
    apply SM_bind_inv in E as [(? & ? & ? & t2 & [= _ <- <-] & E & ->)|(_ & ? & [=] & ?)]; [|by subst].
    cbn [app]. destruct (inconsistentStatus g st1); [|by injection E as _ _ <-].
    apply lift_inv in E as [_ E]. eapply Forall_impl; [eapply emits_run, E|].
    + eapply emits_impl; [apply UpdateGaleraStatus_writes|]. intros e He. exact He.
    + intros []; cbn; try done. intros ->. by apply completeRollingUpdate_phase in E1.
Qed.

Lemma service_quiet (m : M string) : emits ev_service m → emitsS (λ e, ¬ is_statusUpdate e) (lift m).
Proof. intros Hm. apply emitsS_lift. eapply emits_impl; [exact Hm|]. intros []; cbn; tauto. Qed.

Lemma publish_phased g : phased (publish g).
Proof.
  destruct (services_emit g) as (Hw & Hb & Hr & Hs & Hm & Hi).
  unfold publish, createOrUpdateServices, setService.
  repeat first
    [ apply updateGaleraStatus_phased
    | apply phased_bind; [|intros ?]
    | match goal with |- phased (match ?x with _ => _ end) => destruct x end
    | solve [apply phased_quiet; [keeps_tac|first [by apply service_quiet|eauto 3 with emits]]]
    | solve [apply phased_quiet; [keeps_tac|
        apply emitsS_lift; unfold CreateOrUpdateGaleraPDB; emits_controls]] ].
Qed.

(** Computations that write no status satisfy any condition on written ones. *)
Lemma writes_quiet {A} P (m : M A) : emits (λ e, ¬ is_statusUpdate e) m → emits (writes P) m.
Proof. intros Hm. eapply emits_impl; [exact Hm|]. intros []; cbn; tauto. Qed.
End status.

Section SyncGalera.
Context `{GaleraPodControlLaws} `{PodUtil} `{RetryLaws} `{RevisionLib} `{Regexp}.
Context (gc : defaultGaleraControl) (gucc : realGaleraUpgradeConfigControl).

(** What applying a revision keeps of a Galera *)
Definition same_object (g g' : Galera) : Prop :=
  g'.(g_Status) = g.(g_Status) ∧ g'.(g_DeletionTimestamp) = g.(g_DeletionTimestamp) ∧
  wants_restore g' = wants_restore g ∧ g'.(g_Namespace) = g.(g_Namespace) ∧
  g'.(g_Name) = g.(g_Name).

Lemma ApplyRevision_frame g cr g' : ApplyRevision g cr = Ok g' → same_object g g'.
Proof.
  unfold ApplyRevision. destruct (patchedSections (cr_Data cr)) as [[pod claim]|e]; [|done].
  by intros [= <-].
Qed.

(** The calls on the history *)
Definition ev_revision (e : event) : Prop :=
  match e with
  | EvRevisionList | EvRevisionCreate _ | EvRevisionUpdate _ _ | EvRevisionDelete _ _ => True
  | _ => False
  end.

Lemma getGaleraRevisions_emits g l : emits ev_revision (getGaleraRevisions g l).
Proof. unfold getGaleraRevisions, revisionUpdate, revisionCreate. emits_controls; auto. Qed.

Lemma truncateHistory_emits g pods l cur next : emits ev_revision (truncateHistory g pods l cur next).
Proof.
  unfold truncateHistory. case_decide; [apply emits_ret|]. apply emits_bind; [apply emits_pure|].
  intros l'. induction l' as [|[] ? IH]; cbn [deleteRevisions]; unfold revisionDelete; emits_controls;
    auto.
Qed.

Lemma ListRevisions_emits g : emits ev_revision (ListRevisions g).
Proof. unfold ListRevisions, revisionList. emits_controls. Qed.

Lemma history_emits {A} (P : event → Prop) (m : M A) :
  (∀ e, ev_revision e → P e) → emits ev_revision m → emits P m.
Proof. intros HP Hm. by eapply emits_impl. Qed.

(** A reconciliation up to the last calls on the history *)
Lemma SyncGalera_emits P g pods claims :
  (∀ e, ev_revision e → P e) →
  (∀ cg ng cur next coll env h, same_object g cg → same_object g ng →
     Forall P (snd (syncGalera gc gucc cg ng cur next coll pods claims env h)) ∧
     ∀ st t, syncGalera gc gucc cg ng cur next coll pods claims env h = (Ok st, t) →
             emits P (runStatus (publish g) st)) →
  emits P (SyncGalera gc gucc g pods claims).
Proof.
  intros HP Hsync. unfold SyncGalera.
  apply emits_bind; [apply history_emits; [done|apply ListRevisions_emits]|].
  intros revisions. cbv zeta.
  apply emits_bind; [apply history_emits; [done|apply getGaleraRevisions_emits]|].
  intros [[cur next] coll].
  apply emits_bind_ok; [apply emits_pure|]. intros cg env h t [Ec <-]%pair_eq.
  rewrite app_nil_r. revert env h. as_emits.
  apply emits_bind_ok; [apply emits_pure|]. intros ng env h t [En <-]%pair_eq.
  rewrite app_nil_r. revert env h. as_emits.
  apply ApplyRevision_frame in Ec, En.
  apply emits_bind_ok; [intros env h; by apply Hsync|].
  intros st env h t E. destruct (Hsync cg ng (cr_Name cur) (cr_Name next) coll env h Ec En) as [_ Hp].
  specialize (Hp st t E). clear E. generalize (h ++ t) as h'. revert env. as_emits.
  apply emits_bind; [exact Hp|intros _]. apply history_emits; [done|apply truncateHistory_emits].
Qed.

(** The phases a round may record *)
Definition recordable (g : Galera) (pods : list Pod) (claims : list PersistentVolumeClaim)
    (st : GaleraStatus) : Prop :=
  if g.(g_DeletionTimestamp) then st.(st_Phase) = GaleraPhaseNone
  else phase_step (wants_restore g) g.(g_Status).(st_Phase) st.(st_Phase) ∧
       (g.(g_Status).(st_Phase) = GaleraPhaseCopyRestore → st.(st_Phase) = copied pods claims).

Lemma SyncGalera_writes g pods claims :
  emits (writes (recordable g pods claims)) (SyncGalera gc gucc g pods claims).
Proof.
  apply SyncGalera_emits; [by intros []|]. intros cg ng cur next coll env h (Hs & Hd & Hr & _) _. split.
  - eapply Forall_impl; [apply syncGalera_round|]. by intros [].
  - intros st t E%syncGalera_phase. rewrite Hs, Hd, Hr in E. intros env' h'. eapply Forall_impl.
    + destruct (publish_phased g) as [_ Hp]. specialize (Hp st env' h').
      unfold runStatus. destruct (publish g st env' h') as [[[] st'] t']; exact Hp.
    + intros []; cbn; try done. unfold recordable. by intros ->.
Qed.
(** Neither a pod, nor a claim, nor a node is touched. *)
Definition leaves_alone (e : event) : Prop :=
  match e with
  | EvPodCreate _ _ _ | EvPodDelete _ _ _ | EvPodPatch _ _ _ _ | EvClaimCreate _ _ _
  | EvClaimDelete _ _ _ | EvClaimPatch _ _ _ _ | EvExec _ _ _ _ _ _ | EvRestore _ _ _ => False
  | _ => True
  end.

(** The calls that publish the outcome of a round *)
Definition ev_publish (e : event) : Prop :=
  match e with
  | EvServiceCreate _ _ _ | EvServiceUpdate _ _ _ | EvServiceDelete _ _ _ | EvServiceGet _ _
  | EvPDBCreate _ _ _ | EvPDBUpdate _ _ _ | EvPDBGet _ _ | EvGaleraGet _ _
  | EvStatusUpdate _ _ _ _ => True
  | _ => False
  end.

Lemma publish_emits g st : emits ev_publish (runStatus (publish g) st).
Proof.
  apply emits_runStatus. destruct (services_emit g) as (Hw & Hb & Hr & Hs & Hm & Hi).
  assert (∀ m : M string, emits ev_service m → emits ev_publish m) as Hsvc
    by (intros m Hm'; eapply emits_impl; [exact Hm'|]; by intros []).
  assert (∀ st, emits ev_publish (UpdateGaleraStatus g st)) as Hu.
  { intros st'. unfold UpdateGaleraStatus. apply emits_bind; [|intros []; emits_controls].
    apply emits_retry; [apply _|]. intros s. unfold updateOnce. emits_controls. }
  unfold publish, createOrUpdateServices, setService, updateGaleraStatus.
  repeat first
    [ emits_step
    | apply emitsS_lift; first [by apply Hsvc|by apply Hu|apply emits_pure
        |unfold CreateOrUpdateGaleraPDB; solve [emits_controls]]
    | apply emitsS_modify | apply emitsS_getStatus | apply emitsS_ret ].
Qed.

Lemma publish_leaves_alone g st : emits leaves_alone (runStatus (publish g) st).
Proof. eapply emits_impl; [apply publish_emits|]. by intros []. Qed.

Lemma syncGalera_deleted cg ng cur next coll pods claims :
  cg.(g_DeletionTimestamp) = true →
  emits leaves_alone (syncGalera gc gucc cg ng cur next coll pods claims).
Proof.
  intros Hd. unfold syncGalera. apply emits_runStatus. unfold syncBody. rewrite Hd.
  unfold metric. emits_tac. all: apply emitsS_lift, emits_call; done.
Qed.

Lemma publish_pdb g st env h st' t :
  runStatus (publish g) st env h = (Ok st', t) →
  EvPDBGet g.(g_Namespace) (getPDBName g.(g_Name)) ∈ t.
Proof.
  unfold runStatus. destruct (publish g st env h) as [[[[]|e| |] st1] t1] eqn:E; intros [= _ <-].
  apply SM_bind_ok_inv in E as (? & ? & ? & ? & _ & E & ->).
  apply SM_bind_ok_inv in E as (? & ? & ? & ? & _ & E & ->).
  apply SM_bind_ok_inv in E as (? & ? & t5 & t6 & [_ E5]%lift_inv & _ & ->).
  enough (EvPDBGet g.(g_Namespace) (getPDBName g.(g_Name)) ∈ t5) by set_solver.
  unfold CreateOrUpdateGaleraPDB in E5. apply bind_ok_inv in E5 as (r & t7 & t8 & E7 & _ & ->).
  unfold attempt, pdbGet, call, orErr, mbind, M_bind, mret, M_ret, errM in E7.
  destruct (env_pdbGet env _ (g_Namespace g) _); injection E7 as _ <-; set_solver.
Qed.

(** Once a cluster is being deleted, a reconciliation touches none of its
    pods, claims or nodes any more.  It still looks up its disruption budget, and
    creates it again if it is gone. *)
Theorem deleted_left_alone (g : Galera) (pods : list Pod) (claims : list PersistentVolumeClaim)
    (env : Env) (h : history) :
  g.(g_DeletionTimestamp) = true →
  let (o, t) := SyncGalera gc gucc g pods claims env h in
  Forall leaves_alone t ∧
  (o = Ok tt → EvPDBGet g.(g_Namespace) (getPDBName g.(g_Name)) ∈ t).
Proof.
  intros Hd. destruct (SyncGalera gc gucc g pods claims env h) as [o t] eqn:E. split.
  - eapply emits_run; [|exact E]. apply SyncGalera_emits; [by intros []|].
    intros cg ng cur next coll env' h' (_ & Hd' & _) _. rewrite Hd in Hd'.
    split; [by apply syncGalera_deleted|]. intros. apply publish_leaves_alone.
  - intros ->. unfold SyncGalera in E.
    apply bind_ok_inv in E as (? & ? & ? & _ & E & ->).
    apply bind_ok_inv in E as ([[? ?] ?] & ? & ? & _ & E & ->).
    apply bind_ok_inv in E as (? & ? & ? & _ & E & ->).
    apply bind_ok_inv in E as (? & ? & ? & _ & E & ->).
    apply bind_ok_inv in E as (st & ? & ? & _ & E & ->).
    apply bind_ok_inv in E as (? & t6 & t7 & E6 & _ & ->).
    apply publish_pdb in E6. set_solver.
Qed.

(** C18: whatever the cluster answers, the status a reconciliation records has a
    phase that is one step of the abstract machine from the recorded one; a
    cluster being deleted is recorded without a phase.  A cluster that is created,
    restored or run is never recorded as failed, even when all its nodes have
    lost the primary component: that round ends with an error before the status
    is written. *)
Theorem SyncGalera_status (g : Galera) (pods : list Pod) (claims : list PersistentVolumeClaim)
    (env : Env) (h : history) (ns name : string) (st : GaleraStatus) (err : option error) :
  EvStatusUpdate ns name st err ∈ snd (SyncGalera gc gucc g pods claims env h) →
  (if g.(g_DeletionTimestamp) then st.(st_Phase) = GaleraPhaseNone
   else phase_step (wants_restore g) g.(g_Status).(st_Phase) st.(st_Phase) ∧
        (g.(g_Status).(st_Phase) = GaleraPhaseCopyRestore → st.(st_Phase) = copied pods claims)) ∧
  (g.(g_Status).(st_Phase) ∈ run_phases → st.(st_Phase) ≠ GaleraPhaseFailed).
Proof.
  intros Hin. pose proof (SyncGalera_writes g pods claims env h) as Hw.
  rewrite Forall_forall in Hw. apply Hw in Hin. split; [exact Hin|]. intros Hr. revert Hin.
  unfold writes, recordable. destruct (g_DeletionTimestamp g); [by intros -> |].
  intros [Hs _] Hf. rewrite Hf in Hs. by apply (phase_step_run _ _ _ Hr) in Hs.
Qed.
End SyncGalera.

#[local] Existing Instances RetryLib_steps RetryLaws_steps NewRealGaleraPodControl
  realGaleraPodControl_laws examplePodUtil constantRevisionLib exampleRegexp.

(** The first reconciliation of a cluster without pods *)
Definition first_sync : outcome unit * history :=
  SyncGalera example_control example_gucc example_galera [] [] env_ok [].

Definition first_status : GaleraStatus :=
  match last (snd first_sync) with Some (EvStatusUpdate _ _ st _) => st | _ => emptyStatus end.

Lemma SyncGalera_status_witness :
  EvStatusUpdate "ns" "gal" first_status None ∈ snd first_sync ∧
  phase_step false GaleraPhaseNone first_status.(st_Phase).
Proof.
  assert (EvStatusUpdate "ns" "gal" first_status None ∈ snd first_sync) as H.
  { apply elem_of_last || apply last_Some_elem_of. vm_compute. reflexivity. }
  split; [exact H|].
  exact (proj1 (proj1 (SyncGalera_status example_control example_gucc example_galera [] [] env_ok []
    "ns" "gal" first_status None H))).
Defined.

Definition deleted_galera : Galera :=
  mkGalera "gal" "ns" "uid" None ∅ 1 true example_spec emptyStatus.

Lemma deleted_left_alone_witness :
  Forall leaves_alone
    (snd (SyncGalera example_control example_gucc deleted_galera example_pods [] env_ok [])) ∧
  fst (SyncGalera example_control example_gucc deleted_galera example_pods [] env_ok []) = Ok tt.
Proof.
  split; [|vm_compute; reflexivity].
  pose proof (deleted_left_alone example_control example_gucc deleted_galera example_pods [] env_ok []
    eq_refl) as H.
  destruct (SyncGalera example_control example_gucc deleted_galera example_pods [] env_ok []) as [o t].
  exact (proj1 H).
Defined.
