(* ===== verification/Metrics.v ===== *)
(** * The counters of the operator

    Models [src/pkg/controllers/cluster/metrics.go] and
    [src/pkg/controllers/backup/metrics.go], with the places that change them: the
    creation, the deletion, the failure and the modification of a cluster, and the end of a
    backup.  An increment is an event of the trace; the value of a counter is what its
    increments add up to.

    The theorems say what a reconciliation counts, which values the counters may have
    together, and that a cluster that stays in the same state is counted again. *)
From S2P Require Import Prelude Types Objects Names PodLib Kube Utils PodControl Controls Upgrade.
From S2P Require Import Revisions Control Sync Phases Rounds Status.

Module Metrics.

(** ** The counters *)

(** A gauge may go down; a counter may not. *)
Record metric_opts := mkMetric {
  opt_Namespace : string;
  opt_Subsystem : string;
  opt_Name : string;
  opt_Help : string;
  opt_gauge : bool }.

Definition clustersTotal : metric_opts :=
  mkMetric "galera_operator" "controller" "clusters" "Total number of clusters managed by the controller" true.
Definition clustersCreated : metric_opts :=
  mkMetric "galera_operator" "controller" "clusters_created" "Total number of clusters created" false.
Definition clustersDeleted : metric_opts :=
  mkMetric "galera_operator" "controller" "clusters_deleted" "Total number of clusters deleted" false.
Definition clustersModified : metric_opts :=
  mkMetric "galera_operator" "controller" "clusters_modified" "Total number of clusters modified" false.
Definition clustersFailed : metric_opts :=
  mkMetric "galera_operator" "controller" "clusters_failed" "Total number of clusters failed" false.
Definition backupsTotal : metric_opts :=
  mkMetric "galera_operator" "backup_controller" "backups" "Total number of backups managed by the controller" true.

(** What [init] registers, in the two packages *)
Definition registered : list metric_opts :=
  [clustersTotal; clustersCreated; clustersDeleted; clustersModified; clustersFailed; backupsTotal].

(** The name under which a counter is exposed *)
Definition fqName (m : metric_opts) : string :=
  m.(opt_Namespace) +:+ "_" +:+ m.(opt_Subsystem) +:+ "_" +:+ m.(opt_Name).

(** The counter that an event of the trace changes *)
Definition counterOf (name : string) : option metric_opts :=
  if decide (name = "total") then Some clustersTotal
  else if decide (name = "created") then Some clustersCreated
  else if decide (name = "deleted") then Some clustersDeleted
  else if decide (name = "modified") then Some clustersModified
  else if decide (name = "failed") then Some clustersFailed
  else if decide (name = "backups_total") then Some backupsTotal
  else None.

(** The increments of a trace *)
Definition increments (t : history) : list (string * Z) :=
  omap (λ e, match e with EvMetric name delta => Some (name, delta) | _ => None end) t.

(** The value that they give to a counter *)
Fixpoint sum (name : string) (l : list (string * Z)) : Z :=
  match l with
  | [] => 0
  | (n, delta) :: l => (if decide (n = name) then delta else 0) + sum name l
  end.

Definition value (name : string) (t : history) : Z := sum name (increments t).

Lemma increments_app t1 t2 : increments (t1 ++ t2) = increments t1 ++ increments t2.
Proof. apply omap_app. Qed.

Lemma sum_app name l1 l2 : sum name (l1 ++ l2) = sum name l1 + sum name l2.
Proof. induction l1 as [|[n d] l1 IH]; cbn; [done|]. lia. Qed.

Lemma value_app name t1 t2 : value name (t1 ++ t2) = value name t1 + value name t2.
Proof. unfold value. by rewrite increments_app, sum_app. Qed.

(** ** What a reconciliation counts *)

Inductive counted := CNone | CCreated | CDeleted | CFailed | CModified.

#[global] Instance counted_eq_dec : EqDecision counted.
Proof. solve_decision. Defined.

Definition effect (c : counted) : list (string * Z) :=
  match c with
  | CNone => []
  | CCreated => [("created", 1); ("total", 1)]
  | CDeleted => [("deleted", 1); ("total", -1)]
  | CFailed => [("failed", 1); ("total", -1)]
  | CModified => [("modified", 1)]
  end.

(** The total is what the other three make it. *)
Lemma effect_sums c :
  sum "total" (effect c) = sum "created" (effect c) - sum "deleted" (effect c) - sum "failed" (effect c) ∧
  0 <= sum "created" (effect c) ∧ 0 <= sum "deleted" (effect c) ∧ 0 <= sum "failed" (effect c) ∧
  0 <= sum "modified" (effect c).
Proof. destruct c; vm_compute; repeat split; congruence. Qed.

Definition unmetered (e : event) : Prop := match e with EvMetric _ _ => False | _ => True end.

(** Nothing is counted and no status is written. *)
Definition uncounted (e : event) : Prop :=
  match e with EvMetric _ _ | EvStatusUpdate _ _ _ _ => False | _ => True end.

Lemma uncounted_both e : uncounted e → unmetered e ∧ ¬ is_statusUpdate e.
Proof. destruct e; cbn; tauto. Qed.

Lemma increments_none t : Forall unmetered t → increments t = [].
Proof. induction 1 as [|[] t He Ht IH]; cbn; try done. Qed.

Lemma uncounted_unmetered t : Forall uncounted t → Forall unmetered t.
Proof. intros HF. eapply Forall_impl; [exact HF|]. by intros ? [? _]%uncounted_both. Qed.

(** What a computation counts, with its result: one of some things, once; a failure ends it
    with an error, before any status is written. *)
Definition counts_in (S : counted → Prop) (ok : bool) (t : history) : Prop :=
  ∃ c, S c ∧ increments t = effect c ∧ (c = CFailed → ok = false ∧ Forall (λ e, ¬ is_statusUpdate e) t).

Definition counts {A} (S : counted → Prop) (m : SM A) : Prop :=
  ∀ st env h, let '(o, _, t) := m st env h in counts_in S (is_ok o) t.

Lemma counts_in_none (S : counted → Prop) ok t : S CNone → Forall uncounted t → counts_in S ok t.
Proof. intros HS Ht. exists CNone. split_and!; [done| |done]. by apply increments_none, uncounted_unmetered. Qed.

Lemma counts_in_after S ok t1 t2 : Forall uncounted t1 → counts_in S ok t2 → counts_in S ok (t1 ++ t2).
Proof.
  intros H1 (c & Hc & E & Hf). exists c. split_and!; [done| |].
  - by rewrite increments_app, increments_none by (by apply uncounted_unmetered).
  - intros Ec. destruct (Hf Ec) as [? H2]. split; [done|]. apply Forall_app. split; [|done].
    eapply Forall_impl; [exact H1|]. by intros ? [_ ?]%uncounted_both.
Qed.

Lemma counts_in_before S ok t1 t2 : Forall unmetered t2 → counts_in S true t1 → counts_in S ok (t1 ++ t2).
Proof.
  intros H2 (c & Hc & E & Hf). exists c. split_and!; [done| |].
  - by rewrite increments_app, (increments_none t2), app_nil_r.
  - intros Ec. by destruct (Hf Ec).
Qed.

Lemma counts_none {A} (S : counted → Prop) (m : SM A) : S CNone → emitsS uncounted m → counts S m.
Proof. intros HS Hm st env h. specialize (Hm st env h). destruct (m st env h) as [[o st'] t]. by apply counts_in_none. Qed.

(** What counts is in one part of a sequence, and the other parts count nothing. *)
Lemma counts_after {A B} S (m : SM A) (f : A → SM B) :
  S CNone → emitsS uncounted m → (∀ a, counts S (f a)) → counts S (m ≫= f).
Proof.
  intros HS Hm Hf st env h. destruct ((m ≫= f) st env h) as [[o st'] t] eqn:E.
  apply SM_bind_inv in E as [(a & st1 & t1 & t2 & E1 & E2 & ->)|(_ & o' & E & _)].
  - apply counts_in_after; [by eapply emitsS_run|]. specialize (Hf a st1 env (h ++ t1)). by rewrite E2 in Hf.
  - apply counts_in_none; [done|]. by eapply emitsS_run.
Qed.

Lemma counts_before {A B} S (m : SM A) (f : A → SM B) :
  counts S m → (∀ a, emitsS uncounted (f a)) → counts S (m ≫= f).
Proof.
  intros Hm Hf st env h. specialize (Hm st env h). destruct ((m ≫= f) st env h) as [[o st'] t] eqn:E.
  apply SM_bind_inv in E as [(a & st1 & t1 & t2 & E1 & E2 & ->)|(Ho & o' & E & Ho')]; rewrite ?E1, ?E in Hm.
  - apply counts_in_before; [|done]. apply uncounted_unmetered. by eapply emitsS_run.
  - by rewrite Ho; rewrite Ho' in Hm.
Qed.

Lemma counts_impl {A} (S S' : counted → Prop) (m : SM A) : (∀ c, S c → S' c) → counts S m → counts S' m.
Proof.
  intros HS Hm st env h. specialize (Hm st env h). destruct (m st env h) as [[o st'] t].
  destruct Hm as (c & Hc & E). exists c. eauto.
Qed.

(** An increment of one counter and of the total *)
Lemma counts_pair (S : counted → Prop) c n d n' d' : S c → c ≠ CFailed → effect c = [(n, d); (n', d')] →
  counts S (lift (metric n d);; lift (metric n' d')).
Proof. intros HS Hc He st env h. exists c. by rewrite He. Qed.

Lemma counts_failed {A} (S : counted → Prop) e : S CFailed →
  counts S (lift (metric "failed" 1);; lift (metric "total" (-1));; lift (errM e) : SM A).
Proof.
  intros HS st env h. exists CFailed. split_and!; [done..|]. intros _. split; [done|].
  repeat apply Forall_cons_2; [by intros []..|apply Forall_nil_2].
Qed.

Lemma counts_one (S : counted → Prop) c n d : S c → c ≠ CFailed → effect c = [(n, d)] → counts S (lift (metric n d)).
Proof. intros HS Hc He st env h. exists c. by rewrite He. Qed.

(** ** The steps of a round *)

Section counts.
Context `{GaleraPodControlLaws} `{PodUtil} `{RetryLaws} `{RevisionLib} `{Regexp}.
Context (gc : defaultGaleraControl) (gucc : realGaleraUpgradeConfigControl).

Create HintDb uncounted.

Ltac uncounted_tac :=
  repeat first
    [ solve [eauto 2 with uncounted]
    | progress unfold patch, setCondition, secretGet, storageClasses, configMapGet,
        upgradeConfigGet, upgradeRuleGet, GetNameDefaultStorageClass, recreatingFailedPod
    | progress emits_sm ].

Lemma setBackupWriters_uncounted g pods : emitsS uncounted (setBackupWriters g pods).
Proof. induction pods; cbn [setBackupWriters]; uncounted_tac. Qed.

Lemma removeWriterReader_uncounted g pods : emitsS uncounted (removeWriterReader g pods).
Proof. induction pods; cbn [removeWriterReader]; uncounted_tac. Qed.
#[local] Hint Resolve setBackupWriters_uncounted removeWriterReader_uncounted : uncounted.

Lemma setLabels_uncounted g pods : emitsS uncounted (setLabels g pods).
Proof. unfold setLabels, setLabelsMany, setLabelsTwoNoWriter. uncounted_tac. Qed.

Lemma classify_uncounted g cur next creds pods m : emitsS uncounted (classify g cur next creds pods m).
Proof.
  revert m. induction pods as [|p l IH]; intros m; cbn [classify];
    unfold classifyPod, classifyPrimary, primaryRole, primaryBackup; uncounted_tac.
Qed.

Lemma unusedClaims_uncounted g podSuffix backupSuffix sc claims l :
  emits uncounted (unusedClaims g podSuffix backupSuffix sc claims l).
Proof. revert l. induction claims; intros l; cbn [unusedClaims]; uncounted_tac. Qed.

Lemma checkMysqlUpgrade_uncounted g pods creds : emits uncounted (checkMysqlUpgrade g pods creds).
Proof. induction pods; cbn [checkMysqlUpgrade]; unfold upgradeNode; uncounted_tac. Qed.

Lemma examineUnready_uncounted g pods cur next : emitsS uncounted (examineUnready g pods cur next).
Proof. induction pods; cbn [examineUnready]; uncounted_tac. Qed.

Lemma forceDeletePods_uncounted g pods : emits uncounted (forceDeletePods g pods).
Proof. induction pods; cbn [forceDeletePods]; uncounted_tac. Qed.

Lemma upgradeFirst_uncounted g pods next creds sc : emitsS uncounted (upgradeFirst g pods next creds sc).
Proof. induction pods; cbn [upgradeFirst]; uncounted_tac. Qed.

#[local] Hint Resolve setLabels_uncounted classify_uncounted unusedClaims_uncounted checkMysqlUpgrade_uncounted
  examineUnready_uncounted forceDeletePods_uncounted upgradeFirst_uncounted : uncounted.

Lemma newPodName_uncounted g podSuffixes unused : emits uncounted (newPodName g podSuffixes unused).
Proof. eapply emits_impl; [apply newPodName_emits|]. intros e [He| ->]; [by destruct e|done]. Qed.
#[local] Hint Resolve newPodName_uncounted : uncounted.

Lemma checkUnready_uncounted g unready chosen cur next role addresses creds podSuffixes unused :
  emitsS uncounted (checkUnreadyPodBeforeCreatingPod gc g unready chosen cur next role addresses
                     creds podSuffixes unused).
Proof. unfold checkUnreadyPodBeforeCreatingPod, createPod. uncounted_tac. Qed.

Lemma consider_uncounted g ready unready claims unused n cur next creds :
  emitsS uncounted (considerPodAndClaimTermination g ready unready claims unused n cur next creds).
Proof. unfold considerPodAndClaimTermination, scaleDown. uncounted_tac. Qed.

Lemma special_uncounted g next addresses creds m unused sc :
  emits uncounted (specialStep gc g next addresses creds m unused sc).
Proof. unfold specialStep, manageSpecialNode, createSpecial, upgradeNode. uncounted_tac. Qed.

Lemma classifyRestore_uncounted g rev pods m : emitsS uncounted (classifyRestore g rev pods m).
Proof. revert m. induction pods; intros m; cbn [classifyRestore]; uncounted_tac. Qed.

Lemma CanUpgrade_uncounted current next config g : emits uncounted (CanUpgrade gucc current next config g).
Proof. eapply emits_impl; [apply CanUpgrade_emits|]. by intros []. Qed.
#[local] Hint Resolve checkUnready_uncounted consider_uncounted special_uncounted classifyRestore_uncounted
  CanUpgrade_uncounted : uncounted.

(** A failure or an upgrade, or nothing *)
Definition in_run (c : counted) : Prop := c = CNone ∨ c = CFailed ∨ c = CModified.

Ltac counts_tac :=
  repeat first
    [ apply counts_none; [by left|solve [uncounted_tac]]
    | apply counts_after; [by left|solve [uncounted_tac]|intros ?]
    | lazymatch goal with
      | |- counts _ (match ?x with _ => _ end) => destruct x
      | |- counts _ (let _ := _ in _) => cbv zeta
      end ].

Lemma setStatus_counts g ready unready newImage :
  counts in_run (setStatusPhaseAndConditions g ready unready newImage).
Proof.
  unfold setStatusPhaseAndConditions, setFailed, setScaling. counts_tac.
  - apply counts_failed. right; by left.
  - apply (counts_one _ CModified); [by right; right|done..].
Qed.

Lemma runGalera_counts cg ng cur next pods claims creds :
  counts in_run (runGalera gc cg ng cur next pods claims creds).
Proof.
  unfold runGalera, actOnMembers. counts_tac.
  apply counts_before; [apply setStatus_counts|intros _].
  unfold growCluster, settleCluster, deletePodForUpgrade, deleteNoMatchingClaimsAndListUnusedClaims.
  uncounted_tac.
Qed.
(** What a round may count, for the cluster it reconciles *)
Definition may_count (deleted : bool) (phase : GaleraPhase) (c : counted) : Prop :=
  match c with
  | CNone => True
  | CCreated => deleted = false ∧ phase = GaleraPhaseNone
  | CDeleted => deleted = true
  | CFailed | CModified =>
      deleted = false ∧
      phase ∈ [GaleraPhaseCreating; GaleraPhaseBackuping; GaleraPhaseRestoring; GaleraPhaseRunning]
  end.

Lemma scheduleGaleraRestore_uncounted g rev pods claims creds :
  emitsS uncounted (scheduleGaleraRestore gc g rev pods claims creds).
Proof.
  unfold scheduleGaleraRestore, deleteNoMatchingClaimsAndListUnusedClaims.
  repeat first [ apply checkUnready_uncounted | apply consider_uncounted | apply classifyRestore_uncounted
               | apply emitsS_lift, unusedClaims_uncounted | progress uncounted_tac ].
Qed.

Lemma phaseStep_counts cg ng cur next pods claims creds :
  counts (may_count false cg.(g_Status).(st_Phase)) (phaseStep gc cg ng cur next pods claims creds).
Proof.
  assert (Hr : emitsS uncounted (scheduleRestorePhase gc cg cur pods claims creds)).
  { unfold scheduleRestorePhase.
    repeat first [ apply scheduleGaleraRestore_uncounted | progress uncounted_tac ]. }
  assert (Hc : emitsS uncounted (copyRestorePhase pods claims)) by (unfold copyRestorePhase; uncounted_tac).
  unfold phaseStep. cbv zeta.
  case_decide as Hp1.
  { unfold firstPhase. apply counts_after; [done|uncounted_tac|intros _]. by apply (counts_pair _ CCreated). }
  case_decide as Hp2; [apply counts_none; [done|uncounted_tac]|].
  case_decide as Hp3; [by apply counts_none|].
  case_decide as Hp4; [by apply counts_none|].
  case_decide as Hp5; [|apply counts_none; [done|uncounted_tac]].
  apply counts_after; [done|uncounted_tac|intros _].
  eapply counts_impl; [|apply runGalera_counts]. intros c [->|[->| ->]]; [done| |];
    (split; [done|]; destruct_or! Hp5; rewrite Hp5; set_solver).
Qed.

Lemma syncBody_counts cg ng cur next pods claims :
  counts (may_count cg.(g_DeletionTimestamp) cg.(g_Status).(st_Phase)) (syncBody gc gucc cg ng cur next pods claims).
Proof.
  unfold syncBody. destruct (g_DeletionTimestamp cg); [by apply (counts_pair _ CDeleted)|].
  apply counts_after; [done|unfold GetGaleraCreds; uncounted_tac|intros [creds|]];
    [|apply counts_none; [done|uncounted_tac]].
  apply counts_after; [done|uncounted_tac|intros _].
  apply counts_after; [done| |intros ?; apply phaseStep_counts].
  unfold chooseNext.
  repeat first [ apply emitsS_lift, CanUpgrade_uncounted | progress uncounted_tac ].
Qed.

(** The same for calls without a status *)
Definition countsM {A} (S : counted → Prop) (m : M A) : Prop :=
  ∀ env h, let '(o, t) := m env h in counts_in S (is_ok o) t.

Lemma countsM_bind {A B} S (m : M A) (f : A → M B) :
  S CNone → emits uncounted m → (∀ a env h t, m env h = (Ok a, t) →
    let '(o, t') := f a env (h ++ t) in counts_in S (is_ok o) t') → countsM S (m ≫= f).
Proof.
  intros HS Hm Hf env h. destruct ((m ≫= f) env h) as [o t] eqn:E.
  apply bind_inv in E as [(a & t1 & t2 & E1 & E2 & ->)|(_ & o' & E & _)].
  - apply counts_in_after; [by eapply emits_run|]. specialize (Hf a env h t1 E1). by rewrite E2 in Hf.
  - apply counts_in_none; [done|]. by eapply emits_run.
Qed.

Lemma countsM_after {A B} S (m : M A) (f : A → M B) :
  S CNone → emits uncounted m → (∀ a, countsM S (f a)) → countsM S (m ≫= f).
Proof. intros HS Hm Hf. apply countsM_bind; [done..|]. intros a env h t _. apply Hf. Qed.

Lemma countsM_before {A B} S (m : M A) (f : A → M B) :
  countsM S m → (∀ a, emits unmetered (f a)) → countsM S (m ≫= f).
Proof.
  intros Hm Hf env h. specialize (Hm env h). destruct ((m ≫= f) env h) as [o t] eqn:E.
  apply bind_inv in E as [(a & t1 & t2 & E1 & E2 & ->)|(Ho & o' & E & Ho')]; rewrite ?E1, ?E in Hm.
  - apply counts_in_before; [|done]. by eapply emits_run.
  - by rewrite Ho; rewrite Ho' in Hm.
Qed.

Lemma countsM_runStatus S (m : SM unit) st : counts S m → countsM S (runStatus m st).
Proof.
  intros Hm env h. specialize (Hm st env h). unfold runStatus. by destruct (m st env h) as [[[] ?] ?].
Qed.

Lemma history_uncounted {A} (m : M A) : emits ev_revision m → emits uncounted m.
Proof. apply history_emits. by intros []. Qed.

Lemma SyncGalera_counts g pods claims :
  countsM (may_count g.(g_DeletionTimestamp) g.(g_Status).(st_Phase)) (SyncGalera gc gucc g pods claims).
Proof.
  unfold SyncGalera.
  apply countsM_after; [done|apply history_uncounted, ListRevisions_emits|].
  intros revisions. cbv zeta.
  apply countsM_after; [done|apply history_uncounted, getGaleraRevisions_emits|].
  intros [[cur next] coll].
  apply countsM_bind; [done|apply emits_pure|]. intros cg env h t [Ec _]%pair_eq.
  apply ApplyRevision_frame in Ec as (Hs & Hd & _). rewrite <- Hs, <- Hd.
  generalize (h ++ t) as h'. intros h'. revert env h'.
  match goal with |- ∀ env h, let '(_, _) := @?m env h in counts_in ?S _ _ => change (countsM S m) end.
  apply countsM_after; [done|apply emits_pure|]. intros ng.
  apply countsM_before.
  - unfold syncGalera. apply countsM_runStatus, syncBody_counts.
  - intros st. apply emits_bind.
    + eapply emits_impl; [apply publish_emits|]. by intros [].
    + intros _. eapply emits_impl; [apply history_uncounted, truncateHistory_emits|]. by intros [].
Qed.

(** The reconciliations of an operator, one after the other, each for some cluster as it is
    at that time *)
Inductive operates : history → Prop :=
| operates_start : operates []
| operates_round t g pods claims env h :
    operates t → operates (t ++ snd (SyncGalera gc gucc g pods claims env h)).

(** A cluster that is being deleted is counted each time it is reconciled. *)
Lemma syncGalera_deleted_counted cg ng cur next coll pods claims env h :
  cg.(g_DeletionTimestamp) = true →
  increments (snd (syncGalera gc gucc cg ng cur next coll pods claims env h)) = effect CDeleted.
Proof. intros Hd. unfold syncGalera, syncBody. by rewrite Hd. Qed.

(** C19: what the counters of the operator mean.  A reconciliation counts one thing at most: a
    creation, for a cluster that has no phase yet; a deletion, for one that is being deleted;
    a failure or a modification, for one that is created, restored, saved or running; and
    when it counts a failure it ends with an error and records nothing, so that the
    next one finds the same cluster and may count the failure again.  Whatever the
    reconciliations so far, and whatever the cluster answered, no counter has gone down, the
    gauge of the clusters is what was created, less what was deleted and what failed, and
    what is changed is a counter that is registered, and goes down only if it is a gauge. *)
Theorem counters_agree (t : history) :
  operates t →
  (∀ g pods claims env h, let '(o, t) := SyncGalera gc gucc g pods claims env h in
     ∃ c, may_count g.(g_DeletionTimestamp) g.(g_Status).(st_Phase) c ∧ increments t = effect c ∧
       (c = CFailed → is_ok o = false ∧ Forall (λ e, ¬ is_statusUpdate e) t)) ∧
  value "total" t = value "created" t - value "deleted" t - value "failed" t ∧
  0 <= value "created" t ∧ 0 <= value "deleted" t ∧ 0 <= value "failed" t ∧ 0 <= value "modified" t ∧
  Forall (λ nd, ∃ m, counterOf (fst nd) = Some m ∧ m ∈ registered ∧ (snd nd < 0 → m.(opt_gauge) = true))
    (increments t).
Proof.
  intros Ht. split; [intros; apply SyncGalera_counts|].
  induction Ht as [|t g pods claims env h Ht (E & E1 & E2 & E3 & E4 & HF)]; [by split_and!|].
  pose proof (SyncGalera_counts g pods claims env h) as Hc.
  destruct (SyncGalera gc gucc g pods claims env h) as [o t']. destruct Hc as (c & _ & Ec & _). cbn [snd].
  assert (Hv : ∀ name, value name t' = sum name (effect c)) by (intros; unfold value; by rewrite Ec).
  rewrite !value_app, !Hv, increments_app, Ec, Forall_app.
  destruct (effect_sums c) as (S1 & S2 & S3 & S4 & S5). split_and!; try lia; [done|].
  destruct c; cbn; repeat apply Forall_cons_2; try apply Forall_nil_2; cbn; eexists; (split; [reflexivity|]);
    (split; [unfold registered; set_solver|by intros; first [reflexivity|lia]]).
Qed.

(** Each reconciliation of a cluster that is being deleted counts a deletion, so that the
    gauge goes down as many times as it is reconciled. *)
Theorem deletion_counted_again (g : Galera) (pods : list Pod) (claims : list PersistentVolumeClaim)
    (env : Env) (h t : history) :
  g.(g_DeletionTimestamp) = true → SyncGalera gc gucc g pods claims env h = (Ok tt, t) →
  increments t = effect CDeleted.
Proof.
  intros Hd E. pose proof (SyncGalera_counts g pods claims env h) as Hc. rewrite E in Hc.
  destruct Hc as (c & Hm & Ec & _). rewrite Hd in Hm. rewrite Ec. enough (increments t ≠ []) as Hne.
  { destruct c; cbn in Hm, Ec; try done; by destruct Hm. }
  clear c Hm Ec. unfold SyncGalera in E.
  apply bind_ok_inv in E as (? & ? & ? & _ & E & ->).
  apply bind_ok_inv in E as ([[? ?] ?] & ? & ? & _ & E & ->).
  apply bind_ok_inv in E as (cg & ? & ? & E1 & E & ->).
  apply bind_ok_inv in E as (? & ? & ? & _ & E & ->).
  apply bind_ok_inv in E as (st & t5 & ? & E5 & _ & ->).
  injection E1 as E1 _. apply ApplyRevision_frame in E1 as (_ & Hd' & _). rewrite Hd in Hd'.
  apply (f_equal snd) in E5. cbn [snd] in E5. subst t5.
  rewrite !increments_app, (syncGalera_deleted_counted _ _ _ _ _ _ _ _ _ Hd').
  intros (_ & (_ & (_ & (_ & (? & _)%app_eq_nil)%app_eq_nil)%app_eq_nil)%app_eq_nil)%app_eq_nil. done.
Qed.
End counts.
End Metrics.

Import Metrics.

(** ** Examples *)

#[local] Existing Instances RetryLib_steps RetryLaws_steps NewRealGaleraPodControl
  realGaleraPodControl_laws examplePodUtil constantRevisionLib exampleRegexp.

(** A cluster that runs, and whose two nodes have lost the primary component *)
Definition lost_galera : Galera :=
  mkGalera "gal" "ns" "uid" None ∅ 1 false example_spec running_status.

Definition lost_round : outcome unit * history :=
  SyncGalera example_control example_gucc lost_galera (take 2 example_pods) (take 2 example_claims) env_ok [].

(** Two reconciliations count two failures, and the gauge of the clusters is negative. *)
Lemma counters_agree_witness :
  let t := snd lost_round ++ snd lost_round in
  operates example_control example_gucc t ∧
  value "total" t = value "created" t - value "deleted" t - value "failed" t ∧ value "total" t = -2.
Proof.
  assert (operates example_control example_gucc (snd lost_round ++ snd lost_round)) as H.
  { apply operates_round. apply (operates_round _ _ []), operates_start. }
  cbv zeta. split; [exact H|]. split; [|vm_compute; reflexivity].
  exact (proj1 (proj2 (counters_agree example_control example_gucc _ H))).
Defined.

Lemma deletion_counted_again_witness :
  increments (snd (SyncGalera example_control example_gucc deleted_galera example_pods [] env_ok [])) =
    [("deleted", 1); ("total", -1)].
Proof.
  apply (deletion_counted_again example_control example_gucc deleted_galera example_pods [] env_ok [] _ eq_refl).
  vm_compute. reflexivity.
Defined.
