(* ===== verification/Labels.v ===== *)
(** * The roles of the members

    What [setLabels] patches, and what becomes of a pod it promotes. *)
From S2P Require Import Prelude Types Objects Names PodLib Kube Utils PodControl Controls Upgrade.
From S2P Require Import Revisions Control Sync.

Section labels.
Context `{GaleraPodControl} `{PodUtil}.

Lemma candidates_spec ready pod :
  pod ∈ candidates ready →
  pod ∈ ready ∧ pod_label pod GaleraBackupLabel = None ∧ pod_label pod GaleraRoleLabel = None.
Proof.
  unfold candidates, has_label. intros [[Hb Hr] Hin]%list_elem_of_filter.
  rewrite bool_decide_eq_false in Hb, Hr. split_and!; [done|by apply dec_stable..].
Qed.

(** The pods of which the writer is, and which is labelled as a reader *)
Definition readerWriter (w : string) (pod : Pod) : Prop :=
  pod.(pod_Name) = w ∧ label_or_empty pod.(pod_Labels) GaleraReaderLabel = "true".

#[global] Instance readerWriter_dec w pod : Decision (readerWriter w pod).
Proof. unfold readerWriter. apply _. Defined.

Lemma removeWriterReader_run g pods st env h :
  removeWriterReader g pods st env h =
    match head (filter (readerWriter st.(st_Members).(mem_Writer)) pods) with
    | None => (Ok tt, st, [])
    | Some pod => lift (PatchPodLabels g pod [RemoveReader]) st env h
    end.
Proof.
  revert h. induction pods as [|p l IH]; intros h; [done|]. cbn [removeWriterReader].
  unfold mbind at 1, SM_bind at 1, getStatus. rewrite filter_cons, app_nil_r.
  case_decide as Hp; (case_decide as Hr; [|]); unfold readerWriter in Hr; try tauto; cbn [head app].
  - unfold patch. by destruct (lift (PatchPodLabels g p [RemoveReader]) st env h) as [[? ?] ?].
  - rewrite <- (IH h). by destruct (removeWriterReader g l st env h) as [[? ?] ?].
Qed.
(** The role a round gives to a ready member when one of the two is missing:
    the member and the actions *)
Definition promotion (st : GaleraStatus) (ready : list Pod) : option (Pod * list PatchAction) :=
  let w := st.(st_Members).(mem_Writer) in
  let b := st.(st_Members).(mem_BackupWriter) in
  if decide (w = "" ∧ b ≠ "") then (λ c, (c, [RemoveReader; AddWriter])) <$> head (candidates ready)
  else if decide (w ≠ "" ∧ b = "") then
    (λ c, (c, [AddReader; AddBackupWriter])) <$> head (filter (λ pod, w ≠ pod.(pod_Name)) (candidates ready))
  else None.

Lemma head_filter_unique (P : Pod → Prop) `{∀ p, Decision (P p)} (l : list Pod) c :
  c ∈ l → P c → (∀ p, p ∈ l → P p → p = c) → head (filter P l) = Some c.
Proof.
  intros Hin HP Hu. destruct (filter P l) as [|p l'] eqn:E.
  - assert (c ∈ filter P l) as Hc by (by apply list_elem_of_filter). rewrite E in Hc.
    by apply elem_of_nil in Hc.
  - assert (p ∈ filter P l) as Hp by (rewrite E; apply list_elem_of_here).
    apply list_elem_of_filter in Hp as [? ?]. cbn. f_equal. by apply Hu.
Qed.

Lemma NoDup_names_inj (l : list Pod) p q :
  NoDup (pod_Name <$> l) → p ∈ l → q ∈ l → p.(pod_Name) = q.(pod_Name) → p = q.
Proof.
  induction l as [|x l IH]; [by intros ? ?%elem_of_nil|]. rewrite fmap_cons, NoDup_cons.
  intros [Hx Hnd] [->|Hp]%elem_of_cons [->|Hq]%elem_of_cons E; auto.
  - destruct Hx. rewrite E. by apply list_elem_of_fmap_2.
  - destruct Hx. rewrite <- E. by apply list_elem_of_fmap_2.
Qed.

(** The step that follows a promotion *)
Definition promote (g : Galera) (c : Pod) (actions : list PatchAction) : SM unit :=
  modify (with_Writer c.(pod_Name));;
  patch g c actions;;
  patch g c [RemoveReader].

Lemma setLabels_promotion g ready c actions st env h :
  (3 ≤ length ready)%nat → NoDup (pod_Name <$> ready) →
  (∀ p, p ∈ ready → p.(pod_Name) ≠ "") →
  promotion st ready = Some (c, actions) →
  label_or_empty c.(pod_Labels) GaleraReaderLabel = "true" →
  setLabels g ready st env h = promote g c actions st env h.
Proof.
  intros Hlen Hnd Hne Hp Hr.
  assert (setLabels g ready = setLabelsMany g ready) as ->
    by (destruct ready as [|? [|? [|? ?]]]; cbn in Hlen; [lia..|done]).
  assert (c ∈ ready) as Hc.
  { unfold promotion in Hp. repeat case_decide; try discriminate Hp;
      apply fmap_Some in Hp as (c' & Hh%head_Some_elem_of & [= -> ->]).
    - by apply candidates_spec in Hh as [? _].
    - apply list_elem_of_filter in Hh as [_ Hh]. by apply candidates_spec in Hh as [? _]. }
  assert (∀ h, removeWriterReader g ready (with_Writer c.(pod_Name) st) env h =
     patch g c [RemoveReader] (with_Writer c.(pod_Name) st) env h) as Hlast.
  { intros h'. rewrite removeWriterReader_run. rewrite (head_filter_unique _ _ c); [done|done|done|].
    intros p Hin [Hn _]. by eapply NoDup_names_inj. }
  assert (c.(pod_Name) ≠ "") as Hcn by auto.
  unfold setLabelsMany, promote. rewrite getStatus_bind. unfold promotion in Hp.
  case_decide as Hw.
  - destruct Hw as [-> Hb]. apply fmap_Some in Hp as (c' & -> & [= -> ->]).
    rewrite decide_True, SM_bind_assoc, !modify_bind by done.
    apply lift_bind_ext. intros _ h'. rewrite getStatus_bind. cbn [with_Writer st_Members with_Members].
    rewrite decide_False, SM_ret_bind by done. apply Hlast.
  - case_decide as Hw'; [|discriminate Hp]. destruct Hw' as [Hne' Hb].
    apply fmap_Some in Hp as (c' & Hh & [= -> ->]).
    rewrite decide_False, SM_ret_bind, getStatus_bind by done.
    rewrite decide_True, Hh, SM_bind_assoc, !modify_bind by done.
    apply lift_bind_ext. intros _ h'. apply Hlast.
Qed.

(** With three ready members or more, a reader that is promoted to writer,
    or to backup writer, loses the role in the same round: its name is recorded
    as the writer's in both cases, so the loop that removes the writer from the
    readers patches it once more, with the labels it had before the promotion.
    What is left is neither a reader nor a role: the next round does not count it
    as a member any more. *)
Theorem promotion_lost (g : Galera) (ready : list Pod) (c : Pod) (actions : list PatchAction)
    (st : GaleraStatus) (env : Env) (h : history) :
  (3 ≤ length ready)%nat → NoDup (pod_Name <$> ready) →
  (∀ p, p ∈ ready → p.(pod_Name) ≠ "") →
  promotion st ready = Some (c, actions) →
  label_or_empty c.(pod_Labels) GaleraReaderLabel = "true" →
  setLabels g ready st env h = promote g c actions st env h ∧
  ∃ m, applyActions [RemoveReader] c.(pod_Labels) = Ok (Some m) ∧ m !! GaleraRoleLabel = None ∧
    ∀ c' mem st' env' h', c'.(pod_Labels) = Some m →
      classifyPrimary g c' mem st' env' h' = (Ok (Some mem), st', []).
Proof.
  intros Hlen Hnd Hne Hp Hr. split; [by apply setLabels_promotion|].
  assert (pod_label c GaleraBackupLabel = None ∧ pod_label c GaleraRoleLabel = None) as [Hb Hro].
  { unfold promotion in Hp. repeat case_decide; try discriminate Hp;
      apply fmap_Some in Hp as (c' & Hh%head_Some_elem_of & [= -> ->]).
    - by apply candidates_spec in Hh as [_ ?].
    - apply list_elem_of_filter in Hh as [_ Hh]. by apply candidates_spec in Hh as [_ ?]. }
  unfold pod_label in Hb, Hro. destruct (pod_Labels c) as [l|] eqn:Hl; [|discriminate Hr].
  cbn in Hb, Hro. exists (<[GaleraReaderLabel := "false"]> l). split_and!; [done| |].
  - by rewrite lookup_insert_ne.
  - intros c' mem st' env' h' Hc'. unfold classifyPrimary, primaryRole. rewrite SM_bind_assoc.
    rewrite getStatus_bind.
    assert (pod_label c' GaleraRoleLabel = None) as ->
      by (unfold pod_label; rewrite Hc'; cbn; by rewrite lookup_insert_ne).
    rewrite SM_ret_bind. unfold primaryBackup.
    assert (pod_has c' GaleraBackupLabel "true" = false) as ->.
    { unfold pod_has, pod_label. rewrite Hc'. cbn. rewrite lookup_insert_ne, Hb by done. done. }
    rewrite SM_ret_bind.
    assert (pod_has c' GaleraReaderLabel "true" = false) as ->; [|done].
    unfold pod_has, pod_label. rewrite Hc'. cbn. by rewrite lookup_insert_eq.
Qed.

(** The roles given to two members without a writer *)
Definition giveRoles (g : Galera) (writer backupWriter : Pod) : SM unit :=
  modify (with_Writer writer.(pod_Name));;
  patch g writer [RemoveReader; AddWriter];;
  modify (with_BackupWriter backupWriter.(pod_Name));;
  patch g backupWriter [AddReader; AddBackupWriter].

Lemma findBackup_spec ready :
  match findBackup ready with
  | None => Forall (λ pod, has_label pod GaleraBackupLabel = false) ready
  | Some pod => pod ∈ ready ∧ has_label pod GaleraBackupLabel = true
  end.
Proof.
  unfold findBackup. destruct (last _) as [pod|] eqn:E.
  - apply last_Some_elem_of, list_elem_of_filter in E as [? ?]. done.
  - apply last_None in E. apply Forall_forall. intros p Hp.
    destruct (has_label p GaleraBackupLabel) eqn:Hl; [|done].
    assert (p ∈ filter (λ pod, has_label pod GaleraBackupLabel = true) ready) as Hin
      by (by apply list_elem_of_filter). rewrite E in Hin. by apply elem_of_nil in Hin.
Qed.

Lemma setLabelsTwo_spec g p0 p1 :
  ∃ w b, [w; b] ≡ₚ [p0; p1] ∧
    (has_label w GaleraBackupLabel = true → has_label b GaleraBackupLabel = true) ∧
    setLabelsTwoNoWriter g p0 p1 = giveRoles g w b.
Proof.
  pose proof (findBackup_spec [p0; p1]) as Hb. unfold setLabelsTwoNoWriter.
  destruct (findBackup [p0; p1]) as [b|].
  - destruct Hb as [Hin Hl]. case_decide as Hd; [subst b|].
    + exists p1, p0. split_and!; [apply perm_swap|done|done].
    + exists p0, b. split_and!; [|done|done].
      apply elem_of_cons in Hin as [?|Hin]; [done|]. by apply list_elem_of_singleton in Hin as ->.
  - exists p0, p1. apply Forall_cons in Hb as [Hb _]. split_and!; [done|congruence|done].
Qed.

(** The roles of the members.  A single ready member becomes the writer; with
    two and no writer, one is made the writer and the other the backup writer, and
    the writer is not the backup pod unless both are; once both roles are held at
    most one call is made, which removes the writer from the readers; three or more
    members without a writer and without a plain reader end the round with an
    error, before any call. *)
Theorem setLabels_roles (g : Galera) (ready : list Pod) (st : GaleraStatus) (env : Env)
    (h : history) :
  let run := setLabels g ready st env h in
  let w := st.(st_Members).(mem_Writer) in
  let b := st.(st_Members).(mem_BackupWriter) in
  (ready = [] → run = (Ok tt, st, [])) ∧
  (∀ p, ready = [p] → run = patch g p [AddReader; AddWriter] st env h) ∧
  (∀ p0 p1, ready = [p0; p1] → w = "" →
     ∃ pw pb, [pw; pb] ≡ₚ ready ∧
       (has_label pw GaleraBackupLabel = true → has_label pb GaleraBackupLabel = true) ∧
       run = giveRoles g pw pb st env h) ∧
  ((2 ≤ length ready)%nat → w ≠ "" → b ≠ "" →
     run = match head (filter (readerWriter w) ready) with
           | None => (Ok tt, st, [])
           | Some p => patch g p [RemoveReader] st env h
           end) ∧
  ((3 ≤ length ready)%nat → w = "" → candidates ready = [] →
     ∃ e, run = (Err e, st, [])).
Proof.
  cbv zeta. split_and!.
  - by intros ->.
  - by intros p ->.
  - intros p0 p1 -> Hw. destruct (setLabelsTwo_spec g p0 p1) as (pw & pb & Hp & Hb & E).
    exists pw, pb. split_and!; [done|done|]. cbn [setLabels].
    by rewrite getStatus_bind, decide_True, E by done.
  - intros Hlen Hw Hb. unfold patch. rewrite <- removeWriterReader_run.
    destruct ready as [|p0 [|p1 [|p2 l]]]; cbn in Hlen; [lia..| |]; cbn [setLabels].
    + by rewrite getStatus_bind, !decide_False, SM_ret_bind by done.
    + unfold setLabelsMany. by rewrite getStatus_bind, decide_False, SM_ret_bind, getStatus_bind,
        decide_False, SM_ret_bind by done.
  - intros Hlen Hw Hc. destruct ready as [|p0 [|p1 [|p2 l]]]; cbn in Hlen; [lia..|]. cbn [setLabels].
    unfold setLabelsMany. rewrite Hc, getStatus_bind, decide_True by done. by eexists.
Qed.
End labels.

(** ** Examples *)

#[local] Existing Instances RetryLib_steps NewRealGaleraPodControl examplePodUtil.

(** Three members whose backup writer is gone *)
Definition three_members : list Pod :=
  [example_pod "a" RoleWriter "10.0.0.1"; example_pod "b" Reader "10.0.0.2";
   example_pod "c" Reader "10.0.0.3"].

Definition writer_status : GaleraStatus := with_Writer "gal-a" emptyStatus.

Lemma promotion_lost_witness :
  promotion writer_status three_members =
    Some (example_pod "b" Reader "10.0.0.2", [AddReader; AddBackupWriter]) ∧
  setLabels example_galera three_members writer_status env_ok [] =
    promote example_galera (example_pod "b" Reader "10.0.0.2") [AddReader; AddBackupWriter]
      writer_status env_ok [].
Proof.
  assert (promotion writer_status three_members =
    Some (example_pod "b" Reader "10.0.0.2", [AddReader; AddBackupWriter])) as Hp
    by (vm_cast_no_check (eq_refl (promotion writer_status three_members))).
  split; [exact Hp|].
  refine (proj1 (promotion_lost example_galera three_members _ _ writer_status env_ok [] _ _ _ Hp _)).
  - cbn. lia.
  - apply (bool_decide_unpack _). vm_compute. exact I.
  - intros p Hin. repeat (apply elem_of_cons in Hin as [->|Hin]; [discriminate|]).
    destruct (not_elem_of_nil _ Hin).
  - vm_compute. reflexivity.
Defined.
