(* ===== verification/Restoring.v ===== *)
(** * The scheduling of a restoration

    What [scheduleGaleraRestore] makes of the pods of a cluster to restore, and
    when the restoration itself is started. *)
From S2P Require Import Prelude Types Objects Names PodLib Kube Utils PodControl Controls Upgrade.
From S2P Require Import Revisions Control Sync Phases Rounds.

Section restoring.
Context `{GaleraPodControlLaws} `{PodUtil}.
Context (gc : defaultGaleraControl).

(** A pod that was created to restore the cluster, of a revision *)
Definition restorePod (revision : string) (pod : Pod) : Prop :=
  pod_has pod GaleraRoleLabel Restore = true ∧ getPodRevision pod = revision.

#[global] Instance restorePod_dec revision pod : Decision (restorePod revision pod).
Proof. unfold restorePod. apply _. Defined.

Definition running (pods : list Pod) : list Pod := filter (λ p, isRunningAndReady p = true) pods.
Definition notRunning (pods : list Pod) : list Pod := filter (λ p, isRunningAndReady p = false) pods.

(** Either every pod restores, and nothing is done, or the round stops. *)
Lemma classifyRestore_inv g revision pods m st env h o st' t :
  classifyRestore g revision pods m st env h = (o, st', t) →
  st'.(st_Members) = st.(st_Members) ∧ st'.(st_Phase) = st.(st_Phase) ∧
  ((Forall (restorePod revision) pods ∧ t = [] ∧
    ∃ m', o = Ok (Some m') ∧ m'.(m_ready) = m.(m_ready) ++ running pods ∧
          m'.(m_unready) = m.(m_unready) ++ notRunning pods ∧
          m'.(m_podSuffixes) = m.(m_podSuffixes) ++ (getPodSuffix ∘ pod_Name <$> pods)) ∨
   ∃ l1 p l2, pods = l1 ++ p :: l2 ∧ Forall (restorePod revision) l1 ∧ ¬ restorePod revision p ∧
     (∀ m', o ≠ Ok (Some m')) ∧
     ∃ h', t = snd (ForceDeletePodAndClaim g p env h')).
Proof.
  revert m st h. induction pods as [|p l IH]; intros m st h; cbn [classifyRestore].
  { intros [= <- <- <-]. split_and!; [done..|left]. split_and!; [done..|]. exists m.
    by rewrite !app_nil_r. }
  rewrite modify_bind. case_decide as Hp.
  - rewrite modify_bind. intros (Hm & Hph & [(HF & -> & m' & -> & Hr & Hu & Hs)|(l1 & q & l2 & -> & Hl & Hq)])%IH.
    + split_and!; [done..|left]. split_and!; [by constructor|done|]. exists m'. split; [done|].
      unfold running, notRunning in *. rewrite !filter_cons. rewrite Hr, Hu, Hs. cbn.
      destruct (isRunningAndReady p); cbn; rewrite <- ?app_assoc; done.
    + split_and!; [done..|right]. exists (p :: l1), q, l2. split_and!; [done|by constructor|apply Hq..].
  - intros E. split_and!; [..|right; exists [], p, l; split_and!; [done|constructor|done|..]];
      apply SM_bind_inv in E as [([] & st1 & t1 & t2 & [-> E1]%lift_inv & E & ->)|(Ho & o' & [-> E]%lift_inv & _)];
      try injection E as <- <- <-; try done.
    + intros m' ->. discriminate Ho.
    + exists h. by rewrite app_nil_r, E1.
    + exists h. by rewrite E.
Qed.

Definition not_restore (e : event) : Prop := match e with EvRestore _ _ _ => False | _ => True end.

Lemma scheduleGaleraRestore_not_restore g rev pods claims creds :
  emitsS not_restore (scheduleGaleraRestore gc g rev pods claims creds).
Proof.
  assert (∀ m, emitsS not_restore (classifyRestore g rev pods m)) as Hc
    by (induction pods; intros m; cbn [classifyRestore]; quiet_tac).
  assert (∀ ps bs sc l, emits not_restore (unusedClaims g ps bs sc claims l)) as Hu
    by (induction claims; intros; cbn [unusedClaims]; quiet_tac).
  assert (∀ l, emitsS not_restore (examineUnready g l rev rev)) as He
    by (induction l; cbn [examineUnready]; quiet_tac).
  assert (∀ l, emits not_restore (forceDeletePods g l)) as Hf
    by (induction l; cbn [forceDeletePods]; quiet_tac).
  assert (∀ ps l, emits not_restore (newPodName g ps l)) as Hn.
  { intros ps l. eapply emits_impl; [apply newPodName_emits|]. intros e [He'| ->]; [by destruct e|done]. }
  unfold scheduleGaleraRestore, checkUnreadyPodBeforeCreatingPod, createPod,
    considerPodAndClaimTermination, scaleDown, deleteNoMatchingClaimsAndListUnusedClaims.
  repeat first [apply Hc|apply Hu|apply He|apply Hf|apply Hn|progress quiet_tac].
Qed.

Lemma consider_ready g ready unready claims unused n cur next creds :
  allS same_ready (considerPodAndClaimTermination g ready unready claims unused n cur next creds).
Proof. unfold considerPodAndClaimTermination, scaleDown. ready_tac. Qed.

(** The pods a restoration creates *)
Definition restores (g : Galera) (rev : string) (pod : Pod) : Prop :=
  pod_has pod GaleraRoleLabel Restore = true ∧
  pod_label pod GaleraStateLabel = Some StateStandalone ∧ getPodRevision pod = rev.

Lemma new_pod_restores g rev addresses init creds podSuffixes unused env pod :
  new_pod g rev Restore addresses init creds podSuffixes unused env pod → restores g rev pod.
Proof.
  intros (? & ? & ? & ? & ? & _ & _ & (_ & Hl & _)). unfold restores, pod_has, pod_label,
    getPodRevision, label_or_empty, pod_label. rewrite Hl. split_and!; [|reflexivity..].
  by apply bool_decide_eq_true.
Qed.

(** What is left once all the pods restore *)
Lemma scheduled_inv g rev m claims creds n st env h o st' t :
  replicas g = Ok n →
  (defaultSCName ← lift GetNameDefaultStorageClass;
   '(unused, op) ← lift (deleteNoMatchingClaimsAndListUnusedClaims g m.(m_podSuffixes) []
                           claims defaultSCName);
   if (op : bool) then mret tt
   else
     n ← lift (pureM (replicas g));
     if decide (len32 m.(m_ready) < n)
     then checkUnreadyPodBeforeCreatingPod gc g m.(m_unready) rev rev rev
            Restore "" creds m.(m_podSuffixes) unused
     else considerPodAndClaimTermination g m.(m_ready) m.(m_unready) claims unused n
            rev rev creds) st env h = (o, st', t) →
  same_ready st st' ∧
  (Forall no_create t ∨ len32 m.(m_ready) < n ∧
   ∀ ns pod err, EvPodCreate ns pod err ∈ t → ns = g.(g_Namespace) ∧ restores g rev pod).
Proof.
  intros Hn E. split.
  { match type of E with ?f _ _ _ = _ => assert (allS same_ready f) as Hr end; [|by apply Hr in E].
    repeat first [apply checkUnready_ready|apply consider_ready|progress ready_tac]. }
  revert E. match goal with |- ?f _ _ _ = _ → _ =>
    enough (reaches env (λ _ _ t, len32 m.(m_ready) < n ∧
      ∀ ns pod err, EvPodCreate ns pod err ∈ t → ns = g.(g_Namespace) ∧ restores g rev pod) f) as Hf end.
  - intros [Hq|(t1 & t2 & -> & Hq & Hl & Hk)]%Hf; [by left|right]. split; [done|].
    intros ns pod err [Hin|Hin]%elem_of_app; [|by eapply Hk].
    rewrite Forall_forall in Hq. by apply Hq in Hin as [_ ?].
  - apply reaches_quiet; [quiet_tac|intros sc _ _ _ _ _]. apply reaches_bind.
    { apply emitsS_lift. unfold deleteNoMatchingClaimsAndListUnusedClaims.
      generalize (@nil string) at 2 as l. induction claims; intros l; cbn [unusedClaims]; quiet_tac. }
    intros [unused []] st1 h1 st1' t1 [_ E]%lift_inv; [by right|].
    apply unusedClaims_quiet in E as ->. left. split; [constructor|].
    apply reaches_quiet; [apply quiet_pure|]. intros n' st2 h2 st2' t2 [_ E2]%lift_inv.
    rewrite Hn in E2. injection E2 as <- <-.
    case_decide; [|apply reaches_end, consider_no_create].
    intros st3 h3 o' st4 t3 E3. apply checkUnready_creates in E3 as [E3|[init (_ & _ & E3)]]; [by left|].
    right. exists [], t3. split_and!; [done|constructor|done|]. intros ns pod err Hin.
    apply E3 in Hin as [-> Hp%new_pod_restores]. done.
Qed.

Lemma lift_pure_bind {A B} (a : A) (f : A → SM B) st env h :
  (lift (pureM (Ok a)) ≫= f) st env h = f a st env h.
Proof. apply (SM_ret_bind a f). Qed.

(** The round of a cluster that is being scheduled for a restoration *)
Lemma scheduleGaleraRestore_inv g rev pods claims creds n st env h o st' t :
  replicas g = Ok n → st.(st_Members).(mem_Ready) = [] →
  scheduleGaleraRestore gc g rev pods claims creds st env h = (o, st', t) →
  (o = Ok tt → st'.(st_Members).(mem_Ready) =
     if decide (Forall (restorePod rev) pods) then pod_Name <$> running pods else []) ∧
  (Forall no_create t ∨ len32 (running pods) < n ∧
   ∀ ns pod err, EvPodCreate ns pod err ∈ t → ns = g.(g_Namespace) ∧ restores g rev pod).
Proof.
  intros Hn Hst. unfold scheduleGaleraRestore.
  intros [(r & st1 & t1 & t2 & E1 & E & ->)|(Ho & o' & E & Ho')]%SM_bind_inv.
  - apply classifyRestore_inv in E1 as (Hm & _ & [(HF & -> & m & [= ->] & Hr & _ & _)
      |(l1 & p & l2 & -> & _ & Hp & Hnot & h' & ->)]).
    + rewrite decide_True by done. cbn [getMembersName] in E. rewrite modify_bind in E.
      cbn in Hr. apply (scheduled_inv _ _ _ _ _ n) in E as [Hs Hc]; [|done]. rewrite Hr in Hs, Hc.
      split; [|by rewrite app_nil_l]. intros _. by rewrite Hs.
    + destruct r as [m|]; [by destruct (Hnot m)|]. injection E as <- <- <-.
      rewrite decide_False by (by intros [_ [? _]%Forall_cons]%Forall_app).
      split; [intros _; by rewrite Hm, Hst|]. left. rewrite app_nil_r.
      eapply Forall_impl; [apply ForceDeletePodAndClaim_emits|]. by intros [].
  - split; [by intros ->|left].
    apply classifyRestore_inv in E as (_ & _ & [(_ & -> & _)|(l1 & p & l2 & _ & _ & _ & _ & h' & ->)]);
      [constructor|]. eapply Forall_impl; [apply ForceDeletePodAndClaim_emits|]. by intros [].
Qed.

(** A cluster is handed to the restoration exactly when all its pods were
    created to restore it, of the current revision, and as many as it has replicas
    run; the phase says so in the same round, and otherwise the cluster stays to be
    scheduled.  The pods created until then are standalone ones that restore, and
    none is created once enough of them run. *)
Theorem scheduleRestorePhase_spec (g : Galera) (rev : string) (pods : list Pod)
    (claims : list PersistentVolumeClaim) (creds : gmap string string) (n : Z) (st : GaleraStatus)
    (env : Env) (h : history) :
  replicas g = Ok n → n ≠ 0 → st.(st_Members).(mem_Ready) = [] →
  let '(o, st', t) := scheduleRestorePhase gc g rev pods claims creds st env h in
  let scheduled := Forall (restorePod rev) pods ∧ len32 (running pods) = n in
  (EvRestore g pods creds ∈ t → scheduled) ∧
  (o = Ok tt →
     if decide scheduled then EvRestore g pods creds ∈ t ∧ st'.(st_Phase) = GaleraPhaseCopyRestore
     else st'.(st_Phase) = GaleraPhaseScheduleRestore) ∧
  (∀ ns pod err, EvPodCreate ns pod err ∈ t →
     ns = g.(g_Namespace) ∧ restores g rev pod ∧ len32 (running pods) < n).
Proof.
  intros Hn Hn0 Hst.
  destruct (scheduleRestorePhase gc g rev pods claims creds st env h) as [[o st'] t] eqn:E.
  cbv zeta. unfold scheduleRestorePhase in E. rewrite modify_bind in E.
  assert (∀ t, Forall no_create t ∨ len32 (running pods) < n ∧
     (∀ ns pod err, EvPodCreate ns pod err ∈ t → ns = g.(g_Namespace) ∧ restores g rev pod) →
     ∀ ns pod err, EvPodCreate ns pod err ∈ t →
     ns = g.(g_Namespace) ∧ restores g rev pod ∧ len32 (running pods) < n) as Hpods.
  { intros t0 [HF|[Hl Hc]] ns pod err Hin.
    - rewrite Forall_forall in HF. apply HF in Hin. discriminate Hin.
    - apply Hc in Hin as [? ?]. by split_and!. }
  assert (∀ t, Forall not_restore t → EvRestore g pods creds ∉ t) as Hnr.
  { intros t0 HF Hin. rewrite Forall_forall in HF. exact (HF _ Hin). }
  apply SM_bind_inv in E as [([] & st1 & t1 & t2 & E1 & E & ->)|(Ho & o' & E & _)].
  2:{ split_and!; [|by intros ->|].
      - intros Hin. exfalso. eapply Hnr; [|exact Hin].
        eapply emitsS_run; [apply scheduleGaleraRestore_not_restore|exact E].
      - apply Hpods. by eapply (scheduleGaleraRestore_inv _ _ _ _ _ n) in E as [_ E]. }
  assert (EvRestore g pods creds ∉ t1) as Hn1.
  { apply Hnr. eapply emitsS_run; [apply scheduleGaleraRestore_not_restore|exact E1]. }
  assert (st1.(st_Phase) = GaleraPhaseScheduleRestore) as Hph
    by (apply scheduleGaleraRestore_keeps in E1; exact E1).
  apply (scheduleGaleraRestore_inv _ _ _ _ _ n) in E1 as [Hr Hc]; [|done|done].
  specialize (Hr eq_refl). rewrite getStatus_bind, Hn in E.
  rewrite lift_pure_bind in E. cbv beta in E.
  assert (len32 st1.(st_Members).(mem_Ready) = n ↔
          Forall (restorePod rev) pods ∧ len32 (running pods) = n) as Hsch.
  { rewrite Hr. destruct (decide (Forall (restorePod rev) pods)).
    - unfold len32. rewrite length_fmap. tauto.
    - change (len32 []) with 0. split; [congruence|tauto]. }
  destruct (decide (len32 st1.(st_Members).(mem_Ready) = n)) as [Hl|Hl].
  - rewrite modify_bind in E.
    unfold spawnRestore, lift, call in E. injection E as <- <- <-.
    split_and!; [by rewrite <- Hsch| |].
    + intros _. rewrite decide_True by tauto. split; [|done]. set_solver.
    + intros ns pod err Hin. apply (Hpods t1 Hc ns pod err). set_solver.
  - injection E as <- <- <-. rewrite app_nil_r.
    split_and!; [done| |by apply Hpods].
    intros _. by rewrite decide_False by tauto.
Qed.
End restoring.

(** ** Examples *)

#[local] Existing Instances RetryLib_steps RetryLaws_steps NewRealGaleraPodControl
  realGaleraPodControl_laws examplePodUtil.

Definition restore_pods : list Pod :=
  [example_pod "a" Restore "10.0.0.1"; example_pod "b" Restore "10.0.0.2";
   example_pod "c" Restore "10.0.0.3"].

Definition restore_round : outcome unit * GaleraStatus * history :=
  scheduleRestorePhase example_control example_galera "r1" restore_pods [] ∅ emptyStatus env_ok [].

Lemma scheduleRestorePhase_spec_witness :
  fst (fst restore_round) = Ok tt ∧
  (EvRestore example_galera restore_pods ∅ ∈ snd restore_round →
   Forall (restorePod "r1") restore_pods ∧ len32 (running restore_pods) = 3) ∧
  existsb (λ e, match e with EvRestore _ _ _ => true | _ => false end) (snd restore_round) = true.
Proof.
  split; [vm_compute; reflexivity|].
  split; [|vm_compute; reflexivity].
  assert (3 ≠ 0) as H3 by discriminate.
  pose proof (scheduleRestorePhase_spec example_control example_galera "r1" restore_pods [] ∅ 3
    emptyStatus env_ok [] eq_refl H3 eq_refl) as H.
  change (scheduleRestorePhase example_control example_galera "r1" restore_pods [] ∅ emptyStatus
    env_ok []) with restore_round in H.
  destruct restore_round as [[o st'] t]. exact (proj1 H).
Defined.
