(* ===== verification/Storage.v ===== *)
(** * How a backup is taken, stored and fetched

    Models [pkg/backup]: the methods ([backup-method/mariabackup] and [none]),
    the S3 storage provider ([storage-provider/s3]), which drives the side-car of
    a pod over HTTP, and [BackupHandler], which combines the two. *)
From S2P Require Import Prelude Timestamps Types BackupTypes Objects Names Kube Ownership.
From S2P Require Import PodLib Utils.

(** [bkpconstants] *)
Definition StateUnknown : string := "unknown".
Definition StateCompleted : string := "completed".
Definition StateRunning : string := "running".
Definition StateFailed : string := "failed".

(** [constants.TimeOut], in seconds *)
Definition TimeOut : Z := 3600.

Definition backupDir : string := BackupVolumeMountPath +:+ "/new".
Definition restoreDir : string := BackupVolumeMountPath.

(** The two interfaces, as records of the methods of a value that has them *)
Record Method := mkMethod { method_Backup : string → M unit; method_Restore : string → M unit }.
Record Storage := mkStorage {
  storage_Store : string → string → M unit;
  storage_Retrieve : string → string → M unit }.

(** The errors of the keys that are missing from credentials *)
Definition required (credentials : gmap string string) (keys : list string) : list error :=
  (λ k, errorf ("data." +:+ k +:+ ": Required value"))
    <$> filter (λ k, credentials !! k = None) keys.

(** The text of the two functions [getCredentials]: both values, or the errors.
    An aggregate that is nil is returned as no error, with empty values. *)
Definition twoCredentials `{ApiMachinery} (k1 k2 : string) (credentials : option (gmap string string))
    : (string * string) + error :=
  match credentials with
  | None => inr (errorf "no credentials provided")
  | Some creds =>
      match required creds [k1; k2] with
      | [] => inl (default "" (creds !! k1), default "" (creds !! k2))
      | allErrs => match NewAggregate allErrs with Some e => inr e | None => inl ("", "") end
      end
  end.

(** A command of which only the error is used *)
Definition runCmd (ns : string) (pod : Pod) (cmd : list string) : M unit :=
  '(_, err) ← ExecCmd ns pod cmd; retErr err.

(** ** The method mariabackup *)
Module Mariabackup.

Record MariaBackup := mkMariaBackup {
  backupPod : Pod;
  mb_user : string;
  mb_password : string }.

Definition getCredentials `{ApiMachinery} (credentials : option (gmap string string))
    : (string * string) + error :=
  twoCredentials "user" "password" credentials.

Definition NewMethod `{ApiMachinery} (backupPod : Pod) (backupCreds : option (gmap string string))
    : MariaBackup + error :=
  match getCredentials backupCreds with
  | inl (user, password) => inl (mkMariaBackup backupPod user password)
  | inr err => inr err
  end.

Definition mariabackupCmd (mb : MariaBackup) (action backupDir : string) : list string :=
  ["mariabackup"; action; "--user=" +:+ mb.(mb_user); "--password=" +:+ mb.(mb_password);
   "--target-dir=" +:+ backupDir].

Definition exec (mb : MariaBackup) : list string → M unit :=
  runCmd mb.(backupPod).(pod_Namespace) mb.(backupPod).

Definition Backup (mb : MariaBackup) (backupDir : string) : M unit :=
  exec mb ["rm"; "-rf"; backupDir];;
  exec mb ["mkdir"; backupDir];;
  exec mb (mariabackupCmd mb "--backup" backupDir);;
  exec mb (mariabackupCmd mb "--prepare" backupDir).

Definition Restore (mb : MariaBackup) (backupDir : string) : M unit :=
  exec mb (mariabackupCmd mb "--copy-back" backupDir);;
  exec mb ["chown"; "-R"; "mysql:mysql"; "/var/lib/mysql"].
End Mariabackup.

(** ** The method none *)
Module NoneMethod.
Definition Backup (backupDir : string) : M unit := mret tt.
Definition Restore (backupDir : string) : M unit := mret tt.
End NoneMethod.

(** ** The S3 provider *)
Module S3Provider.

Record Provider := mkProvider { backupPod : Pod; s3 : S3 }.

Definition getCredentials `{ApiMachinery} (credentials : option (gmap string string))
    : (string * string) + error :=
  twoCredentials "accessKeyId" "secretAccessKey" credentials.

(** [provider] is a pointer. *)
Definition NewProvider `{ApiMachinery} (provider : option S3StorageProvider)
    (credentials : option (gmap string string)) (backupPod : Pod) : outcome Provider :=
  match getCredentials credentials with
  | inr err => Err err
  | inl (accessKey, secretKey) =>
      provider ← deref provider;
      let newS3 := mkS3Request accessKey secretKey "" "" provider.(s3_Endpoint) provider.(s3_Bucket)
                     (if decide (provider.(s3_Region) ≠ "") then provider.(s3_Region) else "")
                     (if negb provider.(s3_ForcePathStyle) then provider.(s3_ForcePathStyle)
                      else false) in
      mret (mkProvider backupPod newS3)
  end.

(** [p.s3.BackupDir = dir] and [p.s3.BackupName = key] *)
Definition with_target (dir key : string) (s : S3) : S3 :=
  mkS3Request s.(req_AccessKey) s.(req_SecretKey) dir key s.(req_Endpoint) s.(req_Bucket)
    s.(req_Region) s.(req_ForcePathStyle).

Definition url (p : Provider) (path : string) : string :=
  "http://" +:+ p.(backupPod).(pod_Status).(pst_PodIP) +:+ ":8080" +:+ path.

(** The loop of [Store], for [n] requests at most *)
Fixpoint waitStored (n : nat) (url : string) : M unit :=
  match n with
  | O => pureM OutOfFuel
  | S n' =>
      resp ← attempt (httpCall "GET" url None);
      match resp with
      | inr _ => waitStored n' url
      | inl resp =>
          match resp.(reply_Body) with
          | inr _ => waitStored n' url
          | inl response =>
              if decide (resp.(reply_StatusCode) = 200 ∧ response.(resp_Status) = "completed")
              then mret tt
              else sleep;; waitStored n' url
          end
      end
  end.

Definition Store (n : nat) (p : Provider) (backupDir key : string) : M unit :=
  let data := marshalS3 (with_target backupDir key p.(s3)) in
  resp ← httpCall "POST" (url p "/s3") (Some data);
  _ ← orErr resp.(reply_Body);
  waitStored n (url p ("/state/" +:+ key)).

(** [getState]: the status of the answer, whatever its code *)
Definition getState (url : string) : M string :=
  resp ← httpCall "GET" url None;
  response ← orErr resp.(reply_Body);
  mret response.(resp_Status).

(** The channel of the [select] of [Retrieve] that is ready first: the ticker
    sends every 1000 ms, the timer is made anew each time the [select] starts. *)
Inductive ready := Tick | After.
Definition tickerPeriod : Z := 1000.
Definition selectReady : ready :=
  if decide (tickerPeriod < TimeOut * 1000) then Tick else After.

(** The loop of [Retrieve], for [n] turns at most *)
Fixpoint waitRetrieved (n : nat) (url : string) : M unit :=
  match n with
  | O => pureM OutOfFuel
  | S n' =>
      match selectReady with
      | Tick =>
          sleep;;
          state ← getState url;
          if decide (state = StateCompleted) then mret tt
          else if decide (state = StateFailed) then errM (errorf "restore failed")
          else waitRetrieved n' url
      | After =>
          errM (errorf ("timeout of " +:+ pretty TimeOut
                        +:+ " seconds reached when performing restore operation"))
      end
  end.

Definition Retrieve (n : nat) (p : Provider) (key restoreDir : string) : M unit :=
  let s3 := with_target restoreDir key p.(s3) in
  let urlCheck := url p ("/state/" +:+ key) in
  state ← getState urlCheck;
  (if decide (state ≠ StateRunning) then
     restoreResp ← httpCall "GET" (url p "/s3") (Some (marshalS3 s3));
     _ ← orErr restoreResp.(reply_Body);
     mret tt
   else mret tt);;
  waitRetrieved n urlCheck.
End S3Provider.

(** ** The handler *)

Record BackupHandler := mkBackupHandler { bh_method : Method; bh_storage : Storage }.

Definition storageS3 (n : nat) (p : S3Provider.Provider) : Storage :=
  mkStorage (S3Provider.Store n p) (S3Provider.Retrieve n p).

(** [n] bounds the requests of the loops of the provider. *)
Definition NewBackupHandlerMariabackupS3 `{ApiMachinery} (n : nat) (backupPod : Pod)
    (backupCreds : option (gmap string string)) (provider : option S3StorageProvider)
    (mapCredS3 : option (gmap string string)) : outcome BackupHandler :=
  match Mariabackup.NewMethod backupPod backupCreds with
  | inr err => Err err
  | inl m =>
      s ← S3Provider.NewProvider provider mapCredS3 backupPod;
      mret (mkBackupHandler (mkMethod (Mariabackup.Backup m) (Mariabackup.Restore m)) (storageS3 n s))
  end.

Definition NewBackupHandlerNoneS3 `{ApiMachinery} (n : nat) (backupPod : Pod)
    (provider : option S3StorageProvider) (mapCredS3 : option (gmap string string)) : outcome BackupHandler :=
  s ← S3Provider.NewProvider provider mapCredS3 backupPod;
  mret (mkBackupHandler (mkMethod NoneMethod.Backup NoneMethod.Restore) (storageS3 n s)).

(** The clock is a number of seconds. *)
Definition Backup (bh : BackupHandler) (backupName : string) : M string :=
  bh.(bh_method).(method_Backup) backupDir;;
  time ← now;
  let backupFileName := backupName +:+ "." +:+ Timestamps.format time +:+ ".sql.gz" in
  bh.(bh_storage).(storage_Store) backupDir backupFileName;;
  mret backupFileName.

Definition Restore (bh : BackupHandler) (backupName : string) : M unit :=
  bh.(bh_storage).(storage_Retrieve) backupName restoreDir;;
  bh.(bh_method).(method_Restore) backupDir.

(** ** Commands *)

(** Commands in a row, up to the first that fails *)
Fixpoint runAll (ns : string) (pod : Pod) (cmds : list (list string)) : M unit :=
  match cmds with
  | [] => mret tt
  | cmd :: cmds' => runCmd ns pod cmd;; runAll ns pod cmds'
  end.

(** The commands of a trace, each with its error *)
Definition commands (t : history) : list (list string * option error) :=
  omap (λ e, match e with EvExec _ _ _ cmd _ err => Some (cmd, err) | _ => None end) t.

(** Commands in a row: all of them without error, or up to the first error, which
    is returned. *)
Definition ran (cmds : list (list string)) (o : outcome unit) (t : history) : Prop :=
  (o = Ok tt ∧ commands t = (λ c, (c, None)) <$> cmds) ∨
  ∃ before cmd after e, cmds = before ++ cmd :: after ∧ o = Err e ∧
    commands t = ((λ c, (c, None)) <$> before) ++ [(cmd, Some e)].

Lemma runAll_ran ns pod c cs cmds env h :
  pod.(pod_Spec).(ps_Containers) = c :: cs →
  ran cmds (fst (runAll ns pod cmds env h)) (snd (runAll ns pod cmds env h)).
Proof.
  intros Hpod. revert h. induction cmds as [|cmd cmds IH]; intros h; [by left|]. cbn [runAll].
  set (r := env_exec env h ns (pod_Name pod) (c_Name c) cmd).
  assert (runCmd ns pod cmd env h = (match snd r with None => Ok tt | Some e => Err e end,
            [EvExec ns (pod_Name pod) (c_Name c) cmd (fst r) (snd r)])) as E.
  { unfold runCmd, ExecCmd, retErr, errM. rewrite Hpod. unM. fold r. destruct r as [out []]; reflexivity. }
  destruct (snd r) as [e|].
  - right. rewrite (bind_Err _ _ _ _ _ _ E). by exists [], cmd, cmds, e.
  - rewrite (bind_Ok _ _ _ _ _ _ E). cbn [fst snd].
    destruct (IH (h ++ [EvExec ns (pod_Name pod) (c_Name c) cmd r.1 None]))
      as [[Ho Hc]|(b & cmd' & a & e & -> & Ho & Hc)]; [left|right].
    + split; [done|]. cbn. f_equal. exact Hc.
    + exists (cmd :: b), cmd', a, e. split_and!; [done..|]. cbn. f_equal. exact Hc.
Qed.

Lemma seq_ext (m f g : M unit) :
  (∀ env h, f env h = g env h) → ∀ env h, (m;; f) env h = (m;; g) env h.
Proof.
  intros Hfg env h. unfold mbind, M_bind. destruct (m env h) as [[] t]; try done. by rewrite Hfg.
Qed.

Lemma seq_ret (m : M unit) env h : (m;; mret tt) env h = m env h.
Proof.
  unfold mbind, M_bind, mret, M_ret. by destruct (m env h) as [[[]| | |] t]; rewrite ?app_nil_r.
Qed.

(** A backup empties its directory, creates it, copies the database and
    prepares the copy, in this order and each step only once the previous one
    succeeded; it succeeds exactly when they all do and otherwise returns the
    error of the step that failed.  A restoration copies the prepared backup back,
    then changes the owner of the files, likewise. *)
Theorem mariabackup_steps (mb : Mariabackup.MariaBackup) (dir : string) (c : Container)
    (cs : list Container) (env : Env) (h : history) :
  mb.(Mariabackup.backupPod).(pod_Spec).(ps_Containers) = c :: cs →
  let cmd action := ["mariabackup"; action; "--user=" +:+ mb.(Mariabackup.mb_user);
                     "--password=" +:+ mb.(Mariabackup.mb_password); "--target-dir=" +:+ dir] in
  let (o, t) := Mariabackup.Backup mb dir env h in
  let (o', t') := Mariabackup.Restore mb dir env h in
  ran [["rm"; "-rf"; dir]; ["mkdir"; dir]; cmd "--backup"; cmd "--prepare"] o t ∧
  ran [cmd "--copy-back"; ["chown"; "-R"; "mysql:mysql"; "/var/lib/mysql"]] o' t'.
Proof.
  intros Hpod cmd. pose proof (λ cmds, runAll_ran (pod_Namespace (Mariabackup.backupPod mb)) _ c cs cmds env h Hpod) as H.
  pose proof (H [["rm"; "-rf"; dir]; ["mkdir"; dir]; cmd "--backup"; cmd "--prepare"]) as Hb.
  pose proof (H [cmd "--copy-back"; ["chown"; "-R"; "mysql:mysql"; "/var/lib/mysql"]]) as Hr.
  cbn [runAll] in Hb, Hr.
  rewrite (seq_ext _ _ _ (seq_ext _ _ _ (seq_ext _ _ _ (seq_ret _)))) in Hb.
  rewrite (seq_ext _ _ _ (seq_ret _)) in Hr.
  change (ran [["rm"; "-rf"; dir]; ["mkdir"; dir]; cmd "--backup"; cmd "--prepare"]
    (fst (Mariabackup.Backup mb dir env h)) (snd (Mariabackup.Backup mb dir env h))) in Hb.
  change (ran [cmd "--copy-back"; ["chown"; "-R"; "mysql:mysql"; "/var/lib/mysql"]]
    (fst (Mariabackup.Restore mb dir env h)) (snd (Mariabackup.Restore mb dir env h))) in Hr.
  by destruct (Mariabackup.Backup mb dir env h), (Mariabackup.Restore mb dir env h).
Qed.

(** ** Waiting for the side-car *)

(** What the side-car answers to a request for a state *)
Definition stateAnswer (env : Env) (url : string) (h : history) : httpReply + error :=
  env.(env_ctl).(ctl_http) h "GET" url None.

(** The answer that ends the loop of [Store] *)
Definition is_stored (r : httpReply + error) : bool :=
  match r with
  | inl resp =>
      match resp.(reply_Body) with
      | inl response => bool_decide (resp.(reply_StatusCode) = 200 ∧ response.(resp_Status) = "completed")
      | inr _ => false
      end
  | inr _ => false
  end.

(** What a turn that does not end the loop adds to the trace *)
Definition storeTurn (env : Env) (url : string) (h : history) : history :=
  let r := stateAnswer env url h in
  EvHTTP "GET" url None r ::
  match r with
  | inl resp => match resp.(reply_Body) with inl _ => [EvSleep] | inr _ => [] end
  | inr _ => []
  end.

(** The history after [k] turns *)
Fixpoint turns (turn : history → history) (k : nat) (h : history) : history :=
  match k with O => h | S k' => turns turn k' (h ++ turn h) end.

Lemma waitStored_turn n url env h :
  fst (S3Provider.waitStored (S n) url env h) =
    if is_stored (stateAnswer env url h) then Ok tt
    else fst (S3Provider.waitStored n url env (h ++ storeTurn env url h)).
Proof.
  cbn [S3Provider.waitStored]. unfold is_stored, storeTurn, stateAnswer, httpCall, sleep.
  destruct (ctl_http (env_ctl env) h "GET" url None) as [resp|e] eqn:E.
  - assert (attempt (r ← call (λ env h, env.(env_ctl).(ctl_http) h "GET" url None)
              (EvHTTP "GET" url None); orErr r) env h = (Ok (inl resp), [EvHTTP "GET" url None (inl resp)])) as Ha
      by (unfold attempt, call, orErr; unM; by rewrite E).
    rewrite (bind_Ok _ _ _ _ _ _ Ha). cbn [fst]. destruct (reply_Body resp) as [response|]; [|done].
    case_decide as Hd; [by rewrite bool_decide_eq_true_2|rewrite bool_decide_eq_false_2 by done].
    rewrite (bind_Ok _ _ _ _ tt [EvSleep]) by done. cbn [fst]. by rewrite <- app_assoc.
  - assert (attempt (r ← call (λ env h, env.(env_ctl).(ctl_http) h "GET" url None)
              (EvHTTP "GET" url None); orErr r) env h = (Ok (inr e), [EvHTTP "GET" url None (inr e)])) as Ha
      by (unfold attempt, call, orErr, errM; unM; by rewrite E).
    by rewrite (bind_Ok _ _ _ _ _ _ Ha).
Qed.

(** A loop that makes turns until a condition holds *)
Section loop.
Context (loop : nat → history → outcome unit) (turn : history → history) (stop : history → option (outcome unit)).
Context (Hzero : ∀ h, loop 0 h = OutOfFuel).
Context (Hsucc : ∀ n h, loop (S n) h = match stop h with Some o => o | None => loop n (h ++ turn h) end).

Lemma loop_stops k n h o :
  (∀ j, (j < k)%nat → stop (turns turn j h) = None) → stop (turns turn k h) = Some o →
  (k < n)%nat → loop n h = o.
Proof using Hsucc.
  revert n h. induction k as [|k IH]; intros [|n] h Hj Hk Hn; try lia; rewrite Hsucc.
  - cbn in Hk. by rewrite Hk.
  - pose proof (Hj 0%nat ltac:(lia)) as Hs. cbn in Hs. rewrite Hs. apply IH; [|done|lia]. intros j Hlt. apply (Hj (S j)). lia.
Qed.

Lemma loop_runs n h :
  (∀ j, (j < n)%nat → stop (turns turn j h) = None) → loop n h = OutOfFuel.
Proof using Hzero Hsucc.
  revert h. induction n as [|n IH]; intros h Hj; [done|].
  pose proof (Hj 0%nat ltac:(lia)) as Hs. cbn in Hs. rewrite Hsucc, Hs.
  apply IH. intros j Hlt. apply (Hj (S j)). lia.
Qed.

(** The first turn that stops, if any does among the first [n] *)
Lemma loop_spec n h :
  (∃ k o, (k < n)%nat ∧ (∀ j, (j < k)%nat → stop (turns turn j h) = None) ∧
          stop (turns turn k h) = Some o ∧ loop n h = o) ∨
  (∀ j, (j < n)%nat → stop (turns turn j h) = None) ∧ loop n h = OutOfFuel.
Proof using Hzero Hsucc.
  revert h. induction n as [|n IH]; intros h; [right; split; [lia|done]|]. rewrite Hsucc.
  destruct (stop h) as [o|] eqn:Hs; [left; exists 0%nat, o; split_and!; [lia|lia|done|done]|].
  destruct (IH (h ++ turn h)) as [(k & o & Hk & Hj & Ho & E)|[Hj E]]; [left|right].
  - exists (S k), o. split_and!; [lia| |done|done]. intros [|j] Hlt; [done|]. apply (Hj j). lia.
  - split; [|done]. intros [|j] Hlt; [done|]. apply (Hj j). lia.
Qed.
End loop.

Definition storeStop (env : Env) (url : string) (h : history) : option (outcome unit) :=
  if is_stored (stateAnswer env url h) then Some (Ok tt) else None.

Lemma waitStored_loop url env n h :
  fst (S3Provider.waitStored (S n) url env h) =
    match storeStop env url h with
    | Some o => o
    | None => fst (S3Provider.waitStored n url env (h ++ storeTurn env url h))
    end.
Proof. rewrite waitStored_turn. unfold storeStop. by destruct (is_stored _). Qed.

(** [Store] up to its loop: the answer to the request *)
Lemma Store_fst n p dir key env h :
  let doc := marshalS3 (S3Provider.with_target dir key p.(S3Provider.s3)) in
  let post := env.(env_ctl).(ctl_http) h "POST" (S3Provider.url p "/s3") (Some doc) in
  fst (S3Provider.Store n p dir key env h) =
    match post with
    | inr e => Err e
    | inl resp =>
        match resp.(reply_Body) with
        | inr e => Err e
        | inl _ => fst (S3Provider.waitStored n (S3Provider.url p ("/state/" +:+ key)) env
                          (h ++ [EvHTTP "POST" (S3Provider.url p "/s3") (Some doc) post]))
        end
    end.
Proof.
  cbv zeta. unfold S3Provider.Store, httpCall.
  set (doc := marshalS3 _). set (post := ctl_http _ h "POST" _ _).
  assert ((r ← call (λ env h, env.(env_ctl).(ctl_http) h "POST" (S3Provider.url p "/s3") (Some doc))
             (EvHTTP "POST" (S3Provider.url p "/s3") (Some doc)); orErr r) env h
          = (match post with inl r => Ok r | inr e => Err e end,
             [EvHTTP "POST" (S3Provider.url p "/s3") (Some doc) post])) as E
    by (unfold call, orErr, errM; unM; fold post; by destruct post).
  destruct post as [resp|e]; [|by rewrite (bind_Err _ _ _ _ _ _ E)].
  rewrite (bind_Ok _ _ _ _ _ _ E). cbn [fst]. destruct (reply_Body resp) as [body|e]; [|done].
  cbn [orErr]. by rewrite ret_bind.
Qed.

(** [Store] once the side-car has accepted: it returns at a turn whose answer says
    that the backup is completed, or makes all its turns. *)
Lemma Store_turns p dir key env h resp response n :
  let doc := marshalS3 (S3Provider.with_target dir key p.(S3Provider.s3)) in
  let url := S3Provider.url p ("/state/" +:+ key) in
  env.(env_ctl).(ctl_http) h "POST" (S3Provider.url p "/s3") (Some doc) = inl resp →
  resp.(reply_Body) = inl response →
  let h1 := h ++ [EvHTTP "POST" (S3Provider.url p "/s3") (Some doc) (inl resp)] in
  let answer k := stateAnswer env url (turns (storeTurn env url) k h1) in
  let o := fst (S3Provider.Store n p dir key env h) in
  (∃ k, (k < n)%nat ∧ is_stored (answer k) = true ∧ o = Ok tt) ∨
  (∀ k, (k < n)%nat → is_stored (answer k) = false) ∧ o = OutOfFuel.
Proof.
  intros doc url Hpost Hbody h1 answer o.
  assert (o = fst (S3Provider.waitStored n url env h1)) as ->.
  { unfold o. rewrite Store_fst. cbv zeta. fold doc. by rewrite Hpost, Hbody. }
  destruct (loop_spec (λ n h, fst (S3Provider.waitStored n url env h)) (storeTurn env url)
    (storeStop env url) (λ _, eq_refl) (waitStored_loop url env) n h1)
    as [(k & o' & Hk & _ & Ho & E)|[Hj E]]; [left|right].
  - exists k. revert Ho. unfold storeStop, answer. destruct (is_stored _); [|done]. by intros [= <-].
  - split; [|done]. intros k Hk. specialize (Hj k Hk). revert Hj. unfold storeStop, answer.
    by destruct (is_stored _).
Qed.

(** C12: once the side-car has accepted a backup, [Store] returns as soon as an
    answer with code 200 says that it is completed, and not before; as long as no
    answer does, it goes on asking: when the backup failed, it never returns. *)
Theorem Store_waits (p : S3Provider.Provider) (dir key : string) (env : Env) (h : history)
    (resp : httpReply) (response : httpResponse) :
  let doc := marshalS3 (S3Provider.with_target dir key p.(S3Provider.s3)) in
  let url := S3Provider.url p ("/state/" +:+ key) in
  env.(env_ctl).(ctl_http) h "POST" (S3Provider.url p "/s3") (Some doc) = inl resp →
  resp.(reply_Body) = inl response →
  let h1 := h ++ [EvHTTP "POST" (S3Provider.url p "/s3") (Some doc) (inl resp)] in
  let answer k := stateAnswer env url (turns (storeTurn env url) k h1) in
  let run n := fst (S3Provider.Store n p dir key env h) in
  (∀ n, run n = Ok tt ↔ ∃ k, (k < n)%nat ∧ is_stored (answer k) = true) ∧
  (∀ n, run n = OutOfFuel ↔ ∀ k, (k < n)%nat → is_stored (answer k) = false).
Proof.
  intros doc url Hpost Hbody h1 answer run.
  assert (∀ n, (∃ k, (k < n)%nat ∧ is_stored (answer k) = true ∧ run n = Ok tt) ∨
               (∀ k, (k < n)%nat → is_stored (answer k) = false) ∧ run n = OutOfFuel) as Hcase
    by (intros n; exact (Store_turns p dir key env h resp response n Hpost Hbody)).
  split; intros n; destruct (Hcase n) as [(k & Hk & Hs & ->)|[Hf ->]]; split; try done.
  - eauto.
  - intros (k & Hk & Hs). by rewrite Hf in Hs.
  - intros Hf. by rewrite Hf in Hs.
Qed.

(** The end of the loop of [Retrieve], if the answer to a request for the state
    decides it *)
Definition verdict (r : httpReply + error) : option (outcome unit) :=
  match r with
  | inr e => Some (Err e)
  | inl resp =>
      match resp.(reply_Body) with
      | inr e => Some (Err e)
      | inl response =>
          if decide (response.(resp_Status) = StateCompleted) then Some (Ok tt)
          else if decide (response.(resp_Status) = StateFailed)
          then Some (Err (errorf "restore failed")) else None
      end
  end.

Definition retrieveTurn (env : Env) (url : string) (h : history) : history :=
  [EvSleep; EvHTTP "GET" url None (stateAnswer env url (h ++ [EvSleep]))].

Lemma getState_run env url h :
  S3Provider.getState url env h =
    (match stateAnswer env url h with
     | inr e => Err e
     | inl resp => match resp.(reply_Body) with
                   | inr e => Err e | inl response => Ok response.(resp_Status) end
     end, [EvHTTP "GET" url None (stateAnswer env url h)]).
Proof.
  unfold S3Provider.getState, httpCall, stateAnswer, call, orErr, errM. unM.
  destruct (ctl_http (env_ctl env) h "GET" url None) as [resp|e]; cbn; [|done].
  by destruct (reply_Body resp).
Qed.

Lemma waitRetrieved_loop url env n h :
  fst (S3Provider.waitRetrieved (S n) url env h) =
    match verdict (stateAnswer env url (h ++ [EvSleep])) with
    | Some o => o
    | None => fst (S3Provider.waitRetrieved n url env (h ++ retrieveTurn env url h))
    end.
Proof.
  cbn [S3Provider.waitRetrieved]. change S3Provider.selectReady with S3Provider.Tick. cbv match.
  rewrite (bind_Ok _ _ _ _ tt [EvSleep]) by done. cbn [fst].
  rewrite bind_fst, getState_run. unfold verdict, retrieveTurn.
  destruct (stateAnswer env url (h ++ [EvSleep])) as [resp|e]; [|done].
  destruct (reply_Body resp) as [response|e]; [|done].
  repeat case_decide; try done. by rewrite <- app_assoc.
Qed.

(** The requests before the loop of [Retrieve]: the state, and the restoration
    unless one is running *)
Definition retrieveStart (env : Env) (p : S3Provider.Provider) (key dir : string) (h : history)
    : history + error :=
  let url := S3Provider.url p ("/state/" +:+ key) in
  let first := stateAnswer env url h in
  let h1 := h ++ [EvHTTP "GET" url None first] in
  match first with
  | inr e => inr e
  | inl resp =>
      match resp.(reply_Body) with
      | inr e => inr e
      | inl response =>
          if decide (response.(resp_Status) = StateRunning) then inl h1
          else
            let doc := marshalS3 (S3Provider.with_target dir key p.(S3Provider.s3)) in
            let get := env.(env_ctl).(ctl_http) h1 "GET" (S3Provider.url p "/s3") (Some doc) in
            match get with
            | inr e => inr e
            | inl resp => match resp.(reply_Body) with
                          | inr e => inr e
                          | inl _ => inl (h1 ++ [EvHTTP "GET" (S3Provider.url p "/s3") (Some doc) get])
                          end
            end
      end
  end.

Lemma Retrieve_fst n p key dir env h :
  fst (S3Provider.Retrieve n p key dir env h) =
    match retrieveStart env p key dir h with
    | inr e => Err e
    | inl h1 => fst (S3Provider.waitRetrieved n (S3Provider.url p ("/state/" +:+ key)) env h1)
    end.
Proof.
  unfold S3Provider.Retrieve, retrieveStart. set (url := S3Provider.url p ("/state/" +:+ key)).
  set (doc := marshalS3 _). rewrite bind_fst, getState_run.
  destruct (stateAnswer env url h) as [resp|e]; [|done].
  destruct (reply_Body resp) as [response|e]; [|done].
  set (h1 := h ++ _). case_decide as Hd; case_decide as Hd'; try done; [|by rewrite ret_bind].
  unfold httpCall. set (get := ctl_http (env_ctl env) h1 "GET" _ _).
  assert ((r ← call (λ env h, env.(env_ctl).(ctl_http) h "GET" (S3Provider.url p "/s3") (Some doc))
             (EvHTTP "GET" (S3Provider.url p "/s3") (Some doc)); orErr r) env h1
          = (match get with inl r => Ok r | inr e => Err e end,
             [EvHTTP "GET" (S3Provider.url p "/s3") (Some doc) get])) as E
    by (unfold call, orErr, errM; unM; fold get; by destruct get).
  destruct get as [get|e].
  - rewrite bind_fst, (bind_Ok _ _ _ _ _ _ E). cbn [fst snd].
    destruct (reply_Body get) as [body|e]; cbn [orErr]; [|done].
    rewrite ret_bind. cbn [fst snd]. by rewrite app_nil_r.
  - by rewrite bind_fst, (bind_Err _ _ _ _ _ _ E).
Qed.

(** Once the side-car has accepted a restoration, or had one running already,
    the first answer that is an error, or says completed or failed, decides the
    outcome of [Retrieve]; until then it goes on asking, so that it never returns
    when no answer decides: the hour after which it means to give up counts from
    each request, and never passes. *)
Theorem Retrieve_waits (p : S3Provider.Provider) (key dir : string) (env : Env) (h h1 : history) :
  retrieveStart env p key dir h = inl h1 →
  let url := S3Provider.url p ("/state/" +:+ key) in
  let answer k := stateAnswer env url (turns (retrieveTurn env url) k h1 ++ [EvSleep]) in
  let run n := fst (S3Provider.Retrieve n p key dir env h) in
  (∀ n o, o ≠ OutOfFuel → run n = o ↔
     ∃ k, (k < n)%nat ∧ (∀ j, (j < k)%nat → verdict (answer j) = None) ∧ verdict (answer k) = Some o) ∧
  (∀ n, run n = OutOfFuel ↔ ∀ k, (k < n)%nat → verdict (answer k) = None).
Proof.
  intros Hstart url answer run.
  assert (∀ n, run n = fst (S3Provider.waitRetrieved n url env h1)) as Hrun
    by (intros n; unfold run; by rewrite Retrieve_fst, Hstart).
  assert (∀ k, verdict (answer k) ≠ Some OutOfFuel) as Hfuel.
  { intros k. unfold verdict. destruct (answer k) as [resp|]; [destruct (reply_Body resp)|]; try done.
    by repeat case_decide. }
  pose proof (loop_spec (λ n h, fst (S3Provider.waitRetrieved n url env h)) (retrieveTurn env url)
    (λ h, verdict (stateAnswer env url (h ++ [EvSleep]))) (λ _, eq_refl) (waitRetrieved_loop url env)) as Hl.
  pose proof (loop_stops (λ n h, fst (S3Provider.waitRetrieved n url env h)) (retrieveTurn env url)
    (λ h, verdict (stateAnswer env url (h ++ [EvSleep]))) (waitRetrieved_loop url env)) as Hs.
  split.
  - intros n o Ho. rewrite Hrun. split; [|intros (k & Hk & Hj & E); by eapply Hs].
    intros E. destruct (Hl n h1) as [(k & o' & Hk & Hj & E' & E'')|[_ E']]; [|congruence].
    exists k. split_and!; [done..|]. by replace o with o' by congruence.
  - intros n. rewrite Hrun. split.
    + intros E. destruct (Hl n h1) as [(k & o' & Hk & Hj & E' & E'')|[Hj _]]; [|exact Hj].
      destruct (Hfuel k). unfold answer. by replace OutOfFuel with o' by congruence.
    + intros Hj. by apply (loop_runs (λ n h, fst (S3Provider.waitRetrieved n url env h)) (retrieveTurn env url)
        (λ h, verdict (stateAnswer env url (h ++ [EvSleep]))) (λ _, eq_refl) (waitRetrieved_loop url env)).
Qed.

(** ** Names of backups *)

(** The file a backup is stored under has the name of the backup, the time at
    which the copy was ready and the suffix .sql.gz, and nothing is stored when
    the copy fails.  Two backups of the same name whose copies were ready in
    different seconds do not overwrite each other. *)
Theorem Backup_file (bh : BackupHandler) (name : string) (env : Env) (h : history) :
  let '(o, t) := Backup bh name env h in
  let '(om, tm) := bh.(bh_method).(method_Backup) backupDir env h in
  let clock := env.(env_now) (h ++ tm) in
  let file := name +:+ "." +:+ Timestamps.format clock +:+ ".sql.gz" in
  match om with
  | Ok _ => (∀ f, o = Ok f → f = file) ∧
      (let '(os, ts) := bh.(bh_storage).(storage_Store) backupDir file env ((h ++ tm) ++ [EvNow]) in
       t = tm ++ EvNow :: ts ∧ (o = Ok file ↔ os = Ok tt)) ∧
      (0 ≤ clock < 253402300800 → ∀ clock', 0 ≤ clock' < 253402300800 →
         file = name +:+ "." +:+ Timestamps.format clock' +:+ ".sql.gz" → clock = clock')
  | _ => t = tm ∧ is_ok o = false
  end.
Proof.
  unfold Backup. destruct (method_Backup (bh_method bh) backupDir env h) as [om tm] eqn:Em.
  destruct om as [[]|e| |].
  2-4: unfold mbind at 1, M_bind at 1; rewrite Em; done.
  rewrite (bind_Ok _ _ _ _ _ _ Em). set (clock := env_now env (h ++ tm)).
  rewrite (bind_Ok _ _ _ _ clock [EvNow]) by done.
  set (file := name +:+ "." +:+ Timestamps.format clock +:+ ".sql.gz"). cbn [fst snd].
  unfold mbind at 1 2, M_bind at 1 2. fold file.
  destruct (storage_Store (bh_storage bh) backupDir file env ((h ++ tm) ++ [EvNow])) as [os ts] eqn:Es.
  split_and!.
  - destruct os; cbn; by intros f [= <-].
  - destruct os as [[]| | |]; cbn; rewrite ?app_nil_r; done.
  - rewrite bind_fst, Es. destruct os as [[]| | |]; cbn; split; done.
  - intros Hc clock' Hc' E. do 2 apply str_app_inv_head in E.
    apply str_app_inj_length in E as [E _]; [|by rewrite !Timestamps.format_length].
    by apply Timestamps.format_inj in E.
Qed.

(** ** Examples *)

Definition example_backup_pod : Pod := example_pod "a" Reader "10.0.0.1".

Definition example_mb : Mariabackup.MariaBackup :=
  Mariabackup.mkMariaBackup example_backup_pod "root" "secret".

Lemma mariabackup_steps_witness :
  fst (Mariabackup.Backup example_mb backupDir env_ok []) = Ok tt ∧
  (commands (snd (Mariabackup.Backup example_mb backupDir env_ok []))).*1
    !! 1%nat = Some ["mkdir"; "/var/backup/new"].
Proof.
  pose proof (mariabackup_steps example_mb backupDir
    (galeraContainer "mariadb:10.4.5" "u" "p" Reader) [] env_ok [] eq_refl) as Hs. cbv zeta in Hs.
  assert (fst (Mariabackup.Backup example_mb backupDir env_ok []) = Ok tt) as Eo by (vm_compute; reflexivity).
  split; [exact Eo|].
  destruct (Mariabackup.Backup example_mb backupDir env_ok []) as [o t] eqn:E.
  destruct (Mariabackup.Restore example_mb backupDir env_ok []) as [o' t'].
  cbn [fst snd] in *. subst o. destruct (proj1 Hs) as [[_ ->]|(? & ? & ? & e & _ & [=] & _)]. reflexivity.
Defined.

Definition example_s3 : S3StorageProvider := mkS3 "" "http://minio:9000" "backups" true (Some "s3").

Definition s3_creds : gmap string string :=
  <["accessKeyId" := "key"]> (<["secretAccessKey" := "secret"]> ∅).

Definition example_provider : S3Provider.Provider :=
  S3Provider.mkProvider example_backup_pod
    (mkS3Request "key" "secret" "" "" "http://minio:9000" "backups" "" false).

(** A side-car that answers every request in the same way *)
Definition answering (code : Z) (state : string) : Env :=
  env_with_controller env_ok.(env_galeraGet) env_ok.(env_revisionList) env_ok.(env_revisionAdopt)
    (ctl_with_http (λ _ _ _ _, inl (mkHttpReply code (inl (mkHttpResponse state "")))) ctl_ok) env_ok.

(** A backup that failed: the operator asks for ever. *)
Lemma Store_waits_witness :
  fst (S3Provider.Store 1 example_provider backupDir "b" (answering 200 "completed") []) = Ok tt ∧
  ∀ n, fst (S3Provider.Store n example_provider backupDir "b" (answering 200 "failed") []) = OutOfFuel.
Proof.
  split.
  - apply (proj1 (Store_waits example_provider backupDir "b" (answering 200 "completed") []
      (mkHttpReply 200 (inl (mkHttpResponse "completed" ""))) (mkHttpResponse "completed" "")
      eq_refl eq_refl) 1%nat). exists 0%nat. split; [lia|reflexivity].
  - intros n. apply (proj2 (Store_waits example_provider backupDir "b" (answering 200 "failed") []
      (mkHttpReply 200 (inl (mkHttpResponse "failed" ""))) (mkHttpResponse "failed" "")
      eq_refl eq_refl) n). intros k _. reflexivity.
Defined.

(** A restoration that hangs is waited for for ever. *)
Lemma Retrieve_waits_witness :
  fst (S3Provider.Retrieve 1 example_provider "b" restoreDir (answering 200 "failed") [])
    = Err (errorf "restore failed") ∧
  ∀ n, fst (S3Provider.Retrieve n example_provider "b" restoreDir (answering 200 "running") [])
         = OutOfFuel.
Proof.
  split.
  - refine (proj2 (proj1 (Retrieve_waits example_provider "b" restoreDir (answering 200 "failed") []
      _ eq_refl) 1%nat _ _) _); [discriminate|]. exists 0%nat. split_and!; [lia|lia|reflexivity].
  - intros n. refine (proj2 (proj2 (Retrieve_waits example_provider "b" restoreDir
      (answering 200 "running") [] _ eq_refl) n) _). intros k _. reflexivity.
Defined.

(** ** What the storage asks *)

Definition ev_storage (e : event) : Prop :=
  match e with EvHTTP _ _ _ _ | EvSleep => True | _ => False end.

Lemma waitRetrieved_emits n url : emits ev_storage (S3Provider.waitRetrieved n url).
Proof.
  induction n as [|n IH]; cbn [S3Provider.waitRetrieved]; [apply emits_pure|].
  unfold sleep, S3Provider.getState, httpCall. emits_tac; done.
Qed.

Lemma Retrieve_emits n p key dir : emits ev_storage (S3Provider.Retrieve n p key dir).
Proof.
  pose proof (waitRetrieved_emits n). unfold S3Provider.Retrieve, S3Provider.getState, httpCall.
  emits_tac; done.
Qed.

Lemma waitStored_emits n url : emits ev_storage (S3Provider.waitStored n url).
Proof.
  induction n as [|n IH]; cbn [S3Provider.waitStored]; [apply emits_pure|].
  unfold sleep, httpCall. apply emits_bind; [apply emits_attempt; emits_tac; done|].
  intros [resp|e]; [destruct (reply_Body resp); [case_decide|]|]; emits_tac; done.
Qed.

Lemma Store_emits n p dir key : emits ev_storage (S3Provider.Store n p dir key).
Proof. pose proof (waitStored_emits n). unfold S3Provider.Store, httpCall. emits_tac; done. Qed.

Lemma NewBackupHandlerNoneS3_emits `{ApiMachinery} n pod provider creds bh name :
  NewBackupHandlerNoneS3 n pod provider creds = Ok bh → emits ev_storage (Restore bh name).
Proof.
  unfold NewBackupHandlerNoneS3. destruct (S3Provider.NewProvider provider creds pod) as [p|e| |]; try done.
  intros [= <-]. unfold Restore. cbn. apply emits_bind; [apply Retrieve_emits|intros _; apply emits_ret].
Qed.
