(* ===== verification/Restore.v ===== *)
(** * Restoration of a cluster

    Models [galera_restore_control.go].  The pods of the cluster copy the backup
    in goroutines that [HandleGaleraRestore] waits for; they run here one after the
    other, in the arbitrary order in which they end.  The goroutines that delete the
    pods and the claims are not waited for: [HandleGaleraRestore] returns them, as
    computations that run at any later time, in any order, and their errors are not
    used.  [HandleGaleraRestore] itself runs in a goroutine of [syncGalera], where the
    model records [EvRestore] with its arguments. *)
From S2P Require Import Prelude Types BackupTypes Objects Names PodLib Kube Utils Ownership Storage.

Section restore.
Context `{ApiMachinery} `{RetryLib}.

Definition getRestoreS3Creds (galera : Galera) : M (gmap string string) :=
  restore ← pureM (deref galera.(g_Spec).(spec_Restore));
  s3 ← pureM (deref restore.(rs_S3));
  name ← pureM (deref s3.(s3_CredentialsSecret));
  secretS3 ← secretGet galera.(g_Namespace) name;
  let mapCredS3 := secretS3.(secret_Data) in
  if decide (default "" (mapCredS3 !! "accessKeyId") = "" ∨
             default "" (mapCredS3 !! "secretAccessKey") = "")
  then errM (errorf ("all users and/or passwords are not set in secret " +:+ name))
  else mret mapCredS3.

(** The goroutine of a pod: what it sends on the channel of the failed pods *)
Definition restorePod (n : nat) (restore : RestoreSpec) (mapCredS3 : gmap string string) (pod : Pod)
    : M string :=
  restoreHandler ← attempt (pureM (NewBackupHandlerNoneS3 n pod restore.(rs_S3) (Some mapCredS3)));
  match restoreHandler with
  | inr err => recordEvent "Restore Failed" err.(err_msg) false;; mret pod.(pod_Name)
  | inl restoreHandler =>
      err ← errOf (Restore restoreHandler restore.(rs_Name));
      match err with
      | Some err => recordEvent "Restore Failed" err.(err_msg) false;; mret pod.(pod_Name)
      | None => mret ""
      end
  end.

Fixpoint restorePods (n : nat) (restore : RestoreSpec) (mapCredS3 : gmap string string)
    (pods : list Pod) : M (list string) :=
  match pods with
  | [] => mret []
  | pod :: pods' =>
      name ← restorePod n restore mapCredS3 pod;
      names ← restorePods n restore mapCredS3 pods';
      mret (name :: names)
  end.

(** The pods of the names sent on the channel *)
Definition failedPods (pods : list Pod) (failedPodNames : list string) : list Pod :=
  omap (λ failedPodName, last (filter (λ pod, failedPodName = pod.(pod_Name)) pods)) failedPodNames.

(** What [go retry.RetryOnConflict] runs: the error is lost. *)
Definition goRetry (once : M unit) : M unit :=
  RetryOnConflict (λ _ : unit, err ← errOf once; mret (err, tt)) tt;;
  mret tt.

(** The goroutine of a pod whose copy failed: the claim is looked up in the lister
    of the pods. *)
Definition deleteFailedClaim (galera : Galera) (pod : Pod) : M unit :=
  let claimName := getPersistentVolumeClaimName galera.(g_Name) (getPodSuffix pod.(pod_Name)) in
  goRetry (claimUpdated ← podGet galera.(g_Namespace) claimName;
           claimDelete galera.(g_Namespace) claimUpdated.(pod_Name)).

(** The goroutine of a pod that the lister has *)
Definition deletePodLater (galera : Galera) (podName : string) : M unit :=
  goRetry (podUpdated ← podGet galera.(g_Namespace) podName;
           podDelete galera.(g_Namespace) podUpdated.(pod_Name)).

(** A pod is looked up, then its goroutine is started, when there is one. *)
Definition deleteRestoredPod (galera : Galera) (pod : Pod) : M (option (M unit)) :=
  podUpdated ← attempt (podGet galera.(g_Namespace) pod.(pod_Name));
  match podUpdated with
  | inr _ => mret None
  | inl podUpdated => mret (Some (deletePodLater galera podUpdated.(pod_Name)))
  end.

Fixpoint deleteRestoredPods (galera : Galera) (pods : list Pod) : M (list (M unit)) :=
  match pods with
  | [] => mret []
  | pod :: pods' =>
      go ← deleteRestoredPod galera pod;
      gos ← deleteRestoredPods galera pods';
      mret (option_list go ++ gos)
  end.

(** The result holds the goroutines that are still to run when it returns. *)
Definition HandleGaleraRestore (n : nat) (galera : Galera) (pods : list Pod)
    (mapCredGalera : gmap string string) : M (list (M unit)) :=
  restore ← pureM (deref galera.(g_Spec).(spec_Restore));
  if decide (restore.(rs_StorageProviderType) = BackupProviderTypeS3) then
    mapCredS3 ← attempt (getRestoreS3Creds galera);
    match mapCredS3 with
    | inr err => fatal ("impossible to get S3 credentials : " +:+ err.(err_msg))
    | inl mapCredS3 =>
        order ← mapOrder;
        failedPodNames ← restorePods n restore mapCredS3 (shuffle order pods);
        gos ← deleteRestoredPods galera pods;
        mret ((deleteFailedClaim galera <$> failedPods pods failedPodNames) ++ gos)
    end
  else fatal ("unknown StorageProviderType: " +:+ restore.(rs_StorageProviderType)).
End restore.

(** ** What a restoration deletes *)

(** What a computation adds to the trace in a given environment *)
Definition emitsIn {A} (env : Env) (P : event → Prop) (m : M A) : Prop :=
  ∀ h, Forall P (snd (m env h)).

Lemma emitsIn_emits {A} env P (m : M A) : emits P m → emitsIn env P m.
Proof. intros Hm h. apply Hm. Qed.

Lemma emitsIn_bind {A B} env P (m : M A) (f : A → M B) :
  emitsIn env P m → (∀ a h t, m env h = (Ok a, t) → emitsIn env P (f a)) → emitsIn env P (m ≫= f).
Proof.
  intros Hm Hf h. destruct ((m ≫= f) env h) as [o t] eqn:E. cbn [snd].
  apply bind_inv in E as [(a & t1 & t2 & E1 & E2 & ->)|(_ & o' & E & _)].
  - apply Forall_app. split; [specialize (Hm h); by rewrite E1 in Hm|].
    specialize (Hf a h t1 E1 (h ++ t1)). by rewrite E2 in Hf.
  - specialize (Hm h). by rewrite E in Hm.
Qed.

Lemma emitsIn_attempt {A} env P (m : M A) : emitsIn env P m → emitsIn env P (attempt m).
Proof. intros Hm h. specialize (Hm h). unfold attempt. by destruct (m env h) as [[] ?]. Qed.

Lemma emitsIn_retry `{RetryLaws} {S} env P (f : S → M (option error * S)) s :
  (∀ s, emitsIn env P (f s)) → emitsIn env P (RetryOnConflict f s).
Proof.
  intros Hf h. induction (RetryOnConflict_runs f s env h) as [s env h o t E|s env h e s1 t1 o t2 E _ _ IH].
  - specialize (Hf s h). by rewrite E in Hf.
  - apply Forall_app. split; [specialize (Hf s h); by rewrite E in Hf|]. by apply IH.
Qed.

(** The calls of the goroutines that copy *)
Definition ev_copy (e : event) : Prop :=
  match e with EvHTTP _ _ _ _ | EvSleep | EvRecord _ _ _ | EvMapOrder | EvGet _ _ _ | EvFatal _ => True
  | _ => False end.

Section deletes.
Context `{ApiMachinery} `{RetryLaws}.

Lemma restorePod_emits n restore creds pod : emits ev_copy (restorePod n restore creds pod).
Proof.
  unfold restorePod. apply emits_bind_ok; [apply emits_attempt, emits_pure|].
  intros [bh|e] env h t E; cbv beta.
  - unfold attempt, pureM in E. destruct (NewBackupHandlerNoneS3 _ _ _ _) as [bh'| | |] eqn:Eb; try done.
    injection E as -> <-. rewrite app_nil_r.
    assert (emits ev_copy (Restore bh restore.(rs_Name))) as Hr.
    { eapply emits_impl; [by eapply NewBackupHandlerNoneS3_emits|]. by intros []. }
    revert env h. as_emits. unfold recordEvent.
    apply emits_bind; [by apply emits_errOf|]. intros [e|]; [|apply emits_ret].
    apply emits_bind; [apply emits_call; done|intros; apply emits_ret].
  - clear E. generalize (h ++ t). clear h. revert env. as_emits. unfold recordEvent.
    apply emits_bind; [apply emits_call; done|intros; apply emits_ret].
Qed.

Lemma restorePods_emits n restore creds pods : emits ev_copy (restorePods n restore creds pods).
Proof.
  induction pods as [|pod pods IH]; cbn [restorePods]; [apply emits_ret|].
  pose proof (restorePod_emits n restore creds pod). emits_tac.
Qed.

(** The attempts of a goroutine that deletes *)
Lemma goRetry_emitsIn env P (once : M unit) : emitsIn env P once → emitsIn env P (goRetry once).
Proof.
  intros Ho. apply emitsIn_bind; [|intros; apply emitsIn_emits, emits_ret].
  apply emitsIn_retry. intros _. apply emitsIn_bind; [|intros; apply emitsIn_emits, emits_ret].
  apply emitsIn_bind; [by apply emitsIn_attempt|intros; apply emitsIn_emits, emits_ret].
Qed.

Lemma errOf_trace (m : M unit) env h : snd (errOf m env h) = snd (m env h).
Proof.
  unfold errOf, attempt, mbind, M_bind, mret, M_ret.
  by destruct (m env h) as [[[]|e| |] t]; cbn; rewrite ?app_nil_r.
Qed.

(** The function of a goroutine runs at least once. *)
Lemma goRetry_once (once : M unit) env h :
  ∃ t, snd (goRetry once env h) = snd (once env h) ++ t.
Proof.
  unfold goRetry. set (f := λ _ : unit, err ← errOf once; mret (err, tt)).
  assert (∀ h, snd (f tt env h) = snd (once env h)) as Hf.
  { intros h'. unfold f. rewrite <- (errOf_trace once). unfold mbind, M_bind, mret, M_ret.
    by destruct (errOf once env h') as [[| | |] t]; cbn; rewrite ?app_nil_r. }
  assert (∃ t, snd (RetryOnConflict f tt env h) = snd (once env h) ++ t) as [t Ht].
  { specialize (Hf h). pose proof (RetryOnConflict_runs f tt env h) as Hr. revert Hr.
    generalize (fst (RetryOnConflict f tt env h)) (snd (RetryOnConflict f tt env h)). intros o t Hr.
    inversion Hr as [? ? ? ? ? E|? ? ? e s1 t1 ? t2 E]; subst; rewrite E in Hf; cbn in Hf; subst.
    - exists []. by rewrite app_nil_r.
    - by exists t2. }
  exists (t ++ snd (match fst (RetryOnConflict f tt env h) with
                    | Ok _ => (mret tt : M unit) env (h ++ snd (RetryOnConflict f tt env h))
                    | _ => (Panic, [])
                    end)).
  unfold mbind, M_bind, mret, M_ret. destruct (RetryOnConflict f tt env h) as [[| | |] t'];
    cbn in *; subst; by rewrite ?app_nil_r.
Qed.

Lemma podGet_run env ns name h :
  podGet ns name env h
  = (match env.(env_podGet) h ns name with inl p => Ok p | inr e => Err e end, [EvPodGet ns name]).
Proof. unfold podGet, call, orErr, errM. unM. by destruct (env_podGet env h ns name). Qed.

(** A lister returns the object of the name that is asked. *)
Definition names_pods (env : Env) : Prop :=
  ∀ h ns name p, env.(env_podGet) h ns name = inl p → p.(pod_Name) = name.

Definition dataClaim (galera : Galera) (pod : Pod) : string :=
  getPersistentVolumeClaimName galera.(g_Name) (getPodSuffix pod.(pod_Name)).

(** What the goroutines do: they look up, they delete pods of the cluster, and
    they delete a claim only when the lister has a pod of the claim's name. *)
Definition restore_delete (galera : Galera) (pods : list Pod) (env : Env) (e : event) : Prop :=
  match e with
  | EvPodGet _ _ => True
  | EvPodDelete ns name _ => ns = galera.(g_Namespace) ∧ name ∈ pod_Name <$> pods
  | EvClaimDelete ns name _ =>
      ns = galera.(g_Namespace) ∧
      ∃ pod p h, pod ∈ pods ∧ name = dataClaim galera pod ∧ env.(env_podGet) h ns name = inl p
  | _ => False
  end.

(** What [HandleGaleraRestore] itself does: it copies and looks up. *)
Definition ev_restore (e : event) : Prop :=
  match e with EvPodGet _ _ => True | _ => ev_copy e end.

Section goroutines.
Context (galera : Galera) (pods : list Pod).

Lemma deleteFailedClaim_emits pod env :
  names_pods env → pod ∈ pods → emitsIn env (restore_delete galera pods env) (deleteFailedClaim galera pod).
Proof.
  intros Hname Hpod. unfold deleteFailedClaim. cbv zeta. fold (dataClaim galera pod). apply goRetry_emitsIn.
  apply emitsIn_bind; [intros h; rewrite podGet_run; by repeat constructor|].
  intros p h t E. rewrite podGet_run in E. destruct (env_podGet env h _ (dataClaim galera pod)) eqn:El; [|done].
  injection E as -> _. unfold claimDelete. apply emitsIn_emits. emits_tac.
  cbn. rewrite (Hname _ _ _ _ El). eauto 10.
Qed.

Lemma deletePodLater_emits pod env :
  names_pods env → pod ∈ pods →
  emitsIn env (restore_delete galera pods env) (deletePodLater galera pod.(pod_Name)).
Proof.
  intros Hname Hpod. apply goRetry_emitsIn.
  apply emitsIn_bind; [intros h; rewrite podGet_run; by repeat constructor|].
  intros p h t E. rewrite podGet_run in E. destruct (env_podGet env h _ (pod_Name pod)) eqn:El; [|done].
  injection E as -> _. rewrite (Hname _ _ _ _ El). unfold podDelete. apply emitsIn_emits. emits_tac.
  cbn. split; [done|]. by apply list_elem_of_fmap_2.
Qed.

(** The goroutine of a pod that the lister still has asks for its deletion. *)
Lemma deletePodLater_deletes name env h p :
  names_pods env → env.(env_podGet) h galera.(g_Namespace) name = inl p →
  ∃ err t, snd (deletePodLater galera name env h)
           = EvPodGet galera.(g_Namespace) name :: EvPodDelete galera.(g_Namespace) name err :: t.
Proof.
  intros Hname El. unfold deletePodLater.
  match goal with |- context [goRetry ?m env h] =>
    destruct (goRetry_once m env h) as [t' Ht]; rewrite Ht end.
  unfold mbind at 1, M_bind at 1. rewrite podGet_run, El, (Hname _ _ _ _ El).
  unfold podDelete, call, retErr, errM. unM.
  destruct (env_podDelete _ _ _ _); eexists _, _; reflexivity.
Qed.

Lemma deleteRestoredPods_emits l : emits ev_restore (deleteRestoredPods galera l).
Proof.
  induction l as [|pod l IH]; cbn [deleteRestoredPods]; [apply emits_ret|].
  unfold deleteRestoredPod, podGet, orErr. emits_tac.
  apply emits_attempt. by emits_tac.
Qed.

(** Each pod is looked up, and has a goroutine when it is found. *)
Lemma deleteRestoredPods_spec l env h gos t :
  names_pods env → deleteRestoredPods galera l env h = (Ok gos, t) →
  (∀ go, go ∈ gos → ∃ pod, pod ∈ l ∧ go = deletePodLater galera pod.(pod_Name)) ∧
  ∀ pod, pod ∈ l → ∃ t1 t2, t = t1 ++ EvPodGet galera.(g_Namespace) pod.(pod_Name) :: t2 ∧
    ∀ p, env.(env_podGet) (h ++ t1) galera.(g_Namespace) pod.(pod_Name) = inl p →
         deletePodLater galera pod.(pod_Name) ∈ gos.
Proof.
  intros Hname. revert h gos t. induction l as [|pod l IH]; intros h gos t; cbn [deleteRestoredPods].
  { intros [= <- <-]. split; set_solver. }
  intros (go & t1 & t2 & E1 & (gos' & t3 & t4 & E2 & [= <- <-] & ->)%bind_ok_inv & ->)%bind_ok_inv.
  rewrite app_nil_r. destruct (IH _ _ _ E2) as [IH1 IH2]. clear IH.
  assert (t1 = [EvPodGet (g_Namespace galera) (pod_Name pod)] ∧
          go = match env_podGet env h (g_Namespace galera) (pod_Name pod) with
               | inl _ => Some (deletePodLater galera (pod_Name pod)) | inr _ => None end) as [-> ->].
  { revert E1. unfold deleteRestoredPod, attempt. unM. rewrite podGet_run.
    destruct (env_podGet env h _ _) as [p|e] eqn:El; cbn; intros [= <- <-]; [|done].
    by rewrite (Hname _ _ _ _ El). }
  split.
  - intros go' [Hgo|(pod' & ? & ->)%IH1]%elem_of_app; [|set_solver].
    destruct (env_podGet env h _ _); cbn in Hgo; set_solver.
  - intros pod' [->|(t1 & t2 & -> & Hgo)%IH2]%elem_of_cons.
    + exists [], t3. split; [done|]. intros p. rewrite app_nil_r. intros ->. set_solver.
    + exists ([EvPodGet (g_Namespace galera) (pod_Name pod)] ++ t1), t2. split; [done|].
      intros p. rewrite app_assoc. intros Hp. apply elem_of_app. eauto.
Qed.
End goroutines.

Lemma failedPods_in pods names pod : pod ∈ failedPods pods names → pod ∈ pods.
Proof.
  unfold failedPods. intros (name & _ & Hl)%list_elem_of_omap.
  apply last_Some_elem_of, list_elem_of_filter in Hl. by destruct Hl.
Qed.

Lemma getRestoreS3Creds_emits g : emits ev_copy (getRestoreS3Creds g).
Proof. unfold getRestoreS3Creds, secretGet. emits_tac; done. Qed.

Lemma HandleGaleraRestore_emits n galera pods creds :
  emits ev_restore (HandleGaleraRestore n galera pods creds).
Proof.
  assert (∀ A (m : M A), emits ev_copy m → emits ev_restore m) as Hcopy
    by (intros A m Hm; eapply emits_impl; [exact Hm|]; by intros []).
  unfold HandleGaleraRestore, fatal, mapOrder.
  apply emits_bind; [apply emits_pure|intros restore]. case_decide; [|emits_tac; done].
  apply emits_bind; [apply emits_attempt, Hcopy, getRestoreS3Creds_emits|].
  intros [mapCredS3|err]; [|emits_tac; done].
  apply emits_bind; [emits_tac; done|intros order].
  apply emits_bind; [apply Hcopy, restorePods_emits|intros names].
  apply emits_bind; [apply deleteRestoredPods_emits|intros gos; apply emits_ret].
Qed.

(** The goroutines that are left: those of the claims of the failed copies, and
    those of the pods. *)
Lemma HandleGaleraRestore_gos n galera pods creds env h gos t :
  HandleGaleraRestore n galera pods creds env h = (Ok gos, t) →
  ∃ names gos' t1 t2, deleteRestoredPods galera pods env (h ++ t1) = (Ok gos', t2) ∧
    gos = (deleteFailedClaim galera <$> failedPods pods names) ++ gos' ∧ t = t1 ++ t2.
Proof.
  unfold HandleGaleraRestore. intros (restore & t1 & ? & _ & E & ->)%bind_ok_inv. case_decide.
  2:{ by apply bind_ok_inv in E as (? & ? & ? & _ & [=] & _). }
  apply bind_ok_inv in E as ([mapCredS3|err] & t2 & ? & _ & E & ->).
  2:{ by apply bind_ok_inv in E as (? & ? & ? & _ & [=] & _). }
  apply bind_ok_inv in E as (order & t3 & ? & _ & E & ->).
  apply bind_ok_inv in E as (names & t4 & ? & _ & E & ->).
  apply bind_ok_inv in E as (gos' & t5 & ? & E & [= <- <-] & ->).
  exists names, gos', (t1 ++ t2 ++ t3 ++ t4), t5. rewrite app_nil_r, !app_assoc in *. eauto.
Qed.

Lemma gos_emits n galera pods creds env h gos t go env' :
  names_pods env → HandleGaleraRestore n galera pods creds env h = (Ok gos, t) →
  go ∈ gos → names_pods env' → emitsIn env' (restore_delete galera pods env') go.
Proof.
  intros Hname (names & gos' & t1 & t2 & E & -> & ->)%HandleGaleraRestore_gos [Hin|Hin]%elem_of_app Hname'.
  - apply list_elem_of_fmap in Hin as (pod & -> & Hpod).
    apply deleteFailedClaim_emits; [done|]. by eapply failedPods_in.
  - destruct (deleteRestoredPods_spec galera pods _ _ _ _ Hname E) as [Hgo _].
    apply Hgo in Hin as (pod & Hpod & ->). by apply deletePodLater_emits.
Qed.

(** C26: a restoration deletes the pods of its cluster, those whose copy failed
    as well, but later: it deletes nothing itself, and the goroutines that it leaves
    behind only look up and delete.  Each pod is looked up, and when the lister has
    it there is a goroutine that asks for its deletion, if it runs while the lister
    still has the pod.  The claims of the pods whose copy failed are meant to be
    deleted too, but they are looked up among the pods: a goroutine deletes a claim
    only when there is a pod that has the name of the claim, so that the cluster
    starts again on the data of the failed copies. *)
Theorem HandleGaleraRestore_deletes (n : nat) (galera : Galera) (pods : list Pod)
    (creds : gmap string string) (env : Env) (h : history) :
  names_pods env →
  let '(o, t) := HandleGaleraRestore n galera pods creds env h in
  Forall ev_restore t ∧
  ∀ gos, o = Ok gos →
    (∀ go env' h', go ∈ gos → names_pods env' →
       Forall (restore_delete galera pods env') (snd (go env' h'))) ∧
    ∀ pod, pod ∈ pods →
      ∃ t1 t2, t = t1 ++ EvPodGet galera.(g_Namespace) pod.(pod_Name) :: t2 ∧
        ∀ p, env.(env_podGet) (h ++ t1) galera.(g_Namespace) pod.(pod_Name) = inl p →
          ∃ go, go ∈ gos ∧
            ∀ env' h' p', names_pods env' →
              env'.(env_podGet) h' galera.(g_Namespace) pod.(pod_Name) = inl p' →
              ∃ err t', snd (go env' h')
                = EvPodGet galera.(g_Namespace) pod.(pod_Name)
                  :: EvPodDelete galera.(g_Namespace) pod.(pod_Name) err :: t'.
Proof.
  intros Hname. destruct (HandleGaleraRestore n galera pods creds env h) as [o t] eqn:E. split.
  - eapply emits_run; [apply HandleGaleraRestore_emits|exact E].
  - intros gos ->. split.
    { intros go env' h' Hin Hname'. by apply (gos_emits _ _ _ _ _ _ _ _ _ _ Hname E Hin Hname'). }
    apply HandleGaleraRestore_gos in E as (names & gos' & t1 & t2 & E & -> & ->).
    destruct (deleteRestoredPods_spec galera pods _ _ _ _ Hname E) as [_ Hpods].
    intros pod Hpod. destruct (Hpods pod Hpod) as (t3 & t4 & -> & Hin).
    exists (t1 ++ t3), t4. rewrite <- app_assoc. split; [done|]. intros p Hp.
    rewrite app_assoc in Hp. exists (deletePodLater galera (pod_Name pod)).
    split; [apply elem_of_app; eauto|]. intros env' h' p' Hn' Hp'. by eapply deletePodLater_deletes.
Qed.

(** A secret that lacks a key of the storage, or an unknown storage, ends the
    whole operator, and with it the reconciliation of all the other clusters. *)
Theorem HandleGaleraRestore_fatal (n : nat) (galera : Galera) (env : Env) (pods : list Pod) (creds : gmap string string)
    (h : history) (restore : RestoreSpec) (s3 : S3StorageProvider) (name : string) :
  galera.(g_Spec).(spec_Restore) = Some restore →
  (restore.(rs_StorageProviderType) = BackupProviderTypeS3 →
   restore.(rs_S3) = Some s3 ∧ s3.(s3_CredentialsSecret) = Some name ∧
   ∀ s, env.(env_secretGet) h galera.(g_Namespace) name = inl s →
     default "" (s.(secret_Data) !! "accessKeyId") = "" ∨
     default "" (s.(secret_Data) !! "secretAccessKey") = "") →
  ∃ msg t, HandleGaleraRestore n galera pods creds env h = (Panic, t ++ [EvFatal msg]).
Proof using Type.
  intros Hr Hs. unfold HandleGaleraRestore. rewrite Hr. cbn [deref]. unfold pureM at 1.
  rewrite (bind_Ok _ _ _ _ restore []) by done. rewrite app_nil_r. cbn [fst snd app].
  case_decide as Ht; [|by eexists _, []].
  destruct (Hs Ht) as (H3 & Hn & Hd).
  assert (∃ e, attempt (getRestoreS3Creds galera) env h
            = (Ok (inr e), [EvGet "secret" galera.(g_Namespace) name])) as [e Ha].
  { unfold attempt, getRestoreS3Creds, secretGet, call, orErr, errM. rewrite Hr. cbn [deref].
    unM. rewrite H3. cbn. rewrite Hn. cbn. rewrite !app_nil_r.
    destruct (env_secretGet env h (g_Namespace galera) name) as [s|e] eqn:Es; cbn; [|by eexists].
    destruct (decide _) as [_|Hd']; cbn; [by eexists|]. destruct Hd'. by apply Hd. }
  rewrite (bind_Ok _ _ _ _ _ _ Ha). cbn [fst snd]. by eexists _, [_].
Qed.
End deletes.

(** ** Examples *)

#[local] Existing Instances RetryLib_steps RetryLaws_steps.

Definition with_Restore (r : RestoreSpec) (g : Galera) : Galera :=
  mkGalera g.(g_Name) g.(g_Namespace) g.(g_UID) g.(g_Labels) g.(g_Annotations) g.(g_Generation)
    g.(g_DeletionTimestamp)
    (mkSpec g.(g_Spec).(spec_Replicas) g.(g_Spec).(spec_Pod) g.(g_Spec).(spec_PersistentVolumeClaimSpec)
       g.(g_Spec).(spec_Special) (Some r) g.(g_Spec).(spec_RevisionHistoryLimit)) g.(g_Status).

Definition restored_galera : Galera :=
  with_Restore (mkRestore "b" BackupProviderTypeS3 (Some example_s3)) example_galera.

Definition find_pod (name : string) : Pod + error :=
  match find (λ p, bool_decide (p.(pod_Name) = name)) example_pods with
  | Some p => inl p
  | None => inr (mkError NotFound "pod")
  end.

Lemma find_pod_name name p : find_pod name = inl p → p.(pod_Name) = name.
Proof.
  unfold find_pod. destruct (find _ example_pods) as [p'|] eqn:E; [|done]. intros [= ->].
  apply find_some in E as [_ E]. by apply bool_decide_eq_true in E.
Qed.

(** The lister has the three pods; every copy fails. *)
Definition failing_copy (secret : gmap string string) : Env :=
  env_with_lookups (λ _ _ name, find_pod name) (λ _ _ _, inl (mkSecret secret))
    (answering 200 "failed").(env_ctl) env_ok.

Definition creds_without_keys : gmap string string := <["accessKeyId" := ""]> ∅.

Definition failed_restore : outcome (list (M unit)) * history :=
  HandleGaleraRestore 2 restored_galera example_pods ∅ (failing_copy s3_creds) [].

(** Three goroutines for the claims and three for the pods *)
Lemma HandleGaleraRestore_deletes_witness :
  (∃ gos, fst failed_restore = Ok gos ∧ length gos = 6%nat) ∧
  ∃ gos go err t, fst failed_restore = Ok gos ∧ go ∈ gos ∧
    snd (go (failing_copy s3_creds) []) = EvPodGet "ns" "gal-a" :: EvPodDelete "ns" "gal-a" err :: t.
Proof.
  assert (names_pods (failing_copy s3_creds)) as Hname by (intros h ns name p; apply find_pod_name).
  pose proof (HandleGaleraRestore_deletes 2 restored_galera example_pods ∅ (failing_copy s3_creds) [] Hname) as H.
  fold failed_restore in H.
  assert (∃ gos, fst failed_restore = Ok gos ∧ length gos = 6%nat) as Eo
    by (eexists; split; [vm_compute; reflexivity|reflexivity]).
  split; [exact Eo|]. destruct Eo as (gos & Eo & _). exists gos.
  destruct failed_restore as [o t]. cbn [fst] in Eo.
  destruct (proj2 (proj2 H gos Eo) (example_pod "a" RoleWriter "10.0.0.1") (list_elem_of_here _ _))
    as (t1 & t2 & _ & Hgo).
  destruct (Hgo (example_pod "a" RoleWriter "10.0.0.1") eq_refl) as (go & Hin & Hdel).
  destruct (Hdel (failing_copy s3_creds) [] _ Hname eq_refl) as (err & t' & Ht).
  exists go, err, t'. exact (conj Eo (conj Hin Ht)).
Defined.

Lemma HandleGaleraRestore_fatal_witness :
  ∃ msg t, HandleGaleraRestore 2 restored_galera example_pods ∅ (failing_copy creds_without_keys) []
             = (Panic, t ++ [EvFatal msg]).
Proof.
  refine (HandleGaleraRestore_fatal 2 restored_galera (failing_copy creds_without_keys) example_pods ∅ []
    (mkRestore "b" BackupProviderTypeS3 (Some example_s3)) example_s3 "s3" eq_refl _).
  intros _. split_and!; [reflexivity..|]. intros s [= <-]. left. reflexivity.
Defined.
