(* ===== verification/Operator.v ===== *)
(** * The operator: the controller with its control

    [defaultGaleraControl] as the control of [GaleraController], and what the
    two together promise: which Galeras a worker acts on, and which pods it may
    delete. *)
From S2P Require Import Prelude Types BackupTypes Objects Names PodLib Kube Utils PodControl Controls.
From S2P Require Import Upgrade Revisions Control Sync Phases Rounds Status Ownership Controller Restore.

(** ** A round deletes its own pods *)

(** A pod that is deleted is one of the given ones, in the given namespace. *)
Definition own (ns : string) (pods : list Pod) (e : event) : Prop :=
  match e with
  | EvPodDelete ns' name _ => ns' = ns ∧ name ∈ pod_Name <$> pods
  | EvRestore g pods' _ => g.(g_Namespace) = ns ∧ pods' = pods
  | _ => True
  end.

(** The pods of a classification *)
Definition member (p : Pod) (m : members) : Prop :=
  p ∈ m.(m_ready) ∨ p ∈ m.(m_unready) ∨ m.(m_special) = Some p.

Definition from (pods : list Pod) (m : members) : Prop := ∀ p, member p m → p ∈ pods.

Section own.
Context `{GaleraPodControlLaws} `{PodUtil} `{RetryLib} `{RevisionLib} `{Regexp}.
Context (gc : defaultGaleraControl) (gucc : realGaleraUpgradeConfigControl).
Context (ns : string) (pods : list Pod).

Lemma own_name pod : pod ∈ pods → pod.(pod_Name) ∈ pod_Name <$> pods.
Proof. intros. by apply list_elem_of_fmap_2. Qed.

Lemma own_ForceDeletePod g pod :
  g.(g_Namespace) = ns → pod ∈ pods → emits (own ns pods) (ForceDeletePod g pod).
Proof.
  intros Hns Hp. eapply emits_impl; [apply ForceDeletePod_emits|]. intros []; cbn; try done.
  intros [-> ->]. split; [done|by apply own_name].
Qed.

Lemma own_deletePodAndClaims g pod (m : M unit) :
  g.(g_Namespace) = ns → pod ∈ pods → emits (ev_deletePodAndClaims g.(g_Namespace) pod.(pod_Name)) m →
  emits (own ns pods) m.
Proof.
  intros Hns Hp Hm. eapply emits_impl; [exact Hm|]. intros []; cbn; try done.
  intros [-> ->]. split; [done|by apply own_name].
Qed.

Create HintDb own.
#[local] Hint Resolve own_ForceDeletePod own_deletePodAndClaims DeleteSyncedPod_emits
  DeleteSyncedPodForUpgrade_emits ForceDeletePodAndClaim_emits : own.

Ltac own_tac :=
  repeat first
    [ solve [eauto 4 with own]
    | progress unfold patch, setCondition, secretGet, storageClasses, configMapGet,
        upgradeConfigGet, upgradeRuleGet, GetNameDefaultStorageClass, recreatingFailedPod
    | progress emits_sm ].

Lemma own_setBackupWriters g l : emitsS (own ns pods) (setBackupWriters g l).
Proof. induction l; cbn [setBackupWriters]; own_tac. Qed.

Lemma own_removeWriterReader g l : emitsS (own ns pods) (removeWriterReader g l).
Proof. induction l; cbn [removeWriterReader]; own_tac. Qed.
#[local] Hint Resolve own_setBackupWriters own_removeWriterReader : own.

Lemma own_setLabels g l : emitsS (own ns pods) (setLabels g l).
Proof. unfold setLabels, setLabelsMany, setLabelsTwoNoWriter. own_tac. Qed.

Lemma own_setStatus g ready unready newImage :
  emitsS (own ns pods) (setStatusPhaseAndConditions g ready unready newImage).
Proof. unfold setStatusPhaseAndConditions, setFailed, setScaling. own_tac. Qed.

Lemma own_examineUnready g l cur next :
  g.(g_Namespace) = ns → l ⊆ pods → emitsS (own ns pods) (examineUnready g l cur next).
Proof.
  intros Hns. induction l as [|p l IH]; intros Hl; cbn [examineUnready]; [own_tac|].
  assert (p ∈ pods) by set_solver. assert (emitsS (own ns pods) (examineUnready g l cur next))
    by (apply IH; set_solver). own_tac.
Qed.

Lemma own_forceDeletePods g l :
  g.(g_Namespace) = ns → l ⊆ pods → emits (own ns pods) (forceDeletePods g l).
Proof.
  intros Hns. induction l as [|p l IH]; intros Hl; cbn [forceDeletePods]; [own_tac|].
  assert (p ∈ pods) by set_solver. assert (emits (own ns pods) (forceDeletePods g l))
    by (apply IH; set_solver). own_tac.
Qed.

Lemma own_checkMysqlUpgrade g l creds :
  g.(g_Namespace) = ns → l ⊆ pods → emits (own ns pods) (checkMysqlUpgrade g l creds).
Proof.
  intros Hns. induction l as [|p l IH]; intros Hl; cbn [checkMysqlUpgrade]; [own_tac|].
  assert (p ∈ pods) by set_solver. assert (emits (own ns pods) (checkMysqlUpgrade g l creds))
    by (apply IH; set_solver). unfold upgradeNode. own_tac.
Qed.

Lemma own_upgradeFirst g l next creds sc :
  g.(g_Namespace) = ns → l ⊆ pods → emitsS (own ns pods) (upgradeFirst g l next creds sc).
Proof.
  intros Hns. induction l as [|p l IH]; intros Hl; cbn [upgradeFirst]; [own_tac|].
  assert (p ∈ pods) by set_solver. assert (emitsS (own ns pods) (upgradeFirst g l next creds sc))
    by (apply IH; set_solver). own_tac.
Qed.

Lemma own_classifyRestore g rev l m :
  g.(g_Namespace) = ns → l ⊆ pods → emitsS (own ns pods) (classifyRestore g rev l m).
Proof.
  intros Hns. revert m. induction l as [|p l IH]; intros m Hl; cbn [classifyRestore]; [own_tac|].
  assert (p ∈ pods) by set_solver. assert (∀ m, emitsS (own ns pods) (classifyRestore g rev l m)) as Hl'
    by (intros; apply IH; set_solver). clear IH.
  apply emitsS_bind; [apply emitsS_modify|intros _]. case_decide.
  - apply emitsS_bind; [apply emitsS_modify|intros _; apply Hl'].
  - apply emitsS_bind; [apply emitsS_lift; eauto with own|intros _; apply emitsS_ret].
Qed.

Lemma own_unusedClaims g podSuffix backupSuffix sc claims l :
  emits (own ns pods) (unusedClaims g podSuffix backupSuffix sc claims l).
Proof. revert l. induction claims; intros l; cbn [unusedClaims]; own_tac. Qed.

Lemma own_scaleDown g l n cur next creds :
  g.(g_Namespace) = ns → l ⊆ pods → emitsS (own ns pods) (scaleDown g l n cur next creds).
Proof.
  intros Hns Hl. unfold scaleDown. case_decide; [|own_tac].
  destruct (surplusPod l) as [p|] eqn:Ep; [|own_tac].
  apply surplusPod_spec in Ep as [Hp _]. assert (p ∈ pods) by set_solver. own_tac.
Qed.

#[local] Hint Resolve own_examineUnready own_forceDeletePods own_checkMysqlUpgrade
  own_upgradeFirst own_classifyRestore own_unusedClaims own_scaleDown : own.

Lemma own_checkUnready g unready chosen cur next role addresses creds podSuffixes unused :
  g.(g_Namespace) = ns → unready ⊆ pods →
  emitsS (own ns pods) (checkUnreadyPodBeforeCreatingPod gc g unready chosen cur next role addresses
                          creds podSuffixes unused).
Proof. intros. unfold checkUnreadyPodBeforeCreatingPod, createPod, newPodName. own_tac. Qed.

Lemma own_consider g ready unready claims unused n cur next creds :
  g.(g_Namespace) = ns → ready ⊆ pods → unready ⊆ pods →
  emitsS (own ns pods) (considerPodAndClaimTermination g ready unready claims unused n cur next creds).
Proof. intros. unfold considerPodAndClaimTermination. own_tac. Qed.

Lemma own_special g next addresses creds m unused sc :
  g.(g_Namespace) = ns → from pods m →
  emits (own ns pods) (specialStep gc g next addresses creds m unused sc).
Proof.
  intros Hns Hm. unfold specialStep, manageSpecialNode, createSpecial, newPodName, upgradeNode.
  destruct (m_special m) as [p|] eqn:Ep; [|own_tac].
  assert (p ∈ pods) by (apply Hm; unfold member; auto). own_tac.
Qed.

#[local] Hint Resolve own_checkUnready own_consider own_special : own.

Lemma from_lists m : from pods m → m_ready m ⊆ pods ∧ m_unready m ⊆ pods.
Proof. intros Hm. split; intros p Hp; apply Hm; unfold member; auto. Qed.

Lemma own_growCluster g cur next addresses creds m unused :
  g.(g_Namespace) = ns → from pods m → emitsS (own ns pods) (growCluster gc g cur next addresses creds m unused).
Proof.
  intros Hns [_ Hu]%from_lists. unfold growCluster.
  apply emitsS_bind; [apply emitsS_getStatus|intros st]. by apply own_checkUnready.
Qed.

Lemma own_settleCluster g cur next addresses claims creds m unused sc :
  g.(g_Namespace) = ns → from pods m →
  emitsS (own ns pods) (settleCluster gc g cur next addresses claims creds m unused sc).
Proof.
  intros Hns Hm. destruct (from_lists m Hm) as [Hr Hu]. unfold settleCluster.
  apply emitsS_bind; [apply emitsS_lift, emits_pure|intros n].
  apply emitsS_bind; [by apply own_consider|intros _].
  apply emitsS_bind; [unfold deletePodForUpgrade; own_tac|intros []].
  - apply emitsS_ret.
  - by apply emitsS_lift, own_special.
Qed.

Lemma own_unused g a b claims sc :
  emits (own ns pods) (deleteNoMatchingClaimsAndListUnusedClaims g a b claims sc).
Proof. unfold deleteNoMatchingClaimsAndListUnusedClaims. own_tac. Qed.

Lemma own_actOnMembers cg ng cur next claims creds m :
  cg.(g_Namespace) = ns → ng.(g_Namespace) = ns → from pods m →
  emitsS (own ns pods) (actOnMembers gc cg ng cur next claims creds m).
Proof.
  intros Hc Hn Hm. pose proof (own_growCluster ng cur next) as Hg.
  pose proof (own_settleCluster ng cur next) as Hs. destruct (from_lists m Hm) as [Hr Hu].
  pose proof own_setLabels as Hl. pose proof own_setStatus as Hst.
  pose proof own_unused as Hun. pose proof own_checkMysqlUpgrade as Hmy.
  unfold actOnMembers, GetNameDefaultStorageClass, storageClasses.
  repeat first [ emits_step | apply emitsS_lift | apply Hl | apply Hst | apply Hun | apply emits_pure
               | apply emitsS_modify | apply emitsS_ret | solve [auto]
               | solve [unfold image, orErr, mapOrder; emits_sm] ].
Qed.

(** ** Where the members come from *)

Lemma classifyPod_from seen g cur next creds pod m st env h m' st' t :
  from seen m → classifyPod g cur next creds pod m st env h = (Ok (Some m'), st', t) →
  from (seen ++ [pod]) m'.
Proof.
  intros Hm (? & ? & ? & ? & _ & E & _)%SM_bind_ok_inv.
  assert (∀ m1, from seen m1 → from (seen ++ [pod]) m1) as Hweak
    by (intros m1 Hm1 p Hp; apply elem_of_app; auto).
  assert (from (seen ++ [pod]) (classifyUnready pod m)) as Hu.
  { intros p Hp. apply elem_of_app. rewrite list_elem_of_singleton. revert Hp.
    destruct (classifyUnready_placed pod m) as [[= Ea Eb Ec]|[[= Ea Eb Ec]|[[= Ea Eb Ec]|[= Ea Eb Ec]]]];
      unfold member; rewrite Ea, Eb, Ec, ?elem_of_app, ?list_elem_of_singleton;
      intros [?|[?|?]]; try (left; apply Hm; unfold member; by auto); destruct_or?; simplify_eq; auto;
      left; apply Hm; unfold member; auto. }
  destruct (isTerminating pod); [injection E as <- _; by apply Hweak|].
  apply SM_bind_ok_inv in E as (r & ? & ? & ? & E & E' & _).
  destruct r as [m1|]; [|discriminate E'].
  apply SM_bind_ok_inv in E' as (? & ? & ? & ? & _ & E' & _). injection E' as <- _.
  enough (from (seen ++ [pod]) m1) as Hp by exact Hp.
  destruct (isRunningAndReady pod); [|by injection E as <- _].
  apply SM_bind_ok_inv in E as (primary & ? & ? & ? & _ & E & _).
  destruct (primary : bool); [|by injection E as <- _].
  apply SM_bind_ok_inv in E as ([[added m2]|] & ? & ? & ? & E2 & E & _); [|discriminate E].
  apply SM_bind_ok_inv in E as ([[added' m3]|] & ? & ? & ? & E3 & E & _); [|discriminate E].
  injection E as <- _. apply primaryRole_placed in E2. apply primaryBackup_placed in E3 as (Hr & Hu' & Hs & _).
  assert (from (seen ++ [pod]) m2) as Hfrom2.
  { destruct E2 as [-> |(_ & -> & _)]; [by apply Hweak|]. intros p. unfold member. cbn.
    rewrite elem_of_app, list_elem_of_singleton. intros [?|[?|[= ->]]]; [left..|by right];
      apply Hm; unfold member; auto. }
  assert (from (seen ++ [pod]) m3) as Hfrom3
    by (intros p; unfold member; rewrite Hr, Hu', Hs; apply Hfrom2).
  destruct (added' || _); [|done]. intros p. unfold member. cbn. rewrite elem_of_app, list_elem_of_singleton.
  intros [[?| ->]|?]; [|set_solver|]; apply Hfrom3; unfold member; tauto.
Qed.

Lemma classify_from g cur next creds l seen m st env h m' st' t :
  from seen m → classify g cur next creds l m st env h = (Ok (Some m'), st', t) →
  from (seen ++ l) m'.
Proof.
  revert seen m st h st' t. induction l as [|p l IH]; intros seen m st h st' t Hm; cbn [classify].
  { intros [= <- _ _]. by rewrite app_nil_r. }
  intros ([m1|] & st1 & ? & ? & E1 & E & _)%SM_bind_ok_inv; [|discriminate E].
  rewrite cons_middle, app_assoc. eapply IH; [|exact E]. by eapply classifyPod_from.
Qed.

Lemma classifyRestore_from g rev l seen m st env h m' st' t :
  from seen m → classifyRestore g rev l m st env h = (Ok (Some m'), st', t) → from (seen ++ l) m'.
Proof.
  revert seen m st h st' t. induction l as [|p l IH]; intros seen m st h st' t Hm; cbn [classifyRestore].
  { intros [= <- _ _]. by rewrite app_nil_r. }
  intros (? & ? & ? & ? & _ & E & _)%SM_bind_ok_inv. case_decide; [|by apply SM_bind_ok_inv in E as (? & ? & ? & ? & _ & [=] & _)].
  apply SM_bind_ok_inv in E as (? & ? & ? & ? & _ & E & _).
  rewrite cons_middle, app_assoc. eapply IH; [|exact E]. intros q. unfold member.
  destruct (isRunningAndReady p); cbn; rewrite !elem_of_app, !list_elem_of_singleton;
    intros [Hq|[Hq|Hq]]; destruct_or?; subst; auto; left; apply Hm; unfold member; auto.
Qed.

(** ** The whole round *)

#[local] Hint Resolve own_unused : own.

Lemma own_classifyPod g cur next creds p m :
  g.(g_Namespace) = ns → p ∈ pods → emitsS (own ns pods) (classifyPod g cur next creds p m).
Proof.
  intros Hns Hp. assert (emits (own ns pods) (ForceDeletePodAndClaim g p)) as Hdel by eauto with own.
  assert (∀ m, emitsS (own ns pods) (primaryRole g p m)) as Hrole.
  { intros m1. unfold primaryRole, patch. emits_sm. }
  assert (∀ a m, emitsS (own ns pods) (primaryBackup g p a m)) as Hbackup.
  { intros a m1. unfold primaryBackup. emits_sm. }
  unfold classifyPod, classifyPrimary.
  repeat first [ emits_step | apply Hrole | apply Hbackup | apply emitsS_ret | apply emitsS_modify
               | apply emitsS_lift; op_emits ].
Qed.

Lemma own_classify g cur next creds l m :
  g.(g_Namespace) = ns → l ⊆ pods → emitsS (own ns pods) (classify g cur next creds l m).
Proof.
  intros Hns. revert m. induction l as [|p l IH]; intros m Hl; cbn [classify]; [apply emitsS_ret|].
  apply emitsS_bind; [apply own_classifyPod; set_solver|intros []; [|apply emitsS_ret]].
  apply IH. set_solver.
Qed.

Lemma emitsS_bind_ok {A B} P (m : SM A) (f : A → SM B) :
  emitsS P m → (∀ a st env h st' t, m st env h = (Ok a, st', t) → emitsS P (f a)) →
  emitsS P (m ≫= f).
Proof.
  intros Hm Hf st env h. destruct ((m ≫= f) st env h) as [[o st'] t] eqn:E. cbn [snd].
  apply SM_bind_inv in E as [(a & st1 & t1 & t2 & E1 & E2 & ->)|(_ & o' & E & _)].
  - apply Forall_app. split; [by eapply emitsS_run|]. eapply emitsS_run, E2. by eapply Hf.
  - by eapply emitsS_run.
Qed.

Lemma from_noMembers l : from l noMembers.
Proof. intros p [[]%elem_of_nil|[[]%elem_of_nil|[=]]]. Qed.

Lemma own_runGalera cg ng cur next claims creds :
  cg.(g_Namespace) = ns → ng.(g_Namespace) = ns →
  emitsS (own ns pods) (runGalera gc cg ng cur next pods claims creds).
Proof.
  intros Hc Hn. unfold runGalera. destruct (podWithoutClaims pods claims) as [p|] eqn:Ep.
  - apply emitsS_lift, own_ForceDeletePod; [done|]. unfold podWithoutClaims in Ep.
    apply head_Some_elem_of, list_elem_of_filter in Ep. by destruct Ep.
  - apply emitsS_bind_ok; [by apply own_classify|]. intros [m|] st env h st' t E; [|apply emitsS_ret].
    apply own_actOnMembers; [done..|].
    by apply (classify_from _ _ _ _ _ []) in E; [|apply from_noMembers].
Qed.

Lemma own_scheduleGaleraRestore g rev claims creds :
  g.(g_Namespace) = ns → emitsS (own ns pods) (scheduleGaleraRestore gc g rev pods claims creds).
Proof.
  intros Hns. unfold scheduleGaleraRestore.
  apply emitsS_bind_ok; [by apply own_classifyRestore|]. intros [m|] st env h st' t E; [|apply emitsS_ret].
  apply (classifyRestore_from _ _ _ []) in E; [|apply from_noMembers].
  destruct (from_lists m E) as [Hr Hu]. unfold GetNameDefaultStorageClass, storageClasses.
  repeat first [ emits_step | apply own_unused | apply emits_pure | apply emitsS_modify
               | apply emitsS_ret | by apply own_checkUnready | by apply own_consider
               | apply emitsS_lift | unfold orErr ]; eauto with emits; done.
Qed.

Lemma own_phaseStep cg ng cur next claims creds :
  cg.(g_Namespace) = ns → ng.(g_Namespace) = ns →
  emitsS (own ns pods) (phaseStep gc cg ng cur next pods claims creds).
Proof.
  intros Hc Hn. unfold phaseStep, firstPhase, scheduleRestorePhase, copyRestorePhase, setCondition,
    now, metric, spawnRestore.
  repeat first [ emits_step | by apply own_runGalera | by apply own_scheduleGaleraRestore
               | apply emitsS_modify | apply emitsS_getStatus | apply emitsS_ret
               | apply emitsS_lift | apply emits_pure | apply emits_err | exact I | by split ].
Qed.

Lemma own_syncGalera cg ng cur next coll claims :
  cg.(g_Namespace) = ns → ng.(g_Namespace) = ns →
  emits (own ns pods) (syncGalera gc gucc cg ng cur next coll pods claims).
Proof.
  intros Hc Hn. unfold syncGalera. apply emits_runStatus. unfold syncBody.
  destruct (g_DeletionTimestamp cg).
  { unfold metric. emits_tac; apply emitsS_lift, emits_call; done. }
  apply emitsS_bind; [apply emitsS_lift, emits_attempt; unfold GetGaleraCreds, secretGet; emits_tac; done|].
  intros [creds|]; [|emits_tac].
  apply emitsS_bind; [apply emitsS_modify|intros _].
  apply emitsS_bind_ok.
  - unfold chooseNext. emits_tac. apply emitsS_lift. eapply emits_impl; [apply CanUpgrade_emits|]. by intros [].
  - intros g st env h st' t E. apply own_phaseStep; [done|]. revert E. unfold chooseNext.
    intros (st1 & ? & ? & ? & _ & E & _)%SM_bind_ok_inv.
    destruct (IsUpgrading (Some st1)); [by injection E as <- _ _|].
    apply SM_bind_ok_inv in E as (? & ? & ? & ? & _ & E & _).
    apply SM_bind_ok_inv in E as (? & ? & ? & ? & _ & E & _).
    apply SM_bind_ok_inv in E as (can & ? & ? & ? & _ & E & _).
    injection E as <- _ _. by destruct can.
Qed.

End own.

(** ** The control of the controller *)

Definition NewDefaultGaleraControl `{GaleraPodControl} `{PodUtil} `{RetryLib} `{RevisionLib}
    `{Regexp} (gc : defaultGaleraControl) (gucc : realGaleraUpgradeConfigControl)
    : GaleraControlInterface := {|
  Controller.ListRevisions := Revisions.ListRevisions;
  Controller.SyncGalera := Sync.SyncGalera gc gucc;
  Controller.AdoptOrphanRevisions := Revisions.AdoptOrphanRevisions |}.

Section operator.
Context `{GaleraPodControlLaws} `{PodUtil} `{RetryLaws} `{RevisionLib} `{Regexp}.
Context (gcc : defaultGaleraControl) (gucc : realGaleraUpgradeConfigControl).

Lemma SyncGalera_own g pods claims :
  emits (own g.(g_Namespace) pods) (Sync.SyncGalera gcc gucc g pods claims).
Proof.
  apply SyncGalera_emits; [by intros []|].
  intros cg ng cur next coll env h (_ & _ & _ & Hc & _) (_ & _ & _ & Hn & _). split.
  - by apply own_syncGalera.
  - intros st t _. eapply emits_impl; [apply publish_emits|]. by intros [].
Qed.

Lemma SyncGalera_off_queue g pods claims : emits off_queue (Sync.SyncGalera gcc gucc g pods claims).
Proof.
  apply SyncGalera_emits; [by intros []|]. intros cg ng cur next coll env h _ _. split.
  - eapply Forall_impl; [apply syncGalera_round|]. by intros [].
  - intros st t _. eapply emits_impl; [apply publish_emits|]. by intros [].
Qed.

Lemma AdoptOrphanRevisions_emits g revisions :
  emits (λ e, ∃ name, e = EvRevisionAdopt name) (Revisions.AdoptOrphanRevisions g revisions).
Proof. induction revisions; cbn; unfold revisionAdopt; emits_tac; eauto. Qed.

Context `{RefManagerLaws} `{!ApiMachineryLaws}.

#[local] Instance control : GaleraControlInterface := NewDefaultGaleraControl gcc gucc.

(** Before the control: only reads, and patches of owners *)
Definition before_sync (e : event) : Prop :=
  match e with
  | EvGaleraGet _ _ | EvList _ _ | EvGaleraLive _ _ _ | EvClaimOwner _ _ _ _ | EvPodOwner _ _ _ _
  | EvRevisionList | EvRevisionAdopt _ => True
  | _ => False
  end.

Lemma operator_inv gc key env h o t :
  syncHandler gc key env h = (o, t) →
  Forall before_sync t ∨ reconciled before_sync gc key env h o t.
Proof.
  apply syncHandler_inv; try done.
  - intros g. cbn. unfold Revisions.ListRevisions, revisionList. by emits_tac.
  - intros g l. eapply emits_impl; [apply AdoptOrphanRevisions_emits|]. by intros e [name ->].
Qed.

Lemma operator_off_queue gc key : emits off_queue (syncHandler gc key).
Proof.
  intros env h. destruct (syncHandler gc key env h) as [o t] eqn:E.
  assert (∀ l, Forall before_sync l → Forall off_queue l) as Hoff
    by (intros l Hl; eapply Forall_impl; [exact Hl|]; by intros []).
  apply operator_inv in E as [E|(? & ? & g & sel & pods & claims & t0 & t1 & t2 & t3 & E)]; cbn; [auto|].
  destruct E as (_ & _ & _ & _ & _ & _ & _ & E & -> & H0' & H1' & H2'). rewrite !Forall_app.
  split_and!; auto. eapply emits_run; [|exact E]. apply SyncGalera_off_queue.
Qed.

(** The pods of a round were listed, and claimed *)
Definition claimed (gc : GaleraController) (key : string) (env : Env) (h : history) (g : Galera)
    (pods : list Pod) : Prop :=
  let t := snd (syncHandler gc key env h) in
  let ns := g.(g_Namespace) in
  ∃ listed t1 t2,
    t = t1 ++ EvList "pod" ns :: t2 ∧
    env.(env_ctl).(ctl_podList) (h ++ t1) ns = inl listed ∧
    ∀ pod, pod ∈ pods →
      pod ∈ listed ∧
      selects (labelsForGalera g.(g_Name) ns) (default ∅ pod.(pod_Labels)) ∧
      isPodMemberOf g.(g_Name) pod.(pod_Name) = true ∧
      (controlled_by g pod ∨
       orphaned pod ∧ g.(g_DeletionTimestamp) = false ∧
       ∃ data, EvPodOwner pod.(pod_Namespace) pod.(pod_Name) data None ∈ t).

Lemma operator_acts gc key env h e :
  e ∈ snd (syncHandler gc key env h) → ¬ before_sync e →
  ∃ namespace gname g pods,
    SplitMetaNamespaceKey key = inl (namespace, gname) ∧
    env.(env_galeraGet) h namespace gname = inl g ∧ managed gc g = true ∧
    IsFailed (Some g.(g_Status)) = false ∧
    own g.(g_Namespace) pods e ∧ claimed gc key env h g pods.
Proof.
  unfold claimed. destruct (syncHandler gc key env h) as [o t] eqn:E. cbn [snd]. intros Hin He.
  apply operator_inv in E as [E|(nsp & gname & g & sel & pods & claims & t0 & t1 & t2 & t3 & E)].
  { rewrite Forall_forall in E. by apply E in Hin. }
  destruct E as (Hk & Hg & Hm & Hf & Hs & Hpods & _ & Hsync & -> & Hb0 & Hb1 & Hb2).
  rewrite !Forall_forall in *. apply elem_of_app in Hin as [Hin|Hin]; [by apply Hb0 in Hin|].
  apply elem_of_app in Hin as [Hin|Hin]; [by apply Hb1 in Hin|].
  apply elem_of_app in Hin as [Hin|Hin]; [by apply Hb2 in Hin|].
  pose proof (emits_run _ _ _ _ _ _ (SyncGalera_own g pods claims) Hsync) as Hown.
  rewrite Forall_forall in Hown. apply Hown in Hin. exists nsp, gname, g, pods. split_and!; [done..|].
  unfold getPodsForGalera, podList in Hpods.
  apply bind_ok_inv in Hpods as (l & ta & tb & El & Ec & ->).
  apply ClaimPods_claimed in Ec as [Hsub Hcl].
  assert (env.(env_ctl).(ctl_podList) (h ++ t0) (g_Namespace g) = inl l ∧ ta = [EvList "pod" (g_Namespace g)])
    as [El' ->].
  { revert El. unfold call, orErr, errM. unM. destruct (ctl_podList _ _ _); cbn; by intros [= -> <-]. }
  exists l, t0, (tb ++ t2 ++ t3). split_and!; [done..|]. intros pod Hpod.
  destruct (Hcl pod Hpod) as (Hsel & Hmem & Hor). split_and!; [by eapply elem_of_sublist| |done|].
  - unfold SelectorForGalera in Hs. apply selector_matches in Hs as [Hs _]. by apply Hs.
  - destruct Hor as [?|(? & ? & data & Hdata)]; [by left|right]. split_and!; [done..|]. exists data.
    set_solver.
Qed.

(** The calls of a restoration: those of [HandleGaleraRestore], and those of the
    goroutines that it leaves, each run at any time *)
Definition restoration_asks (galera : Galera) (pods : list Pod) (creds : gmap string string)
    (t : history) : Prop :=
  ∃ n env h, names_pods env ∧
    let '(o, t') := HandleGaleraRestore n galera pods creds env h in
    t = t' ∨
    ∃ gos go env' h', o = Ok gos ∧ go ∈ gos ∧ names_pods env' ∧ t = snd (go env' h').

(** The calls that an item of the queue leads to: those of its reconciliation,
    and those of a restoration that it starts, which goes on after it *)
Definition item_asks (gc : GaleraController) (key : string) (env : Env) (h t : history) : Prop :=
  t = snd (syncHandler gc key env h) ∨
  ∃ galera pods creds, EvRestore galera pods creds ∈ snd (syncHandler gc key env h) ∧
                       restoration_asks galera pods creds t.

Lemma restoration_own galera pods creds t ns name err :
  restoration_asks galera pods creds t → EvPodDelete ns name err ∈ t →
  ns = galera.(g_Namespace) ∧ name ∈ pod_Name <$> pods.
Proof.
  intros (n & env & h & Hname & Ht) Hin.
  destruct (HandleGaleraRestore n galera pods creds env h) as [o t'] eqn:E.
  destruct Ht as [->|(gos & go & env' & h' & -> & Hgo & Hname' & ->)].
  - apply (emits_run _ _ _ _ _ _ (HandleGaleraRestore_emits n galera pods creds)) in E.
    rewrite Forall_forall in E. by apply E in Hin.
  - pose proof (gos_emits _ _ _ _ _ _ _ _ _ _ Hname E Hgo Hname' h') as Hd.
    rewrite Forall_forall in Hd. by apply Hd in Hin.
Qed.

(** C5: the pods that the operator deletes are its own.  An item of the queue leads
    to the deletion of a pod, by its reconciliation or by the goroutines of a
    restoration that the reconciliation starts and that go on after it, only when it
    is the key of a Galera that the operator manages and that had not failed when it
    was looked up; the pod is in its namespace, was listed by the reconciliation, has
    the labels and the name of its pods, and is controlled by the Galera, or was an
    orphan that the API server let it adopt just before.  (The listers that a
    restoration reads return the pod of the name that is asked.) *)
Theorem operator_deletes_own (gc : GaleraController) (key : string) (env : Env) (h t : history)
    (ns name : string) (err : option error) :
  item_asks gc key env h t → EvPodDelete ns name err ∈ t →
  ∃ namespace gname g pod listed t1 t2,
    SplitMetaNamespaceKey key = inl (namespace, gname) ∧
    env.(env_galeraGet) h namespace gname = inl g ∧ managed gc g = true ∧
    IsFailed (Some g.(g_Status)) = false ∧
    ns = g.(g_Namespace) ∧ name = pod.(pod_Name) ∧
    snd (syncHandler gc key env h) = t1 ++ EvList "pod" ns :: t2 ∧
    env.(env_ctl).(ctl_podList) (h ++ t1) ns = inl listed ∧ pod ∈ listed ∧
    selects (labelsForGalera g.(g_Name) ns) (default ∅ pod.(pod_Labels)) ∧
    isPodMemberOf g.(g_Name) name = true ∧
    (controlled_by g pod ∨
     orphaned pod ∧ g.(g_DeletionTimestamp) = false ∧
     ∃ data, EvPodOwner pod.(pod_Namespace) name data None ∈ snd (syncHandler gc key env h)).
Proof.
  intros Hasks Hin.
  enough (∃ e, e ∈ snd (syncHandler gc key env h) ∧ ¬ before_sync e ∧
          ∀ ns' pods, own ns' pods e → ns = ns' ∧ name ∈ pod_Name <$> pods) as (e & He & Hb & Hown).
  { destruct (operator_acts gc key env h e He Hb)
      as (nsp & gname & g & pods & Hk & Hg & Hm & Hf & Ho & l & t1 & t2 & Ht & El & Hpods).
    apply Hown in Ho as [-> (pod & -> & Hpod)%list_elem_of_fmap].
    destruct (Hpods pod Hpod) as (Hl & Hsel & Hmem & Hor).
    exists nsp, gname, g, pod, l, t1, t2. by split_and!. }
  destruct Hasks as [->|(galera & pods & creds & He & Hr)].
  - eexists. split; [exact Hin|]. split; [by intros []|]. by intros ns' pods [-> ?].
  - eexists. split; [exact He|]. split; [by intros []|]. intros ns' pods' [<- ->].
    by eapply restoration_own.
Qed.

(** A reconciliation that does nothing: at most the Galera was looked up. *)
Definition idle (t : history) : Prop :=
  Forall (λ e, match e with EvGaleraGet _ _ => True | _ => False end) t.

Lemma syncHandler_idle gc key env h :
  (∀ namespace name g, SplitMetaNamespaceKey key = inl (namespace, name) →
     env.(env_galeraGet) h namespace name = inl g →
     managed gc g = false ∨ IsFailed (Some g.(g_Status)) = true) →
  idle (snd (syncHandler gc key env h)).
Proof.
  unfold syncHandler. destruct (SplitMetaNamespaceKey key) as [[namespace name]|]; [|constructor].
  intros Hg. specialize (Hg namespace name). unfold galeraGet, attempt, call, orErr, errM. unM.
  destruct (env_galeraGet env h namespace name) as [g|e]; cbn.
  - destruct (Hg g) as [Hm|Hf]; [done..| |].
    + rewrite Hm. by constructor.
    + destruct (managed gc g); [|by constructor]. cbn in Hf. cbn [negb]. rewrite Hf. by constructor.
  - case_decide; by constructor.
Qed.

(** The key of a cluster that has failed *)
Definition failed_key (env : Env) (h : history) (key : string) : Prop :=
  ∃ ns name g, SplitMetaNamespaceKey key = inl (ns, name) ∧
    env.(env_galeraGet) h ns name = inl g ∧ IsFailed (Some g.(g_Status)) = true.

Lemma failed_idle gc key env h : failed_key env h key → idle (snd (syncHandler gc key env h)).
Proof.
  intros (ns & name & g & Hk & Hg & Hf). apply syncHandler_idle. intros ns' name' g'.
  rewrite Hk. intros [= <- <-]. rewrite Hg. intros [= <-]. by right.
Qed.

(** C20: a cluster wide operator and an operator restricted to namespaces never
    act on the same cluster: as long as the annotations of a Galera are those both
    see, one of them only looks it up.  Nor does either operator act on a cluster
    that has failed: it only looks it up. *)
Theorem operators_disjoint (gc gc' : GaleraController) (key : string) (env env' : Env)
    (h h' : history) :
  gc.(clusterWide) ≠ gc'.(clusterWide) →
  (∀ ns name g g', env.(env_galeraGet) h ns name = inl g →
     env'.(env_galeraGet) h' ns name = inl g' → g.(g_Annotations) = g'.(g_Annotations)) →
  (idle (snd (syncHandler gc key env h)) ∨ idle (snd (syncHandler gc' key env' h'))) ∧
  (failed_key env h key → idle (snd (syncHandler gc key env h))) ∧
  (failed_key env' h' key → idle (snd (syncHandler gc' key env' h'))).
Proof.
  intros Hne Hsame. split; [|split; intros Hf; by apply failed_idle].
  destruct (SplitMetaNamespaceKey key) as [[ns name]|] eqn:Ek;
    [|left; apply syncHandler_idle; by rewrite Ek].
  destruct (env_galeraGet env h ns name) as [g|] eqn:Eg; last first.
  { left. apply syncHandler_idle. rewrite Ek. by intros ? ? g [= <- <-]; rewrite Eg. }
  destruct (env_galeraGet env' h' ns name) as [g'|] eqn:Eg'; last first.
  { right. apply syncHandler_idle. rewrite Ek. by intros ? ? g' [= <- <-]; rewrite Eg'. }
  specialize (Hsame _ _ _ _ Eg Eg'). destruct (managed gc g) eqn:Hm.
  - right. apply syncHandler_idle. rewrite Ek. intros ? ? ? [= <- <-]. rewrite Eg'. intros [= <-].
    left. revert Hm. unfold managed. rewrite <- Hsame. destruct (g_Annotations g !! _); 
      destruct (clusterWide gc), (clusterWide gc'); done.
  - left. apply syncHandler_idle. rewrite Ek. intros ? ? ? [= <- <-]. rewrite Eg. intros [= <-]. by left.
Qed.

(** What the history package refuses *)
Definition refuses_owned (env : Env) : Prop :=
  ∀ h cr, orphan cr = false → ∃ e, env.(env_revisionAdopt) h cr = inr e.

Lemma AdoptOrphanRevisions_blocked g l cr l' env h :
  refuses_owned env → orphan cr = false →
  ∃ e t, Revisions.AdoptOrphanRevisions g (l ++ cr :: l') env h = (Err e, t) ∧
         t `prefix_of` (EvRevisionAdopt ∘ cr_Name <$> l ++ [cr]).
Proof.
  intros Hrefuse Hcr. revert h. induction l as [|r l IH]; intros h; cbn.
  - destruct (Hrefuse h cr Hcr) as [e He]. exists e, [EvRevisionAdopt (cr_Name cr)]. split; [|done].
    unfold revisionAdopt, call, orErr, errM. unM. by rewrite He.
  - unfold revisionAdopt at 1, call, orErr, errM. unM.
    destruct (env_revisionAdopt env h r) as [r'|e]; cbn.
    + destruct (IH (h ++ [EvRevisionAdopt (cr_Name r)])) as (e & t & E & Hp). exists e.
      eexists. unM. rewrite E. split; [done|]. by apply prefix_cons.
    + exists e, [EvRevisionAdopt (cr_Name r)]. split; [done|]. apply prefix_cons, prefix_nil.
Qed.

Lemma first_owned revisions :
  existsb (negb ∘ orphan) revisions = true →
  ∃ l cr l', revisions = l ++ cr :: l' ∧ Forall (λ r, orphan r = true) l ∧ orphan cr = false.
Proof.
  induction revisions as [|r l IH]; [done|]. cbn. destruct (orphan r) eqn:Hr; cbn.
  - intros (l1 & cr & l2 & -> & Hl & Hcr)%IH. exists (r :: l1), cr, l2. split_and!; [done|by constructor|done].
  - intros _. by exists [], r, l.
Qed.

(** A revision that already has an owner cannot be adopted.  The controller
    asks for the adoption of all the revisions as soon as one is an orphan: when
    there are also revisions with an owner, the reconciliation ends with an error
    before it looks at the pods and the claims, and it does not adopt the orphans
    that come after the first revision with an owner. *)
Theorem adoption_blocked (gc : GaleraController) (key ns name : string) (g : Galera)
    (revisions : list ControllerRevision) (env : Env) (h : history) :
  refuses_owned env → SplitMetaNamespaceKey key = inl (ns, name) →
  env.(env_galeraGet) h ns name = inl g → managed gc g = true → IsFailed (Some g.(g_Status)) = false →
  (∀ h, env.(env_revisionList) h = inl revisions) →
  existsb orphan revisions = true → existsb (negb ∘ orphan) revisions = true →
  ∃ e live adopted l cr l',
    syncHandler gc key env h
      = (Err e, [EvGaleraGet ns name; EvRevisionList; EvGaleraLive g.(g_Namespace) g.(g_Name) live]
                ++ adopted) ∧
    revisions = l ++ cr :: l' ∧ Forall (λ r, orphan r = true) l ∧
    adopted `prefix_of` (EvRevisionAdopt ∘ cr_Name <$> l ++ [cr]).
Proof.
  intros Hrefuse Hk Hg Hm Hf Hrev Horph (l & cr & l' & Hl & HF & Hcr)%first_owned.
  unfold syncHandler. rewrite Hk.
  assert (attempt (galeraGet ns name) env h = (Ok (inl g), [EvGaleraGet ns name])) as Ha
    by (unfold galeraGet, attempt, call, orErr; unM; by rewrite Hg).
  rewrite (bind_Ok _ _ _ _ _ _ Ha), Hm, Hf. cbn [negb].
  set (h1 := h ++ [EvGaleraGet ns name]).
  set (live := env.(env_ctl).(ctl_galeraLive) (h1 ++ [EvRevisionList]) g.(g_Namespace) g.(g_Name)).
  enough (∃ e adopted, adoptOrphanRevisions g env h1
            = (Err e, [EvRevisionList; EvGaleraLive (g_Namespace g) (g_Name g) live] ++ adopted) ∧
            adopted `prefix_of` (EvRevisionAdopt ∘ cr_Name <$> l ++ [cr])) as (e & adopted & E & Hp).
  { exists e, live, adopted, l, cr, l'. split_and!; try done. unfold mbind, M_bind. by rewrite E. }
  unfold adoptOrphanRevisions. cbn [ListRevisions AdoptOrphanRevisions control NewDefaultGaleraControl].
  assert (Revisions.ListRevisions g env h1 = (Ok revisions, [EvRevisionList])) as Hlist
    by (unfold Revisions.ListRevisions, revisionList, call, orErr; unM; by rewrite Hrev).
  rewrite (bind_Ok _ _ _ _ _ _ Hlist), Horph.
  pose proof (freshGalera_inv g env (h1 ++ [EvRevisionList])) as [Ht Ho].
  destruct (freshGalera g env (h1 ++ [EvRevisionList])) as [o t] eqn:Ef. cbn in Ht, Ho. subst t.
  destruct o as [fresh|e| |]; try done.
  - destruct (AdoptOrphanRevisions_blocked g l cr l' env
      ((h1 ++ [EvRevisionList]) ++ [EvGaleraLive (g_Namespace g) (g_Name g) live]) Hrefuse Hcr)
      as (e & t & E & Hp). exists e, t. split; [|done]. rewrite Hl.
    rewrite (bind_Ok _ _ _ _ _ _ Ef). unfold mbind, M_bind.
    fold live. by rewrite E.
  - exists e, []. split; [|apply prefix_nil]. unfold mbind, M_bind. by rewrite Ef.
Qed.
End operator.

(** ** Examples *)

#[local] Existing Instances RetryLib_steps RetryLaws_steps NewRealGaleraPodControl
  realGaleraPodControl_laws examplePodUtil constantRevisionLib exampleRegexp.

Definition example_operator : GaleraControlInterface :=
  NewDefaultGaleraControl example_control example_gucc.

#[local] Existing Instance example_operator.

Definition namespaced : GaleraController := mkGaleraController false.

Definition running_galera : Galera := with_Status running_status example_galera.

(** The informers hold the running cluster and its three pods, which have no
    claims; the queue gives one key and is closed. *)
Definition listed_ctl : ControllerEnv := {|
  ctl_queueGet h := match h with [] => ItemKey "ns/gal" | _ => ItemQuit end;
  ctl_podList _ _ := inl example_pods;
  ctl_claimList _ _ := inl [];
  ctl_galeraList _ _ := inl [running_galera];
  ctl_galeraLive _ _ _ := inl running_galera;
  ctl_podOwner _ _ _ _ := None;
  ctl_claimOwner _ _ _ _ := None;
  ctl_backupGet _ _ _ := inr (mkError NotFound "backup");
  ctl_backupStatus _ _ := None;
  ctl_http _ _ _ _ := inr (errorf "http") |}.

Definition revision_of (owners : list OwnerReference) (name : string) : ControllerRevision :=
  mkRevision name None None owners "" 1.

Definition listed_env (revisions : list ControllerRevision) : Env :=
  env_with_controller (λ _ _ _, inl running_galera) (λ _, inl revisions)
    (λ _ cr, if orphan cr then inl cr else inr (errorf "attempt to adopt an owned revision"))
    listed_ctl env_ok.

Lemma operator_deletes_own_witness :
  EvPodDelete "ns" "gal-a" None ∈ snd (syncHandler namespaced "ns/gal" (listed_env []) []) ∧
  ∃ pod, pod.(pod_Name) = "gal-a" ∧ isPodMemberOf "gal" "gal-a" = true.
Proof.
  assert (EvPodDelete "ns" "gal-a" None ∈ snd (syncHandler namespaced "ns/gal" (listed_env []) [])) as Hin.
  { apply (list_elem_of_lookup_2 _ 7). vm_compute. reflexivity. }
  split; [exact Hin|].
  destruct (operator_deletes_own example_control example_gucc namespaced "ns/gal" (listed_env []) [] _
    "ns" "gal-a" None (or_introl eq_refl) Hin) as (nsp & gname & g & pod & l & t1 & t2 & Hk & Hg & _ & _ & _ & Hn & _ & _ & _ & _ & Hm & _).
  exists pod. injection Hg as <-. by split.
Defined.

Definition failed_galera : Galera :=
  with_Status (with_Phase GaleraPhaseFailed running_status) example_galera.

Definition failed_env : Env :=
  env_with_controller (λ _ _ _, inl failed_galera) (λ _, inl []) (λ _ cr, inl cr) listed_ctl env_ok.

Lemma operators_disjoint_witness :
  (idle (snd (syncHandler namespaced "ns/gal" (listed_env []) [])) ∨
   idle (snd (syncHandler (mkGaleraController true) "ns/gal" (listed_env []) []))) ∧
  idle (snd (syncHandler namespaced "ns/gal" failed_env [])).
Proof.
  split.
  2:{ refine (proj1 (proj2 (operators_disjoint example_control example_gucc namespaced
        (mkGaleraController true) "ns/gal" failed_env failed_env [] [] _ _)) _); [discriminate| |].
      - by intros ns name g g' [= <-] [= <-].
      - exists "ns", "gal", failed_galera. repeat split. }
  refine (proj1 (operators_disjoint example_control example_gucc namespaced (mkGaleraController true) "ns/gal"
    (listed_env []) (listed_env []) [] [] _ _)); [discriminate|].
  by intros ns name g g' [= <-] [= <-].
Defined.

(** A revision that is owned, listed before an orphan: the orphan stays one. *)
Definition mixed_revisions : list ControllerRevision :=
  [revision_of [AsOwner example_galera] "r1"; revision_of [] "r2"].

Lemma adoption_blocked_witness :
  refuses_owned (listed_env mixed_revisions) ∧
  ∃ e, fst (syncHandler namespaced "ns/gal" (listed_env mixed_revisions) []) = Err e.
Proof.
  assert (refuses_owned (listed_env mixed_revisions)) as Href by (intros h cr Ho; cbn; rewrite Ho; eauto).
  split; [exact Href|].
  destruct (adoption_blocked example_control example_gucc namespaced "ns/gal" "ns" "gal" running_galera
    mixed_revisions (listed_env mixed_revisions) [] Href eq_refl eq_refl eq_refl eq_refl
    (λ _, eq_refl) eq_refl eq_refl) as (e & live & ad & l & cr & l' & E & _).
  exists e. exact (f_equal fst E).
Defined.

Lemma runWorker_worked_witness :
  fst (runWorker 2 namespaced (listed_env []) []) = Ok tt ∧
  worked namespaced (listed_env []) [] (Ok tt) (snd (runWorker 2 namespaced (listed_env []) [])).
Proof.
  pose proof (runWorker_worked (operator_off_queue example_control example_gucc) namespaced 2 (listed_env []) []) as H.
  assert (fst (runWorker 2 namespaced (listed_env []) []) = Ok tt) as E by (vm_compute; reflexivity).
  split; [exact E|].
  destruct (runWorker 2 namespaced (listed_env []) []) as [o t]. cbn [fst snd] in *. subst o. exact H.
Defined.

Lemma handlers_wake_witness :
  let lister := (λ _ _, inl running_galera) in
  let listed := (λ _, inl [running_galera]) in
  concerns lister running_galera (example_pod "a" Reader "10.0.0.1") ∧
  wakes_exactly lister listed (listed_env []) addPod updatePod deletePod.
Proof.
  split; [by exists (AsOwner example_galera)|].
  exact (proj1 (handlers_wake (λ _ _, inl running_galera) (λ _, inl [running_galera]) (listed_env [])
    (λ _ _ _, eq_refl) (λ _ _, eq_refl) (λ _ _ _ _ _ _, mk_is_Some _ _ eq_refl))).
Defined.

(** An orphan that has the name and the labels of a claim of the cluster *)
Definition orphan_claim : PersistentVolumeClaim :=
  mkClaim "pvc-gal-a" "ns" "" "" (Some (labelsForGalera "gal" "ns")) [] false example_pvc.

Definition orphan_env : Env :=
  env_with_controller (λ _ _ _, inl running_galera) (λ _, inl []) (λ _ cr, inl cr)
    (ctl_with_claims (λ _ _, inl [orphan_claim]) listed_ctl) env_ok.

Definition gal_selector : Selector :=
  mkSelector false (λ l, bool_decide (labelsForGalera "gal" "ns" ⊆ default ∅ l)).

Lemma getClaimsForGalera_owned_witness :
  fst (getClaimsForGalera running_galera gal_selector orphan_env []) = Ok [orphan_claim] ∧
  claim_member running_galera gal_selector orphan_claim.
Proof.
  pose proof (getClaimsForGalera_owned running_galera gal_selector orphan_env []) as H.
  assert (fst (getClaimsForGalera running_galera gal_selector orphan_env []) = Ok [orphan_claim]) as Eo
    by (vm_compute; reflexivity).
  split; [exact Eo|].
  destruct (getClaimsForGalera running_galera gal_selector orphan_env []) as [o t].
  exact (proj1 (proj2 (proj2 (proj2 (proj2 H [orphan_claim] eq_refl) [orphan_claim] Eo))
    orphan_claim (list_elem_of_here _ _))).
Defined.
