(* ===== verification/Backup.v ===== *)
(** * The controller of backups

    Models [controllers/backup]: [backup_galera_controller.go],
    [backup_galera_control.go] and [backup_galera_status_updater.go].  The copy of
    a backup runs in a goroutine, after [HandleBackup] has returned: the
    operations return the computation of that goroutine, which runs at any later
    time. *)
From S2P Require Import Prelude Types BackupTypes Objects Names PodLib Kube Utils Ownership.
From S2P Require Import Controls Controller Storage.

Module BackupController.
Import BackupStatus.

Record GaleraBackupController := mkGaleraBackupController { clusterWide : bool }.

(** [managed] *)
Definition managed (gbc : GaleraBackupController) (galera : Galera) : bool :=
  match galera.(g_Annotations) !! GaleraAnnotationScope with
  | Some value =>
      if gbc.(clusterWide) then bool_decide (value = GaleraAnnotationClusterWide) else false
  | None => if negb gbc.(clusterWide) then true else false
  end.

(** ** Status *)

Definition UpdateGaleraBackupStatus `{RetryLib} (backup : GaleraBackup)
    (status : GaleraBackupStatus) : M unit :=
  '(err, _) ← RetryOnConflict
     (updateOnce (λ backup, backupStatusUpdate (with_gb_Status status backup))
                 (λ backup, backupGet backup.(gb_Namespace) backup.(gb_Name))) backup;
  retErr err.

Section control.
Context `{ApiMachinery} `{RetryLib}.

Definition updateGaleraBackupStatus : GaleraBackup → GaleraBackupStatus → M unit :=
  UpdateGaleraBackupStatus.

(** ** The control *)

(** The namespace of the Galera of a backup *)
Definition galeraNamespace (backup : GaleraBackup) : string :=
  let ns := backup.(gb_Spec).(gb_GaleraNamespace) in
  if decide (ns = "") then backup.(gb_Namespace) else ns.

(** The status written when the copy starts; the message of the condition names
    the backup where the method expects a pod. *)
Definition startedStatus (backup : GaleraBackup) (started now : Z) : GaleraBackupStatus :=
  SetRunningCondition backup.(gb_Name) (galeraNamespace backup) now
    (with_TimeStarted started emptyBackupStatus).

(** The status written when it is over, from the one the backup had before *)
Definition finishedStatus (backup : GaleraBackup) (key : string) (finished now : Z)
    : GaleraBackupStatus :=
  SetCompleteCondition now
    (ClearCondition BackupRunning
       (with_TimeCompleted finished (with_OutcomeLocation key backup.(gb_Status)))).

(** The goroutine of [HandleBackup] *)
Definition copyBackup (backuphandler : BackupHandler) (backup : GaleraBackup) (galera : Galera)
    : M unit :=
  key ← attempt (Backup backuphandler (galera.(g_Name) +:+ "-" +:+ backup.(gb_Name)));
  match key with
  | inr err => recordEvent "Backup Failed" err.(err_msg) false
  | inl key =>
      finished ← now;
      time ← now;
      err ← errOf (updateGaleraBackupStatus backup (finishedStatus backup key finished time));
      match err with
      | Some _ => mret tt
      | None => metric "backups_total" 1;; recordEvent "Complete" "Backup complete" true
      end
  end.

(** [n] bounds the requests to the side-car. *)
Definition HandleBackup (n : nat) (backup : GaleraBackup) (galera : Galera) : M (M unit) :=
  started ← now;
  let spec := backup.(gb_Spec) in
  if decide (spec.(gb_StorageProviderType) = BackupProviderTypeS3) then
    s3 ← pureM (deref spec.(gb_S3));
    name ← pureM (deref s3.(s3_CredentialsSecret));
    secretS3 ← secretGet (galeraNamespace backup) name;
    let mapCredS3 := secretS3.(secret_Data) in
    backupPod ← podGet galera.(g_Namespace) galera.(g_Status).(st_Members).(mem_Backup);
    if decide (spec.(gb_MethodType) = BackupMethodTypeMariabackup) then
      mb ← pureM (deref spec.(gb_MariaBackup));
      name ← pureM (deref mb);
      secretGalera ← secretGet backup.(gb_Namespace) name;
      let mapCredGalera := secretGalera.(secret_Data) in
      backuphandler ← attempt (pureM (NewBackupHandlerMariabackupS3 n backupPod (Some mapCredGalera)
                                        spec.(gb_S3) (Some mapCredS3)));
      match backuphandler with
      | inr err => recordEvent "Backup Failed" err.(err_msg) false;; errM err
      | inl backuphandler =>
          time ← now;
          updateGaleraBackupStatus backup (startedStatus backup started time);;
          mret (copyBackup backuphandler backup galera)
      end
    else fatal ("unknown BackupMethodType: " +:+ spec.(gb_MethodType))
  else fatal ("unknown StorageProviderType: " +:+ spec.(gb_StorageProviderType)).

(** ** The controller *)

Definition enqueueGaleraBackup (obj : informer_obj GaleraBackup) : M unit :=
  match obj with
  | IObj b => queueAdd (MetaNamespaceKeyFunc b.(gb_Namespace) b.(gb_Name))
  | _ => mret tt
  end.

(** A backup that has been taken care of: one of these conditions is true. *)
Definition handled (status : GaleraBackupStatus) : bool :=
  backupConditionTrue status BackupFailed || backupConditionTrue status BackupComplete
  || backupConditionTrue status BackupRunning || backupConditionTrue status BackupScheduled.

(** [None] when no copy was started.  That the cluster does not run is logged. *)
Definition syncHandler (n : nat) (gbc : GaleraBackupController) (key : string)
    : M (option (M unit)) :=
  match SplitMetaNamespaceKey key with
  | inr _ => mret None
  | inl (namespace, name) =>
      backup ← attempt (backupGet namespace name);
      match backup with
      | inr err => if decide (err.(err_kind) = NotFound) then mret None else errM err
      | inl backup =>
          if handled backup.(gb_Status) then mret None
          else
            galera ← attempt (galeraGet (galeraNamespace backup) backup.(gb_Spec).(gb_GaleraName));
            match galera with
            | inr _ => mret None
            | inl galera =>
                if negb (managed gbc galera) then mret None
                else copy ← HandleBackup n backup galera; mret (Some copy)
            end
      end
  end.

Definition processItem (n : nat) (gbc : GaleraBackupController) (item : queue_item)
    : M (option (M unit)) :=
  match item with
  | ItemKey key =>
      copy ← attempt (syncHandler n gbc key);
      match copy with
      | inr e => errM (errorf ("error syncing '" +:+ key +:+ "': " +:+ e.(err_msg)))
      | inl copy => queueForget item;; mret copy
      end
  | _ => queueForget item;; mret None
  end.

Definition processNextWorkItem (n : nat) (gbc : GaleraBackupController)
    : M (bool * option (M unit)) :=
  item ← queueGet;
  match item with
  | ItemQuit => mret (false, None)
  | _ =>
      copy ← attempt (λ env h, let (o, t) := processItem n gbc item env h in (o, t ++ [EvQueueDone item]));
      match copy, item with
      | inr _, ItemKey key => queueAddRateLimited key;; mret (true, None)
      | inr _, _ => mret (true, None)
      | inl copy, _ => mret (true, copy)
      end
  end.

(** The loop of a worker, for [k] items at most: the copies it started *)
Fixpoint runWorker (k n : nat) (gbc : GaleraBackupController) : M (list (M unit)) :=
  match k with
  | O => pureM OutOfFuel
  | S k' =>
      '(more, copy) ← processNextWorkItem n gbc;
      if (more : bool) then copies ← runWorker k' n gbc; mret (option_list copy ++ copies)
      else mret (option_list copy)
  end.
End control.

(** ** Conditions of the recorded statuses *)

Lemma setGaleraBackupCondition_true c gbs :
  c.(bc_Status) = ConditionTrue →
  backupConditionTrue (setGaleraBackupCondition c gbs) c.(bc_Type) = true.
Proof.
  intros Hc. unfold setGaleraBackupCondition, getGaleraBackupCondition.
  pose proof (findBackupCondition_spec c.(bc_Type) 0 gbs.(gbs_Conditions)) as Hf.
  destruct (findBackupCondition _ 0 _) as [p [cp|]].
  - destruct Hf as (l1 & l2 & E & -> & Ht & Hn). apply backupConditionTrue_spec.
    case_decide as Hd; [exists l1, cp, l2; split_and!; [done..|destruct Hd; congruence|done]|].
    exists l1, c, l2. cbn. rewrite E, Z.add_0_l, Nat2Z.id, insert_app_r_alt, Nat.sub_diag by lia.
    by split_and!.
  - destruct Hf as [_ Hn]. apply backupConditionTrue_spec.
    exists gbs.(gbs_Conditions), c, []. by split_and!.
Qed.

Lemma setGaleraBackupCondition_other c gbs t :
  t ≠ c.(bc_Type) →
  backupConditionTrue (setGaleraBackupCondition c gbs) t = backupConditionTrue gbs t.
Proof.
  intros Ht. unfold backupConditionTrue, GetBackupCondition, setGaleraBackupCondition, getGaleraBackupCondition.
  pose proof (findBackupCondition_spec c.(bc_Type) 0 gbs.(gbs_Conditions)) as Hf.
  destruct (findBackupCondition (bc_Type c) 0 _) as [p [cp|]].
  - case_decide; [done|]. destruct Hf as (l1 & l2 & -> & -> & Hcp & _). cbn.
    rewrite Z.add_0_l, Nat2Z.id, insert_app_r_alt, Nat.sub_diag by lia. cbn. generalize 0.
    induction l1 as [|x l1 IH]; intros i; cbn; [|case_decide; [done|apply IH]].
    by rewrite !decide_False by congruence.
  - clear Hf. cbn. generalize 0. induction (gbs_Conditions gbs) as [|x l IH]; intros i; cbn; [|case_decide; [done|apply IH]].
    by rewrite decide_False by congruence.
Qed.

Lemma ClearCondition_other t t' gbs :
  t ≠ t' → backupConditionTrue (ClearCondition t' gbs) t = backupConditionTrue gbs t.
Proof.
  intros Ht. unfold backupConditionTrue, GetBackupCondition, ClearCondition, getGaleraBackupCondition.
  pose proof (findBackupCondition_spec t' 0 gbs.(gbs_Conditions)) as Hf.
  destruct (findBackupCondition t' 0 _) as [p [cp|]].
  - destruct Hf as (l1 & l2 & -> & -> & Hcp & _). rewrite decide_False by lia. cbn.
    rewrite Z.add_0_l, Nat2Z.id, take_app_length, drop_app_ge, Nat.sub_succ_l, Nat.sub_diag by lia.
    cbn. rewrite drop_0. generalize 0.
    induction l1 as [|x l1 IH]; intros i; cbn; [|case_decide; [done|apply IH]].
    rewrite (decide_False (P := t = bc_Type cp)) by congruence. revert i.
    intros i. generalize (i + 1). intros j. revert i j.
    induction l2 as [|x l2 IH]; intros i j; cbn; [done|]. by case_decide.
  - by destruct Hf as [-> _].
Qed.

Lemma with_fields_true f s t :
  gbs_Conditions (f s) = gbs_Conditions s → backupConditionTrue (f s) t = backupConditionTrue s t.
Proof. unfold backupConditionTrue, GetBackupCondition. by intros ->. Qed.

Lemma startedStatus_true backup started now t :
  backupConditionTrue (startedStatus backup started now) t = bool_decide (t = BackupRunning).
Proof.
  unfold startedStatus, SetRunningCondition. case_bool_decide as Ht.
  - subst t. by apply (setGaleraBackupCondition_true (newGaleraBackupCondition BackupRunning _ _ _ _)).
  - by rewrite setGaleraBackupCondition_other.
Qed.

Lemma finishedStatus_true backup key finished now t :
  t ≠ BackupRunning →
  backupConditionTrue (finishedStatus backup key finished now) t
    = bool_decide (t = BackupComplete) || backupConditionTrue backup.(gb_Status) t.
Proof.
  intros Hr. unfold finishedStatus, SetCompleteCondition. case_bool_decide as Ht.
  - subst t. by apply (setGaleraBackupCondition_true (newGaleraBackupCondition BackupComplete _ _ _ _)).
  - rewrite setGaleraBackupCondition_other by done. by rewrite ClearCondition_other.
Qed.

Lemma finishedStatus_fields backup key finished now :
  let st := finishedStatus backup key finished now in
  st.(gbs_OutcomeLocation) = key ∧ st.(gbs_TimeCompleted) = finished ∧
  st.(gbs_TimeStarted) = backup.(gb_Status).(gbs_TimeStarted).
Proof.
  unfold finishedStatus, SetCompleteCondition, setGaleraBackupCondition, ClearCondition.
  destruct (getGaleraBackupCondition _ BackupRunning) as [p ?]. case_decide;
    destruct (getGaleraBackupCondition _ _) as [? []]; cbn; try case_decide; done.
Qed.

(** ** Writing a status *)

Definition is_status (e : event) : Prop :=
  match e with EvBackupStatus _ _ _ _ => True | _ => False end.

(** The attempts to write a status *)
Definition ev_write (st : GaleraBackupStatus) (e : event) : Prop :=
  match e with
  | EvBackupStatus _ _ st' _ => st' = st
  | EvGet _ _ _ => True
  | _ => False
  end.

Lemma UpdateGaleraBackupStatus_spec `{RetryLaws} b st env h :
  let (o, t) := UpdateGaleraBackupStatus b st env h in
  Forall (ev_write st) t ∧ (∃ err t', t = EvBackupStatus b.(gb_Namespace) b.(gb_Name) st err :: t') ∧
  (o = Ok tt ↔ ∃ ns n, EvBackupStatus ns n st None ∈ t) ∧ (o = Ok tt ∨ ∃ e, o = Err e).
Proof.
  destruct (UpdateGaleraBackupStatus b st env h) as [o t] eqn:E. unfold UpdateGaleraBackupStatus in E.
  match type of E with (RetryOnConflict ?f _ ≫= _) _ _ = _ => set (once := f) in * end.
  assert (Hall : emits (ev_write st) (RetryOnConflict once b)).
  { apply emits_retry; [apply _|]. intros s. unfold once, updateOnce, backupStatusUpdate, backupGet.
    emits_controls. }
  pose proof (RetryOnConflict_runs once b env h) as Hr.
  assert (∀ s env h, ∃ r, fst (attempt (backupGet s.(gb_Namespace) s.(gb_Name)) env h) = Ok r) as Htotal
    by (intros; apply read_total).
  assert (∃ err t', snd (RetryOnConflict once b env h) = EvBackupStatus (gb_Namespace b) (gb_Name b) st err :: t')
    as (err0 & t0 & Hfirst).
  { revert Hr. generalize (fst (RetryOnConflict once b env h)) (snd (RetryOnConflict once b env h)).
    intros o' t' Hr. inversion Hr as [? ? ? ? ? E1|? ? ? e s1 t1 ? t2 E1]; subst;
      (eapply (updateOnce_inv _ _ _ (λ b, EvBackupStatus b.(gb_Namespace) b.(gb_Name) st)) in E1
        as (err & s' & t'' & _ & -> & _); [by eexists _, _|done|intros; unfold backupGet; emits_controls|done]). }
  eapply (update_runs _ _ _ (λ b, EvBackupStatus b.(gb_Namespace) b.(gb_Name) st)) in Hr
    as (err & s' & Ho & _ & Hiff & _);
    [|done|done|intros s; unfold backupGet; emits_controls|done].
  specialize (Hall env h).
  destruct (RetryOnConflict once b env h) as [o1 t1] eqn:E1. cbn in Ho, Hiff, Hall, Hfirst. subst o1.
  rewrite (bind_Ok _ _ _ _ _ _ E1) in E. cbn in E.
  assert (t = t1 ∧ o = match err with None => Ok tt | Some e => Err e end) as [-> ->].
  { destruct err; cbn in E; rewrite app_nil_r in E; by simplify_eq. }
  split_and!; [done|eauto| |destruct err; eauto].
  transitivity (err = None); [by destruct err|]. rewrite Hiff. split.
  - intros [s Hs]. eauto.
  - intros (ns & n & Hs). by exists (mkGaleraBackup n ns b.(gb_Spec) st).
Qed.

(** A lister returns the backup that is asked. *)
Definition names_backups (env : Env) : Prop :=
  ∀ h ns name b, env.(env_ctl).(ctl_backupGet) h ns name = inl b →
    b.(gb_Namespace) = ns ∧ b.(gb_Name) = name.

(** Only the status of one backup is written. *)
Definition status_of (ns name : string) (e : event) : Prop :=
  match e with EvBackupStatus ns' name' _ _ => ns' = ns ∧ name' = name | _ => True end.

Lemma updateOnce_named b st env h :
  names_backups env →
  let '(o, t) := updateOnce (λ backup, backupStatusUpdate (with_gb_Status st backup))
                   (λ backup, backupGet backup.(gb_Namespace) backup.(gb_Name)) b env h in
  Forall (status_of b.(gb_Namespace) b.(gb_Name)) t ∧
  ∀ err b', o = Ok (err, b') → b'.(gb_Namespace) = b.(gb_Namespace) ∧ b'.(gb_Name) = b.(gb_Name).
Proof.
  intros Hnamed. unfold updateOnce, errOf, attempt, backupStatusUpdate, backupGet, call, retErr, orErr, errM. unM.
  destruct (ctl_backupStatus _ _ _) as [e|]; cbn.
  - match goal with |- context [ctl_backupGet ?c ?h' ?ns ?n] => destruct (ctl_backupGet c h' ns n) as [b1|] eqn:Eb end;
      cbn; (split; [by repeat constructor|]); intros err b' [= <- <-]; [|done]. by apply Hnamed in Eb.
  - split; [by repeat constructor|]. by intros err b' [= <- <-].
Qed.

Lemma UpdateGaleraBackupStatus_named `{RetryLaws} b st env h :
  names_backups env → Forall (status_of b.(gb_Namespace) b.(gb_Name)) (snd (UpdateGaleraBackupStatus b st env h)).
Proof.
  intros Hnamed. unfold UpdateGaleraBackupStatus.
  match goal with |- context [RetryOnConflict ?f b] => set (once := f) end.
  assert (Forall (status_of b.(gb_Namespace) b.(gb_Name)) (snd (RetryOnConflict once b env h))) as Hf.
  { pose proof (RetryOnConflict_runs once b env h) as Hr. revert Hr.
    generalize (fst (RetryOnConflict once b env h)) (snd (RetryOnConflict once b env h)).
    intros o t Hr. induction Hr as [b env h o t E|b env h e b1 t1 o t2 E _ _ IH];
      pose proof (updateOnce_named b st env h Hnamed) as Ho; fold once in Ho; rewrite E in Ho.
    - by destruct Ho.
    - destruct Ho as [Hb Hb1]. destruct (Hb1 _ _ eq_refl) as [En Em]. rewrite En, Em in IH.
      apply Forall_app. auto. }
  unfold mbind, M_bind. destruct (RetryOnConflict once b env h) as [[[err b1]|e| |] t]; cbn in *; try done.
  destruct err; cbn; by rewrite app_nil_r.
Qed.

(** ** The life of a backup *)

Section life.
Context `{ApiMachinery} `{RetryLaws}.

Lemma backupGet_found ns name env h backup :
  env.(env_ctl).(ctl_backupGet) h ns name = inl backup →
  attempt (backupGet ns name) env h = (Ok (inl backup), [EvGet "backup" ns name]).
Proof. intros Hb. unfold attempt, backupGet, call, orErr. unM. by rewrite Hb. Qed.

(** As soon as the status of a backup is one that the controller writes when a copy
    starts or when it is over, a reconciliation only looks it up.  So are the backups
    marked as scheduled or failed. *)
Lemma backup_skipped (n : nat) (gbc : GaleraBackupController) (key ns name : string)
    (backup : GaleraBackup) (env : Env) (h : history) :
  SplitMetaNamespaceKey key = inl (ns, name) →
  env.(env_ctl).(ctl_backupGet) h ns name = inl backup →
  (∃ b started now, backup.(gb_Status) = startedStatus b started now) ∨
  (∃ b file finished now, backup.(gb_Status) = finishedStatus b file finished now) ∨
  backupConditionTrue backup.(gb_Status) BackupScheduled = true ∨
  backupConditionTrue backup.(gb_Status) BackupFailed = true →
  syncHandler n gbc key env h = (Ok None, [EvGet "backup" ns name]).
Proof.
  intros Hk Hb Hs. unfold syncHandler. rewrite Hk.
  rewrite (bind_Ok _ _ _ _ _ _ (backupGet_found ns name env h backup Hb)).
  enough (handled backup.(gb_Status) = true) as -> by done. unfold handled. rewrite !orb_true_iff.
  destruct Hs as [(b & started & time & ->)|[(b & file & finished & time & ->)|[?|?]]]; [| |tauto..].
  - left. right. by rewrite startedStatus_true.
  - left. left. right. by rewrite finishedStatus_true.
Qed.

(** What the goroutine of a backup writes *)
Definition copy_writes (backup : GaleraBackup) (file : string) (t : history) : Prop :=
  ∃ finished now err t', t = EvNow :: EvNow ::
      EvBackupStatus backup.(gb_Namespace) backup.(gb_Name) (finishedStatus backup file finished now) err :: t' ∧
    ∀ ns name st err, EvBackupStatus ns name st err ∈ t → st = finishedStatus backup file finished now.

(** When the copy succeeded, the status that is recorded has the location of
    the file and the time of completion, and the backup is complete; it is made
    from the status the backup had before it was started, so that the time at
    which it started is lost.  When the copy failed nothing is recorded but an
    event: the status goes on saying that the backup is running. *)
Theorem copyBackup_records (bh : BackupHandler) (backup : GaleraBackup) (galera : Galera)
    (env : Env) (h : history) :
  let '(o, t) := copyBackup bh backup galera env h in
  match Backup bh (galera.(g_Name) +:+ "-" +:+ backup.(gb_Name)) env h with
  | (Ok file, tb) => ∃ t', t = tb ++ t' ∧ copy_writes backup file t' ∧
      ∀ finished now, let st := finishedStatus backup file finished now in
        st.(gbs_OutcomeLocation) = file ∧ st.(gbs_TimeCompleted) = finished ∧
        st.(gbs_TimeStarted) = backup.(gb_Status).(gbs_TimeStarted) ∧
        backupConditionTrue st BackupComplete = true
  | (Err e, tb) => o = Ok tt ∧ t = tb ++ [EvRecord "Backup Failed" e.(err_msg) false]
  | (_, tb) => is_ok o = false ∧ t = tb
  end.
Proof.
  destruct (copyBackup bh backup galera env h) as [o t] eqn:E. unfold copyBackup in E.
  destruct (Backup bh _ env h) as [ob tb] eqn:Eb.
  destruct ob as [file|e| |].
  2-4: unfold mbind at 1, M_bind at 1, attempt at 1 in E; rewrite Eb in E; by simplify_eq/=.
  assert (attempt (Backup bh (g_Name galera +:+ "-" +:+ gb_Name backup)) env h = (Ok (inl file), tb)) as Ea
    by (unfold attempt; by rewrite Eb).
  rewrite (bind_Ok _ _ _ _ _ _ Ea) in E. injection E as Eo Et.
  set (h1 := h ++ tb) in *. set (finished := env_now env h1).
  set (time := env_now env (h1 ++ [EvNow])). set (st := finishedStatus backup file finished time).
  set (h2 := (h1 ++ [EvNow]) ++ [EvNow]).
  set (final := λ err : option error, match err with
    | Some _ => mret tt
    | None => metric "backups_total" 1;; recordEvent "Complete" "Backup complete" true end).
  assert (t = tb ++ EvNow :: EvNow :: snd ((errOf (updateGaleraBackupStatus backup st) ≫= final) env h2)) as ->.
  { rewrite <- Et. do 2 (rewrite (bind_Ok _ _ _ _ _ [EvNow]) by reflexivity). reflexivity. }
  clear Et Eo. eexists. split; [reflexivity|]. split; [|intros f n; cbv zeta; destruct (finishedStatus_fields backup file f n) as (? & ? & ?);
      rewrite finishedStatus_true by done; by split_and!].
  pose proof (UpdateGaleraBackupStatus_spec backup st env h2) as Hu. fold updateGaleraBackupStatus in Hu.
  destruct (updateGaleraBackupStatus backup st env h2) as [ou tu] eqn:Eu.
  destruct Hu as (HF & (err & t' & ->) & _ & Hout).
  assert (∃ e', errOf (updateGaleraBackupStatus backup st) env h2
            = (Ok e', EvBackupStatus (gb_Namespace backup) (gb_Name backup) st err :: t')) as [e' Ee].
  { unfold errOf, attempt. unM. rewrite Eu. destruct Hout as [-> |[e ->]]; cbn; rewrite app_nil_r; eauto. }
  rewrite (bind_Ok _ _ _ _ _ _ Ee). exists finished, time, err. eexists. split; [reflexivity|].
  intros ns name st' err' [Hx|[Hx|Hin]%elem_of_cons]%elem_of_cons; [done..|].
  cbn [snd] in Hin. apply elem_of_app in Hin as [Hin|Hin].
  - rewrite Forall_forall in HF. by apply HF in Hin.
  - exfalso. destruct e'; cbn in Hin; set_solver.
Qed.

(** ** When a copy starts *)

(** What the reads of a reconciliation found when a copy starts *)
Definition start_conditions (gbc : GaleraBackupController) (key : string) (env : Env) (h : history)
    (backup : GaleraBackup) (galera : Galera) : Prop :=
  ∃ ns name, SplitMetaNamespaceKey key = inl (ns, name) ∧
    env.(env_ctl).(ctl_backupGet) h ns name = inl backup ∧ handled backup.(gb_Status) = false ∧
    env.(env_galeraGet) (h ++ [EvGet "backup" ns name]) (galeraNamespace backup)
      backup.(gb_Spec).(gb_GaleraName) = inl galera ∧
    managed gbc galera = true.

(** The status a computation may write *)
Definition statuses (P : GaleraBackupStatus → Prop) (e : event) : Prop :=
  match e with EvBackupStatus _ _ st _ => P st | _ => True end.

Lemma UpdateGaleraBackupStatus_emits (P : GaleraBackupStatus → Prop) b st :
  P st → emits (statuses P) (updateGaleraBackupStatus b st).
Proof.
  intros HP env h. pose proof (UpdateGaleraBackupStatus_spec b st env h) as Hu.
  fold updateGaleraBackupStatus in Hu. destruct (updateGaleraBackupStatus b st env h) as [o t].
  destruct Hu as (HF & _). eapply Forall_impl; [exact HF|]. intros []; cbn; try done. by intros ->.
Qed.

Lemma HandleBackup_writes n backup galera :
  emits (statuses (λ st, ∃ started now, st = startedStatus backup started now))
        (HandleBackup n backup galera).
Proof.
  pose proof (λ started now, UpdateGaleraBackupStatus_emits
    (λ st, ∃ started now, st = startedStatus backup started now) backup
    (startedStatus backup started now) (ex_intro _ started (ex_intro _ now eq_refl))) as Hu.
  unfold HandleBackup, fatal, secretGet, podGet, recordEvent, now. emits_tac; try done; apply Hu.
Qed.

Lemma HandleBackup_ok n backup galera env h copy t :
  HandleBackup n backup galera env h = (Ok copy, t) →
  backup.(gb_Spec).(gb_StorageProviderType) = BackupProviderTypeS3 ∧
  backup.(gb_Spec).(gb_MethodType) = BackupMethodTypeMariabackup ∧
  (∃ ns nm started now, EvBackupStatus ns nm (startedStatus backup started now) None ∈ t ∧
     (names_backups env → ns = backup.(gb_Namespace) ∧ nm = backup.(gb_Name))) ∧
  ∃ bh pod creds s3creds, copy = copyBackup bh backup galera ∧
    NewBackupHandlerMariabackupS3 n pod (Some creds) backup.(gb_Spec).(gb_S3) (Some s3creds) = Ok bh.
Proof.
  unfold HandleBackup. cbv zeta. intros (started & ? & t1 & _ & E & ->)%bind_ok_inv. case_decide as Hp.
  2:{ by apply bind_ok_inv in E as (? & ? & ? & _ & [=] & _). }
  apply bind_ok_inv in E as (s3 & ? & ? & _ & E & ->).
  apply bind_ok_inv in E as (nm & ? & ? & _ & E & ->).
  apply bind_ok_inv in E as (secretS3 & ? & ? & _ & E & ->).
  apply bind_ok_inv in E as (pod & ? & ? & _ & E & ->). case_decide as Hm.
  2:{ by apply bind_ok_inv in E as (? & ? & ? & _ & [=] & _). }
  apply bind_ok_inv in E as (mb & ? & ? & _ & E & ->).
  apply bind_ok_inv in E as (nm' & ? & ? & _ & E & ->).
  apply bind_ok_inv in E as (secretGalera & ? & ? & _ & E & ->).
  apply bind_ok_inv in E as (r & ? & ? & Eh & E & ->).
  destruct r as [bh|e]; last first.
  { apply bind_ok_inv in E as (? & ? & ? & _ & [=] & _). }
  apply bind_ok_inv in E as (time & ? & ? & _ & E & ->).
  apply bind_ok_inv in E as ([] & tu & ? & Eu & E & ->). injection E as <- <-.
  split_and!; [done..| |].
  - match type of Eu with updateGaleraBackupStatus _ ?st env ?h' = _ =>
      pose proof (UpdateGaleraBackupStatus_spec backup st env h') as Hu end.
    fold updateGaleraBackupStatus in Hu. rewrite Eu in Hu. destruct Hu as (_ & _ & Hok & _).
    destruct (proj1 Hok eq_refl) as (ns & n' & Hin).
    exists ns, n', started, time. split; [set_solver|]. intros Hnamed.
    match type of Eu with updateGaleraBackupStatus _ ?st env ?h' = _ =>
      pose proof (UpdateGaleraBackupStatus_named backup st env h' Hnamed) as Hn end.
    fold updateGaleraBackupStatus in Hn. rewrite Eu in Hn. cbn [snd] in Hn. rewrite Forall_forall in Hn.
    by apply Hn in Hin.
  - exists bh, pod, secretGalera.(secret_Data), secretS3.(secret_Data). split; [done|].
    revert Eh. unfold attempt, pureM. destruct (NewBackupHandlerMariabackupS3 _ _ _ _ _); by intros [= ->].
Qed.

Lemma syncHandler_started n gbc key env h copy t :
  syncHandler n gbc key env h = (Ok (Some copy), t) →
  ∃ backup galera h' t', start_conditions gbc key env h backup galera ∧
    HandleBackup n backup galera env h' = (Ok copy, t') ∧ t' ⊆ t.
Proof.
  unfold syncHandler. destruct (SplitMetaNamespaceKey key) as [[ns name]|] eqn:Ek; [|done].
  intros (r & t1 & t2 & E1 & E & ->)%bind_ok_inv.
  assert (∀ b, r = inl b → env.(env_ctl).(ctl_backupGet) h ns name = inl b) as Hb.
  { intros b ->. revert E1. unfold attempt, backupGet, call, orErr, errM. unM.
    destruct (ctl_backupGet _ h ns name); cbn; by intros [= -> _]. }
  assert (t1 = [EvGet "backup" ns name]) as ->.
  { revert E1. unfold attempt, backupGet, call, orErr, errM. unM.
    destruct (ctl_backupGet _ h ns name); cbn; by intros [= _ <-]. }
  destruct r as [backup|e]; [|by case_decide]. specialize (Hb backup eq_refl).
  destruct (handled (gb_Status backup)) eqn:Hh; [done|].
  apply bind_ok_inv in E as (r & t3 & t4 & E3 & E & ->). destruct r as [galera|]; [|done].
  destruct (managed gbc galera) eqn:Hm; [|done]. cbn [negb] in E.
  apply bind_ok_inv in E as (c & t5 & t6 & E5 & E & ->). injection E as -> <-.
  eexists backup, galera, _, t5. split_and!; [|exact E5|set_solver].
  exists ns, name. split_and!; try done.
  revert E3. unfold attempt, galeraGet, call, orErr, errM. unM.
  destruct (env_galeraGet env _ _ _); cbn; by intros [= -> _].
Qed.

(** A copy is started only for a backup that was never taken care of, of a
    Galera that this operator manages, stored in S3 and taken with mariabackup,
    and only once its status says that it is running. *)
Theorem backup_started (n : nat) (gbc : GaleraBackupController) (key : string) (env : Env)
    (h : history) (copy : M unit) (t : history) :
  syncHandler n gbc key env h = (Ok (Some copy), t) →
  ∃ backup galera bh, start_conditions gbc key env h backup galera ∧
    backup.(gb_Spec).(gb_StorageProviderType) = BackupProviderTypeS3 ∧
    backup.(gb_Spec).(gb_MethodType) = BackupMethodTypeMariabackup ∧
    copy = copyBackup bh backup galera ∧
    ∃ ns nm started now, EvBackupStatus ns nm (startedStatus backup started now) None ∈ t ∧
      backupConditionTrue (startedStatus backup started now) BackupRunning = true.
Proof.
  intros (backup & galera & h' & t' & Hc & E & Hs)%syncHandler_started.
  apply HandleBackup_ok in E as (Hp & Hm & (ns & nm & started & time & Hin & _) & bh & pod & cr & cr' & -> & _).
  exists backup, galera, bh. split_and!; [done..|]. exists ns, nm, started, time.
  split; [by apply Hs|]. by rewrite startedStatus_true.
Qed.

(** ** At most one copy *)

(** A reconciliation: the environment and the history at which it runs *)
Definition round : Type := Env * history.

Definition starts (n : nat) (gbc : GaleraBackupController) (key : string) (r : round) : Prop :=
  ∃ copy, fst (syncHandler n gbc key (fst r) (snd r)) = Ok (Some copy).

(** The lister of a reconciliation has what an earlier one recorded: when that one
    wrote the status of a backup, the lister has this status, or the one that the copy
    writes when it is over, or does not have the backup any more. *)
Definition fresh (n : nat) (gbc : GaleraBackupController) (key ns name : string) (r r' : round) : Prop :=
  ∀ st backup,
    EvBackupStatus ns name st None ∈ snd (syncHandler n gbc key (fst r) (snd r)) →
    (fst r').(env_ctl).(ctl_backupGet) (snd r') ns name = inl backup →
    backup.(gb_Status) = st ∨
    ∃ b file finished now, backup.(gb_Status) = finishedStatus b file finished now.

Lemma starts_writes n gbc key ns name r :
  SplitMetaNamespaceKey key = inl (ns, name) → names_backups (fst r) → starts n gbc key r →
  ∃ b started now,
    EvBackupStatus ns name (startedStatus b started now) None ∈ snd (syncHandler n gbc key (fst r) (snd r)).
Proof.
  intros Hk Hnamed [copy Hc]. destruct r as [env h]. cbn [fst snd] in *.
  destruct (syncHandler n gbc key env h) as [o t] eqn:E. cbn [fst snd] in *. subst o.
  apply syncHandler_started in E as (backup & galera & h' & t' & (ns' & name' & Hk' & Hb & _) & E & Hs).
  rewrite Hk in Hk'. injection Hk' as <- <-. destruct (Hnamed _ _ _ _ Hb) as [<- <-].
  apply HandleBackup_ok in E as (_ & _ & (ns & nm & started & time & Hin & Hnm) & _).
  destruct (Hnm Hnamed) as [-> ->]. exists backup, started, time. by apply Hs.
Qed.

Lemma fresh_skips n gbc key ns name r r' :
  SplitMetaNamespaceKey key = inl (ns, name) → names_backups (fst r) → fresh n gbc key ns name r r' →
  starts n gbc key r → snd (syncHandler n gbc key (fst r') (snd r')) = [EvGet "backup" ns name] ∧
                       ¬ starts n gbc key r'.
Proof.
  intros Hk Hnamed Hf Hs. destruct (starts_writes _ _ _ _ _ _ Hk Hnamed Hs) as (b & started & time & Hin).
  unfold starts. destruct r' as [env' h']. cbn [fst snd] in *.
  destruct (env'.(env_ctl).(ctl_backupGet) h' ns name) as [backup|e] eqn:Eb.
  - assert (syncHandler n gbc key env' h' = (Ok None, [EvGet "backup" ns name])) as ->.
    { apply (backup_skipped n gbc key ns name backup env' h' Hk Eb).
      destruct (Hf _ _ Hin Eb) as [Hst|Hst]; [left; by exists b, started, time|by right; left]. }
    split; [reflexivity|]. by intros [copy [=]].
  - unfold syncHandler. rewrite Hk. unfold attempt, backupGet, call, orErr, errM. unM. rewrite Eb. cbn.
    case_decide; cbn; (split; [reflexivity|by intros [copy [=]]]).
Qed.

(** C14: a backup is started at most once.  Among the reconciliations of a backup,
    whatever the cluster answers them, at most one starts a copy; the one that does
    has written before that the backup is running, and those that come after it only
    look the backup up.  The listers return the backup that is asked, and each
    reconciliation has a lister that is not older than the status recorded by those
    before it: with an older one a second copy may start. *)
Theorem backup_once (n : nat) (gbc : GaleraBackupController) (key ns name : string) (rounds : list round) :
  SplitMetaNamespaceKey key = inl (ns, name) →
  (∀ r, r ∈ rounds → names_backups (fst r)) →
  (∀ i j r r', (i < j)%nat → rounds !! i = Some r → rounds !! j = Some r' → fresh n gbc key ns name r r') →
  ∀ i r, rounds !! i = Some r → starts n gbc key r →
    (∃ b started now,
       EvBackupStatus ns name (startedStatus b started now) None
         ∈ snd (syncHandler n gbc key (fst r) (snd r)) ∧
       backupConditionTrue (startedStatus b started now) BackupRunning = true) ∧
    (∀ j r', (i < j)%nat → rounds !! j = Some r' →
       snd (syncHandler n gbc key (fst r') (snd r')) = [EvGet "backup" ns name]) ∧
    ∀ j r', rounds !! j = Some r' → starts n gbc key r' → j = i.
Proof.
  intros Hk Hnamed Hfresh i r Hi Hs.
  assert (∀ i r, rounds !! i = Some r → names_backups (fst r)) as Hn
    by (intros k q Hq; by eapply Hnamed, list_elem_of_lookup_2).
  split_and!.
  - destruct (starts_writes _ _ _ _ _ _ Hk (Hn _ _ Hi) Hs) as (b & started & time & Hin).
    exists b, started, time. split; [done|]. by rewrite startedStatus_true.
  - intros j r' Hlt Hj. by apply (fresh_skips _ _ _ _ _ _ _ Hk (Hn _ _ Hi) (Hfresh _ _ _ _ Hlt Hi Hj) Hs).
  - intros j r' Hj Hs'. destruct (decide (i < j)%nat); [|destruct (decide (j < i)%nat)]; [| |lia].
    + by destruct (fresh_skips _ _ _ _ _ _ _ Hk (Hn _ _ Hi) (Hfresh _ _ _ _ l Hi Hj) Hs) as [_ []].
    + by destruct (fresh_skips _ _ _ _ _ _ _ Hk (Hn _ _ Hj) (Hfresh _ _ _ _ l Hj Hi) Hs') as [_ []].
Qed.

Lemma Backup_quiet P pod bh name creds p3 creds3 n :
  NewBackupHandlerMariabackupS3 n pod creds p3 creds3 = Ok bh → emits (statuses P) (Backup bh name).
Proof.
  unfold NewBackupHandlerMariabackupS3. destruct (Mariabackup.NewMethod pod creds) as [m|]; [|done].
  destruct (S3Provider.NewProvider p3 creds3 pod) as [p|e| |]; try done. intros [= <-].
  unfold Backup, now. cbn.
  assert (∀ cmd, emits (statuses P) (Mariabackup.exec m cmd)) as Hx.
  { intros cmd. unfold Mariabackup.exec, runCmd, ExecCmd. emits_tac; done. }
  assert (∀ dir key, emits (statuses P) (S3Provider.Store n p dir key)) as Hs.
  { intros. eapply emits_impl; [apply Store_emits|]. by intros []. }
  unfold Mariabackup.Backup. emits_tac; done.
Qed.

(** No status ever says that a backup failed, whatever happens: neither those
    written by a reconciliation, nor those written by the copies it starts. *)
Theorem failure_never_recorded (n : nat) (gbc : GaleraBackupController) (key : string) (env : Env)
    (h : history) :
  let '(o, t) := syncHandler n gbc key env h in
  Forall (statuses (λ st, backupConditionTrue st BackupFailed = false)) t ∧
  ∀ copy, o = Ok (Some copy) → ∀ env' h',
    Forall (statuses (λ st, backupConditionTrue st BackupFailed = false)) (snd (copy env' h')).
Proof.
  destruct (syncHandler n gbc key env h) as [o t] eqn:E. split.
  - assert (emits (statuses (λ st, backupConditionTrue st BackupFailed = false))
      (syncHandler n gbc key)) as He.
    { assert (∀ backup galera, emits (statuses (λ st, backupConditionTrue st BackupFailed = false))
        (HandleBackup n backup galera)) as HH.
      { intros. eapply emits_impl; [apply HandleBackup_writes|]. intros []; cbn [statuses]; try done.
        intros (? & ? & ->). by rewrite startedStatus_true. }
      unfold syncHandler, backupGet, galeraGet. emits_controls; by intros []. }
    by eapply emits_run.
  - intros copy -> env' h'.
    apply syncHandler_started in E as (backup & galera & h1 & t1 & Hc & E & _).
    apply HandleBackup_ok in E as (_ & _ & _ & bh & pod & cr & cr' & -> & Hbh).
    assert (backupConditionTrue backup.(gb_Status) BackupFailed = false) as Hf.
    { destruct Hc as (? & ? & _ & _ & Hh & _). unfold handled in Hh.
      by destruct (backupConditionTrue (gb_Status backup) BackupFailed). }
    assert (∀ file f t, backupConditionTrue (finishedStatus backup file f t) BackupFailed = false) as Hst
      by (intros; rewrite finishedStatus_true by done; rewrite Hf; reflexivity).
    revert env' h'. as_emits. unfold copyBackup, recordEvent, metric, now.
    apply emits_bind; [apply emits_attempt; by eapply Backup_quiet|]. intros [file|e]; [|emits_tac; done].
    pose proof (λ f t, UpdateGaleraBackupStatus_emits
      (λ st, backupConditionTrue st BackupFailed = false) backup _ (Hst file f t)) as Hu.
    repeat first [ emits_step | apply emits_errOf, Hu | apply emits_ret | exact I ].
Qed.

(** The handler of a backup, with its bound on the requests to the side-car *)
Definition handlerS3 (n : nat) (m : Mariabackup.MariaBackup) (p : S3Provider.Provider)
    : BackupHandler :=
  mkBackupHandler (mkMethod (Mariabackup.Backup m) (Mariabackup.Restore m)) (storageS3 n p).

(** When the side-car accepted a backup and never says that it is completed,
    because it failed or because the side-car was restarted, the copy goes on
    asking for ever: it never ends, and the status of the backup, which says that
    it is running, is never written again. *)
Theorem failed_backup_hangs (m : Mariabackup.MariaBackup) (p : S3Provider.Provider)
    (backup : GaleraBackup) (galera : Galera) (env : Env) (h tb : history)
    (resp : httpReply) (response : httpResponse) :
  Mariabackup.Backup m backupDir env h = (Ok tt, tb) →
  let file := (galera.(g_Name) +:+ "-" +:+ backup.(gb_Name)) +:+ "."
              +:+ Timestamps.format (env.(env_now) (h ++ tb)) +:+ ".sql.gz" in
  let doc := marshalS3 (S3Provider.with_target backupDir file p.(S3Provider.s3)) in
  let url := S3Provider.url p ("/state/" +:+ file) in
  env.(env_ctl).(ctl_http) ((h ++ tb) ++ [EvNow]) "POST" (S3Provider.url p "/s3") (Some doc) = inl resp →
  resp.(reply_Body) = inl response →
  (∀ h', is_stored (stateAnswer env url h') = false) →
  ∀ n, let (o, t) := copyBackup (handlerS3 n m p) backup galera env h in
       o = OutOfFuel ∧ Forall (λ e, ¬ is_status e) t.
Proof.
  intros Em file doc url Hpost Hbody Hnever n.
  set (name := g_Name galera +:+ "-" +:+ gb_Name backup) in *.
  assert (fst (Backup (handlerS3 n m p) name env h) = OutOfFuel) as Ho.
  { unfold Backup. rewrite bind_fst. cbn [handlerS3 bh_method method_Backup]. rewrite Em.
    rewrite (bind_Ok _ _ _ _ _ [EvNow]) by reflexivity. cbn [fst]. fold file.
    rewrite bind_fst. cbn [handlerS3 bh_storage storageS3 storage_Store].
    destruct (S3Provider.Store n p backupDir file env ((h ++ tb) ++ [EvNow])) as [os ts] eqn:Es.
    enough (os = OutOfFuel) as -> by done.
    apply (f_equal fst) in Es. cbn [fst] in Es. subst os.
    rewrite Store_fst. cbv zeta. fold doc. rewrite Hpost, Hbody.
    apply (loop_runs (λ n h, fst (S3Provider.waitStored n url env h)) (storeTurn env url)
      (storeStop env url) (λ _, eq_refl) (waitStored_loop url env)).
    intros j _. unfold storeStop. by rewrite Hnever. }
  destruct (copyBackup (handlerS3 n m p) backup galera env h) as [o t] eqn:E.
  unfold copyBackup in E. fold name in E. unfold mbind at 1, M_bind at 1, attempt at 1 in E.
  destruct (Backup (handlerS3 n m p) name env h) as [o' t'] eqn:Eb. cbn in Ho. subst o'.
  injection E as <- <-. split; [done|].
  assert (∀ cmd, emits (λ e, ¬ is_status e) (Mariabackup.exec m cmd)) as Hx.
  { intros cmd. unfold Mariabackup.exec, runCmd, ExecCmd. emits_tac; by intros []. }
  assert (emits (λ e, ¬ is_status e) (Backup (handlerS3 n m p) name)) as Hq.
  { unfold Backup, Mariabackup.Backup, now. cbn [handlerS3 bh_method method_Backup bh_storage storageS3 storage_Store].
    apply emits_bind; [unfold Mariabackup.Backup; emits_tac|intros _].
    apply emits_bind; [apply emits_call; by intros _ []|intros time].
    apply emits_bind; [|intros; apply emits_ret].
    eapply emits_impl; [apply Store_emits|]. by intros [] [] []. }
  by eapply emits_run.
Qed.
End life.
End BackupController.

(** ** Examples *)

Import BackupController.

#[local] Existing Instances RetryLib_steps RetryLaws_steps.

Definition example_backup : GaleraBackup :=
  mkGaleraBackup "daily" "ns"
    (mkBackupSpec "gal" "" BackupMethodTypeMariabackup (Some (Some "mariabackup")) BackupProviderTypeS3
       (Some example_s3)) emptyBackupStatus.

(** A Galera that has failed, and an environment that holds it and a backup *)
Definition failed_galera : Galera := with_Status (with_Phase GaleraPhaseFailed emptyStatus) example_galera.

Definition backup_ctl (backup : GaleraBackup) (state : string) : ControllerEnv := {|
  ctl_queueGet _ := ItemQuit;
  ctl_podList _ _ := inl [];
  ctl_claimList _ _ := inl [];
  ctl_galeraList _ _ := inl [];
  ctl_galeraLive _ _ _ := inr (errorf "gone");
  ctl_podOwner _ _ _ _ := None;
  ctl_claimOwner _ _ _ _ := None;
  ctl_backupGet _ _ _ := inl backup;
  ctl_backupStatus _ _ := None;
  ctl_http _ _ _ _ := inl (mkHttpReply 200 (inl (mkHttpResponse state ""))) |}.

Definition creds_of (name : string) : Secret :=
  mkSecret (if decide (name = "s3") then s3_creds
            else <["user" := "u"]> (<["password" := "p"]> ∅)).

Definition backup_env (backup : GaleraBackup) (state : string) : Env :=
  env_with_lookups (λ _ _ _, inl example_backup_pod) (λ _ _ name, inl (creds_of name))
    (backup_ctl backup state)
    (env_with_controller (λ _ _ _, inl failed_galera) (λ _, inl []) (λ _ cr, inl cr)
       (backup_ctl backup state) env_ok).

Definition operator_ns : GaleraBackupController := mkGaleraBackupController false.

(** The copy is started although the cluster has failed. *)
Lemma backup_started_witness :
  IsFailed (Some failed_galera.(g_Status)) = true ∧
  ∃ backup, handled backup.(gb_Status) = false ∧ backup.(gb_Name) = "daily".
Proof.
  split; [reflexivity|].
  assert (∃ copy t, syncHandler 1 operator_ns "ns/daily" (backup_env example_backup "completed") []
                    = (Ok (Some copy), t)) as (copy & t & E) by (eexists _, _; reflexivity).
  destruct (backup_started 1 operator_ns "ns/daily" (backup_env example_backup "completed") [] copy t E)
    as (backup & g & bh & (ns & name & _ & Hb & Hh & _) & _).
  exists backup. injection Hb as <-. by split.
Defined.

Definition started_backup : GaleraBackup :=
  with_gb_Status (startedStatus example_backup 0 0) example_backup.

(** A lister that has one backup *)
Definition one_backup (backup : GaleraBackup) (ns name : string) : GaleraBackup + error :=
  if decide (ns = backup.(gb_Namespace) ∧ name = backup.(gb_Name)) then inl backup
  else inr (mkError NotFound "backup").

Definition lister_env (backup : GaleraBackup) : Env :=
  env_with_lookups (λ _ _ _, inl example_backup_pod) (λ _ _ name, inl (creds_of name))
    {| ctl_queueGet _ := ItemQuit; ctl_podList _ _ := inl []; ctl_claimList _ _ := inl [];
       ctl_galeraList _ _ := inl []; ctl_galeraLive _ _ _ := inr (errorf "gone");
       ctl_podOwner _ _ _ _ := None; ctl_claimOwner _ _ _ _ := None;
       ctl_backupGet _ := one_backup backup; ctl_backupStatus _ _ := None;
       ctl_http _ _ _ _ := inr (errorf "http") |}
    (env_with_controller (λ _ _ _, inl failed_galera) (λ _, inl []) (λ _ cr, inl cr) ctl_ok env_ok).

Lemma lister_env_named backup : names_backups (lister_env backup).
Proof.
  intros h ns name b Hb. change (one_backup backup ns name = inl b) in Hb. unfold one_backup in Hb.
  case_decide as Hd; [|done]. injection Hb as <-. by destruct Hd.
Qed.

(** Two reconciliations: the lister of the second one has what the first one wrote. *)
Definition two_rounds : list round := [(lister_env example_backup, []); (lister_env started_backup, [])].

(** The statuses that were written *)
Definition written (t : history) : list (string * string * GaleraBackupStatus) :=
  omap (λ e, match e with EvBackupStatus ns name st None => Some (ns, name, st) | _ => None end) t.

Lemma two_rounds_fresh r r' i j :
  (i < j)%nat → two_rounds !! i = Some r → two_rounds !! j = Some r' →
  fresh 1 operator_ns "ns/daily" "ns" "daily" r r'.
Proof.
  destruct j as [|[|j]]; [lia| |by intros _ _ [=]]. destruct i as [|i]; [|lia]. intros _ [= <-] [= <-].
  intros st backup Hin Hb. left. injection Hb as <-.
  assert (("ns", "daily", st) ∈ written (snd (syncHandler 1 operator_ns "ns/daily" (lister_env example_backup) []))) as Hw
    by (apply list_elem_of_omap; eexists; split; [exact Hin|done]).
  assert (written (snd (syncHandler 1 operator_ns "ns/daily" (lister_env example_backup) []))
          = [("ns", "daily", started_backup.(gb_Status))]) as E by (vm_compute; reflexivity).
  rewrite E in Hw. apply list_elem_of_singleton in Hw. by injection Hw as ->.
Qed.

Lemma started_starts n gbc key r :
  match fst (syncHandler n gbc key (fst r) (snd r)) with Ok (Some _) => true | _ => false end = true →
  starts n gbc key r.
Proof. unfold starts. destruct (fst _) as [[copy|]| | |]; by eauto. Qed.

Lemma backup_once_witness :
  starts 1 operator_ns "ns/daily" (lister_env example_backup, []) ∧
  snd (syncHandler 1 operator_ns "ns/daily" (lister_env started_backup) []) = [EvGet "backup" "ns" "daily"] ∧
  ∀ j r', two_rounds !! j = Some r' → starts 1 operator_ns "ns/daily" r' → j = 0%nat.
Proof.
  assert (starts 1 operator_ns "ns/daily" (lister_env example_backup, [])) as Hs
    by (apply started_starts; vm_compute; reflexivity).
  assert (∀ r, r ∈ two_rounds → names_backups (fst r)) as Hn.
  { intros r [->|[->|[]%elem_of_nil]%elem_of_cons]%elem_of_cons; apply lister_env_named. }
  assert (two_rounds !! 0%nat = Some (lister_env example_backup, [])) as E0 by reflexivity.
  assert (two_rounds !! 1%nat = Some (lister_env started_backup, [])) as E1 by reflexivity.
  assert (SplitMetaNamespaceKey "ns/daily" = inl ("ns", "daily")) as Hk by (vm_compute; reflexivity).
  pose proof (backup_once 1 operator_ns "ns/daily" "ns" "daily" two_rounds Hk Hn
    (λ i j r r', two_rounds_fresh r r' i j) 0%nat (lister_env example_backup, []) E0 Hs) as (_ & Hlater & Hone).
  exact (conj Hs (conj (Hlater 1%nat (lister_env started_backup, []) (le_n 1) E1) Hone)).
Defined.

(** With a lister that is out of date a second copy starts. *)
Example stale_lister_starts :
  starts 1 operator_ns "ns/daily" (lister_env example_backup, []) ∧
  starts 1 operator_ns "ns/daily"
    (lister_env example_backup, snd (syncHandler 1 operator_ns "ns/daily" (lister_env example_backup) [])).
Proof. split; apply started_starts; vm_compute; reflexivity. Qed.

Lemma failed_backup_hangs_witness :
  fst (copyBackup (handlerS3 100 example_mb example_provider) example_backup failed_galera
         (backup_env example_backup "failed") []) = OutOfFuel.
Proof.
  pose proof (failed_backup_hangs example_mb example_provider example_backup failed_galera
    (backup_env example_backup "failed") []
    (snd (Mariabackup.Backup example_mb backupDir (backup_env example_backup "failed") []))
    (mkHttpReply 200 (inl (mkHttpResponse "failed" ""))) (mkHttpResponse "failed" "")
    ltac:(vm_compute; reflexivity) eq_refl eq_refl (λ _, eq_refl) 100%nat) as H.
  destruct (copyBackup (handlerS3 100 example_mb example_provider) example_backup failed_galera
    (backup_env example_backup "failed") []) as [o t]. exact (proj1 H).
Defined.

Lemma copyBackup_records_witness :
  @RetryLaws RetryLib_steps ∧
  ∃ file, fst (Backup (handlerS3 1 example_mb example_provider) "gal-daily"
                 (backup_env example_backup "completed") []) = Ok file ∧
    (finishedStatus example_backup file 1 2).(gbs_OutcomeLocation) = file.
Proof.
  split; [exact RetryLaws_steps|].
  pose proof (copyBackup_records (handlerS3 1 example_mb example_provider) example_backup failed_galera
    (backup_env example_backup "completed") []) as H.
  destruct (copyBackup _ _ _ _ _) as [o t].
  assert (∃ file tb, Backup (handlerS3 1 example_mb example_provider)
    (failed_galera.(g_Name) +:+ "-" +:+ example_backup.(gb_Name)) (backup_env example_backup "completed") []
    = (Ok file, tb)) as (file & tb & E) by (eexists _, _; vm_compute; reflexivity).
  rewrite E in H. exists file. split; [exact (f_equal fst E)|].
  destruct H as (t' & _ & _ & Hf). exact (proj1 (Hf 1 2)).
Defined.

Lemma failure_never_recorded_witness :
  @RetryLaws RetryLib_steps ∧
  Forall (statuses (λ st, backupConditionTrue st BackupFailed = false))
    (snd (syncHandler 1 operator_ns "ns/daily" (backup_env example_backup "failed") [])).
Proof.
  split; [exact RetryLaws_steps|].
  pose proof (failure_never_recorded 1 operator_ns "ns/daily" (backup_env example_backup "failed") []) as H.
  destruct (syncHandler 1 operator_ns "ns/daily" (backup_env example_backup "failed") []) as [o t].
  exact (proj1 H).
Defined.
