(* ===== verification/SideCar.v ===== *)
(** * The backup side-car

    Models the handlers of the side-car of a pod, in
    [src/galera-images/galera-backup/pkg/galera-handlers]: requests for a backup
    or a restoration, the goroutines they start, and the states these report.

    What the archives hold is in [Archive], and the S3 provider is in [S3Store]; here a step
    says when one of their calls returns, with or without an error.  A goroutine takes
    a step at each assignment to [StateMap]; the steps of all goroutines and
    requests interleave.  The assignments are atomic, although the source does not
    protect the map. *)
From S2P Require Import Prelude Timestamps Types BackupTypes Objects Names Kube Ownership Storage.

Module SideCar.

(** ** States *)

Definition StateName := string.
Definition StateNone : StateName := "".
Definition StateUnknown : StateName := "unknown".
Definition StateRunning : StateName := "running".
Definition StateCompleted : StateName := "completed".
Definition StateFailed : StateName := "failed".

(** The code and the document of an answer *)
Definition reply (code : Z) (status message : string) : httpReply :=
  mkHttpReply code (inl (mkHttpResponse status message)).

(** Reading a name that is not in the map gives [StateNone]. *)
Definition stateOf (StateMap : gmap string StateName) (name : string) : StateName :=
  default StateNone (StateMap !! name).

(** [State] *)
Definition State (StateMap : gmap string StateName) (name : string) : httpReply :=
  let s := stateOf StateMap name in
  if decide (s = StateNone) then reply 404 StateUnknown (name +:+ " is unknow")
  else reply 200 s (name +:+ " is " +:+ s).

(** [Probe] *)
Definition Probe : httpReply := reply 200 "OK" "Running".

(** ** Storage *)

Record S3StorageProvider := mkS3StorageProvider {
  Region : string;
  Endpoint : string;
  Bucket : string;
  ForcePathStyle : bool;
  AccessKey : string;
  SecretKey : string }.

(** The provider that both handlers make of the document of a request *)
Definition s3provider (doc : S3Document) : S3StorageProvider :=
  mkS3StorageProvider
    (match doc.(doc_region) with None => "us-east-1" | Some region => region end)
    doc.(doc_endpoint) doc.(doc_bucket)
    (match doc.(doc_forcePathStyle) with None => true | Some b => b end)
    doc.(doc_accessKey) doc.(doc_secretKey).

(** ** Goroutines *)

(** The goroutine that archives: running; [TarGzip] returned an error; about to
    close the pipe; over; the last two with what [TarGzip] returned *)
Inductive archiver := ArchRun | ArchErr | ArchClose (ok : bool) | ArchDone (ok : bool).

(** The goroutine that stores: running; [Store] returned; over, with or without
    error *)
Inductive uploader := UpRun | UpReturned (ok : bool) | UpDone (ok : bool).

(** The request for a restoration and the goroutine it starts: waiting for the
    object; [UnTarGzip] running; returned; over.  A request that could not get the
    object has no goroutine. *)
Inductive restorer := ResGet | ResRun | ResReturned (ok : bool) | ResDone (ok : bool).

Inductive job :=
| BackupJob (name : string) (arch : archiver) (up : uploader)
| RestoreJob (name : string) (res : restorer).

Definition job_name (j : job) : string :=
  match j with BackupJob name _ _ | RestoreJob name _ => name end.

(** The server *)
Record server := mkServer { StateMap : gmap string StateName; jobs : list job }.

Definition set_state (name : string) (s : StateName) (srv : server) : server :=
  mkServer (<[name := s]> srv.(StateMap)) srv.(jobs).

(** ** Requests *)

(** [err] is the error of [s3.NewProvider]. *)
Definition S3Backup (err : option error) (doc : S3Document) (srv : server) : server * httpReply :=
  let name := doc.(doc_backupName) in
  let srv := set_state name StateRunning srv in
  match err with
  | Some _ => (set_state name StateFailed srv, reply 404 "failed" "unable to access to s3")
  | None =>
      (mkServer srv.(StateMap) (srv.(jobs) ++ [BackupJob name ArchRun UpRun]),
       reply 200 "scheduled" (name +:+ " is scheduled"))
  end.

(** Up to the request for the object; without answer when it is sent *)
Definition S3Restore (err : option error) (doc : S3Document) (srv : server)
    : server * option httpReply :=
  let name := doc.(doc_backupName) in
  let srv := set_state name StateRunning srv in
  match err with
  | Some _ => (set_state name StateFailed srv, Some (reply 404 "failed" "unable to access to s3"))
  | None => (mkServer srv.(StateMap) (srv.(jobs) ++ [RestoreJob name ResGet]), None)
  end.

(** The rest of [S3Restore], once [provider.Retrieve] returned: the answer, and the
    restoration with its goroutine or over *)
Definition S3Restored (err : option error) (name : string) : restorer * httpReply :=
  match err with
  | Some _ => (ResDone false, reply 404 "failed" "error with s3 storage during restore")
  | None => (ResRun, reply 200 "scheduled" (name +:+ " is scheduled"))
  end.

(** ** Steps *)

(** A step of a goroutine: the assignment it makes, if any.  [Store] succeeds only
    when it has read its pipe to the end, after the archiver closed it. *)
Inductive job_step : job → option StateName → job → Prop :=
| archive_error name up : job_step (BackupJob name ArchRun up) None (BackupJob name ArchErr up)
| archive_ok name up : job_step (BackupJob name ArchRun up) None (BackupJob name (ArchClose true) up)
| archive_failed name up :
    job_step (BackupJob name ArchErr up) (Some StateFailed) (BackupJob name (ArchClose false) up)
| archive_closed name ok up :
    job_step (BackupJob name (ArchClose ok) up) None (BackupJob name (ArchDone ok) up)
| store_error name arch :
    job_step (BackupJob name arch UpRun) None (BackupJob name arch (UpReturned false))
| store_ok name ok :
    job_step (BackupJob name (ArchDone ok) UpRun) None (BackupJob name (ArchDone ok) (UpReturned true))
| store_failed name arch :
    job_step (BackupJob name arch (UpReturned false)) (Some StateFailed)
             (BackupJob name arch (UpDone false))
| store_completed name arch :
    job_step (BackupJob name arch (UpReturned true)) (Some StateCompleted)
             (BackupJob name arch (UpDone true))
| retrieved name err :
    job_step (RestoreJob name ResGet) (match err with Some _ => Some StateFailed | None => None end)
             (RestoreJob name (fst (S3Restored err name)))
| untar_returned name ok : job_step (RestoreJob name ResRun) None (RestoreJob name (ResReturned ok))
| untar_failed name :
    job_step (RestoreJob name (ResReturned false)) (Some StateFailed) (RestoreJob name (ResDone false))
| untar_completed name :
    job_step (RestoreJob name (ResReturned true)) (Some StateCompleted) (RestoreJob name (ResDone true)).

Definition assign (name : string) (s : option StateName) (m : gmap string StateName)
    : gmap string StateName :=
  match s with Some s => <[name := s]> m | None => m end.

(** A step of the server: a request, which names an object, or a step of one of the
    goroutines *)
Inductive step : server → option string → server → Prop :=
| step_backup err doc srv :
    step srv (Some doc.(doc_backupName)) (fst (S3Backup err doc srv))
| step_restore err doc srv :
    step srv (Some doc.(doc_backupName)) (fst (S3Restore err doc srv))
| step_job m l1 j l2 s j' :
    job_step j s j' →
    step (mkServer m (l1 ++ j :: l2)) None (mkServer (assign (job_name j) s m) (l1 ++ j' :: l2)).

Definition start : server := mkServer ∅ [].

(** The servers reached by requests that each name a new object: the names of
    backups end with a time stamp, and a pod restores once. *)
Definition fresh_step (srv srv' : server) : Prop :=
  ∃ request, step srv request srv' ∧ ∀ name, request = Some name → srv.(StateMap) !! name = None.

Definition reachable (srv : server) : Prop := rtc fresh_step start srv.

(** ** Invariant *)

Definition is_done (arch : archiver) : bool := match arch with ArchDone _ => true | _ => false end.

(** The state of an object while a goroutine works on it, and after *)
Definition job_inv (j : job) (s : StateName) : Prop :=
  match j with
  | BackupJob _ arch up =>
      match up with
      | UpDone true => is_done arch = true ∧ s = StateCompleted
      | UpDone false => s = StateFailed
      | UpReturned true => is_done arch = true ∧ (s = StateRunning ∨ s = StateFailed)
      | _ => s = StateRunning ∨ s = StateFailed
      end
  | RestoreJob _ (ResDone true) => s = StateCompleted
  | RestoreJob _ (ResDone false) => s = StateFailed
  | RestoreJob _ _ => s = StateRunning
  end.

(** Each object that was named has a state and at most one goroutine, or two for a
    backup; without goroutine it failed. *)
Record wf (srv : server) : Prop := {
  wf_names : NoDup (job_name <$> srv.(jobs));
  wf_jobs : ∀ j, j ∈ srv.(jobs) → ∃ s, srv.(StateMap) !! job_name j = Some s ∧ job_inv j s;
  wf_states : ∀ name s, srv.(StateMap) !! name = Some s →
                s = StateFailed ∨ ∃ j, j ∈ srv.(jobs) ∧ job_name j = name }.

Lemma wf_start : wf start.
Proof. split; cbn; [constructor|set_solver|]. intros name s Hs. by rewrite lookup_empty in Hs. Qed.

Lemma job_step_name j s j' : job_step j s j' → job_name j' = job_name j.
Proof. by destruct 1. Qed.

Lemma job_step_inv j s j' v :
  job_step j s j' → job_inv j v → job_inv j' (default v s).
Proof.
  destruct 1; repeat match goal with
    | up : uploader |- _ => destruct up as [|[]|[]]
    | err : option error |- _ => destruct err
    | ok : bool |- _ => destruct ok
    end; cbn; naive_solver.
Qed.

(** A new object *)
Lemma wf_refused name srv :
  wf srv → srv.(StateMap) !! name = None → wf (set_state name StateFailed (set_state name StateRunning srv)).
Proof.
  intros [Hn Hj Hs] Hname. split; cbn; [done| |].
  - intros j Hin. destruct (Hj j Hin) as (s & E & Hi). exists s.
    rewrite !lookup_insert_ne by congruence. done.
  - intros nm s. destruct (decide (nm = name)) as [->|Hne].
    + rewrite lookup_insert_eq. intros [= <-]. by left.
    + rewrite !lookup_insert_ne by done. apply Hs.
Qed.

Lemma wf_accepted name j srv :
  wf srv → srv.(StateMap) !! name = None → job_name j = name → job_inv j StateRunning →
  wf (mkServer (set_state name StateRunning srv).(StateMap) (srv.(jobs) ++ [j])).
Proof.
  intros [Hn Hj Hs] Hname <- Hi. split; cbn.
  - rewrite fmap_app. apply NoDup_app. split_and!; [done| |apply NoDup_singleton].
    intros nm Hin Hnm. apply list_elem_of_singleton in Hnm as ->.
    apply list_elem_of_fmap in Hin as (j' & E & Hj'). destruct (Hj j' Hj') as (s & E' & _). congruence.
  - intros j' [Hin|Heq]%elem_of_app.
    + destruct (Hj j' Hin) as (s & E & ?). exists s. rewrite lookup_insert_ne by congruence. done.
    + apply list_elem_of_singleton in Heq as ->. exists StateRunning. by rewrite lookup_insert_eq.
  - intros nm s. destruct (decide (nm = job_name j)) as [->|Hne].
    + intros _. right. exists j. set_solver.
    + rewrite lookup_insert_ne by done. intros Hnm. destruct (Hs nm s Hnm) as [?|(j' & ? & ?)]; [by left|right].
      exists j'. set_solver.
Qed.

Lemma wf_job m l1 j l2 s j' :
  wf (mkServer m (l1 ++ j :: l2)) → job_step j s j' →
  wf (mkServer (assign (job_name j) s m) (l1 ++ j' :: l2)).
Proof.
  intros [Hn Hj Hs] Hstep. cbn in *. pose proof (job_step_name _ _ _ Hstep) as Ename.
  destruct (Hj j) as (v & Ev & Hi); [set_solver|].
  assert (∀ nm, nm ≠ job_name j → assign (job_name j) s m !! nm = m !! nm) as Hother.
  { intros nm Hne. destruct s; cbn; [|done]. by rewrite lookup_insert_ne. }
  assert (assign (job_name j) s m !! job_name j = Some (default v s)) as Hsame.
  { destruct s; cbn; [by rewrite lookup_insert_eq|done]. }
  rewrite fmap_app, fmap_cons in Hn.
  split; cbn.
  - by rewrite fmap_app, fmap_cons, Ename.
  - intros j0 Hin. rewrite elem_of_app, elem_of_cons in Hin.
    assert (j0 = j' ∨ j0 ∈ l1 ∨ j0 ∈ l2) as [->|Hin'] by tauto.
    + exists (default v s). rewrite Ename. split; [done|]. by eapply job_step_inv.
    + destruct (Hj j0) as (v0 & E0 & Hi0); [set_solver|]. exists v0. split; [|done].
      rewrite Hother; [done|]. intros E. rewrite NoDup_app, NoDup_cons in Hn.
      destruct Hn as (_ & Hn1 & Hn2 & _). destruct Hin' as [Hin'|Hin'].
      * apply (Hn1 (job_name j0)); [by apply list_elem_of_fmap_2|]. rewrite E. apply list_elem_of_here.
      * apply Hn2. rewrite <- E. by apply list_elem_of_fmap_2.
  - intros nm v0 E. destruct (decide (nm = job_name j)) as [->|Hne].
    + right. exists j'. split; [set_solver|done].
    + rewrite Hother in E by done. destruct (Hs nm v0 E) as [?|(j0 & Hin & <-)]; [by left|right].
      exists j0. split; [|done]. rewrite elem_of_app, elem_of_cons in *. 
      destruct Hin as [?|[->|?]]; [tauto|done|tauto].
Qed.

Lemma wf_preserved srv srv' : wf srv → fresh_step srv srv' → wf srv'.
Proof.
  intros Hwf (request & Hstep & Hfresh).
  destruct Hstep as [err doc srv'|err doc srv'|m l1 j l2 s j' Hj].
  - specialize (Hfresh _ eq_refl). unfold S3Backup. destruct err; cbn [fst].
    + by apply wf_refused.
    + apply (wf_accepted (doc_backupName doc) (BackupJob _ ArchRun UpRun) srv'); try done. by left.
  - specialize (Hfresh _ eq_refl). unfold S3Restore. destruct err; cbn [fst].
    + by apply wf_refused.
    + by apply (wf_accepted (doc_backupName doc) (RestoreJob _ ResGet) srv').
  - by eapply wf_job.
Qed.

Lemma wf_reachable srv : reachable srv → wf srv.
Proof.
  intros Hr. eapply (rtc_ind_r wf); [exact wf_start| |exact Hr].
  intros x y _ Hs Hx. by eapply wf_preserved.
Qed.

Lemma reachable_job srv j :
  reachable srv → j ∈ srv.(jobs) → ∃ s, srv.(StateMap) !! job_name j = Some s ∧ job_inv j s.
Proof.
  intros Hr Hj. by apply wf_reachable.
Qed.

Lemma reachable_state srv name s :
  reachable srv → srv.(StateMap) !! name = Some s →
  s = StateFailed ∨ ∃ j, j ∈ srv.(jobs) ∧ job_name j = name ∧ job_inv j s.
Proof.
  intros Hr Hs. pose proof (wf_reachable _ Hr) as Hwf.
  destruct (wf_states _ Hwf name s Hs) as [?|(j & Hj & <-)]; [by left|right].
  destruct (wf_jobs _ Hwf j Hj) as (s' & E & Hi). exists j. split_and!; [done..|].
  by replace s with s' by congruence.
Qed.

(** The goroutines that work on an object *)
Definition jobs_of (name : string) (srv : server) : list job :=
  filter (λ j, job_name j = name) srv.(jobs).

(** What a step leaves as it was: the objects other than one *)
Definition same_but (name : string) (srv srv' : server) : Prop :=
  ∀ other, other ≠ name →
    srv'.(StateMap) !! other = srv.(StateMap) !! other ∧ jobs_of other srv' = jobs_of other srv.

Lemma jobs_of_app other m l j :
  other ≠ job_name j → jobs_of other (mkServer m (l ++ [j])) = filter (λ j, job_name j = other) l.
Proof.
  intros Hne. unfold jobs_of. cbn. by rewrite filter_app, filter_cons_False, app_nil_r by congruence.
Qed.

Lemma step_same_but request srv srv' : step srv request srv' → ∃ name, same_but name srv srv'.
Proof.
  destruct 1 as [err doc srv|err doc srv|m l1 j l2 s j' Hj].
  - exists doc.(doc_backupName). intros other Hne. unfold S3Backup. cbv zeta. destruct err; cbn [fst].
    + cbn. by rewrite !lookup_insert_ne by done.
    + split; [cbn; by rewrite lookup_insert_ne|]. by rewrite jobs_of_app.
  - exists doc.(doc_backupName). intros other Hne. unfold S3Restore. cbv zeta. destruct err; cbn [fst].
    + cbn. by rewrite !lookup_insert_ne by done.
    + split; [cbn; by rewrite lookup_insert_ne|]. by rewrite jobs_of_app.
  - exists (job_name j). intros other Hne. split.
    + destruct s; cbn; [by rewrite lookup_insert_ne|done].
    + pose proof (job_step_name _ _ _ Hj) as E. unfold jobs_of. cbn. rewrite !filter_app, !filter_cons.
      by rewrite !decide_False by congruence.
Qed.

(** C15: whatever the interleaving of the requests for new objects and of the
    goroutines they start: an object that was named has a state and at most one
    backup or restoration, which its state follows; one without was refused, and its
    state is failed; and each step, a request or that of a goroutine, is about one
    object: it changes neither the state nor the goroutines of another. *)
Theorem reachable_wf (srv : server) :
  reachable srv →
  wf srv ∧ ∀ srv', fresh_step srv srv' → wf srv' ∧ ∃ name, same_but name srv srv'.
Proof.
  intros Hr. pose proof (wf_reachable _ Hr) as Hw. split; [done|]. intros srv' Hs. split.
  - by eapply wf_preserved.
  - destruct Hs as (request & Hs & _). by eapply step_same_but.
Qed.

(** ** What is reported *)

(** The object was stored, or its archive was extracted. *)
Definition finished (srv : server) (name : string) : Prop :=
  ∃ j, j ∈ srv.(jobs) ∧
       ((∃ ok, j = BackupJob name (ArchDone ok) (UpDone true)) ∨ j = RestoreJob name (ResDone true)).

Lemma completed_finished srv name :
  reachable srv → stateOf srv.(StateMap) name = StateCompleted ↔ finished srv name.
Proof.
  intros Hr. unfold stateOf. split.
  - destruct (StateMap srv !! name) as [s|] eqn:E; cbn; [|done]. intros ->.
    destruct (reachable_state _ _ _ Hr E) as [?|(j & Hj & <- & Hi)]; [done|]. exists j. split; [done|].
    destruct j as [nm arch [|[]|[]]|nm [| |[]|[]]]; cbn in *; try naive_solver.
    destruct arch; naive_solver.
  - intros (j & Hj & Hcase). destruct (reachable_job _ _ Hr Hj) as (s & E & Hi).
    destruct Hcase as [[ok ->]| ->]; cbn in *; rewrite E; naive_solver.
Qed.

Lemma State_stored m name : is_stored (inl (State m name)) = bool_decide (stateOf m name = StateCompleted).
Proof.
  unfold State. case_decide as Hn; [rewrite Hn|]; cbn; [done|].
  case_bool_decide as H1; case_bool_decide as H2; naive_solver.
Qed.

Lemma State_verdict m name :
  verdict (inl (State m name)) =
    if decide (stateOf m name = StateCompleted) then Some (Ok tt)
    else if decide (stateOf m name = StateFailed) then Some (Err (errorf "restore failed")) else None.
Proof. unfold verdict, State. case_decide as Hn; [by rewrite Hn|reflexivity]. Qed.

(** The answer neither says that the object is finished nor that it failed. *)
Definition undecided (srv : server) (name : string) : Prop :=
  ¬ finished srv name ∧ srv.(StateMap) !! name ≠ Some StateFailed.

Lemma stored_finished srv name :
  reachable srv → is_stored (inl (State srv.(StateMap) name)) = true ↔ finished srv name.
Proof. intros Hr. by rewrite State_stored, bool_decide_eq_true, completed_finished. Qed.

Lemma verdict_decides srv name :
  reachable srv →
  let answer := inl (State srv.(StateMap) name) in
  (verdict answer = Some (Ok tt) ↔ finished srv name) ∧
  (verdict answer = Some (Err (errorf "restore failed")) ↔ srv.(StateMap) !! name = Some StateFailed) ∧
  (verdict answer = None ↔ undecided srv name) ∧
  ∀ o, verdict answer = Some o → o = Ok tt ∨ o = Err (errorf "restore failed").
Proof.
  intros Hr answer. unfold undecided. rewrite <- (completed_finished _ _ Hr).
  assert (Hv := State_verdict srv.(StateMap) name). fold answer in Hv. rewrite Hv.
  assert (srv.(StateMap) !! name = Some StateFailed ↔ stateOf srv.(StateMap) name = StateFailed) as ->.
  { unfold stateOf. destruct (StateMap srv !! name); cbn; [split; congruence|split; [done|by intros [=]]]. }
  clearbody answer. clear Hv. case_decide as E1; [|case_decide as E2].
  - rewrite E1. repeat split; try done; try tauto. intros o [= <-]. by left.
  - rewrite E2. repeat split; try done; try tauto. intros o [= <-]. by right.
  - by repeat split.
Qed.

Lemma unknown_undecided srv name : reachable srv → srv.(StateMap) !! name = None → undecided srv name.
Proof.
  intros Hr E. split; [|by rewrite E]. rewrite <- (completed_finished _ _ Hr). unfold stateOf. by rewrite E.
Qed.

(** C27: the operator and the side-car agree.  Let [side] be the side-car at the time
    of each request, in a state that it can reach, answering what it knows of the
    object.  Once it has accepted a backup, [Store] returns without error at the first
    turn at which the object was stored, and asks for ever as long as it is not, even
    when the backup has failed.  Once it has accepted a restoration, [Retrieve]
    returns at the first turn at which the archive was extracted, without error, or
    at which it failed, with an error, and asks for ever as long as there is neither:
    a side-car that does not know the object, because it was restarted, decides
    nothing. *)
Theorem report_decides (p : S3Provider.Provider) (dir key : string) (env : Env) (h : history)
    (side : history → server) :
  let url := S3Provider.url p ("/state/" +:+ key) in
  (∀ h, reachable (side h)) →
  (∀ h, env.(env_ctl).(ctl_http) h "GET" url None = inl (State (side h).(StateMap) key)) →
  (∀ resp response,
     let post := EvHTTP "POST" (S3Provider.url p "/s3")
                   (Some (marshalS3 (S3Provider.with_target dir key p.(S3Provider.s3)))) (inl resp) in
     env.(env_ctl).(ctl_http) h "POST" (S3Provider.url p "/s3")
       (Some (marshalS3 (S3Provider.with_target dir key p.(S3Provider.s3)))) = inl resp →
     resp.(reply_Body) = inl response →
     let at_turn k := side (turns (storeTurn env url) k (h ++ [post])) in
     ∀ n, let o := fst (S3Provider.Store n p dir key env h) in
       (o = Ok tt ↔ ∃ k, (k < n)%nat ∧ finished (at_turn k) key) ∧
       (o = OutOfFuel ↔ ∀ k, (k < n)%nat → ¬ finished (at_turn k) key) ∧
       (o = Ok tt ∨ o = OutOfFuel)) ∧
  (∀ h1, retrieveStart env p key dir h = inl h1 →
     let at_turn k := side (turns (retrieveTurn env url) k h1 ++ [EvSleep]) in
     ∀ n, let o := fst (S3Provider.Retrieve n p key dir env h) in
       (o = Ok tt ↔ ∃ k, (k < n)%nat ∧ (∀ j, (j < k)%nat → undecided (at_turn j) key) ∧ finished (at_turn k) key) ∧
       (o = Err (errorf "restore failed") ↔
          ∃ k, (k < n)%nat ∧ (∀ j, (j < k)%nat → undecided (at_turn j) key) ∧
               (at_turn k).(StateMap) !! key = Some StateFailed) ∧
       (o = OutOfFuel ↔ ∀ k, (k < n)%nat → undecided (at_turn k) key) ∧
       (o = Ok tt ∨ o = Err (errorf "restore failed") ∨ o = OutOfFuel)) ∧
  ∀ h, (side h).(StateMap) !! key = None → undecided (side h) key.
Proof.
  intros url Hr Hanswer. split_and!; [| |intros h' E; by apply unknown_undecided].
  - intros resp response post Hpost Hbody at_turn n o.
    assert (∀ h, is_stored (stateAnswer env url h) = true ↔ finished (side h) key) as Hs
      by (intros h'; unfold stateAnswer; rewrite Hanswer; by apply stored_finished).
    assert (∀ h, is_stored (stateAnswer env url h) = false ↔ ¬ finished (side h) key) as Hf
      by (intros h'; rewrite <- Hs; by destruct (is_stored _)).
    set (answer k := stateAnswer env url (turns (storeTurn env url) k (h ++ [post]))).
    assert ((∃ k, (k < n)%nat ∧ is_stored (answer k) = true ∧ o = Ok tt) ∨
            (∀ k, (k < n)%nat → is_stored (answer k) = false) ∧ o = OutOfFuel) as Hcase
      by exact (Store_turns p dir key env h resp response n Hpost Hbody).
    unfold answer in Hcase. clearbody o. destruct Hcase as [(k & Hk & Ek & ->)|[Hn ->]].
    + apply Hs in Ek. split_and!; [|split; [done|]|by left]; [split; [|done]; eauto|].
      intros Hall. by destruct (Hall k Hk).
    + split_and!; [split; [done|]|split; [|done]|by right].
      * intros (k & Hk & Ek). by apply Hn, Hf in Hk.
      * intros _ k Hk. by apply Hf, Hn.
  - intros h1 Hstart at_turn n o.
    set (answer k := stateAnswer env url (turns (retrieveTurn env url) k h1 ++ [EvSleep])).
    assert (∀ o', o' ≠ OutOfFuel → o = o' ↔
              ∃ k, (k < n)%nat ∧ (∀ j, (j < k)%nat → verdict (answer j) = None) ∧ verdict (answer k) = Some o')
      as Hrun by exact (proj1 (Retrieve_waits p key dir env h h1 Hstart) n).
    assert (o = OutOfFuel ↔ ∀ k, (k < n)%nat → verdict (answer k) = None) as Hfuel
      by exact (proj2 (Retrieve_waits p key dir env h h1 Hstart) n).
    assert (∀ k, answer k = inl (State (at_turn k).(StateMap) key)) as Ha
      by (intros k; unfold answer, stateAnswer; apply Hanswer).
    assert (∀ k, reachable (at_turn k)) as Hrk by (intros k; apply Hr). clearbody at_turn answer.
    pose proof (λ k, verdict_decides _ key (Hrk k)) as Hv. cbv zeta in Hv.
    assert (∀ k, (∀ j, (j < k)%nat → verdict (answer j) = None) ↔ ∀ j, (j < k)%nat → undecided (at_turn j) key) as Hu.
    { intros k. split; intros Hall j Hj; specialize (Hall j Hj); revert Hall; rewrite Ha; apply Hv. }
    split_and!.
    + rewrite Hrun by done. split; intros (k & Hk & Hj & Ho); exists k; split; try done.
      * split; [exact (proj1 (Hu k) Hj)|]. rewrite Ha in Ho. by apply (Hv k).
      * split; [exact (proj2 (Hu k) Hj)|]. rewrite Ha. by apply (Hv k).
    + rewrite Hrun by done. split; intros (k & Hk & Hj & Ho); exists k; split; try done.
      * split; [exact (proj1 (Hu k) Hj)|]. rewrite Ha in Ho. by apply (Hv k).
      * split; [exact (proj2 (Hu k) Hj)|]. rewrite Ha. by apply (Hv k).
    + rewrite Hfuel. apply Hu.
    + destruct (decide (o = OutOfFuel)) as [->|Hne]; [by right; right|].
      destruct (proj1 (Hrun o Hne) eq_refl) as (k & _ & _ & Ho). rewrite Ha in Ho.
      apply Hv in Ho. tauto.
Qed.

(** An archive that failed, and whose store succeeded *)
Definition failed_archive (name : string) : server :=
  mkServer (<[name := StateCompleted]> (<[name := StateFailed]> (<[name := StateRunning]> ∅)))
    [BackupJob name (ArchDone false) (UpDone true)].

Lemma failed_archive_reachable name : reachable (failed_archive name).
Proof.
  set (doc := mkS3Document "" "" "" name "" "" None None).
  assert (∀ m j s j', job_step j s j' → fresh_step (mkServer m [j]) (mkServer (assign (job_name j) s m) [j'])) as Hjob.
  { intros m j s j' Hs. exists None. split; [|done]. exact (step_job m [] j [] s j' Hs). }
  unfold reachable.
  eapply rtc_l; [exists (Some name); split; [exact (step_backup None doc start)|]; intros ? [= <-]; apply lookup_empty|].
  eapply rtc_l; [apply Hjob, archive_error|]. eapply rtc_l; [apply Hjob, archive_failed|].
  eapply rtc_l; [apply Hjob, archive_closed|]. eapply rtc_l; [apply Hjob, store_ok|].
  eapply rtc_l; [apply Hjob, store_completed|]. apply rtc_refl.
Qed.

(** When the goroutines of a backup are over, what is reported is the result
    of the store alone.  An archive that could not be completed closes its pipe like
    one that is: the store takes what it got for the whole, and the backup is
    reported as completed, so that the operator records it as complete. *)
Theorem backup_report (name : string) :
  (∀ srv archived ok, reachable srv → BackupJob name (ArchDone archived) (UpDone ok) ∈ srv.(jobs) →
     State srv.(StateMap) name =
       if (ok : bool) then reply 200 StateCompleted (name +:+ " is completed")
       else reply 200 StateFailed (name +:+ " is failed")) ∧
  ∃ srv, reachable srv ∧ BackupJob name (ArchDone false) (UpDone true) ∈ srv.(jobs) ∧
         is_stored (inl (State srv.(StateMap) name)) = true.
Proof.
  split.
  - intros srv archived ok Hr Hj. destruct (reachable_job _ _ Hr Hj) as (s & E & Hi).
    unfold State, stateOf. cbn in E. rewrite E.
    destruct ok; cbn in Hi; [destruct Hi as [_ ->]|subst s]; reflexivity.
  - exists (failed_archive name). split; [apply failed_archive_reachable|].
    split; [apply list_elem_of_here|]. rewrite State_stored. apply bool_decide_eq_true.
    unfold stateOf, failed_archive. cbn. by rewrite lookup_insert_eq.
Qed.

(** What the side-car makes of the specification of the storage: the endpoint,
    the bucket and the credentials are those of the specification; without region
    it takes us-east-1; and it uses path style addresses, whatever the
    specification says, since the operator never sends the flag. *)
Theorem s3provider_settings `{ApiMachinery} (spec : Types.S3StorageProvider)
    (creds : gmap string string) (pod : Pod) (dir key : string) (p : S3Provider.Provider) :
  S3Provider.NewProvider (Some spec) (Some creds) pod = Ok p →
  let doc := marshalS3 (S3Provider.with_target dir key p.(S3Provider.s3)) in
  doc.(doc_backupName) = key ∧ doc.(doc_backupDir) = dir ∧
  (is_Some (creds !! "accessKeyId") → is_Some (creds !! "secretAccessKey") →
   s3provider doc =
     mkS3StorageProvider (if decide (spec.(s3_Region) = "") then "us-east-1" else spec.(s3_Region))
       spec.(s3_Endpoint) spec.(s3_Bucket) true
       (default "" (creds !! "accessKeyId")) (default "" (creds !! "secretAccessKey"))).
Proof.
  intros Hp doc. unfold S3Provider.NewProvider, S3Provider.getCredentials, twoCredentials in Hp.
  split_and!; [done..|]. intros [k1 H1] [k2 H2]. revert Hp.
  assert (required creds ["accessKeyId"; "secretAccessKey"] = []) as ->.
  { unfold required. rewrite !filter_cons, H1, H2, !decide_False by done. done. }
  cbn. intros [= <-]. unfold doc, s3provider, marshalS3. cbn. rewrite H1, H2. cbn.
  destruct (s3_ForcePathStyle spec); cbn; repeat case_decide; try done; congruence.
Qed.
End SideCar.

Import SideCar.

(** ** Examples *)

(** A side-car that stays as it is, and answers what it knows of an object *)
Definition staying (srv : server) (key : string) : Env :=
  env_with_controller env_ok.(env_galeraGet) env_ok.(env_revisionList) env_ok.(env_revisionAdopt)
    (ctl_with_http (λ _ _ _ _, inl (State srv.(StateMap) key)) ctl_ok) env_ok.

(** The backup was stored, although its archive failed; a side-car that was restarted
    does not know it, and the restoration never ends. *)
Lemma report_decides_witness :
  fst (S3Provider.Store 1 example_provider backupDir "b" (staying (failed_archive "b") "b") []) = Ok tt ∧
  ∀ n, fst (S3Provider.Retrieve n example_provider "b" restoreDir (staying start "b") []) = OutOfFuel.
Proof.
  split.
  - refine (proj2 (proj1 (proj1 (report_decides example_provider backupDir "b" (staying (failed_archive "b") "b") []
      (λ _, failed_archive "b") (λ _, failed_archive_reachable "b") (λ _, eq_refl))
      (State (failed_archive "b").(StateMap) "b") _ eq_refl eq_refl 1%nat)) _).
    exists 0%nat. split; [lia|]. exists (BackupJob "b" (ArchDone false) (UpDone true)).
    split; [apply list_elem_of_here|]. left. by exists false.
  - intros n.
    pose proof (report_decides example_provider restoreDir "b" (staying start "b") []
      (λ _, start) (λ _, rtc_refl _ _) (λ _, eq_refl)) as (_ & Hret & Hunknown).
    refine (proj2 (proj1 (proj2 (proj2 (Hret _ eq_refl n)))) _).
    intros k _. exact (Hunknown [] eq_refl).
Defined.

Lemma reachable_wf_witness : wf (failed_archive "b").
Proof. exact (proj1 (reachable_wf (failed_archive "b") (failed_archive_reachable "b"))). Defined.

Lemma s3provider_settings_witness :
  (s3provider (marshalS3 (S3Provider.with_target "/var/backup" "b" example_provider.(S3Provider.s3)))).(ForcePathStyle)
    = true.
Proof.
  destruct (s3provider_settings example_s3 s3_creds example_backup_pod "/var/backup" "b" example_provider eq_refl)
    as (_ & _ & E). rewrite E; [reflexivity|by eexists..].
Defined.
