(* ===== verification/GoText.v ===== *)
(** * Formats and regular expressions of Go

    What the bootstrap of a node uses of the standard library: [fmt.Sprintf] with
    a format and no operand, and [regexp.ReplaceAllString] for the expressions that
    match a line that starts with a key in any case, and have the rest of the line
    as a group, with the expansion of the replacement.  Texts are ASCII: the verbs
    and the names of a text are bytes here, runes in Go. *)
From S2P Require Import Prelude.

(** ** Scanning *)

(** The longest prefix whose bytes satisfy a predicate, and the rest *)
Fixpoint span (P : ascii → bool) (s : string) : string * string :=
  match s with
  | "" => ("", "")
  | String c s' => if P c then let (a, b) := span P s' in (String c a, b) else ("", s)
  end.

(** The text before the first occurrence of a byte, and what follows it *)
Fixpoint cut (c : ascii) (s : string) : option (string * string) :=
  match s with
  | "" => None
  | String x s' =>
      if decide (x = c) then Some ("", s')
      else match cut c s' with Some (a, b) => Some (String x a, b) | None => None end
  end.

Fixpoint decimal (acc : Z) (s : string) : Z :=
  match s with
  | "" => acc
  | String c s' => decimal (acc * 10 + Z.of_nat (nat_of_ascii c - 48)) s'
  end.

(** ** [fmt.Sprintf] without operands *)
Module Fmt.

Definition is_flag (c : ascii) : bool := bool_decide (c ∈ ["#"; "0"; "+"; "-"; " "]%char).

(** [parsenum]: whether there is a number, and the rest; a number above 1e6 is none
    and ends the format. *)
Definition parsenum (s : string) : bool * string :=
  let (n, rest) := span is_digit s in
  if decide (n = "") then (false, s)
  else if decide (1000000 < decimal 0 n) then (false, "") else (true, rest).

(** [argNumber] when there is no operand: whether there is an index, which is then
    bad, whether it is well formed, and the rest *)
Definition argNumber (s : string) : bool * bool * string :=
  match s with
  | String "[" s' =>
      if decide (String.length s < 3)%nat then (true, false, s')
      else match cut "]" s' with
           | None => (true, false, s')
           | Some (index, rest) =>
               let (ok, left) := parsenum index in
               (true, ok && bool_decide (left = ""), rest)
           end
  | _ => (false, false, s)
  end.

(** What is printed for the text that follows a percent sign, and the rest *)
Definition directive (s : string) : string * string :=
  let s := snd (span is_flag s) in
  let '(bad, after, s) := argNumber s in
  let '(out, bad, after, s) :=
    match s with
    | String "*" s => ("%!(BADWIDTH)", bad, false, s)
    | _ => let (num, s) := parsenum s in ("", bad || after && num, after, s)
    end in
  let '(out, bad, after, s) :=
    match s with
    | String "." s =>
        let bad := bad || after in
        let '(bad', after, s) := argNumber s in
        let bad := bad || bad' in
        match s with
        | String "*" s => (out +:+ "%!(BADPREC)", bad, false, s)
        | _ => (out, bad, after, snd (parsenum s))
        end
    | _ => (out, bad, after, s)
    end in
  let '(bad, s) := if (after : bool) then (bad, s) else let '(bad', _, s) := argNumber s in (bad || bad', s) in
  match s with
  | "" => (out +:+ "%!(NOVERB)", "")
  | String verb s =>
      (out +:+ (if decide (verb = "%"%char) then "%"
                else "%!" +:+ String verb (if (bad : bool) then "(BADINDEX)" else "(MISSING)")), s)
  end.

(** Each directive takes at least one byte, so that the length bounds their number. *)
Fixpoint doPrintf (n : nat) (format : string) : string :=
  match n with
  | O => format
  | S n' =>
      match cut "%" format with
      | None => format
      | Some (text, rest) => let (out, rest) := directive rest in text +:+ out +:+ doPrintf n' rest
      end
  end.

Definition Sprintf (format : string) : string := doPrintf (String.length format) format.

Example Sprintf_plain : Sprintf "a=b" = "a=b".
Proof. reflexivity. Qed.
Example Sprintf_percent : Sprintf "100%%" = "100%".
Proof. reflexivity. Qed.
Example Sprintf_verb : Sprintf "p%d5" = "p%!d(MISSING)5".
Proof. reflexivity. Qed.
Example Sprintf_end : Sprintf "a%" = "a%!(NOVERB)".
Proof. reflexivity. Qed.
Example Sprintf_index : Sprintf "%[1]d|%5.2f|%*d" = "%!d(BADINDEX)|%!f(MISSING)|%!(BADWIDTH)%!d(MISSING)".
Proof. reflexivity. Qed.
End Fmt.

(** ** Expressions for the lines that start with a key *)
Module Line.

(** A line starts with the key, whatever the case of its letters. *)
Definition matches (key line : string) : bool := HasPrefix (ToLower line) (ToLower key).

(** The match, on a line, and its group *)
Definition group (key line : string) : string := str_drop (String.length key) line.

(** [Find]: the first line that matches, or nothing *)
Definition Find (key s : string) : string :=
  default "" (find (matches key) (lines s)).

(** ** The expansion of a replacement *)

Definition is_name (c : ascii) : bool :=
  is_upper c || is_lower c || is_digit c || bool_decide (c = "_"%char).

(** The number of a group, when the name is one; it has no leading zero. *)
Definition group_number (name : string) : option Z :=
  if negb (str_forall is_digit name) then None
  else if HasPrefix name "0" && (1 <? String.length name)%nat then None
  else if (9 <? String.length name)%nat then None
  else Some (decimal 0 name).

(** [extract], on the text that follows a dollar sign: a name and the rest *)
Definition extract (s : string) : option (string * string) :=
  match s with
  | String "{" s' =>
      let (name, rest) := span is_name s' in
      match name, rest with
      | "", _ => None
      | _, String "}" rest => Some (name, rest)
      | _, _ => None
      end
  | _ => match span is_name s with ("", _) => None | (name, rest) => Some (name, rest) end
  end.

(** What a name stands for in a match: the match, its only group, or nothing *)
Definition submatch (whole group name : string) : string :=
  match group_number name with
  | Some 0 => whole
  | Some 1 => group
  | _ => ""
  end.

Fixpoint expand (n : nat) (whole group template : string) : string :=
  match n with
  | O => template
  | S n' =>
      match cut "$" template with
      | None => template
      | Some (text, rest) =>
          text +:+
          match rest with
          | String "$" rest => String "$" (expand n' whole group rest)
          | _ =>
              match extract rest with
              | None => String "$" (expand n' whole group rest)
              | Some (name, rest) => submatch whole group name +:+ expand n' whole group rest
              end
          end
      end
  end.

(** [ReplaceAllString] *)
Definition replace (key template line : string) : string :=
  if matches key line then expand (String.length template) line (group key line) template else line.

#[global] Arguments matches : simpl never.
#[global] Arguments replace : simpl never.

Definition newline_string : string := String newline "".

Definition ReplaceAllString (key s template : string) : string :=
  Join (replace key template <$> lines s) newline_string.

Example expand_name : replace "key" "key=pa$word" "KEY = 3" = "key=pa".
Proof. reflexivity. Qed.
Example expand_group : replace "key" "key=$1!$$${0}$" "Key=3" = "key==3!$Key=3$".
Proof. reflexivity. Qed.
End Line.

(** ** Lemmas *)

Definition plain_char (c : ascii) : bool :=
  not_char "%" c && not_char "$" c && not_char newline c.

(** Texts that [Sprintf] and the expansion of a replacement leave alone, on one line *)
Definition plain (s : string) : bool := str_forall plain_char s.

Definition one_line (s : string) : bool := str_forall (not_char newline) s.

Lemma plain_app s t : plain (s +:+ t) = plain s && plain t.
Proof. apply str_forall_app. Qed.

Lemma plain_one_line s : plain s = true → one_line s = true.
Proof. apply str_forall_impl. intros c. unfold plain_char. rewrite !andb_true_iff. tauto. Qed.

Lemma cut_none c s : str_forall (not_char c) s = true → cut c s = None.
Proof.
  induction s as [|x s IH]; cbn; [done|]. unfold not_char at 1.
  rewrite andb_true_iff, negb_true_iff, bool_decide_eq_false. intros [Hx Hs].
  by rewrite decide_False, IH.
Qed.

Lemma cut_app c s t : str_forall (not_char c) s = true → cut c (s +:+ String c t) = Some (s, t).
Proof.
  induction s as [|x s IH]; cbn; [by rewrite decide_True|]. unfold not_char at 1.
  rewrite andb_true_iff, negb_true_iff, bool_decide_eq_false. intros [Hx Hs].
  by rewrite decide_False, IH.
Qed.

Lemma Sprintf_plain_id s : plain s = true → Fmt.Sprintf s = s.
Proof.
  intros H. unfold Fmt.Sprintf. destruct s as [|c s]; [done|]. cbn [String.length Fmt.doPrintf].
  rewrite cut_none; [done|]. revert H. apply str_forall_impl.
  intros x. unfold plain_char. rewrite !andb_true_iff. tauto.
Qed.

Lemma expand_plain n whole group s : plain s = true → Line.expand n whole group s = s.
Proof.
  intros H. destruct n as [|n]; [done|]. cbn. rewrite cut_none; [done|].
  revert H. apply str_forall_impl. intros x. unfold plain_char. rewrite !andb_true_iff. tauto.
Qed.

(** *** Lines *)

Lemma lines_cons s : ∃ l ls, lines s = l :: ls.
Proof. destruct s as [|c s]; cbn; [eauto|]. repeat case_match; eauto. Qed.

(** The last line of a text and the first of the next make one. *)
Lemma lines_app s t xs l l' ys :
  lines s = xs ++ [l] → lines t = l' :: ys → lines (s +:+ t) = xs ++ (l +:+ l') :: ys.
Proof.
  revert xs l. induction s as [|c s IH]; intros xs l Hs Ht.
  - destruct xs as [|x [|]]; simplify_eq/=. by rewrite Ht.
  - cbn in Hs |- *. destruct (lines_cons s) as (a & ls & Ha). case_decide.
    + destruct xs as [|x xs]; injection Hs as; [congruence|]. cbn. f_equal; [done|]. by apply IH.
    + rewrite Ha in Hs. destruct xs as [|x xs]; simplify_eq/=.
      * by rewrite (IH [] a Ha Ht).
      * by rewrite (IH (a :: xs) l Ha Ht).
Qed.

Lemma lines_one s : one_line s = true → lines s = [s].
Proof.
  induction s as [|c s IH]; cbn; [done|]. unfold not_char at 1.
  rewrite andb_true_iff, negb_true_iff, bool_decide_eq_false. intros [Hc Hs].
  by rewrite decide_False, IH.
Qed.

Lemma lines_newline s : lines (String newline s) = "" :: lines s.
Proof. cbn. by rewrite decide_True. Qed.

Lemma lines_snoc s : ∃ xs l, lines s = xs ++ [l].
Proof.
  destruct (lines_cons s) as (a & ls & ->).
  destruct (exists_last (l := a :: ls)) as (xs & l & E); [done|]. rewrite E. eauto.
Qed.

(** A newline between two texts separates their lines. *)
Lemma lines_app_newline s t : lines (s +:+ String newline t) = lines s ++ lines t.
Proof.
  destruct (lines_snoc s) as (xs & l & E).
  rewrite (lines_app _ _ _ _ _ _ E (lines_newline t)), E, <- app_assoc. by autorewrite with galera_rw.
Qed.

Lemma lines_one_line s : Forall (λ l, one_line l = true) (lines s).
Proof.
  induction s as [|c s IH]; cbn; [by repeat constructor|]. case_decide as Hc; [by constructor|].
  destruct (lines s) as [|l ls]; [by repeat constructor; cbn; rewrite andb_true_r; unfold not_char; rewrite bool_decide_eq_false_2|].
  inversion IH; subst. constructor; [|done]. cbn. unfold not_char at 1. by rewrite bool_decide_eq_false_2.
Qed.

Lemma Join_cons l ls sep : ls ≠ [] → Join (l :: ls) sep = l +:+ sep +:+ Join ls sep.
Proof. by destruct ls. Qed.

Lemma lines_Join ls :
  ls ≠ [] → Forall (λ l, one_line l = true) ls → lines (Join ls Line.newline_string) = ls.
Proof.
  induction ls as [|l ls IH]; intros Hn Hl; [done|]. inversion Hl; subst.
  destruct ls as [|l' ls]; [by apply lines_one|].
  rewrite Join_cons by done. cbn [Line.newline_string String.append].
  rewrite lines_app_newline, lines_one, IH by done. done.
Qed.

Lemma Join_lines s : Join (lines s) Line.newline_string = s.
Proof.
  induction s as [|c s IH]; [done|]. destruct (lines_cons s) as (a & ls & E). cbn [lines].
  case_decide as Hc.
  - rewrite Join_cons by (by rewrite E). rewrite IH. subst. done.
  - rewrite E in IH |- *. destruct ls; cbn in *; by f_equal.
Qed.

Lemma lines_inj s t : lines s = lines t → s = t.
Proof. intros H. by rewrite <- (Join_lines s), <- (Join_lines t), H. Qed.

(** *** Keys *)

(** No line can start with both keys. *)
Definition apart (k k' : string) : bool :=
  negb (HasPrefix (ToLower k) (ToLower k')) && negb (HasPrefix (ToLower k') (ToLower k)).

Lemma HasPrefix_both s p q : HasPrefix s p = true → HasPrefix s q = true →
  HasPrefix p q = true ∨ HasPrefix q p = true.
Proof.
  revert p q. induction s as [|c s IH]; intros [|a p] [|b q]; cbn; auto; try done.
  rewrite !andb_true_iff, !bool_decide_eq_true. intros [-> H1] [-> H2].
  destruct (IH _ _ H1 H2); auto.
Qed.

Lemma matches_apart k k' line :
  apart k k' = true → Line.matches k line = true → Line.matches k' line = false.
Proof.
  unfold apart, Line.matches. rewrite andb_true_iff, !negb_true_iff. intros [H1 H2] H.
  apply not_true_iff_false. intros H'. destruct (HasPrefix_both _ _ _ H H'); congruence.
Qed.

Lemma ToLower_app s t : ToLower (s +:+ t) = ToLower s +:+ ToLower t.
Proof. induction s; cbn; congruence. Qed.

Lemma matches_app k t : Line.matches k (k +:+ t) = true.
Proof. unfold Line.matches. rewrite ToLower_app. apply HasPrefix_app. Qed.

Lemma Find_none k s : k ≠ "" → Line.Find k s = "" ↔ existsb (Line.matches k) (lines s) = false.
Proof.
  intros Hk. unfold Line.Find. induction (lines s) as [|l ls IH]; cbn; [done|].
  destruct (Line.matches k l) eqn:E; cbn; [|done]. split; [|done]. intros ->.
  destruct k; done.
Qed.

Lemma replace_plain k t l :
  plain t = true → Line.replace k t l = if Line.matches k l then t else l.
Proof. intros H. unfold Line.replace. by rewrite expand_plain. Qed.

#[global] Arguments plain : simpl never.
#[global] Arguments one_line : simpl never.
