(* ===== verification/GoFlag.v ===== *)
(** * The flags of Go's commands

    [flag.Parse] of the standard library, on the flags of the bootstrap and of the
    operator: strings, booleans and integers.  A flag starts with one or two
    hyphens; its value follows an equals sign or is the next argument, except that of
    a boolean; the flags end at the first argument that is not one. *)
From S2P Require Import Prelude GoText.

Inductive value := VString (s : string) | VBool (b : bool) | VInt (z : Z).

(** [strconv.ParseBool] *)
Definition ParseBool (v : string) : option bool :=
  if decide (v ∈ ["1"; "t"; "T"; "TRUE"; "true"; "True"]) then Some true
  else if decide (v ∈ ["0"; "f"; "F"; "FALSE"; "false"; "False"]) then Some false
  else None.

Definition digit (c : ascii) : option Z :=
  let n := Z.of_nat (nat_of_ascii (lower_char c)) in
  if (48 <=? n) && (n <=? 57) then Some (n - 48)
  else if (97 <=? n) && (n <=? 122) then Some (n - 87) else None.

(** The digits of a base; underscores are skipped. *)
Fixpoint digits (base : Z) (s : string) (n : Z) : option Z :=
  match s with
  | "" => Some n
  | String c s' =>
      if decide (c = "_"%char) then digits base s' n
      else match digit c with
           | Some d => if d <? base then digits base s' (n * base + d) else None
           | None => None
           end
  end.

(** Underscores only separate digits; [saw] is what was read before: nothing, a
    digit or a prefix, an underscore, or something else. *)
Inductive saw := SawStart | SawDigit | SawUnderscore | SawOther.

Fixpoint underscoreOK (hex : bool) (last : saw) (s : string) : bool :=
  match s with
  | "" => match last with SawUnderscore => false | _ => true end
  | String c s' =>
      if match digit c with Some d => (d <? 10) || (hex && (d <? 16)) | None => false end
      then underscoreOK hex SawDigit s'
      else if decide (c = "_"%char)
      then match last with SawDigit => underscoreOK hex SawUnderscore s' | _ => false end
      else match last with SawUnderscore => false | _ => underscoreOK hex SawOther s' end
  end.

(** The number without its sign: its base, its digits, and whether its underscores
    are in place *)
Definition parseUint (s : string) : option Z :=
  match s with
  | "" => None
  | String "0" s' =>
      let prefixed base hex rest := if underscoreOK hex SawDigit rest then digits base rest 0 else None in
      match s' with
      | String c (String _ _ as rest) =>
          let c := lower_char c in
          if decide (c = "b"%char) then prefixed 2 false rest
          else if decide (c = "o"%char) then prefixed 8 false rest
          else if decide (c = "x"%char) then prefixed 16 true rest
          else if underscoreOK false SawStart s then digits 8 s' 0 else None
      | _ => if underscoreOK false SawStart s then digits 8 s' 0 else None
      end
  | _ => if underscoreOK false SawStart s then digits 10 s 0 else None
  end.

(** [strconv.ParseInt], in any base, of 64 bits *)
Definition ParseInt (s : string) : option Z :=
  let '(negative, s') := match s with
    | String "-" s' => (true, s') | String "+" s' => (false, s') | _ => (false, s) end in
  n ← parseUint s';
  if negative then if n <=? 9223372036854775808 then Some (- n) else None
  else if n <? 9223372036854775808 then Some n else None.

Example parse_ints :
  ParseInt <$> ["30"; "-5"; "0x1F"; "010"; "1_000"; "0"; "1__0"; "3s"; "9223372036854775808"; ""; "-"; "0x"] =
  [Some 30; Some (-5); Some 31; Some 8; Some 1000; Some 0; None; None; None; None; None; None].
Proof. vm_compute. reflexivity. Qed.

(** [Set] of the value of a flag *)
Definition setValue (v : value) (s : string) : option value :=
  match v with
  | VString _ => Some (VString s)
  | VBool _ => VBool <$> ParseBool s
  | VInt _ => VInt <$> ParseInt s
  end.

Inductive parse_error := Help | BadSyntax (s : string) | NotDefined (name : string)
| InvalidValue (name s : string) | NeedsArgument (name : string).

(** The first equals sign, not at the start *)
Definition cutValue (name : string) : string * option string :=
  match cut "=" name with Some (n, v) => (n, Some v) | None => (name, None) end.

(** The flags that are set, and the arguments that are left *)
Fixpoint Parse (args : list string) (formal : gmap string value)
    : (gmap string value * list string) + parse_error :=
  match args with
  | [] => inl (formal, [])
  | s :: args' =>
      match s with
      | String "-" (String _ _ as name) =>
          if decide (name = "-") then inl (formal, args')
          else
            let name := match name with String "-" name => name | _ => name end in
            if HasPrefix name "-" || HasPrefix name "=" then inr (BadSyntax s)
            else
              let '(name, given) := cutValue name in
              match formal !! name with
              | None => if decide (name = "help" ∨ name = "h") then inr Help else inr (NotDefined name)
              | Some (VBool b) =>
                  match setValue (VBool b) (default "true" given) with
                  | Some v => Parse args' (<[name := v]> formal)
                  | None => inr (InvalidValue name (default "true" given))
                  end
              | Some old =>
                  match given, args' with
                  | Some s, _ =>
                      match setValue old s with
                      | Some v => Parse args' (<[name := v]> formal)
                      | None => inr (InvalidValue name s)
                      end
                  | None, s :: args'' =>
                      match setValue old s with
                      | Some v => Parse args'' (<[name := v]> formal)
                      | None => inr (InvalidValue name s)
                      end
                  | None, [] => inr (NeedsArgument name)
                  end
              end
      | _ => inl (formal, args)
      end
  end.

Definition getString (name : string) (m : gmap string value) : string :=
  match m !! name with Some (VString s) => s | _ => "" end.
Definition getBool (name : string) (m : gmap string value) : bool :=
  match m !! name with Some (VBool b) => b | _ => false end.
Definition getInt (name : string) (m : gmap string value) : Z :=
  match m !! name with Some (VInt z) => z | _ => 0 end.
