(* ===== verification/Bootstrap.v ===== *)
(** * The bootstrap of a node

    Models [src/galera-images/galera-bootstrap/main.go]: before MariaDB starts, an
    init container writes the options of the cluster in the configuration file.
    [Fatalf], which ends the program, is an error here; reading and writing files
    is left to the caller. *)
From S2P Require Import Prelude GoText GoFlag Types Objects Names PodLib.

Module Bootstrap.

(** The variables the flags set *)
Record settings := mkSettings {
  inputConf : string;
  outputConf : string;
  clusterName : string;
  nodeName : string;
  clusterAddresses : string;
  user : string;
  password : string;
  clusterEnabled : bool;
  printVersion : bool }.

(** The flags with their defaults, in [init] *)
Definition formal : gmap string value := list_to_map
  [("input-conf", VString "input/my.cnf"); ("output-conf", VString "output/my.cnf");
   ("cluster-name", VString "test-cluster"); ("cluster-addresses", VString "");
   ("node-name", VString "test-node"); ("user", VString ""); ("password", VString "");
   ("cluster", VBool true); ("version", VBool false)].

Definition settingsOf (flags : gmap string value) : settings :=
  mkSettings (getString "input-conf" flags) (getString "output-conf" flags)
    (getString "cluster-name" flags) (getString "node-name" flags) (getString "cluster-addresses" flags)
    (getString "user" flags) (getString "password" flags) (getBool "cluster" flags) (getBool "version" flags).

(** ** The file *)

Definition nl : string := String newline "".
Definition quote (s : string) : string :=
  String (ascii_of_nat 34) (s +:+ String (ascii_of_nat 34) "").

Definition header : string := "# Added by Galera Bootstrap".

Definition addInfo (data : string) (added : bool) : string * bool :=
  if added then (data, added) else (data +:+ nl +:+ nl +:+ header +:+ nl, true).

(** The text that is repeated for each option: its lines are replaced, or it is
    added at the end. *)
Definition setOption (key replacement : string) (st : string * bool) : string * bool :=
  let (sData, added) := st in
  if decide (Line.Find key sData ≠ "") then (Line.ReplaceAllString key sData replacement, added)
  else
    let (sData, added) := addInfo sData added in
    (sData +:+ replacement +:+ nl, added).

(** The options with their values, before [Sprintf]; the last has none. *)
Definition rawOptions (s : settings) (nodeAddress : string) : list (string * string) :=
  [("wsrep_cluster_name", "wsrep_cluster_name=" +:+ s.(clusterName));
   ("wsrep_cluster_address", "wsrep_cluster_address=" +:+ quote ("gcomm://" +:+ s.(clusterAddresses)));
   ("wsrep_node_name", "wsrep_node_name=" +:+ s.(nodeName));
   ("wsrep_node_address", "wsrep_node_address=" +:+ nodeAddress);
   ("wsrep_sst_auth", "wsrep_sst_auth=" +:+ quote (s.(user) +:+ ":" +:+ s.(password)));
   ("wsrep_on", "wsrep_on=" +:+ (if s.(clusterEnabled) then "ON" else "OFF"))].

Definition dataDir : string * string := ("datadir", "datadir=/var/lib/mysql").

Definition options (s : settings) (nodeAddress : string) : list (string * string) :=
  ((λ o : string * string, (o.1, Fmt.Sprintf o.2)) <$> rawOptions s nodeAddress) ++ [dataDir].

(** [podIP] is the variable of the environment, [file] the content of [inputConf]. *)
Definition modifyFile (s : settings) (podIP : string) (file : option string) : string + string :=
  if decide (podIP = "") then inr "must set env (POD_IP)"
  else
    match file with
    | None => inr ("error opening " +:+ s.(inputConf) +:+ " file")
    | Some sData =>
        inl (fst (fold_left (λ st o, setOption (fst o) (snd o) st) (options s podIP) (sData, false)))
    end.

(** What [main] does: the code with which it exits, and the files, of which those
    that cannot be written are given *)
Definition main (args : list string) (podIP : string) (unwritable : string → bool) (files : gmap string string)
    : Z * gmap string string :=
  match Parse args formal with
  | inr _ => (2, files)
  | inl (flags, _) =>
      let s := settingsOf flags in
      if s.(printVersion) then (0, files)
      else
        match modifyFile s podIP (files !! s.(inputConf)) with
        | inr _ => (1, files)
        | inl out => if unwritable s.(outputConf) then (1, files) else (0, <[s.(outputConf) := out]> files)
        end
  end.

Example modify_replaces :
  modifyFile (mkSettings "" "" "c" "n" "" "u" "p" false false) "1.2.3.4"
    (Some ("[mysqld]" +:+ nl +:+ "WSREP_ON = ON" +:+ nl +:+ "datadir=/x"))
  = inl (Join ["[mysqld]"; "wsrep_on=OFF"; "datadir=/var/lib/mysql"; ""; header;
               "wsrep_cluster_name=c"; "wsrep_cluster_address=" +:+ quote "gcomm://";
               "wsrep_node_name=n"; "wsrep_node_address=1.2.3.4"; "wsrep_sst_auth=" +:+ quote "u:p"; ""] nl).
Proof. vm_compute. reflexivity. Qed.

(** ** The reference: what the lines of the file become *)

(** The option a line sets *)
Definition option_of (opts : list (string * string)) (line : string) : option (string * string) :=
  find (λ o, Line.matches (fst o) line) opts.

Definition rewritten (opts : list (string * string)) (line : string) : string :=
  match option_of opts line with Some o => snd o | None => line end.

(** The options that no line sets *)
Definition missing (opts : list (string * string)) (ls : list string) : list (string * string) :=
  filter (λ o, existsb (Line.matches (fst o)) ls = false) opts.

Definition configured (opts : list (string * string)) (ls : list string) : list string :=
  (rewritten opts <$> ls) ++
  match missing opts ls with
  | [] => []
  | added => ["" ; header] ++ (snd <$> added) ++ [""]
  end.

(** ** The steps and the reference *)

Definition keys : list string := ["wsrep_cluster_name"; "wsrep_cluster_address"; "wsrep_node_name";
  "wsrep_node_address"; "wsrep_sst_auth"; "wsrep_on"; "datadir"].

(** An option whose replacement is plain, and that sets its own key *)
Definition plain_option (o : string * string) : Prop :=
  plain (snd o) = true ∧ ∃ v, snd o = fst o +:+ v.

Lemma fst_options s podIP : fst <$> options s podIP = keys.
Proof. reflexivity. Qed.

Lemma keys_apart :
  forallb (λ k, forallb (λ k', bool_decide (k = k') || apart k k') keys) keys = true.
Proof. by vm_compute. Qed.

Lemma key_header k : k ∈ keys → k ≠ "" ∧ Line.matches k "" = false ∧ Line.matches k header = false.
Proof.
  intros H.
  assert (Hall : forallb (λ k, negb (bool_decide (k = "")) && negb (Line.matches k "")
                            && negb (Line.matches k header)) keys = true) by by vm_compute.
  rewrite forallb_forall in Hall. specialize (Hall k (proj1 (list_elem_of_In _ _) H)).
  rewrite !andb_true_iff, !negb_true_iff, bool_decide_eq_false in Hall. tauto.
Qed.

Lemma apart_keys k k' : k ∈ keys → k' ∈ keys → k ≠ k' → apart k k' = true.
Proof.
  intros H%list_elem_of_In H'%list_elem_of_In Hne.
  pose proof keys_apart as Hall. rewrite forallb_forall in Hall. specialize (Hall k H).
  cbv beta in Hall. rewrite forallb_forall in Hall. specialize (Hall k' H').
  by rewrite bool_decide_eq_false_2 in Hall.
Qed.

Section steps.
Context (before : list (string * string)) (o : string * string).
Context (Hbefore : ∀ d, d ∈ before → plain_option d ∧ apart (fst d) (fst o) = true ∧ fst d ∈ keys).
Context (Ho : plain_option o) (Hkey : fst o ∈ keys).

Lemma option_of_some line d : option_of before line = Some d →
  d ∈ before ∧ Line.matches (fst d) line = true.
Proof.
  intros [H ?]%find_some. split; [by apply list_elem_of_In|done].
Qed.

Lemma apart_matches d line : d ∈ before → Line.matches (fst d) line = true →
  Line.matches (fst o) line = false.
Proof. intros Hd. apply matches_apart, Hbefore, Hd. Qed.

(** What is written for the options before sets none of the options that follow. *)
Lemma replacement_apart d : d ∈ before → Line.matches (fst o) (snd d) = false.
Proof.
  intros Hd. apply (apart_matches d); [done|]. destruct (Hbefore d Hd) as ((_ & v & ->) & _).
  apply matches_app.
Qed.

Lemma rewritten_matches line :
  Line.matches (fst o) (rewritten before line) = Line.matches (fst o) line.
Proof.
  unfold rewritten. destruct (option_of before line) as [d|] eqn:E; [|done].
  apply option_of_some in E as [Hd Hl].
  by rewrite (replacement_apart d Hd), (apart_matches d line Hd Hl).
Qed.

Lemma option_of_snoc line : option_of (before ++ [o]) line =
  match option_of before line with
  | Some d => Some d
  | None => if Line.matches (fst o) line then Some o else None
  end.
Proof.
  unfold option_of. clear Hbefore. induction before as [|d ds IH]; cbn; [by case_match|].
  destruct (Line.matches (fst d) line); [done|apply IH].
Qed.

Lemma rewritten_snoc line : rewritten (before ++ [o]) line =
  if Line.matches (fst o) (rewritten before line) then snd o else rewritten before line.
Proof.
  rewrite rewritten_matches. unfold rewritten. rewrite option_of_snoc.
  destruct (option_of before line) as [d|] eqn:E; [|by destruct (Line.matches _ line)].
  apply option_of_some in E as [Hd Hl]. by rewrite (apart_matches d line Hd Hl).
Qed.

(** No line that is added sets the next option. *)
Lemma matches_configured ls :
  existsb (Line.matches (fst o)) (configured before ls) = existsb (Line.matches (fst o)) ls.
Proof.
  destruct (key_header _ Hkey) as (_ & Hempty & Hheader). unfold configured. rewrite existsb_app.
  transitivity (existsb (Line.matches (fst o)) ls || false).
  - f_equal.
    + induction ls as [|l ls IH]; cbn; [done|]. by rewrite rewritten_matches, IH.
    + destruct (missing before ls) as [|d ds] eqn:E; [done|]. rewrite <- E.
      assert (Hm : ∀ d, d ∈ missing before ls → d ∈ before)
        by (unfold missing; intros ? []%list_elem_of_filter; done).
      cbn -[header]. rewrite Hempty, Hheader, existsb_app. cbn. rewrite Hempty, !orb_false_r.
      clear E. induction (missing before ls) as [|e es IH]; cbn; [done|].
      rewrite replacement_apart by set_solver. apply IH. set_solver.
  - apply orb_false_r.
Qed.

Lemma missing_snoc ls : missing (before ++ [o]) ls =
  missing before ls ++ if existsb (Line.matches (fst o)) ls then [] else [o].
Proof.
  unfold missing. rewrite filter_app. f_equal. rewrite filter_cons, filter_nil.
  by destruct (existsb _ ls).
Qed.

Lemma replace_configured ls : existsb (Line.matches (fst o)) ls = true →
  Line.replace (fst o) (snd o) <$> configured before ls = configured (before ++ [o]) ls.
Proof.
  intros Hex. destruct (key_header _ Hkey) as (_ & Hempty & Hheader).
  assert (Hr : ∀ l, Line.replace (fst o) (snd o) l = if Line.matches (fst o) l then snd o else l)
    by (intros; apply replace_plain, Ho).
  unfold configured. rewrite missing_snoc, Hex, app_nil_r, fmap_app. f_equal.
  - rewrite <- list_fmap_compose. apply list_fmap_ext. intros i l _. cbn.
    by rewrite Hr, rewritten_snoc.
  - destruct (missing before ls) as [|d ds] eqn:E; [done|]. rewrite <- E.
    assert (Hm : ∀ d, d ∈ missing before ls → d ∈ before)
      by (unfold missing; intros ? []%list_elem_of_filter; done).
    cbn -[header]. rewrite !Hr, Hempty, Hheader, fmap_app. cbn. rewrite Hr, Hempty.
    do 3 f_equal. clear E. induction (missing before ls) as [|e es IH]; cbn; [done|].
    rewrite Hr, replacement_apart by set_solver. f_equal. apply IH. set_solver.
Qed.

Lemma append_configured ls : existsb (Line.matches (fst o)) ls = false →
  configured (before ++ [o]) ls =
  (rewritten before <$> ls) ++ ["" ; header] ++ (snd <$> missing before ls) ++ [snd o; ""].
Proof.
  intros Hex. unfold configured. rewrite missing_snoc, Hex.
  assert (Hr : rewritten (before ++ [o]) <$> ls = rewritten before <$> ls).
  { apply list_fmap_ext. intros i l Hl. rewrite rewritten_snoc, rewritten_matches.
    destruct (Line.matches (fst o) l) eqn:E; [|done].
    rewrite <- not_true_iff_false, existsb_exists in Hex. destruct Hex. exists l. split; [|done].
    apply list_elem_of_In. by eapply list_elem_of_lookup_2. }
  rewrite Hr. destruct (missing before ls) as [|d ds]; cbn -[header]; [done|].
  do 4 f_equal. by rewrite fmap_app, <- app_assoc.
Qed.

Lemma configured_one_line ls : Forall (λ l, one_line l = true) ls →
  Forall (λ l, one_line l = true) (configured before ls).
Proof.
  intros Hls. unfold configured. apply Forall_app. split.
  - apply Forall_fmap, Forall_forall. intros l Hl. cbn. unfold rewritten.
    destruct (option_of before l) as [d|] eqn:E; [|by eapply Forall_forall in Hls].
    apply option_of_some in E as [Hd _]. by apply plain_one_line, Hbefore.
  - destruct (missing before ls) as [|d ds] eqn:E; [done|]. rewrite <- E.
    repeat (apply Forall_app; split); repeat constructor.
    apply Forall_fmap, Forall_forall. intros e [_ He]%list_elem_of_filter.
    by apply plain_one_line, Hbefore.
Qed.

(** One option: the lines are those of the reference. *)
Lemma setOption_configured file sData :
  lines sData = configured before (lines file) →
  ∃ sData', setOption (fst o) (snd o) (sData, bool_decide (missing before (lines file) ≠ [])) =
      (sData', bool_decide (missing (before ++ [o]) (lines file) ≠ [])) ∧
    lines sData' = configured (before ++ [o]) (lines file).
Proof.
  intros E. destruct (key_header _ Hkey) as (Hk & _ & _). unfold setOption.
  pose proof (Find_none (fst o) sData Hk) as HF. rewrite E, matches_configured in HF.
  destruct (existsb (Line.matches (fst o)) (lines file)) eqn:Hex.
  - rewrite decide_True by (by intros ?%HF). eexists. split.
    + f_equal. by rewrite missing_snoc, Hex, app_nil_r.
    + unfold Line.ReplaceAllString. rewrite E, replace_configured by done. apply lines_Join.
      * rewrite <- replace_configured, <- E by done. by destruct (lines_cons sData) as (? & ? & ->).
      * rewrite <- replace_configured, <- E by done. apply Forall_fmap, Forall_forall. intros l Hl.
        cbn. rewrite replace_plain by apply Ho. case_match; [apply plain_one_line, Ho|].
        by eapply Forall_forall in Hl; [|apply lines_one_line].
  - rewrite decide_False by (by intros H; apply H, HF). rewrite append_configured by done.
    rewrite missing_snoc, Hex, (bool_decide_eq_true_2 (_ ++ [o] ≠ [])) by (by destruct (missing _ _)).
    assert (Hone : lines (snd o +:+ nl) = [snd o; ""]).
    { unfold nl. rewrite lines_app_newline, lines_one by apply plain_one_line, Ho. done. }
    unfold configured in E. destruct (missing before (lines file)) as [|d ds] eqn:Em.
    + rewrite bool_decide_eq_false_2 by tauto. eexists. split; [reflexivity|].
      cbn [addInfo]. unfold nl at 1. rewrite !str_app_assoc. cbn -[header lines nl].
      rewrite lines_app_newline, E, app_nil_r. cbn -[header]. do 2 f_equal.
      rewrite lines_app_newline, Hone. by vm_compute.
    + rewrite bool_decide_eq_true_2 by done. eexists. split; [reflexivity|]. cbn [addInfo].
      rewrite app_assoc, app_assoc in E.
      rewrite (lines_app _ _ _ _ _ _ E Hone). by rewrite <- !app_assoc.
Qed.
End steps.

(** ** The whole file *)

(** Settings whose texts are plain *)
Definition plain_settings (s : settings) (podIP : string) : Prop :=
  Forall (λ v, plain v = true)
    [s.(clusterName); s.(clusterAddresses); s.(nodeName); s.(user); s.(password); podIP].

#[global] Instance plain_settings_dec s podIP : Decision (plain_settings s podIP).
Proof. apply _. Defined.

(** The options as they are written: what [Sprintf] leaves *)
Definition wanted (s : settings) (podIP : string) : list (string * string) :=
  rawOptions s podIP ++ [dataDir].

Lemma plain_quote s : plain (quote s) = plain s.
Proof. unfold quote, plain. cbn. by rewrite str_forall_app, andb_true_r. Qed.

Lemma rawOptions_plain s podIP : plain_settings s podIP → Forall plain_option (wanted s podIP).
Proof.
  intros H. unfold plain_settings in H. rewrite !Forall_cons in H.
  destruct H as (H1 & H2 & H3 & H4 & H5 & H6 & _).
  apply Forall_forall. intros o Ho. unfold wanted, rawOptions, dataDir in Ho. cbn [app] in Ho.
  repeat (apply elem_of_cons in Ho as [->|Ho]; [split; cbn [fst snd];
    [rewrite ?plain_app, ?plain_quote, ?plain_app, ?H1, ?H2, ?H3, ?H4, ?H5, ?H6; try done;
     by destruct (clusterEnabled s)
    |eexists (String "=" _); reflexivity]|]).
  by apply not_elem_of_nil in Ho.
Qed.

Lemma options_wanted s podIP : plain_settings s podIP → options s podIP = wanted s podIP.
Proof.
  intros H. unfold options, wanted. f_equal. rewrite <- (list_fmap_id (rawOptions s podIP)) at 2.
  apply list_fmap_ext. intros i o Ho. destruct o as [k v]. cbn. f_equal. apply Sprintf_plain_id.
  pose proof (rawOptions_plain s podIP H) as HF. unfold wanted in HF.
  apply Forall_app in HF as [HF _]. eapply Forall_lookup_1 in Ho; [|exact HF]. by destruct Ho.
Qed.

(** The steps for the options [after], from the lines the options [before] give *)
Lemma setOptions_configured file opts : Forall plain_option opts → NoDup (fst <$> opts) →
  (∀ o, o ∈ opts → fst o ∈ keys) →
  ∀ after before sData, before ++ after = opts → lines sData = configured before (lines file) →
  lines (fst (fold_left (λ st o, setOption (fst o) (snd o) st) after
    (sData, bool_decide (missing before (lines file) ≠ [])))) = configured opts (lines file).
Proof.
  intros Hplain Hnodup Hkeys. induction after as [|o after IH]; intros before sData Hopts E.
  - cbn. rewrite app_nil_r in Hopts. by subst.
  - rewrite Forall_forall in Hplain.
    destruct (setOption_configured before o) with (file := file) (sData := sData)
      as (sData' & Hs & E'); try done.
    + intros d Hd. split; [apply Hplain; set_solver|].
      assert (fst d ∈ keys) by (apply Hkeys; set_solver). split; [|done].
      apply apart_keys; [done|apply Hkeys; set_solver|].
      intros Hdo. rewrite <- Hopts, fmap_app, fmap_cons in Hnodup.
      apply NoDup_app in Hnodup as (_ & Hn & _). apply (Hn (fst d)); [by apply list_elem_of_fmap_2|].
      rewrite Hdo. set_solver.
    + apply Hplain. set_solver.
    + apply Hkeys. set_solver.
    + cbn [fold_left]. rewrite Hs. apply IH; [by rewrite <- app_assoc|done].
Qed.

Lemma modifyFile_lines s podIP file :
  plain_settings s podIP → podIP ≠ "" →
  ∃ out, modifyFile s podIP (Some file) = inl out ∧
    lines out = configured (wanted s podIP) (lines file).
Proof.
  intros Hs Hip. unfold modifyFile. rewrite decide_False, options_wanted by done.
  eexists. split; [reflexivity|].
  apply (setOptions_configured file (wanted s podIP)) with (before := []); try done.
  - by apply rawOptions_plain.
  - change (fst <$> wanted s podIP) with keys. by apply (bool_decide_unpack (NoDup keys)).
  - intros o Ho. change keys with (fst <$> wanted s podIP). by apply list_elem_of_fmap_2.
  - unfold configured. cbn. rewrite app_nil_r. symmetry. apply list_fmap_id.
Qed.

(** C16: what the bootstrap writes is the configuration that the reference gives,
    for settings without percent, dollar and newline: each line of the file that
    sets one of the options is replaced by the value of the node, the other lines
    are kept in their order, and the options that no line sets are added at the
    end, after one header.  The seven passes over the text, each on the result of
    the one before, do not disturb one another. *)
Theorem modifyFile_configures s podIP file :
  plain_settings s podIP → podIP ≠ "" →
  ∃ out, modifyFile s podIP (Some file) = inl out ∧
    lines out = configured (wanted s podIP) (lines file).
Proof. apply modifyFile_lines. Qed.

(** ** Once more on its own result *)

Section fixed_point.
Context (opts : list (string * string)) (Hplain : Forall plain_option opts)
  (Hnodup : NoDup (fst <$> opts)) (Hkeys : ∀ o, o ∈ opts → fst o ∈ keys).

Lemma option_of_matches o line : o ∈ opts → Line.matches (fst o) line = true →
  option_of opts line = Some o.
Proof.
  intros Ho Hm. destruct (option_of opts line) as [d|] eqn:E.
  - apply option_of_some in E as [Hd Hmd]. f_equal.
    destruct (decide (fst d = fst o)) as [Heq|Hne].
    + apply list_elem_of_lookup in Hd as [i Hi], Ho as [j Hj].
      assert (i = j) as ->; [|congruence].
      apply (NoDup_lookup (fst <$> opts) _ _ (fst d)); [done|..];
        rewrite list_lookup_fmap, ?Hi, ?Hj; cbn; congruence.
    + rewrite (matches_apart (fst d) (fst o)) in Hm; [done| |done]. apply apart_keys; auto.
  - unfold option_of in E. apply find_none with (x := o) in E; [|by apply list_elem_of_In].
    cbn in E. congruence.
Qed.

Lemma replacement_matches o : o ∈ opts → Line.matches (fst o) (snd o) = true.
Proof.
  intros Ho. pose proof Hplain as HF. rewrite Forall_forall in HF.
  destruct (HF o Ho) as (_ & v & ->). apply matches_app.
Qed.

Lemma option_of_unset line : (∀ k, k ∈ keys → Line.matches k line = false) →
  option_of opts line = None.
Proof.
  intros H. destruct (option_of opts line) as [d|] eqn:E; [|done].
  apply option_of_some in E as [Hd Hmd]. rewrite H in Hmd; [done|auto].
Qed.

Lemma rewritten_replacement o : o ∈ opts → rewritten opts (snd o) = snd o.
Proof. intros Ho. unfold rewritten. by rewrite (option_of_matches o) by auto using replacement_matches. Qed.

Lemma rewritten_twice line : rewritten opts (rewritten opts line) = rewritten opts line.
Proof.
  unfold rewritten at 2 3. destruct (option_of opts line) as [d|] eqn:E.
  - apply option_of_some in E as [Hd _]. by apply rewritten_replacement.
  - unfold rewritten. by rewrite E.
Qed.

Lemma rewritten_configured ls : rewritten opts <$> configured opts ls = configured opts ls.
Proof.
  unfold configured. rewrite fmap_app, <- list_fmap_compose. f_equal.
  - apply list_fmap_ext. intros i l _. apply rewritten_twice.
  - assert (H1 : rewritten opts "" = "").
    { unfold rewritten. rewrite option_of_unset; [done|]. intros k Hk. by apply key_header. }
    assert (H2 : rewritten opts header = header).
    { unfold rewritten. rewrite option_of_unset; [done|]. intros k Hk. by apply key_header. }
    destruct (missing opts ls) as [|d ds] eqn:E; [done|]. rewrite <- E.
    rewrite !fmap_app, <- list_fmap_compose. cbn [fmap list_fmap]. rewrite H1, H2. do 2 f_equal.
    apply list_fmap_ext. intros i o Ho%list_elem_of_lookup_2. cbn.
    apply rewritten_replacement. unfold missing in Ho. by apply list_elem_of_filter in Ho as [_ Ho].
Qed.

(** Every option is set in what the reference gives. *)
Lemma replacement_configured o ls : o ∈ opts → snd o ∈ configured opts ls.
Proof.
  intros Ho. unfold configured. destruct (existsb (Line.matches (fst o)) ls) eqn:E.
  - apply existsb_exists in E as (l & Hl & Hm). apply elem_of_app. left.
    apply list_elem_of_fmap. exists l. split; [|by apply list_elem_of_In].
    unfold rewritten. by rewrite (option_of_matches o).
  - assert (Hmiss : o ∈ missing opts ls) by (unfold missing; by apply list_elem_of_filter).
    apply elem_of_app. right. destruct (missing opts ls) as [|d ds]; [set_solver|].
    apply elem_of_app. right. apply elem_of_app. left. by apply list_elem_of_fmap_2.
Qed.

Lemma missing_configured ls : missing opts (configured opts ls) = [].
Proof.
  unfold missing at 1.
  destruct (filter _ opts) as [|o os] eqn:E; [done|]. exfalso.
  assert (Hf : o ∈ o :: os) by set_solver. rewrite <- E in Hf.
  apply list_elem_of_filter in Hf as [H Ho].
  pose proof (replacement_configured o ls Ho) as Hin%list_elem_of_In.
  rewrite <- not_true_iff_false, existsb_exists in H. destruct H. exists (snd o). split; [done|].
  by apply replacement_matches.
Qed.

Lemma configured_twice ls : configured opts (configured opts ls) = configured opts ls.
Proof. unfold configured at 1. by rewrite missing_configured, rewritten_configured, app_nil_r. Qed.
End fixed_point.

Lemma wanted_keys s podIP : NoDup (fst <$> wanted s podIP) ∧ ∀ o, o ∈ wanted s podIP → fst o ∈ keys.
Proof.
  change (fst <$> wanted s podIP) with keys. split; [by apply (bool_decide_unpack (NoDup keys))|].
  intros o Ho. change keys with (fst <$> wanted s podIP). by apply list_elem_of_fmap_2.
Qed.

(** The bootstrap is idempotent: applied to the file it wrote, with the same
    settings, it writes the same bytes; so does a container that is restarted with
    its output mounted as its input. *)
Theorem modifyFile_idempotent s podIP file out :
  plain_settings s podIP → modifyFile s podIP (Some file) = inl out →
  modifyFile s podIP (Some out) = inl out.
Proof.
  intros Hs H. assert (Hip : podIP ≠ "") by (intros ->; done).
  destruct (modifyFile_lines s podIP file Hs Hip) as (out1 & E1 & L1).
  destruct (modifyFile_lines s podIP out Hs Hip) as (out2 & E2 & L2).
  rewrite E2. f_equal. assert (out1 = out) as -> by congruence. apply lines_inj.
  destruct (wanted_keys s podIP) as [Hn Hk].
  rewrite L2, L1. apply configured_twice; auto using rawOptions_plain.
Qed.

(** C28: the init container that the operator puts in a pod configures the node as
    the operator means to, for settings that are plain: when the names, the addresses,
    the user and the password hold no percent sign, no dollar sign and no newline (with
    one of them the configuration is not the one that is meant, see [password_mangled]),
    and the pod has an address.  Then, when the mounted configuration is there and the
    file that the Galera container starts from can be written, it ends without error
    and has written that file only, and whatever the configuration is, the file names
    the cluster, the node, its address, the members to join, the account of the
    transfers, and whether the node is part of a cluster. *)
Theorem bootstrapContainer_configures img user password clusterName name addresses state role podIP file
    unwritable files :
  Forall (λ v, plain v = true) [clusterName; addresses; name; user; password; podIP] → podIP ≠ "" →
  files !! (ConfigMapVolumeMountPath +:+ "/my.cnf") = Some file →
  unwritable (BootstrapVolumeMountPath +:+ "/my.cnf") = false →
  ∃ conf out,
    main (bootstrapContainer img user password clusterName name addresses state).(c_Args) podIP unwritable files =
      (0, <[conf := out]> files) ∧
    ("--defaults-file=" +:+ conf) ∈ (galeraContainer img user password role).(c_Args) ∧
    ∀ line, line ∈ ["wsrep_cluster_name=" +:+ clusterName;
      "wsrep_cluster_address=" +:+ quote ("gcomm://" +:+ addresses);
      "wsrep_node_name=" +:+ name; "wsrep_node_address=" +:+ podIP;
      "wsrep_sst_auth=" +:+ quote (user +:+ ":" +:+ password);
      "wsrep_on=" +:+ (if decide (state = StateStandalone) then "OFF" else "ON");
      "datadir=/var/lib/mysql"] → line ∈ lines out.
Proof.
  intros Hp Hip Hfile Hw. set (cl := if decide (state = StateStandalone) then false else true).
  set (s := mkSettings (ConfigMapVolumeMountPath +:+ "/my.cnf") (BootstrapVolumeMountPath +:+ "/my.cnf")
    clusterName name addresses user password cl false).
  assert (Hargs : ∃ flags rest, Parse (bootstrapContainer img user password clusterName name addresses state).(c_Args)
    formal = inl (flags, rest) ∧ settingsOf flags = s).
  { unfold s, cl. cbn [bootstrapContainer c_Args].
    destruct (decide (state = StateStandalone)) as [->|Hst]; eexists _, _; split; reflexivity. }
  destruct Hargs as (flags & rest & Eargs & Es).
  destruct (modifyFile_lines s podIP file) as (out & E & L); [done..|].
  exists s.(outputConf), out. split; [|split; [by apply elem_of_cons; left|]].
  - unfold main. rewrite Eargs, Es. cbv zeta. change (printVersion s) with false. change (outputConf s) with (BootstrapVolumeMountPath +:+ "/my.cnf").
    change (inputConf s) with (ConfigMapVolumeMountPath +:+ "/my.cnf"). by rewrite Hfile, E, Hw.
  - destruct (wanted_keys s podIP) as [Hn Hk]. pose proof (rawOptions_plain s podIP Hp) as HF.
    intros line Hl. rewrite L.
    assert (Hwant : line ∈ (snd <$> wanted s podIP)).
    { revert Hl. unfold s, cl. by destruct (decide (state = StateStandalone)). }
    apply list_elem_of_fmap in Hwant as (o & -> & Ho). by apply replacement_configured.
Qed.

(** Two texts that [modifyFile] does not copy: a percent sign is read by [Sprintf],
    and a dollar sign by the expansion of the replacement, but only when a line of
    the file sets the option. *)
Lemma password_mangled :
  let s password := mkSettings "" "" "c" "n" "" "u" password true false in
  let auth password file :=
    match modifyFile (s password) "1.2.3.4" (Some file) with
    | inl out => Line.Find "wsrep_sst_auth" out
    | inr _ => ""
    end in
  auth "50%s" "" = "wsrep_sst_auth=" +:+ quote "u:50%!s(MISSING)" ∧
  auth "a$b" "" = "wsrep_sst_auth=" +:+ quote "u:a$b" ∧
  auth "a$b" "wsrep_sst_auth=" = "wsrep_sst_auth=" +:+ quote "u:a".
Proof. vm_compute. done. Qed.

(** *** Witnesses *)

Definition exampleSettings : settings := mkSettings "in" "out" "gal" "gal-xyz" "10.0.0.1" "root" "pw" true false.

Definition exampleFile : string := Join ["[mysqld]"; "wsrep_on=OFF"; "WSREP_NODE_NAME = x"] nl.

Lemma modifyFile_configures_witness :
  ∃ out, modifyFile exampleSettings "10.0.0.2" (Some exampleFile) = inl out ∧
    lines out = configured (wanted exampleSettings "10.0.0.2") (lines exampleFile).
Proof.
  apply (modifyFile_configures exampleSettings "10.0.0.2" exampleFile).
  - by apply (bool_decide_unpack (plain_settings exampleSettings "10.0.0.2")).
  - discriminate.
Defined.

Lemma modifyFile_idempotent_witness :
  let out := match modifyFile exampleSettings "10.0.0.2" (Some exampleFile) with inl o => o | inr _ => "" end in
  modifyFile exampleSettings "10.0.0.2" (Some out) = inl out.
Proof.
  apply (modifyFile_idempotent exampleSettings "10.0.0.2" exampleFile).
  - by apply (bool_decide_unpack (plain_settings exampleSettings "10.0.0.2")).
  - vm_compute. reflexivity.
Defined.

Lemma bootstrapContainer_configures_witness :
  ∃ conf out, main (bootstrapContainer "img" "root" "pw" "gal" "gal-xyz" "10.0.0.1" StateCluster).(c_Args)
      "10.0.0.2" (λ _, false) {[ConfigMapVolumeMountPath +:+ "/my.cnf" := exampleFile]}
      = (0, <[conf := out]> {[ConfigMapVolumeMountPath +:+ "/my.cnf" := exampleFile]}) ∧
    "wsrep_on=ON" ∈ lines out.
Proof.
  destruct (bootstrapContainer_configures "img" "root" "pw" "gal" "gal-xyz" "10.0.0.1" StateCluster Reader
    "10.0.0.2" exampleFile (λ _, false) {[ConfigMapVolumeMountPath +:+ "/my.cnf" := exampleFile]})
    as (conf & out & E & _ & Hout).
  - by apply (bool_decide_unpack (Forall (λ v, plain v = true) ["gal"; "10.0.0.1"; "gal-xyz"; "root"; "pw"; "10.0.0.2"])).
  - discriminate.
  - apply lookup_singleton_eq.
  - reflexivity.
  - exists conf, out. split; [exact E|]. apply Hout. by apply (bool_decide_unpack ("wsrep_on=ON" ∈ _)).
Defined.
End Bootstrap.
