(* ===== verification/Archive.v ===== *)
(** * The archives of the side-car

    Models [TarGzip] and [UnTarGzip] (see [Utilities] for [DestFile]) of
    [src/galera-images/galera-backup/pkg/utils/targzip/targzip.go], with what they
    use of [path/filepath], and proves that a directory that is archived and
    extracted in an empty directory is the same directory.

    An archive is the list of its entries, or nothing at all when its source is no
    directory: that the formats tar and gzip give back what was written is left to
    their packages.  A directory is a tree that the
    walk reads, with the errors it meets; the file system in which an archive is
    extracted is a map from paths, as lists of names, to files and directories.
    Links and devices are left out: mariabackup makes none.  The masks and the
    owners of files are left out too, and writing to a file does not fail. *)
From S2P Require Import Prelude.

(** ** Paths *)
Module Path.

(** [strings.Split] on a separator of one byte *)
Fixpoint split (c : ascii) (s : string) : list string :=
  match s with
  | "" => [""]
  | String x s' =>
      if decide (x = c) then "" :: split c s'
      else match split c s' with
           | l :: ls => String x l :: ls
           | [] => [String x ""]
           end
  end.

(** One name of a path, on the names that precede it, in reverse order *)
Definition clean_step (rooted : bool) (before : list string) (name : string) : list string :=
  if decide (name = "" ∨ name = ".") then before
  else if decide (name = "..") then
    match before with
    | parent :: before' => if decide (parent = "..") then name :: before else before'
    | [] => if rooted then [] else [name]
    end
  else name :: before.

Definition names (path : string) : list string :=
  reverse (fold_left (clean_step (HasPrefix path "/")) (split "/" path) []).

(** [filepath.Clean] *)
Definition Clean (path : string) : string :=
  let body := Prelude.Join (names path) "/" in
  if HasPrefix path "/" then "/" +:+ body else if decide (body = "") then "." else body.

(** [filepath.Join] of two elements *)
Definition Join (a b : string) : string :=
  if decide (a = "") then (if decide (b = "") then "" else Clean b) else Clean (a +:+ "/" +:+ b).

(** The directory of a path and its name in it; relative paths are taken from
    the root, the working directory of the side-car. *)
Definition resolve (path : string) : list string := names ("/" +:+ path).
End Path.

(** [strings.Replace] by nothing, everywhere *)
Fixpoint remove (skip : nat) (old s : string) : string :=
  match s with
  | "" => ""
  | String c s' =>
      match skip with
      | S k => remove k old s'
      | O => if HasPrefix s old then remove (String.length old - 1) old s' else String c (remove 0 old s')
      end
  end.

Definition Replace (s old : string) : string := if decide (old = "") then s else remove 0 old s.

Module TarGz.

(** ** Archiving *)

(** What the walk finds: a file with its mode, the size that its information says,
    and its content or the error of the opening; a directory with what it contains, in
    the order of the names, or the error of the listing; or nothing, when the
    information cannot be read. *)
Inductive node :=
| File (mode : Z) (size : nat) (content : string + error)
| Dir (mode : Z) (err : option error) (children : list (string * node))
| Lost (err : error).

(** A header, and what was written after it *)
Record entry := mkEntry {
  e_Name : string;
  e_Dir : bool;
  e_Mode : Z;
  e_Size : nat;
  e_Content : string }.

#[global] Instance entry_eq_dec : EqDecision entry.
Proof. solve_decision. Defined.

(** The content of the last entry is complete. *)
Definition flushed (tw : list entry) : bool :=
  match last tw with Some e => bool_decide (String.length e.(e_Content) = e.(e_Size)) | None => true end.

(** [tw.WriteHeader]: it fails when bytes of the entry before are missing. *)
Definition WriteHeader (e : entry) (tw : list entry) : list entry * option error :=
  if flushed tw then (tw ++ [e], None) else (tw, Some (errorf "archive/tar: missed writing bytes")).

Definition headerName (sourceDir path : string) : string := TrimPrefix (Replace path sourceDir) "/".

(** The function that is given to [filepath.Walk], for a file or a directory *)
Definition visit (sourceDir path : string) (info : node) (tw : list entry) : list entry * option error :=
  let name := headerName sourceDir path in
  match info with
  | Lost err | Dir _ (Some err) _ => (tw, Some err)
  | Dir mode None _ =>
      if decide (name = "") then (tw, None) else WriteHeader (mkEntry name true mode 0 "") tw
  | File mode size content =>
      if decide (name = "") then (tw, None)
      else
        match WriteHeader (mkEntry name false mode size "") tw with
        | (tw', Some err) => (tw', Some err)
        | (_, None) =>
            match content with
            | inr err => (tw ++ [mkEntry name false mode size ""], Some err)
            | inl bytes =>
                (tw ++ [mkEntry name false mode size (str_take size bytes)],
                 if (size <? String.length bytes)%nat
                 then Some (errorf "archive/tar: write too long") else None)
            end
        end
  end.

(** [filepath.Walk]: a directory is visited, then what it contains; an error ends
    the walk. *)
Fixpoint walk (sourceDir path : string) (info : node) (tw : list entry) : list entry * option error :=
  match visit sourceDir path info tw with
  | (tw, Some err) => (tw, Some err)
  | (tw, None) =>
      match info with
      | Dir _ _ children =>
          (fix walkAll (l : list (string * node)) (tw : list entry) :=
             match l with
             | [] => (tw, None)
             | (name, child) :: l' =>
                 match walk sourceDir (Path.Join path name) child tw with
                 | (tw, Some err) => (tw, Some err)
                 | (tw, None) => walkAll l' tw
                 end
             end) children tw
      | _ => (tw, None)
      end
  end.

Definition walkAll (sourceDir path : string) : list (string * node) → list entry → list entry * option error :=
  fix walkAll (l : list (string * node)) (tw : list entry) :=
    match l with
    | [] => (tw, None)
    | (name, child) :: l' =>
        match walk sourceDir (Path.Join path name) child tw with
        | (tw, Some err) => (tw, Some err)
        | (tw, None) => walkAll l' tw
        end
    end.

(** What is written to a stream: an archive that is closed, or nothing, which is not
    an archive *)
Abbreviation tarball := (option (list entry)).

(** What is written, and the error; before the archive is begun nothing is written,
    then it is closed, with or without error. *)
Definition TarGzip (sourceDir : string) (source : node) : tarball * option error :=
  match source with
  | Lost err => (None, Some err)
  | File _ _ _ => (None, Some (errorf "specified source directory is not a directory"))
  | Dir _ _ _ => let (tw, err) := walk sourceDir sourceDir source [] in (Some tw, err)
  end.

(** ** Extracting *)

Inductive inode := IFile (mode : Z) (content : string) | IDir (mode : Z).

#[global] Instance inode_eq_dec : EqDecision inode.
Proof. solve_decision. Defined.

Abbreviation filesystem := (gmap (list string) inode).

Definition is_dir (fs : filesystem) (path : list string) : bool :=
  match fs !! path with Some (IDir _) => true | _ => false end.

(** [os.MkdirAll]: the directories that are missing on a path *)
Fixpoint MkdirAll (mode : Z) (above path : list string) (fs : filesystem) : filesystem * option error :=
  match path with
  | [] => (fs, None)
  | name :: path' =>
      let dir := above ++ [name] in
      match fs !! dir with
      | Some (IDir _) => MkdirAll mode dir path' fs
      | Some (IFile _ _) => (fs, Some (errorf "not a directory"))
      | None => MkdirAll mode dir path' (<[dir := IDir mode]> fs)
      end
  end.

(** [os.OpenFile] with O_CREATE, and without O_TRUNC: the mode and the content of
    the file that is open *)
Definition OpenFile (path : list string) (mode : Z) (fs : filesystem) : (Z * string) + error :=
  match fs !! path with
  | Some (IFile m content) => inl (m, content)
  | Some (IDir _) => inr (errorf "is a directory")
  | None => if is_dir fs (removelast path) then inl (mode, "") else inr (errorf "no such file or directory")
  end.

(** [io.Copy] to a file that was just open: what is beyond the bytes stays. *)
Definition overwrite (bytes old : string) : string := bytes +:+ str_drop (String.length bytes) old.

Definition extract (destDir : string) (header : entry) (fs : filesystem) : filesystem * option error :=
  let target := Path.resolve (Path.Join destDir header.(e_Name)) in
  if header.(e_Dir) then
    match fs !! target with
    | Some _ => (fs, None)
    | None => MkdirAll 493 [] target fs
    end
  else
    match OpenFile target header.(e_Mode) fs with
    | inr err => (fs, Some err)
    | inl (mode, old) =>
        (<[target := IFile mode (overwrite header.(e_Content) old)]> fs,
         if decide (String.length header.(e_Content) = header.(e_Size)) then None
         else Some (errorf "unexpected EOF"))
    end.

(** The loop over the entries *)
Fixpoint extractEntries (destDir : string) (archive : list entry) (fs : filesystem) : filesystem * option error :=
  match archive with
  | [] => (fs, None)
  | header :: archive' =>
      match extract destDir header fs with
      | (fs, Some err) => (fs, Some err)
      | (fs, None) => extractEntries destDir archive' fs
      end
  end.

(** [gzip.NewReader] fails on a stream that holds nothing. *)
Definition UnTarGzip (destDir : string) (r : tarball) (fs : filesystem) : filesystem * option error :=
  match r with
  | None => (fs, Some (errorf "EOF"))
  | Some archive => extractEntries destDir archive fs
  end.

Definition example_source : node :=
  Dir 448 None [("db", Dir 448 None [("t.frm", File 416 3 (inl "abc")); ("t.ibd", File 416 0 (inl ""))]);
                ("ibdata1", File 416 2 (inl "xy"))].

Definition empty_target : filesystem := {[ [] := IDir 493; ["var"] := IDir 493; ["var"; "backup"] := IDir 493 ]}.

Example tar_example : TarGzip "/var/backup/new" example_source =
  (Some [mkEntry "db" true 448 0 ""; mkEntry "db/t.frm" false 416 3 "abc"; mkEntry "db/t.ibd" false 416 0 "";
         mkEntry "ibdata1" false 416 2 "xy"], None).
Proof. vm_compute. reflexivity. Qed.

Example untar_example : fst (UnTarGzip "/var/backup" (fst (TarGzip "/var/backup/new" example_source)) empty_target)
  !! ["var"; "backup"; "db"; "t.frm"] = Some (IFile 416 "abc").
Proof. vm_compute. reflexivity. Qed.

(** A source that cannot be read, or that is no directory, leaves nothing to extract. *)
Example no_source : fst (TarGzip "/var/backup/new" (Lost (errorf "no such file"))) = None ∧
  UnTarGzip "/var/backup" (fst (TarGzip "/var/backup/new" (File 416 0 (inl "")))) empty_target
    = (empty_target, Some (errorf "EOF")).
Proof. split; reflexivity. Qed.
End TarGz.

(** ** Lemmas on paths *)

(** A name of a file *)
Definition proper (name : string) : bool :=
  str_forall (not_char "/") name && bool_decide (name ∉ [""; "."; ".."]).

(** The absolute path of a list of names *)
Definition abs (path : list string) : string := "/" +:+ Join path "/".

Lemma split_cons c s : ∃ l ls, Path.split c s = l :: ls.
Proof. destruct s as [|x s]; cbn; [eauto|]. repeat case_match; eauto. Qed.

Lemma split_one c s : str_forall (not_char c) s = true → Path.split c s = [s].
Proof.
  induction s as [|x s IH]; cbn; [done|]. unfold not_char at 1.
  rewrite andb_true_iff, negb_true_iff, bool_decide_eq_false. intros [Hx Hs].
  by rewrite decide_False, IH.
Qed.

Lemma split_app c s t : str_forall (not_char c) s = true →
  Path.split c (s +:+ String c t) = s :: Path.split c t.
Proof.
  induction s as [|x s IH]; cbn; [by rewrite decide_True|]. unfold not_char at 1.
  rewrite andb_true_iff, negb_true_iff, bool_decide_eq_false. intros [Hx Hs].
  by rewrite decide_False, IH.
Qed.

Lemma Join_cons2 x l : l ≠ [] → Join (x :: l) "/" = x +:+ String "/" (Join l "/").
Proof. by destruct l. Qed.

Lemma Join_app l1 l2 : l1 ≠ [] → l2 ≠ [] → Join (l1 ++ l2) "/" = Join l1 "/" +:+ String "/" (Join l2 "/").
Proof.
  intros H1 H2. induction l1 as [|x l1 IH]; [done|].
  destruct l1 as [|y l1]; [by apply Join_cons2|].
  rewrite <- app_comm_cons, !Join_cons2, IH, str_app_assoc by done. done.
Qed.

Lemma proper_no_slash name : proper name = true → str_forall (not_char "/") name = true.
Proof. unfold proper. rewrite andb_true_iff. tauto. Qed.

Lemma split_Join path : path ≠ [] → Forall (λ n, proper n = true) path →
  Path.split "/" (Join path "/") = path.
Proof.
  induction path as [|x path IH]; intros Hn Hp; [done|].
  apply Forall_cons in Hp as [Hx Hp]. apply proper_no_slash in Hx.
  destruct path as [|y path]; [by apply split_one|].
  by rewrite Join_cons2, split_app, IH.
Qed.

Lemma clean_proper rooted path before : Forall (λ n, proper n = true) path →
  fold_left (Path.clean_step rooted) path before = reverse path ++ before.
Proof.
  revert before. induction path as [|x path IH]; intros before Hp; [done|].
  apply Forall_cons in Hp as [Hx Hp]. cbn [fold_left]. rewrite IH by done.
  unfold proper in Hx. rewrite andb_true_iff, bool_decide_eq_true in Hx.
  unfold Path.clean_step. rewrite !decide_False by set_solver.
  by rewrite reverse_cons, <- app_assoc.
Qed.

Lemma clean_empty rooted path before :
  fold_left (Path.clean_step rooted) ("" :: path) before = fold_left (Path.clean_step rooted) path before.
Proof. reflexivity. Qed.

Lemma names_abs path : Forall (λ n, proper n = true) path → Path.names (abs path) = path.
Proof.
  intros Hp. unfold Path.names, abs. cbn [String.append Path.split].
  rewrite decide_True by done. destruct path as [|x path]; [done|].
  rewrite split_Join, clean_empty, clean_proper by done. by rewrite app_nil_r, reverse_involutive.
Qed.

Lemma Clean_abs path : Forall (λ n, proper n = true) path → Path.Clean (abs path) = abs path.
Proof.
  intros Hp. unfold Path.Clean. rewrite names_abs by done.
  change (HasPrefix (abs path) "/") with (HasPrefix ("/" +:+ Join path "/") "/").
  by rewrite HasPrefix_app.
Qed.

Lemma abs_app p q : p ≠ [] → q ≠ [] → abs p +:+ "/" +:+ Join q "/" = abs (p ++ q).
Proof. intros Hp Hq. unfold abs. by rewrite Join_app, str_app_assoc. Qed.

(** Joining a path and a path below *)
Lemma Join_abs p q : p ≠ [] → q ≠ [] → Forall (λ n, proper n = true) (p ++ q) →
  Path.Join (abs p) (Join q "/") = abs (p ++ q).
Proof.
  intros Hp Hq H. unfold Path.Join. rewrite decide_False by done. rewrite abs_app by done.
  by apply Clean_abs.
Qed.

Lemma resolve_abs path : path ≠ [] → Forall (λ n, proper n = true) path → Path.resolve (abs path) = path.
Proof.
  intros Hn Hp. unfold Path.resolve. destruct path as [|x path]; [done|].
  unfold Path.names, abs. cbn [String.append Path.split HasPrefix].
  rewrite !decide_True by done. rewrite split_Join, !clean_empty, clean_proper by done. by rewrite app_nil_r, reverse_involutive.
Qed.

(** ** Lemmas on [Replace] *)

Lemma remove_skip old u t : remove (String.length u) old (u +:+ t) = remove 0 old t.
Proof. induction u as [|c u IH]; cbn; [done|exact IH]. Qed.

Lemma remove_none old t : Contains t old = false → remove 0 old t = t.
Proof.
  induction t as [|c t IH]; cbn [Contains remove]; [done|].
  rewrite orb_false_iff. intros [-> H]. by rewrite IH.
Qed.

Lemma Replace_prefix old t : old ≠ "" → Contains t old = false → Replace (old +:+ t) old = t.
Proof.
  intros Ho Ht. unfold Replace. rewrite decide_False by done.
  destruct old as [|c u]; [done|]. cbn [String.append remove].
  replace (HasPrefix (String c (u +:+ t)) (String c u)) with true.
  - cbn [String.length]. rewrite Nat.sub_succ, Nat.sub_0_r. by rewrite remove_skip, remove_none.
  - symmetry. apply (HasPrefix_app (String c u)).
Qed.

(** ** Round trip *)
Module RoundTrip.
Import TarGz.

Definition node_ind' (P : node → Prop) (HF : ∀ mode size content, P (File mode size content))
  (HD : ∀ mode err children, Forall (λ c, P (snd c)) children → P (Dir mode err children))
  (HL : ∀ err, P (Lost err)) : ∀ n, P n :=
  fix rec n :=
    match n with
    | File mode size content => HF mode size content
    | Dir mode err children =>
        HD mode err children
          ((fix all l : Forall (λ c : string * node, P (snd c)) l :=
              match l with
              | [] => @List.Forall_nil _ _
              | c :: l' => @List.Forall_cons _ _ c l' (rec (snd c)) (all l')
              end) children)
    | Lost err => HL err
    end.

(** A directory that is read without error: its files have the size they say, and
    the names in a directory are names, and distinct. *)
Fixpoint intact (n : node) : bool :=
  match n with
  | File _ size (inl bytes) => bool_decide (String.length bytes = size)
  | Dir _ None children =>
      forallb (λ c, proper (fst c) && intact (snd c)) children && bool_decide (NoDup (fst <$> children))
  | _ => false
  end.

(** What is below a directory, with its path from there *)
Fixpoint contents (n : node) : list (list string * node) :=
  match n with
  | Dir _ _ children =>
      flat_map (λ c, ([fst c], snd c) :: map (λ pc, (fst c :: fst pc, snd pc)) (contents (snd c))) children
  | _ => []
  end.

Definition below (c : string * node) : list (list string * node) :=
  ([fst c], snd c) :: map (λ pc, (fst c :: fst pc, snd pc)) (contents (snd c)).

Definition entry_of (path : list string) (n : node) : entry :=
  match n with
  | File mode size (inl bytes) => mkEntry (Join path "/") false mode size bytes
  | File mode _ _ | Dir mode _ _ => mkEntry (Join path "/") true mode 0 ""
  | Lost _ => mkEntry (Join path "/") true 0 0 ""
  end.

Definition entries (rel : list string) (l : list (list string * node)) : list entry :=
  map (λ pc, entry_of (rel ++ fst pc) (snd pc)) l.

Lemma entries_below rel c : entries rel (below c) =
  entry_of (rel ++ [fst c]) (snd c) :: entries (rel ++ [fst c]) (contents (snd c)).
Proof.
  unfold entries, below. cbn. f_equal. rewrite map_map. apply map_ext. intros [p x]. cbn.
  by rewrite <- app_assoc.
Qed.

Lemma intact_children mode children : intact (Dir mode None children) = true →
  Forall (λ c, proper (fst c) = true ∧ intact (snd c) = true) children ∧ NoDup (fst <$> children).
Proof.
  cbn. rewrite andb_true_iff, forallb_forall, bool_decide_eq_true. intros [H Hn]. split; [|done].
  apply Forall_forall. intros c Hc%list_elem_of_In. apply H in Hc. by apply andb_true_iff in Hc.
Qed.

Lemma intact_dir mode err children : intact (Dir mode err children) = true → err = None.
Proof. by destruct err. Qed.

(** *** The walk *)
Section archiving.
Context (src : list string) (Hsrc : src ≠ []) (Hproper : Forall (λ n, proper n = true) src).

(** The source directory does not occur again below itself. *)
Definition clear (path : list string) : Prop :=
  Contains (String "/" (Join path "/")) (abs src) = false.

Lemma headerName_abs rel : rel ≠ [] → clear rel → headerName (abs src) (abs (src ++ rel)) = Join rel "/".
Proof.
  intros Hr Hc. unfold headerName. rewrite <- abs_app by done.
  rewrite (Replace_prefix (abs src)) by done. apply (TrimPrefix_app "/").
Qed.

Lemma headerName_root : headerName (abs src) (abs src) = "".
Proof.
  unfold headerName. rewrite <- (str_app_nil_r (abs src)) at 1.
  by rewrite (Replace_prefix (abs src)).
Qed.

Lemma Join_proper rel : rel ≠ [] → Forall (λ n, proper n = true) rel → Join rel "/" ≠ "".
Proof.
  intros Hn Hp. destruct rel as [|x rel]; [done|]. apply Forall_cons in Hp as [Hx _].
  unfold proper in Hx. apply andb_true_iff in Hx as [_ Hx%bool_decide_eq_true].
  destruct x; [set_solver|]. by destruct rel.
Qed.

Lemma visit_intact rel n tw : rel ≠ [] → Forall (λ n, proper n = true) rel → clear rel →
  intact n = true → flushed tw = true →
  visit (abs src) (abs (src ++ rel)) n tw = (tw ++ [entry_of rel n], None).
Proof.
  intros Hr Hp Hc Hi Hf. unfold visit. rewrite headerName_abs by done.
  pose proof (Join_proper rel Hr Hp).
  destruct n as [mode size [bytes|]|mode [] children|]; try done; rewrite decide_False by done;
    unfold WriteHeader; rewrite Hf; [|done].
  apply bool_decide_eq_true in Hi. subst size.
  rewrite str_take_ge, (proj2 (Nat.ltb_ge (String.length bytes) _)) by done. done.
Qed.

Lemma flushed_entry rel n tw : intact n = true → flushed (tw ++ [entry_of rel n]) = true.
Proof.
  intros Hi. unfold flushed. rewrite last_snoc. apply bool_decide_eq_true.
  destruct n as [mode size [bytes|]|mode [] children|]; try done. by apply bool_decide_eq_true in Hi.
Qed.

Lemma walk_unfold path n tw : walk (abs src) path n tw =
  match visit (abs src) path n tw with
  | (tw, Some err) => (tw, Some err)
  | (tw, None) =>
      match n with Dir _ _ children => walkAll (abs src) path children tw | _ => (tw, None) end
  end.
Proof. by destruct n. Qed.

Definition archived (rel : list string) (n : node) : Prop := ∀ tw,
  rel ≠ [] → Forall (λ n, proper n = true) rel → clear rel →
  (∀ pc, pc ∈ contents n → clear (rel ++ fst pc)) → intact n = true → flushed tw = true →
  ∃ tw', walk (abs src) (abs (src ++ rel)) n tw = (tw', None) ∧
    tw' = tw ++ entry_of rel n :: entries rel (contents n) ∧ flushed tw' = true.

Lemma walkAll_intact rel children tw :
  Forall (λ n, proper n = true) rel →
  Forall (λ c, archived (rel ++ [fst c]) (snd c)) children →
  (∀ pc, pc ∈ flat_map below children → clear (rel ++ fst pc)) →
  Forall (λ c, proper (fst c) = true ∧ intact (snd c) = true) children → flushed tw = true →
  ∃ tw', walkAll (abs src) (abs (src ++ rel)) children tw = (tw', None) ∧
    tw' = tw ++ entries rel (flat_map below children) ∧ flushed tw' = true.
Proof.
  intros Hp. revert tw. induction children as [|[name child] children IH]; intros tw Ha Hc Hi Hf.
  - exists tw. cbn. by rewrite app_nil_r.
  - apply Forall_cons in Ha as [Ha Has]. apply Forall_cons in Hi as [[Hn Hi] His].
    cbn [fst snd] in *. cbn [walkAll].
    change name with (Join [name] "/") at 1.
    rewrite Join_abs; [|by destruct src|done|by rewrite !Forall_app, Forall_singleton].
    rewrite <- app_assoc.
    destruct (Ha tw) as (tw1 & -> & E1 & F1); try done.
    + by destruct rel.
    + by rewrite Forall_app, Forall_singleton.
    + apply (Hc ([name], child)). cbn. by left.
    + intros pc Hpc. rewrite <- app_assoc. apply (Hc (name :: fst pc, snd pc)). cbn.
      apply elem_of_cons. right. apply elem_of_app. left.
      apply list_elem_of_fmap. by exists pc.
    + destruct (IH tw1) as (tw2 & E & E2 & F2); try done.
      { intros pc Hpc. apply Hc. cbn. apply elem_of_cons. right. apply elem_of_app. by right. }
      exists tw2. split; [exact E|]. split; [|done]. rewrite E2, E1, <- app_assoc. f_equal.
      cbn [flat_map]. unfold entries. rewrite map_app. f_equal. symmetry. apply (entries_below rel (name, child)).
Qed.

Lemma walk_intact n : ∀ rel, archived rel n.
Proof.
  induction n as [mode size content|mode err children IH|err] using node_ind'; intros rel tw Hr Hp Hc Hcs Hi Hf;
    [| |done]; rewrite walk_unfold, visit_intact by done.
  - eexists. split; [done|]. split; [done|]. by apply flushed_entry.
  - pose proof (intact_dir _ _ _ Hi) as ->. pose proof (intact_children _ _ Hi) as [His _].
    destruct (walkAll_intact rel children (tw ++ [entry_of rel (Dir mode None children)]))
      as (tw' & E & E' & F); try done.
    + eapply Forall_impl; [exact IH|]. auto.
    + by apply flushed_entry.
    + exists tw'. split; [exact E|]. split; [|done]. by rewrite E', <- app_assoc.
Qed.

Lemma TarGzip_intact mode children : intact (Dir mode None children) = true →
  (∀ pc, pc ∈ contents (Dir mode None children) → clear (fst pc)) →
  TarGzip (abs src) (Dir mode None children) = (Some (entries [] (contents (Dir mode None children))), None).
Proof.
  intros Hi Hc. pose proof (intact_children _ _ Hi) as [His _].
  unfold TarGzip. rewrite walk_unfold. cbn [visit]. rewrite headerName_root, decide_True by done.
  destruct (walkAll_intact [] children []) as (tw & E & -> & _); try done.
  - apply Forall_forall. intros c _. apply walk_intact.
  - rewrite app_nil_r in E. change (flat_map below children) with (contents (Dir mode None children)) in E.
    by rewrite E.
Qed.
End archiving.

(** *** The extraction *)

(** What is found in place of a file or a directory *)
Definition restored (n : node) : inode :=
  match n with
  | File mode _ (inl bytes) => IFile mode bytes
  | _ => IDir 493
  end.

Section extracting.
Context (dest : list string) (Hdest : dest ≠ []) (Hproper : Forall (λ n, proper n = true) dest).

(** A path and every directory above it are there. *)
Definition rooted (fs : filesystem) (path : list string) : Prop :=
  ∀ q r, path = q ++ r → q ≠ [] → is_dir fs q = true.

Lemma MkdirAll_there mode fs path : ∀ above, rooted fs (above ++ path) → 
  MkdirAll mode above path fs = (fs, None).
Proof.
  induction path as [|name path IH]; intros above H; [done|]. cbn.
  rewrite cons_middle, app_assoc in H.
  assert (Hd : is_dir fs (above ++ [name]) = true) by (by apply (H _ path); [|destruct above]).
  unfold is_dir in Hd. destruct (fs !! (above ++ [name])) as [[]|]; try done. by apply IH.
Qed.

Lemma MkdirAll_last mode fs name path : ∀ above, rooted fs (above ++ path) →
  fs !! (above ++ path ++ [name]) = None →
  MkdirAll mode above (path ++ [name]) fs = (<[above ++ path ++ [name] := IDir mode]> fs, None).
Proof.
  induction path as [|x path IH]; intros above H Hn; cbn.
  - cbn in Hn. by rewrite Hn.
  - cbn in H, Hn. rewrite cons_middle, app_assoc in H. rewrite (cons_middle x), app_assoc in Hn.
    assert (Hd : is_dir fs (above ++ [x]) = true) by (by apply (H _ path); [|destruct above]).
    unfold is_dir in Hd. destruct (fs !! (above ++ [x])) as [[]|]; try done.
    rewrite IH by done. by rewrite <- app_assoc.
Qed.

(** One entry is extracted where nothing was. *)
Lemma extract_intact rel name n fs :
  Forall (λ n, proper n = true) (rel ++ [name]) → intact n = true →
  rooted fs (dest ++ rel) → fs !! (dest ++ rel ++ [name]) = None →
  extract (abs dest) (entry_of (rel ++ [name]) n) fs =
    (<[dest ++ rel ++ [name] := restored n]> fs, None).
Proof.
  intros Hp Hi Hr Hn.
  assert (Hne : rel ++ [name] ≠ []) by by destruct rel.
  assert (Ht : Path.resolve (Path.Join (abs dest) (Join (rel ++ [name]) "/")) = dest ++ rel ++ [name]).
  { rewrite Join_abs, resolve_abs; try done; [by destruct dest|by apply Forall_app..]. }
  unfold extract. destruct n as [mode size [bytes|]|mode [] children|]; try done;
    cbn [entry_of e_Name e_Dir e_Mode e_Content e_Size]; rewrite Ht.
  - unfold OpenFile. rewrite Hn.
    assert (Hd : is_dir fs (removelast (dest ++ rel ++ [name])) = true).
    { rewrite app_assoc, removelast_last. apply (Hr _ []); [by rewrite app_nil_r|by destruct dest]. }
    rewrite Hd. apply bool_decide_eq_true in Hi. rewrite decide_True by done.
    unfold overwrite. replace (str_drop _ "") with "" by by destruct bytes.
    by rewrite str_app_nil_r.
  - rewrite Hn. rewrite app_assoc in Hn |- *. by apply (MkdirAll_last 493 fs name (dest ++ rel) []).
Qed.

(** What the extraction of a subtree does: its contents are there, and nothing
    else has changed. *)
Definition extracted (path : list string) (l : list (list string * node)) (fs fs' : filesystem) : Prop :=
  (∀ p x, (p, x) ∈ l → fs' !! (path ++ p) = Some (restored x)) ∧
  (∀ q, (∀ p x, (p, x) ∈ l → q ≠ path ++ p) → fs' !! q = fs !! q).

Definition extractable (rel : list string) (c : string * node) : Prop := ∀ fs rest,
  Forall (λ n, proper n = true) (rel ++ [fst c]) → intact (snd c) = true →
  rooted fs (dest ++ rel) → (∀ q, fs !! (dest ++ rel ++ fst c :: q) = None) →
  ∃ fs', extractEntries (abs dest) (entries rel (below c) ++ rest) fs = extractEntries (abs dest) rest fs' ∧
    extracted (dest ++ rel) (below c) fs fs'.

Lemma below_head c p x : (p, x) ∈ below c → ∃ q, p = fst c :: q.
Proof.
  unfold below. intros [H|H]%elem_of_cons; [by simplify_eq; eauto|].
  apply list_elem_of_fmap in H as ([q y] & E & _). simplify_eq/=. eauto.
Qed.

Lemma all_below_head children p x : (p, x) ∈ flat_map below children →
  ∃ name q, p = name :: q ∧ name ∈ (fst <$> children).
Proof.
  intros H%list_elem_of_In. apply in_flat_map in H as (c & Hc & H).
  apply list_elem_of_In in Hc, H. destruct (below_head _ _ _ H) as [q ->].
  exists (fst c), q. split; [done|]. by apply list_elem_of_fmap_2.
Qed.

Lemma rooted_unchanged path l fs fs' :
  rooted fs path → extracted path l fs fs' → (∀ p x, (p, x) ∈ l → p ≠ []) → rooted fs' path.
Proof.
  intros Hr [_ He] Hl q r E Hq. unfold is_dir. rewrite He; [by apply (Hr q r)|].
  intros p x Hpx Eq. apply (Hl p x Hpx). apply (f_equal length) in E, Eq.
  rewrite length_app in E, Eq. destruct p; [done|cbn in Eq; lia].
Qed.

Lemma extract_children rel children fs rest :
  Forall (λ n, proper n = true) rel → rooted fs (dest ++ rel) →
  Forall (extractable rel) children →
  Forall (λ c, proper (fst c) = true ∧ intact (snd c) = true) children → NoDup (fst <$> children) →
  (∀ c q, c ∈ children → fs !! (dest ++ rel ++ fst c :: q) = None) →
  ∃ fs', extractEntries (abs dest) (entries rel (flat_map below children) ++ rest) fs =
      extractEntries (abs dest) rest fs' ∧
    extracted (dest ++ rel) (flat_map below children) fs fs'.
Proof.
  intros Hp. revert fs. induction children as [|c children IH]; intros fs Hr He Hi Hn Hnone.
  - exists fs. split; [done|]. split; [|done]. by intros p x []%not_elem_of_nil.
  - apply Forall_cons in He as [Hc Hcs]. apply Forall_cons in Hi as [[Hcp Hci] His].
    apply NoDup_cons in Hn as [Hcn Hn].
    destruct (Hc fs (entries rel (flat_map below children) ++ rest)) as (fs1 & E1 & X1); try done.
    { by rewrite Forall_app, Forall_singleton. }
    { intros q. apply Hnone. by left. }
    destruct (IH fs1) as (fs2 & E2 & X2); try done.
    { eapply rooted_unchanged; [done..|]. intros p x Hpx. by destruct (below_head _ _ _ Hpx) as [? ->]. }
    { intros c' q Hc'. destruct X1 as [_ X1]. rewrite X1; [apply Hnone; by right|].
      intros p x Hpx E. destruct (below_head _ _ _ Hpx) as [q' ->].
      rewrite <- app_assoc in E. apply (app_inv_head dest), (app_inv_head rel) in E.
      injection E as E _. apply Hcn. rewrite <- E. by apply list_elem_of_fmap_2. }
    exists fs2. split.
    + cbn [flat_map]. unfold entries in *. rewrite map_app, <- app_assoc. rewrite E1. exact E2.
    + destruct X1 as [X1 U1], X2 as [X2 U2]. split; cbn [flat_map].
      * intros p x [Hpx|Hpx]%elem_of_app; [|by apply X2].
        rewrite U2; [by apply X1|]. intros p' x' Hpx' E. apply app_inv_head in E. subst p'.
        destruct (below_head _ _ _ Hpx) as [q ->].
        destruct (all_below_head _ _ _ Hpx') as (? & ? & E & Hname). by simplify_eq.
      * intros q Hq. rewrite U2, U1; [done|..]; intros p x Hpx; apply (Hq p x), elem_of_app; auto.
Qed.

Lemma extract_node n : ∀ rel name, extractable rel (name, n).
Proof.
  induction n as [mode size content|mode err children IH|err] using node_ind';
    intros rel name fs rest Hp Hi Hr Hnone; [| |done]; rewrite entries_below; cbn [fst snd] in *;
    rewrite <- app_comm_cons; cbn [extractEntries]; rewrite extract_intact by done.
  - eexists. split; [done|]. split.
    + intros p x [E|[]%not_elem_of_nil]%elem_of_cons. simplify_eq. rewrite <- app_assoc. apply lookup_insert_eq.
    + intros q Hq. apply lookup_insert_ne. intros <-. eapply Hq; [by left|]. by rewrite <- app_assoc.
  - pose proof (intact_dir _ _ _ Hi) as ->. pose proof (intact_children _ _ Hi) as [His Hn].
    set (fs1 := <[dest ++ rel ++ [name] := restored (Dir mode None children)]> fs).
    destruct (extract_children (rel ++ [name]) children fs1 rest) as (fs2 & E & X & U); try done.
    { intros q r Eq Hq. unfold is_dir, fs1. destruct r as [|y r _] using rev_ind.
      - rewrite app_nil_r in Eq. subst q. by rewrite lookup_insert_eq.
      - rewrite !app_assoc in Eq. apply app_inj_tail in Eq as [Eq _].
        rewrite lookup_insert_ne; [by apply (Hr q r)|].
        intros <-. apply (f_equal length) in Eq. rewrite !length_app in Eq. cbn in Eq. lia. }
    { eapply Forall_impl; [exact IH|]. intros [x c]. auto. }
    { intros c q Hc. unfold fs1. rewrite <- app_assoc. cbn. rewrite lookup_insert_ne; [apply Hnone|].
      intros Eq. do 2 apply app_inv_head in Eq. discriminate. }
    exists fs2. split; [exact E|]. split.
    + intros p x [Hpx|Hpx]%elem_of_cons.
      * simplify_eq. rewrite U; [unfold fs1; by rewrite <- app_assoc, lookup_insert_eq|].
        intros p y Hpy Eq. destruct (all_below_head _ _ _ Hpy) as (? & ? & -> & _).
        rewrite <- !app_assoc in Eq. do 2 apply app_inv_head in Eq. discriminate.
      * apply list_elem_of_fmap in Hpx as ([q y] & Eq & Hq). simplify_eq/=.
        apply X in Hq. rewrite <- app_assoc in Hq |- *. rewrite <- app_assoc in Hq. exact Hq.
    + intros q Hq. rewrite U.
      * unfold fs1. apply lookup_insert_ne. intros <-. eapply Hq; [by left|]. by rewrite <- app_assoc.
      * intros p x Hpx ->. eapply (Hq (name :: p) x).
        -- right. apply list_elem_of_fmap. by exists (p, x).
        -- by rewrite <- !app_assoc.
Qed.
End extracting.

(** The archive of an intact directory is extracted without error. *)
Lemma UnTarGzip_entries dest mode children fs :
  let source := Dir mode None children in
  dest ≠ [] → Forall (λ n, proper n = true) dest → intact source = true →
  rooted fs dest → (∀ name q, fs !! (dest ++ name :: q) = None) →
  ∃ fs', UnTarGzip (abs dest) (Some (entries [] (contents source))) fs = (fs', None) ∧
    extracted dest (contents source) fs fs'.
Proof.
  intros source Hd Hdp Hi Hr Hn. pose proof (intact_children _ _ Hi) as [His Hnd].
  destruct (extract_children dest Hd [] children fs []) as (fs' & E & X); try done.
  - by rewrite app_nil_r.
  - apply Forall_forall. intros [name c] _. by apply extract_node.
  - intros c q _. apply Hn.
  - exists fs'. rewrite app_nil_r in X, E. by split.
Qed.

(** A directory that is stored and retrieved is the same directory: when the
    source is read without error, and its path does not occur again in the paths
    below it, the archive that [TarGzip] writes is extracted by [UnTarGzip], in a
    directory that is there and empty, without error; then every file and
    directory of the source is found at its place, the files with their mode and
    every byte of their content, the directories with the mode 0755 in place of
    their own, and nothing else of the file system has changed. *)
Theorem archive_roundtrip (src dest : list string) (mode : Z) (children : list (string * node)) (fs : filesystem) :
  let source := Dir mode None children in
  src ≠ [] → Forall (λ n, proper n = true) src → dest ≠ [] → Forall (λ n, proper n = true) dest →
  intact source = true →
  (∀ pc, pc ∈ contents source → Contains ("/" +:+ Join (fst pc) "/") (abs src) = false) →
  rooted fs dest → (∀ name q, fs !! (dest ++ name :: q) = None) →
  ∃ archive fs', TarGzip (abs src) source = (archive, None) ∧
    UnTarGzip (abs dest) archive fs = (fs', None) ∧
    (∀ p n, (p, n) ∈ contents source → fs' !! (dest ++ p) = Some (restored n)) ∧
    (∀ q, (∀ p n, (p, n) ∈ contents source → q ≠ dest ++ p) → fs' !! q = fs !! q).
Proof.
  intros source Hs Hsp Hd Hdp Hi Hc Hr Hn.
  destruct (UnTarGzip_entries dest mode children fs) as (fs' & E & X); try done.
  exists (Some (entries [] (contents source))), fs'. split; [by apply TarGzip_intact|]. by split.
Qed.

(** A longer file that is there keeps its tail: nothing truncates it. *)
Lemma tail_kept :
  let fs := <[["var"; "backup"; "ibdata1"] := IFile 416 "12345"]> empty_target in
  fst (UnTarGzip "/var/backup" (fst (TarGzip "/var/backup/new" example_source)) fs)
    !! ["var"; "backup"; "ibdata1"] = Some (IFile 416 "xy345").
Proof. vm_compute. reflexivity. Qed.

(** A directory that cannot be listed ends the walk, and the archive is closed:
    it is extracted without error, and nothing tells that files are missing. *)
Lemma partial_archive :
  let source := Dir 448 None [("db", Dir 448 (Some (errorf "permission denied")) []);
                              ("ibdata1", File 416 2 (inl "xy"))] in
  let archive := fst (TarGzip "/var/backup/new" source) in
  snd (TarGzip "/var/backup/new" source) = Some (errorf "permission denied") ∧
  UnTarGzip "/var/backup" archive empty_target = (empty_target, None).
Proof. split; vm_compute; reflexivity. Qed.

Lemma archive_roundtrip_witness :
  ∃ archive fs', TarGzip (abs ["var"; "backup"; "new"]) example_source = (archive, None) ∧
    UnTarGzip (abs ["var"; "backup"]) archive empty_target = (fs', None) ∧
    fs' !! ["var"; "backup"; "db"; "t.frm"] = Some (IFile 416 "abc").
Proof.
  destruct (archive_roundtrip ["var"; "backup"; "new"] ["var"; "backup"] 448
    [("db", Dir 448 None [("t.frm", File 416 3 (inl "abc")); ("t.ibd", File 416 0 (inl ""))]);
     ("ibdata1", File 416 2 (inl "xy"))] empty_target) as (archive & fs' & E1 & E2 & H & _).
  - discriminate.
  - by apply (bool_decide_unpack (Forall _ _)).
  - discriminate.
  - by apply (bool_decide_unpack (Forall _ _)).
  - vm_compute. reflexivity.
  - intros pc Hpc. revert pc Hpc. apply Forall_forall. by apply (bool_decide_unpack (Forall _ _)).
  - intros q r E Hq. destruct q as [|? [|? [|]]]; simplify_eq/=; vm_compute; reflexivity.
  - intros name q. unfold empty_target. rewrite !lookup_insert_ne, lookup_singleton_ne; done.
  - exists archive, fs'. split; [exact E1|]. split; [exact E2|].
    apply (H ["db"; "t.frm"] (File 416 3 (inl "abc"))). cbn. right. by left.
Defined.
End RoundTrip.
