(* ===== verification/Utilities.v ===== *)
(** * The other archives of the side-car

    Models [src/galera-images/galera-backup/pkg/utils/tar/tar.go],
    [utils/gzip/gzip.go] and [DestFile] of [utils/targzip/targzip.go], which write an archive
    to a file and read it back.  The side-car does not call them: it sends its archives
    through a pipe, with the functions of [Archive], whose trees, entries and file systems
    are used here.

    The bytes of the two formats are those of the class [Formats], whose laws say that an
    archive that is written is read back; [BitFormats] is an instance.  The names of files
    are in ASCII, a directory that is archived does not hold the archive, and a file that is
    extracted is not the archive. *)
From S2P Require Import Prelude Archive.
Import TarGz.

(** The contents of an archive are complete. *)
Definition complete (e : entry) : Prop := String.length e.(e_Content) = e.(e_Size).

(** What [archive/tar] and [compress/gzip] make of a file: the entries that are read before
    an error, and the name and the content that a compressed file holds. *)
Class Formats := {
  tarWrite : list entry → string;
  tarRead : string → list entry * option error;
  gzipWrite : string → string → string;
  gzipRead : string → (string * string) + error }.

Class FormatsLaws `{Formats} : Prop := {
  tar_read_write : ∀ a, Forall complete a → tarRead (tarWrite a) = (a, None);
  gzip_read_write : ∀ name content, gzipRead (gzipWrite name content) = inl (name, content) }.

Module Utilities.

(** [os.Create]: an empty file, with its mode when it was there *)
Definition Create (path : list string) (fs : filesystem) : filesystem + error :=
  match OpenFile path 438 fs with
  | inr err => inr err
  | inl (mode, _) => inl (<[path := IFile mode ""]> fs)
  end.

(** [io.Copy] to a file that was just created *)
Definition writeTo (path : list string) (bytes : string) (fs : filesystem) : filesystem :=
  alter (λ i, match i with IFile mode _ => IFile mode bytes | IDir _ => i end) path fs.

(** [os.Open] and the reading of the file; the second error is that of the reading. *)
Definition Open (path : list string) (fs : filesystem) : (string + error) + error :=
  match fs !! path with
  | Some (IFile _ content) => inl (inl content)
  | Some (IDir _) => inl (inr (errorf "is a directory"))
  | None => inr (errorf "no such file or directory")
  end.

(** [filepath.Base] *)
Definition Base (path : string) : string :=
  if decide (path = "") then "."
  else default "/" (last (filter (λ s, s ≠ "") (Path.split "/" path))).

(** ** Names of archives *)

(** The last characters of a text *)
Definition ending (n : nat) (s : string) : string := str_drop (String.length s - n) s.

(** A character that a dot of a regular expression stands for, and then a text, whatever its
    case, at the end of a line *)
Definition dot_ends (suffix line : string) : bool :=
  (String.length suffix <? String.length line)%nat
  && bool_decide (ToLower (ending (String.length suffix) line) = suffix).

(** [checkFileName] of [tar.go], on the lines of a name: the dot before [tar] is not escaped,
    and stands for any character. *)
Definition checkTarName (fileName : string) : bool :=
  existsb (dot_ends "tar") (Path.split newline fileName).

(** [checkFileName] of [targzip.go], with two such dots *)
Definition checkTarGzName (fileName : string) : bool :=
  existsb (λ line, dot_ends "gz" line &&
    dot_ends "tar" (str_take (String.length line - 3) line)) (Path.split newline fileName).

Definition tarName (fileName : string) : string :=
  if checkTarName fileName then fileName else fileName +:+ ".tar".

(** [DestFile] *)
Definition DestFile (fileName : string) (fs : filesystem) : filesystem + error :=
  Create (Path.resolve (if checkTarGzName fileName then fileName else fileName +:+ ".tar.gz")) fs.

(** ** Archiving *)

(** The function that is given to [filepath.Walk]: every file has an entry, that of the
    directory itself included. *)
Definition visitTar (sourceDir path : string) (info : node) (tw : list entry) : list entry * option error :=
  let name := Path.Join (Base sourceDir) (TrimPrefix path sourceDir) in
  match info with
  | Lost err | Dir _ (Some err) _ => (tw, Some err)
  | Dir mode None _ => WriteHeader (mkEntry name true mode 0 "") tw
  | File mode size content =>
      match WriteHeader (mkEntry name false mode size "") tw with
      | (tw', Some err) => (tw', Some err)
      | (_, None) =>
          match content with
          | inr err => (tw ++ [mkEntry name false mode size ""], Some err)
          | inl bytes =>
              (tw ++ [mkEntry name false mode size (str_take size bytes)],
               if (size <? String.length bytes)%nat then Some (errorf "archive/tar: write too long") else None)
          end
      end
  end.

Fixpoint walkTar (sourceDir path : string) (info : node) (tw : list entry) : list entry * option error :=
  match visitTar sourceDir path info tw with
  | (tw, Some err) => (tw, Some err)
  | (tw, None) =>
      match info with
      | Dir _ _ children =>
          (fix walkAll (l : list (string * node)) (tw : list entry) :=
             match l with
             | [] => (tw, None)
             | (name, child) :: l' =>
                 match walkTar sourceDir (Path.Join path name) child tw with
                 | (tw, Some err) => (tw, Some err)
                 | (tw, None) => walkAll l' tw
                 end
             end) children tw
      | _ => (tw, None)
      end
  end.

Section WithFormats.
Context `{FormatsLaws}.

(** [Tar]: the archive is there, empty or partial, after an error as well, unless its file
    could not be created. *)
Definition Tar (sourceDir targetDir fileName : string) (source : node) (fs : filesystem) : filesystem * option error :=
  let path := Path.resolve (Path.Join targetDir (tarName fileName)) in
  match Create path fs with
  | inr err => (fs, Some err)
  | inl fs =>
      let (tw, err) :=
        match source with
        | Lost err => ([], Some err)
        | File _ _ _ => ([], Some (errorf "specified source directory is not a directory"))
        | Dir _ _ _ => walkTar sourceDir sourceDir source []
        end in
      (writeTo path (tarWrite tw) fs, err)
  end.

(** ** Extracting *)

(** An entry: the directories have the mode of the entry, and a file that is there is
    emptied first. *)
Definition extractTar (targetDir : string) (header : entry) (fs : filesystem) : filesystem * option error :=
  let path := Path.resolve (Path.Join targetDir header.(e_Name)) in
  if header.(e_Dir) then MkdirAll header.(e_Mode) [] path fs
  else
    match OpenFile path header.(e_Mode) fs with
    | inr err => (fs, Some err)
    | inl (mode, _) =>
        (<[path := IFile mode header.(e_Content)]> fs,
         if decide (String.length header.(e_Content) = header.(e_Size)) then None
         else Some (errorf "unexpected EOF"))
    end.

Fixpoint extractAll (targetDir : string) (archive : list entry) (fs : filesystem) : filesystem * option error :=
  match archive with
  | [] => (fs, None)
  | header :: archive' =>
      match extractTar targetDir header fs with
      | (fs, Some err) => (fs, Some err)
      | (fs, None) => extractAll targetDir archive' fs
      end
  end.

(** [UnTar] *)
Definition UnTar (tarBall targetDir : string) (fs : filesystem) : filesystem * option error :=
  match Open (Path.resolve tarBall) fs with
  | inr err | inl (inr err) => (fs, Some err)
  | inl (inl bytes) =>
      let (archive, end_err) := tarRead bytes in
      match extractAll targetDir archive fs with
      | (fs, Some err) => (fs, Some err)
      | (fs, None) => (fs, end_err)
      end
  end.

(** ** Compressing *)

(** [Gzip]: the name of the file is kept in the header; a source that cannot be read, such
    as a directory, leaves a compressed file without content. *)
Definition Gzip (source targetDir : string) (fs : filesystem) : filesystem * option error :=
  match Open (Path.resolve source) fs with
  | inr err => (fs, Some err)
  | inl reader =>
      let filename := Base source in
      let target := Path.resolve (Path.Join targetDir (filename +:+ ".gz")) in
      match Create target fs with
      | inr err => (fs, Some err)
      | inl fs =>
          match reader with
          | inl content => (writeTo target (gzipWrite filename content) fs, None)
          | inr err => (writeTo target (gzipWrite filename "") fs, Some err)
          end
      end
  end.

(** [UnGzip]: the file has the name of the header, not the one of the compressed file. *)
Definition UnGzip (source targetDir : string) (fs : filesystem) : filesystem * option error :=
  match Open (Path.resolve source) fs with
  | inr err | inl (inr err) => (fs, Some err)
  | inl (inl bytes) =>
      match gzipRead bytes with
      | inr err => (fs, Some err)
      | inl (name, content) =>
          let target := Path.resolve (Path.Join targetDir name) in
          match Create target fs with
          | inr err => (fs, Some err)
          | inl fs => (writeTo target content fs, None)
          end
      end
  end.

(** ** What is read back *)

Lemma Create_writeTo path bytes fs fs' : Create path fs = inl fs' →
  ∃ mode, writeTo path bytes fs' = <[path := IFile mode bytes]> fs.
Proof.
  unfold Create, writeTo. destruct (OpenFile _ _ _) as [[mode old]|err]; [|done].
  intros [= <-]. exists mode. by rewrite alter_insert_eq.
Qed.

(** A file that is extracted over a longer one is the file of the archive: nothing stays of
    the one before, unlike what [UnTarGzip] does. *)
Lemma extractTar_exact targetDir header fs : header.(e_Dir) = false → complete header →
  (extractTar targetDir header fs).2 = None →
  ∃ mode, (extractTar targetDir header fs).1
    = <[Path.resolve (Path.Join targetDir header.(e_Name)) := IFile mode header.(e_Content)]> fs.
Proof.
  intros Hd Hc. unfold extractTar. rewrite Hd.
  destruct (OpenFile _ _ _) as [[mode old]|err]; [|done]. intros _. by exists mode.
Qed.

(** A file that was compressed and is decompressed, in a directory where a file can be
    created, has its name and its content. *)
Theorem gzip_roundtrip source targetDir dir mode content fs fs1 fs2 :
  fs !! Path.resolve source = Some (IFile mode content) →
  Create (Path.resolve (Path.Join targetDir (Base source +:+ ".gz"))) fs = inl fs1 →
  Create (Path.resolve (Path.Join dir (Base source))) (Gzip source targetDir fs).1 = inl fs2 →
  (Gzip source targetDir fs).2 = None ∧
  ∃ m fs3, UnGzip (Path.Join targetDir (Base source +:+ ".gz")) dir (Gzip source targetDir fs).1 = (fs3, None) ∧
    fs3 !! Path.resolve (Path.Join dir (Base source)) = Some (IFile m content).
Proof.
  intros Hs Hc1 Hc2. unfold Gzip in *. unfold Open in *. rewrite Hs in *. cbv zeta in *. rewrite Hc1 in *. cbn [fst snd] in *.
  split; [done|]. unfold UnGzip, Open.
  destruct (Create_writeTo _ (gzipWrite (Base source) content) _ _ Hc1) as [m1 Hw]. rewrite Hw in *.
  rewrite lookup_insert_eq, gzip_read_write, Hc2.
  destruct (Create_writeTo _ content _ _ Hc2) as [m2 Hw2]. rewrite Hw2.
  exists m2. eexists. split; [done|]. by rewrite lookup_insert_eq.
Qed.
End WithFormats.

(** ** An instance of the formats *)

#[global] Instance entry_countable : Countable entry.
Proof.
  refine (inj_countable' (λ e, (e.(e_Name), e.(e_Dir), e.(e_Mode), e.(e_Size), e.(e_Content)))
    (λ '(n, d, m, s, c), mkEntry n d m s c) _). by intros [].
Defined.

#[local] Instance BitFormats : Formats := {|
  tarWrite a := bits (encode a);
  tarRead s := match decode (unbits s) with Some a => (a, None) | None => ([], Some (errorf "invalid tar header")) end;
  gzipWrite name content := bits (encode (name, content));
  gzipRead s := match decode (unbits s) with Some g => inl g | None => inr (errorf "gzip: invalid header") end |}.

#[local] Instance BitFormatsLaws : FormatsLaws.
Proof. split; intros; cbn; by rewrite unbits_bits, decode_encode. Qed.

Definition example_disk : filesystem :=
  {[ [] := IDir 493; ["tmp"] := IDir 493; ["var"] := IDir 493; ["tmp"; "t.frm"] := IFile 416 "a longer text" ]}.

(** The directory of the archive is the last of the source, with its mode. *)
Example tar_untar_example :
  let fs := (UnTar "/tmp/new.TAR" "/var" (Tar "/var/lib/new" "/tmp" "new.TAR" example_source example_disk).1).1 in
  fs !! ["var"; "new"; "db"] = Some (IDir 448) ∧ fs !! ["var"; "new"; "db"; "t.frm"] = Some (IFile 416 "abc").
Proof. vm_compute. split; reflexivity. Qed.

Example gzip_roundtrip_example :
  let fs := (Gzip "/tmp/t.frm" "/var" example_disk).1 in
  (UnGzip "/var/t.frm.gz" "/var" fs).1 !! ["var"; "t.frm"] = Some (IFile 438 "a longer text").
Proof. vm_compute. reflexivity. Qed.

(** Names without the suffix that are taken for names that have it *)
Example suffix_not_escaped :
  tarName "guitar" = "guitar" ∧ checkTarGzName "guitar-gz" = true ∧ tarName "new" = "new.tar".
Proof. vm_compute. done. Qed.
End Utilities.
