(* ===== verification/Transfer.v ===== *)
(** * A backup, from the pod that is saved to the pod that is restored

    The operator ([Storage]), the goroutines of a side-car ([SideCar]) and its
    archives ([Archive]) put together: what the operator's calls and the answers it
    gets mean for the objects of the storage and for the files of a pod.

    The world of a pod is its side-car, with what the goroutines hold, the bucket
    of the storage and the file system of the pod.  The goroutines work between
    any two calls.  A trace of the operator is explained by a run of the world in
    which each request is handled and each state that is read is the one at that
    time; a request may also be lost, and so may its answer. *)
From S2P Require Import Prelude Timestamps Types BackupTypes Objects Names Kube Ownership PodLib.
From S2P Require Import Storage SideCar Archive.
Import SideCar.SideCar TarGz RoundTrip.

Module Transfer.

(** ** The world of a pod *)

(** What a request asked for, as its goroutines hold it *)
Inductive request := ToStore (doc : S3Document) | ToFetch (doc : S3Document).

(** The archives a restoration has got, the bucket and the files *)
Record store := mkStore {
  got : gmap string tarball;
  bucket : gmap string tarball;
  disk : filesystem }.

Record world := mkWorld { srv : server; requests : gmap string request; data : store }.

Section pod.
(** What a walk finds in a directory; the source of a backup does not change while
    it is archived. *)
Context (tree : string → node).

Definition archive_of (dir : string) : tarball * option error := TarGzip dir (tree dir).

Definition put_bucket (key : string) (a : tarball) (c : store) : store :=
  mkStore c.(got) (<[key := a]> c.(bucket)) c.(disk).
Definition put_got (key : string) (a : tarball) (c : store) : store :=
  mkStore (<[key := a]> c.(got)) c.(bucket) c.(disk).
Definition put_disk (fs : filesystem) (c : store) : store :=
  mkStore c.(got) c.(bucket) fs.

(** A step of a goroutine with what it does to the files and the objects: the archiver writes
    the archive of the directory, whole or up to an error; the store reads it to the
    end of the pipe, and may report an error although the object is there; a restoration
    gets the object and extracts it. *)
Inductive job_run (rq : gmap string request) :
  job → store → option StateName → job → store → Prop :=
| run_archive_error name up c doc err :
    rq !! name = Some (ToStore doc) → snd (archive_of doc.(doc_backupDir)) = Some err →
    job_run rq (BackupJob name ArchRun up) c None (BackupJob name ArchErr up) c
| run_archive_ok name up c doc :
    rq !! name = Some (ToStore doc) → snd (archive_of doc.(doc_backupDir)) = None →
    job_run rq (BackupJob name ArchRun up) c None (BackupJob name (ArchClose true) up) c
| run_archive_failed name up c :
    job_run rq (BackupJob name ArchErr up) c (Some StateFailed) (BackupJob name (ArchClose false) up) c
| run_archive_closed name ok up c :
    job_run rq (BackupJob name (ArchClose ok) up) c None (BackupJob name (ArchDone ok) up) c
| run_store_error name arch c :
    job_run rq (BackupJob name arch UpRun) c None (BackupJob name arch (UpReturned false)) c
| run_store_ok name ok c doc :
    rq !! name = Some (ToStore doc) →
    job_run rq (BackupJob name (ArchDone ok) UpRun) c None (BackupJob name (ArchDone ok) (UpReturned true))
      (put_bucket name (fst (archive_of doc.(doc_backupDir))) c)
| run_store_lost name ok c doc :
    rq !! name = Some (ToStore doc) →
    job_run rq (BackupJob name (ArchDone ok) UpRun) c None (BackupJob name (ArchDone ok) (UpReturned false))
      (put_bucket name (fst (archive_of doc.(doc_backupDir))) c)
| run_store_failed name arch c :
    job_run rq (BackupJob name arch (UpReturned false)) c (Some StateFailed)
      (BackupJob name arch (UpDone false)) c
| run_store_completed name arch c :
    job_run rq (BackupJob name arch (UpReturned true)) c (Some StateCompleted)
      (BackupJob name arch (UpDone true)) c
| run_not_retrieved name c :
    job_run rq (RestoreJob name ResGet) c (Some StateFailed) (RestoreJob name (ResDone false)) c
| run_retrieved name a c :
    c.(bucket) !! name = Some a →
    job_run rq (RestoreJob name ResGet) c None (RestoreJob name ResRun) (put_got name a c)
| run_untar_returned name a doc c :
    c.(got) !! name = Some a → rq !! name = Some (ToFetch doc) →
    let r := UnTarGzip doc.(doc_backupDir) a c.(disk) in
    job_run rq (RestoreJob name ResRun) c None (RestoreJob name (ResReturned (bool_decide (snd r = None))))
      (put_disk (fst r) c)
| run_untar_failed name c :
    job_run rq (RestoreJob name (ResReturned false)) c (Some StateFailed)
      (RestoreJob name (ResDone false)) c
| run_untar_completed name c :
    job_run rq (RestoreJob name (ResReturned true)) c (Some StateCompleted)
      (RestoreJob name (ResDone true)) c.

Inductive work : world → world → Prop :=
| work_job m l1 j l2 rq c s j' c' :
    job_run rq j c s j' c' →
    work (mkWorld (mkServer m (l1 ++ j :: l2)) rq c)
         (mkWorld (mkServer (assign (job_name j) s m) (l1 ++ j' :: l2)) rq c').

(** ** The requests of the operator *)

Definition handle_backup (err : option error) (doc : S3Document) (w : world) : world :=
  mkWorld (fst (S3Backup err doc w.(srv))) (<[doc.(doc_backupName) := ToStore doc]> w.(requests)) w.(data).
Definition handle_restore (err : option error) (doc : S3Document) (w : world) : world :=
  mkWorld (fst (S3Restore err doc w.(srv))) (<[doc.(doc_backupName) := ToFetch doc]> w.(requests)) w.(data).

(** What an event of the operator means for the side-car of the pod: [err] is the
    error of [s3.NewProvider]; the answers to the requests are not used by the
    operator and are arbitrary. *)
Inductive answer (p : S3Provider.Provider) : event → world → world → Prop :=
| answer_backup err doc r w :
    w.(srv).(StateMap) !! doc.(doc_backupName) = None →
    answer p (EvHTTP "POST" (S3Provider.url p "/s3") (Some doc) r) w (handle_backup err doc w)
| answer_restore err doc r w :
    w.(srv).(StateMap) !! doc.(doc_backupName) = None →
    answer p (EvHTTP "GET" (S3Provider.url p "/s3") (Some doc) r) w (handle_restore err doc w)
| answer_state name w :
    answer p (EvHTTP "GET" (S3Provider.url p ("/state/" +:+ name)) None (inl (State w.(srv).(StateMap) name))) w w
| answer_lost method url body err w : answer p (EvHTTP method url body (inr err)) w w
| answer_other e w :
    match e with EvHTTP _ _ _ _ => False | _ => True end → answer p e w w.

(** The run of the world that explains a trace *)
Inductive run (p : S3Provider.Provider) : world → history → world → Prop :=
| run_end w w' : rtc work w w' → run p w [] w'
| run_event w w1 w2 e t w' : rtc work w w1 → answer p e w1 w2 → run p w2 t w' → run p w (e :: t) w'.

(** ** Refinement of the side-car *)

Lemma job_run_step rq j c s j' c' : job_run rq j c s j' c' → job_step j s j'.
Proof.
  destruct 1; try constructor.
  - exact (retrieved name (Some (errorf ""))).
  - exact (retrieved name None).
Qed.

Lemma work_reachable w w' : work w w' → reachable w.(srv) → reachable w'.(srv).
Proof.
  intros [m l1 j l2 rq c s j' c' Hj] Hr. eapply rtc_r; [exact Hr|]. exists None. cbn.
  split; [|done]. apply step_job. by eapply job_run_step.
Qed.

Lemma answer_reachable p e w w' : answer p e w w' → reachable w.(srv) → reachable w'.(srv).
Proof.
  intros [err doc r w0 Hf|err doc r w0 Hf| | |] Hr; try done;
    (eapply rtc_r; [exact Hr|]; exists (Some doc.(doc_backupName));
     split; [constructor|by intros ? [= <-]]).
Qed.

(** ** Invariant *)

Definition stored (up : uploader) : bool :=
  match up with UpReturned ok | UpDone ok => ok | UpRun => false end.

(** Each goroutine holds the document of its request, and what a store has sent is in
    the bucket. *)
Definition job_ok (w : world) (j : job) : Prop :=
  match j with
  | BackupJob name _ up => ∃ doc, w.(requests) !! name = Some (ToStore doc) ∧
      (stored up = true → w.(data).(bucket) !! name = Some (fst (archive_of doc.(doc_backupDir))))
  | RestoreJob name _ => ∃ doc, w.(requests) !! name = Some (ToFetch doc)
  end.

Record inv (w : world) : Prop := {
  inv_reachable : reachable w.(srv);
  inv_requests : ∀ name, w.(srv).(StateMap) !! name = None → w.(requests) !! name = None;
  inv_jobs : ∀ j, j ∈ w.(srv).(jobs) → job_ok w j }.

Lemma job_run_name rq j c s j' c' : job_run rq j c s j' c' → job_name j' = job_name j.
Proof. by destruct 1. Qed.

Lemma job_run_bucket rq j c s j' c' name :
  job_run rq j c s j' c' → name ≠ job_name j → c'.(bucket) !! name = c.(bucket) !! name.
Proof. destruct 1; try done; cbn; intros; by rewrite lookup_insert_ne. Qed.

Lemma assign_None name s (m : gmap string StateName) n : assign name s m !! n = None → m !! n = None.
Proof. destruct s; cbn; [|done]. destruct (decide (n = name)) as [->|]; [by rewrite lookup_insert_eq|by rewrite lookup_insert_ne]. Qed.

Lemma job_ok_run m jobs m' jobs' rq j c s j' c' :
  job_run rq j c s j' c' → job_ok (mkWorld (mkServer m jobs) rq c) j →
  job_ok (mkWorld (mkServer m' jobs') rq c') j'.
Proof.
  destruct 1; cbn; intros Hj; try naive_solver.
  exists doc. split; [done|]. intros _. by rewrite lookup_insert_eq.
Qed.

Lemma job_ok_other m jobs m' jobs' rq j c s j' c' j0 :
  job_run rq j c s j' c' → job_name j0 ≠ job_name j → job_ok (mkWorld (mkServer m jobs) rq c) j0 →
  job_ok (mkWorld (mkServer m' jobs') rq c') j0.
Proof.
  intros Hj Hne. pose proof (job_run_bucket _ _ _ _ _ _ (job_name j0) Hj Hne) as Hb.
  destruct j0; cbn in *; rewrite ?Hb; done.
Qed.

Lemma work_inv w w' : work w w' → inv w → inv w'.
Proof.
  intros Hw [Hr Hq Hj]. split.
  - by eapply work_reachable.
  - destruct Hw. cbn in *. intros name Hn%assign_None. by apply Hq.
  - pose proof (wf_names _ (wf_reachable _ Hr)) as Hn.
    destruct Hw as [m l1 j l2 rq c s j' c' Hjr]. cbn in *.
    rewrite fmap_app, fmap_cons in Hn. apply NoDup_app in Hn as (Hn1 & Hd & Hn2).
    apply NoDup_cons in Hn2 as [Hn2 _].
    intros j0 Hin. rewrite elem_of_app, elem_of_cons in Hin.
    assert (j0 = j' ∨ j0 ∈ l1 ∨ j0 ∈ l2) as [->|Hin'] by tauto.
    + eapply job_ok_run; [done|]. apply Hj. set_solver.
    + eapply job_ok_other; [done| |apply Hj; set_solver].
      intros E. destruct Hin' as [Hin'|Hin'].
      * apply (Hd (job_name j0)); [by apply list_elem_of_fmap_2|]. rewrite E. apply list_elem_of_here.
      * apply Hn2. rewrite <- E. by apply list_elem_of_fmap_2.
Qed.

(** A request names an object that no goroutine works on. *)
Lemma fresh_job w j name : inv w → j ∈ w.(srv).(jobs) → w.(srv).(StateMap) !! name = None → job_name j ≠ name.
Proof.
  intros [Hr _ _] Hj Hn E. destruct (reachable_job _ _ Hr Hj) as (s & Hs & _). congruence.
Qed.

Lemma job_ok_request w srv' rq name j :
  job_ok w j → job_name j ≠ name → job_ok (mkWorld srv' (<[name := rq]> w.(requests)) w.(data)) j.
Proof. destruct j; cbn; intros Hj Hne; rewrite lookup_insert_ne by done; done. Qed.

Lemma answer_inv p e w w' : answer p e w w' → inv w → inv w'.
Proof.
  intros Ha Hw. pose proof (answer_reachable _ _ _ _ Ha (inv_reachable _ Hw)) as Hr'.
  destruct Ha as [err doc r w0 Hf|err doc r w0 Hf| | |]; try done; split; try done; cbn.
  1, 3: intros name Hn; destruct (decide (name = doc.(doc_backupName))) as [->|Hne];
    [destruct err; cbn in Hn; by rewrite ?lookup_insert_eq in Hn|];
    rewrite lookup_insert_ne by done; apply (inv_requests _ Hw);
    destruct err; cbn in Hn; by rewrite !lookup_insert_ne in Hn.
  all: intros j Hj; assert (Hj' : j ∈ w0.(srv).(jobs) ∨
         j = BackupJob doc.(doc_backupName) ArchRun UpRun ∨ j = RestoreJob doc.(doc_backupName) ResGet)
         by (destruct err; cbn in Hj; set_solver).
  - destruct Hj' as [Hj'|[->| ->]].
    + apply job_ok_request; [by apply Hw|by eapply fresh_job].
    + cbn. exists doc. by rewrite lookup_insert_eq.
    + destruct err; cbn in Hj; [|rewrite elem_of_app, list_elem_of_singleton in Hj; destruct Hj as [Hj|?]; [|done]];
        by destruct (fresh_job _ _ _ Hw Hj Hf).
  - destruct Hj' as [Hj'|[->| ->]].
    + apply job_ok_request; [by apply Hw|by eapply fresh_job].
    + destruct err; cbn in Hj; [|rewrite elem_of_app, list_elem_of_singleton in Hj; destruct Hj as [Hj|?]; [|done]];
        by destruct (fresh_job _ _ _ Hw Hj Hf).
    + cbn. exists doc. by rewrite lookup_insert_eq.
Qed.

(** ** What holds along a run *)

(** A property that the steps and the answers to some events preserve *)
Lemma run_preserves_for (E : event → Prop) p (P : world → Prop) :
  (∀ w w', work w w' → P w → P w') → (∀ e w w', E e → answer p e w w' → P w → P w') →
  ∀ w t w', run p w t w' → Forall E t → P w → P w'.
Proof.
  intros Hwork Hans.
  assert (Hrtc : ∀ w w', rtc work w w' → P w → P w') by (induction 1; eauto).
  induction 1 as [|w w1 w2 e t w' Hr Ha _ IH]; [by eauto|]. intros [He Ht]%Forall_cons Hw.
  eapply IH, Hans, Hrtc; eauto.
Qed.

Lemma run_preserves p (P : world → Prop) :
  (∀ w w', work w w' → P w → P w') → (∀ e w w', answer p e w w' → P w → P w') →
  ∀ w t w', run p w t w' → P w → P w'.
Proof.
  intros Hwork Hans w t w' Hr. apply (run_preserves_for (λ _, True) p P) with (t := t); eauto.
  by apply Forall_true.
Qed.

Lemma run_inv p w t w' : run p w t w' → inv w → inv w'.
Proof. apply run_preserves; [apply work_inv|apply answer_inv]. Qed.

Lemma run_rtc p w w1 t w' : rtc work w w1 → run p w1 t w' → run p w t w'.
Proof.
  intros Hr Hrun. destruct Hrun as [|? ? ? ? ? ? Hr']; [constructor|econstructor; [|done..]]; by etrans.
Qed.

Lemma run_app p w t1 t2 w' : run p w (t1 ++ t2) w' → ∃ w1, run p w t1 w1 ∧ run p w1 t2 w'.
Proof.
  revert w. induction t1 as [|e t1 IH]; intros w H.
  - exists w. split; [by constructor|done].
  - inversion H as [|? w1 w2 ? ? ? Hr Ha Hrun]; subst.
    destruct (IH _ Hrun) as (w3 & H1 & H2). exists w3. split; [|done]. by econstructor.
Qed.

(** What was requested stays, since every request names a new object. *)
Lemma run_requests p w t w' name rq :
  run p w t w' → inv w → w.(requests) !! name = Some rq → w'.(requests) !! name = Some rq.
Proof.
  intros Hrun Hw Hq.
  assert (H : inv w' ∧ w'.(requests) !! name = Some rq); [|apply H].
  revert Hrun. generalize (conj Hw Hq). intros Hi Hrun. revert Hi.
  apply (run_preserves p (λ w, inv w ∧ w.(requests) !! name = Some rq)) with (t := t); [| |done]; clear.
  - intros w w' Hs [Hw Hq]. split; [by eapply work_inv|]. by destruct Hs.
  - intros e w w' Ha [Hw Hq]. split; [by eapply answer_inv|].
    assert (Hs : w.(srv).(StateMap) !! name ≠ None) by (intros Hn%(inv_requests _ Hw); congruence).
    destruct Ha; try done; cbn; rewrite lookup_insert_ne; congruence.
Qed.

(** A job that is over stays in the list. *)
Definition is_over (j : job) : Prop :=
  (∃ name arch, j = BackupJob name arch (UpDone true)) ∨ ∃ name, j = RestoreJob name (ResDone true).

Definition over (name : string) (w : world) : Prop :=
  ∃ j, j ∈ w.(srv).(jobs) ∧ job_name j = name ∧ is_over j.

Lemma job_run_over rq j c s j' c' : job_run rq j c s j' c' → is_over j → is_over j'.
Proof. destruct 1; intros [(? & ? & ?)|(? & ?)]; simplify_eq; left; by eexists _, _. Qed.

Lemma run_over p w t w' name : run p w t w' → over name w → over name w'.
Proof.
  apply run_preserves.
  - intros ? ? [m l1 j l2 rq c s j' c' Hj] (j0 & Hin & Hn & Ho). cbn in *.
    rewrite elem_of_app, elem_of_cons in Hin. destruct Hin as [Hin|[->|Hin]].
    + exists j0. cbn. set_solver.
    + exists j'. cbn. rewrite (job_run_name _ _ _ _ _ _ Hj). split; [set_solver|]. split; [done|].
      by eapply job_run_over.
    + exists j0. cbn. set_solver.
  - intros e w0 w1 Ha (j0 & Hin & Hn & Ho).
    destruct Ha as [err|err| | |]; try (by exists j0); exists j0; destruct err; cbn; set_solver.
Qed.

(** ** The traces of the operator *)

Lemma attempt_httpCall method url body env h :
  attempt (httpCall method url body) env h =
    (Ok (env.(env_ctl).(ctl_http) h method url body),
     [EvHTTP method url body (env.(env_ctl).(ctl_http) h method url body)]).
Proof.
  unfold attempt, httpCall, call, orErr, errM. unM. by destruct (ctl_http _ _ _ _ _).
Qed.

Lemma waitStored_trace n url env : ∀ h t, S3Provider.waitStored n url env h = (Ok tt, t) →
  ∃ t0 r, t = t0 ++ [EvHTTP "GET" url None (inl r)] ∧ is_stored (inl r) = true.
Proof.
  induction n as [|n IH]; intros h t; [done|]. cbn [S3Provider.waitStored].
  intros (resp & t1 & t2 & E1 & E2 & ->)%bind_ok_inv. rewrite attempt_httpCall in E1.
  injection E1 as <- <-. destruct (ctl_http (env_ctl env) h "GET" url None) as [resp|e]; cbv match in E2.
  - destruct (reply_Body resp) as [response|e] eqn:Hb; [case_decide as Hd|].
    + injection E2 as <-. exists [], resp. split; [done|]. cbn. rewrite Hb. by apply bool_decide_eq_true.
    + apply bind_ok_inv in E2 as ([] & t3 & t4 & E3 & E4 & ->). injection E3 as <-.
      apply IH in E4 as (t0 & r & -> & Hr). by eexists (_ :: _ :: t0), r.
    + apply IH in E2 as (t0 & r & -> & Hr). by eexists (_ :: t0), r.
  - apply IH in E2 as (t0 & r & -> & Hr). by eexists (_ :: t0), r.
Qed.

Definition target (p : S3Provider.Provider) (dir key : string) : S3Document :=
  marshalS3 (S3Provider.with_target dir key p.(S3Provider.s3)).

Definition state_url (p : S3Provider.Provider) (key : string) : string := S3Provider.url p ("/state/" +:+ key).

Lemma Store_trace n p dir key env h t : S3Provider.Store n p dir key env h = (Ok tt, t) →
  ∃ r0 t0 r, t = EvHTTP "POST" (S3Provider.url p "/s3") (Some (target p dir key)) (inl r0) ::
      t0 ++ [EvHTTP "GET" (state_url p key) None (inl r)] ∧ is_stored (inl r) = true.
Proof.
  unfold S3Provider.Store. intros (resp & t1 & t2 & E1 & E2 & ->)%bind_ok_inv.
  unfold httpCall in E1. apply bind_ok_inv in E1 as (r0 & t3 & t4 & E1 & E3 & ->).
  injection E1 as Er <-. destruct r0 as [r0|]; [|done]. injection E3 as <- <-. rewrite Er.
  apply bind_ok_inv in E2 as (body & t5 & t6 & E2 & E4 & ->).
  assert (t5 = []) as -> by (destruct (reply_Body r0); cbn in E2; by injection E2).
  apply waitStored_trace in E4 as (t0 & r & -> & Hr). by eexists _, t0, r.
Qed.

Lemma waitRetrieved_trace n url env : ∀ h t, S3Provider.waitRetrieved n url env h = (Ok tt, t) →
  ∃ t0 r, t = t0 ++ [EvHTTP "GET" url None (inl r)] ∧ verdict (inl r) = Some (Ok tt).
Proof.
  induction n as [|n IH]; intros h t; [done|]. cbn [S3Provider.waitRetrieved].
  change S3Provider.selectReady with S3Provider.Tick. cbv match.
  intros ([] & t1 & t2 & E1 & E2 & ->)%bind_ok_inv. injection E1 as <-.
  apply bind_ok_inv in E2 as (state & t3 & t4 & E3 & E4 & ->). rewrite getState_run in E3.
  destruct (stateAnswer env url (h ++ [EvSleep])) as [r|] eqn:Er; [|done].
  destruct (reply_Body r) as [response|] eqn:Eb; [|done]. injection E3 as <- <-.
  case_decide as Hc; [|case_decide as Hf; [done|]].
  - injection E4 as <-. exists [EvSleep], r. split; [done|]. cbn. rewrite Eb. by rewrite decide_True.
  - apply IH in E4 as (t0 & r' & -> & Hr). by eexists (_ :: _ :: t0), r'.
Qed.

(** The requests of [Retrieve] are for its object. *)
Definition fetches (p : S3Provider.Provider) (dir key : string) (e : event) : Prop :=
  match e with
  | EvHTTP method url (Some doc) _ => method = "GET" ∧ doc = target p dir key
  | _ => True
  end.

Lemma Retrieve_fetches n p dir key : emits (fetches p dir key) (S3Provider.Retrieve n p key dir).
Proof.
  assert (Hw : ∀ url, emits (fetches p dir key) (S3Provider.waitRetrieved n url)).
  { intros url. induction n as [|n' IH]; cbn [S3Provider.waitRetrieved]; [apply emits_pure|].
    unfold sleep, S3Provider.getState, httpCall. emits_tac; done. }
  unfold S3Provider.Retrieve, S3Provider.getState, httpCall. emits_tac; done.
Qed.

Lemma Retrieve_trace n p dir key env h t : S3Provider.Retrieve n p key dir env h = (Ok tt, t) →
  Forall (fetches p dir key) t ∧
  ∃ t0 r, t = t0 ++ [EvHTTP "GET" (state_url p key) None (inl r)] ∧ verdict (inl r) = Some (Ok tt).
Proof.
  intros E. split; [pose proof (Retrieve_fetches n p dir key env h) as H; by rewrite E in H|].
  revert E. unfold S3Provider.Retrieve.
  intros (state & t1 & t2 & _ & E2 & ->)%bind_ok_inv.
  apply bind_ok_inv in E2 as ([] & t3 & t4 & _ & E4 & ->).
  apply waitRetrieved_trace in E4 as (t0 & r & -> & Hr).
  exists (t1 ++ t3 ++ t0), r. by rewrite <- !app_assoc.
Qed.

(** ** What a completed state means *)

(** The last answer of a trace is a state of the object, at the time it is read. *)
Lemma run_state p w t key r w' :
  run p w (t ++ [EvHTTP "GET" (state_url p key) None (inl r)]) w' →
  ∃ w1, run p w t w1 ∧ run p w1 [] w' ∧ r = State w1.(srv).(StateMap) key.
Proof.
  intros (w1 & H1 & H2)%run_app. inversion H2 as [|? w2 w3 ? ? ? Hr Ha Hend]; subst.
  assert (w3 = w2 ∧ r = State w2.(srv).(StateMap) key) as [-> ->].
  { inversion Ha as [| |name ? Hu| |]; subst; [|done]. unfold state_url, S3Provider.url in Hu.
    split; [done|]. apply str_app_inv_head in Hu. by injection Hu as ->. }
  exists w2. split; [|done]. clear -H1 Hr. revert Hr. induction H1 as [? ? Hr1|]; intros Hr.
  - constructor. by etrans.
  - econstructor; eauto.
Qed.

Lemma completed_over w key :
  inv w → stateOf w.(srv).(StateMap) key = StateCompleted → over key w.
Proof.
  intros Hw (j & Hj & Hc)%completed_finished; [|apply Hw].
  exists j. split; [done|]. destruct Hc as [[ok ->]| ->]; (split; [done|]); [left; eauto|right; eauto].
Qed.

(** The object that the operator takes for stored is the archive of the directory,
    as far as it could be read. *)
Lemma Store_object n p dir key env h t w w' :
  inv w → S3Provider.Store n p dir key env h = (Ok tt, t) → run p w t w' →
  w'.(data).(bucket) !! key = Some (fst (archive_of dir)).
Proof.
  intros Hw (r0 & t0 & r & -> & Hr)%Store_trace Hrun.
  inversion Hrun as [|? w1 w2 ? ? ? Hr1 Ha Hrun']; subst.
  assert (Hw1 : inv w1) by (eapply run_inv; [apply (run_end p), Hr1|done]).
  pose proof (answer_inv _ _ _ _ Ha Hw1) as Hw2.
  assert (Hq : ∃ doc, w2.(requests) !! key = Some (ToStore doc) ∧ doc.(doc_backupDir) = dir).
  { inversion Ha; subst; [|done..]. eexists. cbn. by rewrite lookup_insert_eq. }
  destruct Hq as (doc & Hq & <-).
  apply run_state in Hrun' as (w3 & Hrun3 & Hend & ->).
  rewrite State_stored, bool_decide_eq_true in Hr.
  pose proof (run_inv _ _ _ _ Hrun3 Hw2) as Hw3.
  pose proof (run_over _ _ _ _ _ Hend (completed_over _ _ Hw3 Hr)) as (j & Hj & Hn & Ho).
  pose proof (run_inv _ _ _ _ Hend Hw3) as Hw'.
  pose proof (run_requests _ _ _ _ _ _ Hend Hw3 (run_requests _ _ _ _ _ _ Hrun3 Hw2 Hq)) as Hq'.
  pose proof (inv_jobs _ Hw' j Hj) as Hok.
  destruct Ho as [(nm & arch & ->)|(nm & ->)]; cbn in Hn, Hok; subst nm; destruct Hok as (doc' & E).
  - destruct E as [E H]. rewrite Hq' in E. injection E as <-. by apply H.
  - congruence.
Qed.

(** ** A restoration *)

(** What the goroutine that restores an object has done to the files: [a] is the
    object and [fs] what the files were before. *)
Definition restored_to (dir : string) (a : tarball) (fs : filesystem) (key : string)
    (res : restorer) (c : store) : Prop :=
  match res with
  | ResGet => c.(disk) = fs
  | ResRun => c.(disk) = fs ∧ c.(got) !! key = Some a
  | ResReturned true | ResDone true => UnTarGzip dir a fs = (c.(disk), None)
  | ResReturned false | ResDone false => True
  end.

(** A pod that restores one object, before the request or after *)
Record restoring (key dir : string) (a : tarball) (fs : filesystem) (w : world) : Prop := {
  restoring_inv : inv w;
  restoring_bucket : w.(data).(bucket) !! key = Some a;
  restoring_jobs : w.(srv).(jobs) = [] ∧ w.(data).(disk) = fs ∨
    ∃ res doc, w.(srv).(jobs) = [RestoreJob key res] ∧ w.(requests) !! key = Some (ToFetch doc) ∧
      doc.(doc_backupDir) = dir ∧ restored_to dir a fs key res w.(data) }.

Lemma restoring_work key dir a fs w w' : work w w' → restoring key dir a fs w → restoring key dir a fs w'.
Proof.
  intros Hw [Hi Hb Hj]. pose proof (work_inv _ _ Hw Hi) as Hi'.
  destruct Hw as [m l1 j l2 rq c s j' c' Hr]. cbn in *.
  destruct Hj as [[Hj _]|(res & doc & Hj & Hq & Hd & Ha)]; [by destruct l1|].
  destruct l1 as [|? []]; [|done..]. injection Hj as -> ->.
  split; cbn; [exact Hi'|by (inversion Hr; subst)|]. right.
  inversion Hr; subst; eexists _, doc; (split_and!; [reflexivity|done|done|]); cbn in *; try done.
  - split; [done|]. rewrite lookup_insert_eq. congruence.
  - destruct Ha as [<- Hg]. assert (a0 = a) as -> by congruence. assert (doc0 = doc) as -> by congruence.
    subst r. by destruct (UnTarGzip _ _ _) as [fs' [e|]].
Qed.

Lemma restoring_answer p key dir a fs e w w' : fetches p dir key e → answer p e w w' →
  restoring key dir a fs w → restoring key dir a fs w'.
Proof.
  intros He Ha [Hi Hb Hj]. pose proof (answer_inv _ _ _ _ Ha Hi) as Hi'.
  destruct Ha as [err doc r w Hf|err doc r w Hf| | |]; try done; [by destruct He|].
  destruct He as [_ ->]. split; [exact Hi'|done|]. cbn in Hf |- *.
  destruct Hj as [[Hj Hd]|(res & doc & Hj & _)].
  - destruct err; cbn; rewrite Hj; [by left|right]. eexists _, _.
    rewrite lookup_insert_eq. split_and!; done.
  - by destruct (fresh_job w (RestoreJob key res) key Hi ltac:(rewrite Hj; by left) Hf).
Qed.

(** When the operator takes an object for restored, the files are those of the
    object, extracted. *)
Lemma Retrieve_object n p dir key a fs env h t w w' :
  restoring key dir a fs w → S3Provider.Retrieve n p key dir env h = (Ok tt, t) → run p w t w' →
  restoring key dir a fs w' ∧ over key w'.
Proof.
  intros Hw (Hf & t0 & r & -> & Hr)%Retrieve_trace Hrun.
  apply Forall_app in Hf as [Hf0 _]. apply run_state in Hrun as (w1 & Hrun & Hend & ->).
  assert (Hall : ∀ w t w', run p w t w' → Forall (fetches p dir key) t →
            restoring key dir a fs w → restoring key dir a fs w').
  { intros. eapply run_preserves_for; eauto using restoring_work, restoring_answer. }
  pose proof (Hall _ _ _ Hrun Hf0 Hw) as Hw1. split.
  - by eapply Hall.
  - eapply run_over; [exact Hend|]. apply completed_over; [apply Hw1|].
    rewrite State_verdict in Hr. by repeat case_decide.
Qed.

Lemma restoring_over key dir a fs w : restoring key dir a fs w → over key w →
  UnTarGzip dir a fs = (w.(data).(disk), None).
Proof.
  intros [_ _ [[Hj _]|(res & doc & Hj & _ & _ & Ha)]] (j & Hin & _ & Ho); rewrite Hj in Hin; [set_solver|].
  apply list_elem_of_singleton in Hin as ->. destruct Ho as [(? & ? & ?)|(? & [= -> ->])]; [done|exact Ha].
Qed.
End pod.

(** ** A backup and its restoration *)

(** The handlers that [NewBackupHandlerMariabackupS3] and [NewBackupHandlerNoneS3] return *)
Definition mariabackupS3 (n : nat) (mb : Mariabackup.MariaBackup) (p : S3Provider.Provider) : BackupHandler :=
  mkBackupHandler (mkMethod (Mariabackup.Backup mb) (Mariabackup.Restore mb)) (storageS3 n p).
Definition noneS3 (n : nat) (p : S3Provider.Provider) : BackupHandler :=
  mkBackupHandler (mkMethod NoneMethod.Backup NoneMethod.Restore) (storageS3 n p).

Lemma handlers_S3 `{ApiMachinery} n pod creds provider keys bh :
  (NewBackupHandlerMariabackupS3 n pod creds provider keys = Ok bh → ∃ mb p,
     Mariabackup.NewMethod pod creds = inl mb ∧ S3Provider.NewProvider provider keys pod = Ok p ∧
     bh = mariabackupS3 n mb p) ∧
  (NewBackupHandlerNoneS3 n pod provider keys = Ok bh → ∃ p,
     S3Provider.NewProvider provider keys pod = Ok p ∧ bh = noneS3 n p).
Proof.
  unfold NewBackupHandlerMariabackupS3, NewBackupHandlerNoneS3.
  destruct (S3Provider.NewProvider provider keys pod) as [p| | |].
  all: split; [destruct (Mariabackup.NewMethod pod creds) as [mb|]|]; intros [= <-]; eauto.
Qed.

Lemma Backup_object tree n mb p name env h file t w w' :
  inv tree w → Backup (mariabackupS3 n mb p) name env h = (Ok file, t) → run tree p w t w' →
  w'.(data).(bucket) !! file = Some (fst (archive_of tree backupDir)).
Proof.
  unfold Backup. cbn [bh_method bh_storage mariabackupS3 storageS3 method_Backup storage_Store].
  intros Hw (u & t1 & t2 & _ & E & ->)%bind_ok_inv (w1 & H1 & Hrun)%run_app.
  apply bind_ok_inv in E as (time & t3 & t4 & _ & E & ->). apply run_app in Hrun as (w2 & H2 & Hrun).
  apply bind_ok_inv in E as ([] & t5 & t6 & E & [= <- <-] & ->). rewrite app_nil_r in Hrun.
  eapply Store_object; [|exact E|exact Hrun]. eauto using run_inv.
Qed.

Lemma backup_path : backupDir = abs ["var"; "backup"; "new"] ∧ restoreDir = abs ["var"; "backup"].
Proof. by vm_compute. Qed.

(** C7: what is backed up is what is restored.  Once the operator takes a backup for
    stored, in a pod whose side-car may have done anything before, and takes it for
    restored in a new pod that reads the same bucket, whatever the goroutines of the
    two side-cars did meanwhile, the files of the new pod are those that extracting
    the archive of the backup directory leaves, and the extraction had no error.
    When the directory is read without error and the new one is empty, every file
    and directory of the backup is there, the files with their mode and their
    content, and nothing else has changed. *)
Theorem backup_restored (tree tree' : string → node) (n n' : nat) (mb : Mariabackup.MariaBackup)
    (p p' : S3Provider.Provider) (name file : string) (env env' : Env) (h t h' t' : history)
    (w w1 w' w1' : world) :
  inv tree w → Backup (mariabackupS3 n mb p) name env h = (Ok file, t) → run tree p w t w1 →
  inv tree' w' → w'.(srv).(jobs) = [] → w'.(data).(bucket) !! file = w1.(data).(bucket) !! file →
  Restore (noneS3 n' p') file env' h' = (Ok tt, t') → run tree' p' w' t' w1' →
  let source := tree backupDir in
  let files := w1'.(data).(disk) in
  UnTarGzip restoreDir (fst (TarGzip backupDir source)) w'.(data).(disk) = (files, None) ∧
  (∀ mode children, source = Dir mode None children → intact source = true →
     (∀ pc, pc ∈ contents source → Contains ("/" +:+ Join (fst pc) "/") backupDir = false) →
     rooted w'.(data).(disk) ["var"; "backup"] →
     (∀ name q, w'.(data).(disk) !! (["var"; "backup"] ++ name :: q) = None) →
     (∀ q x, (q, x) ∈ contents source → files !! (["var"; "backup"] ++ q) = Some (restored x)) ∧
     (∀ q, (∀ r x, (r, x) ∈ contents source → q ≠ ["var"; "backup"] ++ r) →
        files !! q = w'.(data).(disk) !! q)).
Proof.
  intros Hw Hb Hrun Hw' Hj Hsame Hr Hrun' source files.
  pose proof (Backup_object _ _ _ _ _ _ _ _ _ _ _ Hw Hb Hrun) as Hobj. rewrite <- Hsame in Hobj.
  assert (E : UnTarGzip restoreDir (fst (TarGzip backupDir source)) w'.(data).(disk) = (files, None)).
  { unfold Restore in Hr. apply bind_ok_inv in Hr as ([] & t1 & t2 & Hr & [= <-] & ->).
    rewrite app_nil_r in Hrun'.
    destruct (Retrieve_object tree' n' p' restoreDir file _ w'.(data).(disk) _ _ _ _ _
      (Build_restoring _ _ _ _ _ _ Hw' Hobj (or_introl (conj Hj eq_refl))) Hr Hrun') as [Hres Hover].
    exact (restoring_over _ _ _ _ _ _ Hres Hover). }
  split; [exact E|]. intros mode children Es Hi Hc Hroot Hnone. rewrite Es in Hi, Hc, E |- *.
  destruct backup_path as [Eb Ed]. rewrite Eb in Hc, E. rewrite Ed in E.
  rewrite TarGzip_intact in E; [|done|by apply (bool_decide_unpack (Forall _ _))|done|exact Hc].
  destruct (UnTarGzip_entries ["var"; "backup"] mode children w'.(data).(disk)) as (fs' & E' & X);
    [done|by apply (bool_decide_unpack (Forall _ _))|done..|].
  cbn [fst] in E. rewrite E' in E. injection E as <-. exact X.
Qed.
End Transfer.

Import Transfer.

(** ** Examples *)

(** A side-car that has not yet been asked about the object does not know it;
    then it has finished. *)
Definition example_http (file : string) (h : history) (method url : string) (body : option S3Document)
    : httpReply + error :=
  match body with
  | Some _ => inl (reply 200 "scheduled" (file +:+ " is scheduled"))
  | None =>
      inl (if existsb (λ e, match e with EvHTTP _ _ (Some _) _ => true | _ => false end) h
           then reply 200 StateCompleted (file +:+ " is completed")
           else reply 404 StateUnknown (file +:+ " is unknow"))
  end.

Definition example_env (file : string) : Env :=
  env_with_controller env_ok.(env_galeraGet) env_ok.(env_revisionList) env_ok.(env_revisionAdopt)
    (ctl_with_http (example_http file) ctl_ok) env_ok.

Definition example_file : string :=
  match fst (Backup (mariabackupS3 1 example_mb example_provider) "b" (example_env "") []) with
  | Ok file => file | _ => "" end.

Definition example_tree (_ : string) : node := example_source.

(** The storage and the files of a pod *)
Definition example_pod_start (bucket : gmap string tarball) : world :=
  mkWorld start ∅ (mkStore ∅ bucket empty_target).

Lemma example_inv bucket : inv example_tree (example_pod_start bucket).
Proof. split; [apply rtc_refl|done|set_solver]. Qed.

(** The steps of the only job of a side-car *)
Lemma work_single tree m rq j c s j' c' :
  job_run tree rq j c s j' c' →
  work tree (mkWorld (mkServer m [j]) rq c) (mkWorld (mkServer (assign (job_name j) s m) [j']) rq c').
Proof. exact (work_job tree m [] j [] rq c s j' c'). Qed.

Lemma run_others tree p t1 t2 w w' :
  Forall (λ e, match e with EvHTTP _ _ _ _ => False | _ => True end) t1 →
  run tree p w t2 w' → run tree p w (t1 ++ t2) w'.
Proof. induction 1; intros H2; [done|]. eapply run_event; [apply rtc_refl|by apply answer_other|auto]. Qed.

Lemma run_object tree p w dir key r0 r w1 w' : 
  w.(srv).(StateMap) !! key = None →
  rtc (work tree) (handle_backup None (target p dir key) w) w1 → r = State w1.(srv).(StateMap) key →
  rtc (work tree) w1 w' →
  run tree p w [EvHTTP "POST" (S3Provider.url p "/s3") (Some (target p dir key)) r0;
                EvHTTP "GET" (state_url p key) None (inl r)] w'.
Proof.
  intros Hf H1 -> H2. eapply run_event; [apply rtc_refl|by apply (answer_backup p None)|].
  eapply run_event; [exact H1|apply answer_state|by apply run_end].
Qed.

Definition example_stored : world :=
  mkWorld (mkServer (<[example_file := StateCompleted]> (<[example_file := StateRunning]> ∅))
             [BackupJob example_file (ArchDone true) (UpDone true)])
    {[ example_file := ToStore (target example_provider backupDir example_file) ]}
    (mkStore ∅ {[ example_file := fst (archive_of example_tree backupDir) ]} empty_target).

Lemma example_backup_run :
  run example_tree example_provider (example_pod_start ∅)
    (snd (Backup (mariabackupS3 1 example_mb example_provider) "b" (example_env example_file) []))
    example_stored.
Proof.
  set (t := snd _).
  assert (t = take 5 t ++ [EvHTTP "POST" (S3Provider.url example_provider "/s3")
      (Some (target example_provider backupDir example_file)) (inl (reply 200 "scheduled" (example_file +:+ " is scheduled")));
    EvHTTP "GET" (state_url example_provider example_file) None
      (inl (State example_stored.(srv).(StateMap) example_file))]) as -> by (vm_compute; reflexivity).
  apply run_others; [vm_compute; repeat constructor|].
  eapply run_object; [done| |reflexivity|apply rtc_refl].
  eapply rtc_l; [eapply work_single, run_archive_ok; [apply lookup_insert_eq|done]|].
  eapply rtc_l; [eapply work_single, run_archive_closed|].
  eapply rtc_l; [eapply work_single, run_store_ok; apply lookup_insert_eq|].
  eapply rtc_l; [eapply work_single, run_store_completed|]. apply rtc_refl.
Qed.

Definition example_restored : world :=
  mkWorld (mkServer (<[example_file := StateCompleted]> (<[example_file := StateRunning]> ∅))
             [RestoreJob example_file (ResDone true)])
    {[ example_file := ToFetch (target example_provider restoreDir example_file) ]}
    (mkStore {[ example_file := fst (archive_of example_tree backupDir) ]} example_stored.(data).(bucket)
       (fst (UnTarGzip restoreDir (fst (archive_of example_tree backupDir)) empty_target))).

Lemma example_restore_run :
  run example_tree example_provider (example_pod_start example_stored.(data).(bucket))
    (snd (Restore (noneS3 1 example_provider) example_file (example_env example_file) []))
    example_restored.
Proof.
  assert (snd (Restore (noneS3 1 example_provider) example_file (example_env example_file) []) =
    [EvHTTP "GET" (state_url example_provider example_file) None (inl (State ∅ example_file));
     EvHTTP "GET" (S3Provider.url example_provider "/s3") (Some (target example_provider restoreDir example_file))
       (inl (reply 200 "scheduled" (example_file +:+ " is scheduled"))); EvSleep;
     EvHTTP "GET" (state_url example_provider example_file) None
       (inl (State example_restored.(srv).(StateMap) example_file))]) as -> by (vm_compute; reflexivity).
  eapply run_event; [apply rtc_refl|apply (answer_state _ _ (example_pod_start _))|].
  eapply run_event; [apply rtc_refl|by apply (answer_restore _ None)|].
  eapply run_event; [apply rtc_refl|by apply answer_other|].
  eapply run_event; [|apply (answer_state _ _ example_restored)|by apply run_end, rtc_refl].
  eapply rtc_l; [eapply work_single, run_retrieved; apply lookup_insert_eq|].
  eapply rtc_l; [eapply work_single, run_untar_returned; apply lookup_insert_eq|].
  eapply rtc_l; [exact (work_single _ _ _ _ _ _ _ _ (run_untar_completed _ _ _ _))|]. apply rtc_refl.
Qed.

Lemma backup_restored_witness :
  example_restored.(data).(disk) !! ["var"; "backup"; "db"; "t.frm"] = Some (IFile 416 "abc").
Proof.
  destruct (backup_restored example_tree example_tree 1 1 example_mb example_provider example_provider
    "b" example_file (example_env example_file) (example_env example_file) []
    (snd (Backup (mariabackupS3 1 example_mb example_provider) "b" (example_env example_file) [])) []
    (snd (Restore (noneS3 1 example_provider) example_file (example_env example_file) []))
    (example_pod_start ∅) example_stored (example_pod_start example_stored.(data).(bucket)) example_restored)
    as [_ H].
  - apply example_inv.
  - vm_compute. reflexivity.
  - exact example_backup_run.
  - apply example_inv.
  - reflexivity.
  - reflexivity.
  - vm_compute. reflexivity.
  - exact example_restore_run.
  - destruct (H 448 [("db", Dir 448 None [("t.frm", File 416 3 (inl "abc")); ("t.ibd", File 416 0 (inl ""))]);
        ("ibdata1", File 416 2 (inl "xy"))]) as [Hc _].
    + reflexivity.
    + vm_compute. reflexivity.
    + intros pc Hpc. revert pc Hpc. apply Forall_forall. by apply (bool_decide_unpack (Forall _ _)).
    + intros q r E Hq. destruct q as [|? [|? [|]]]; simplify_eq/=; vm_compute; reflexivity.
    + intros name q. cbn. unfold empty_target. rewrite !lookup_insert_ne, lookup_singleton_ne; done.
    + apply (Hc ["db"; "t.frm"] (File 416 3 (inl "abc"))). cbn. right. by left.
Defined.
