(* ===== verification/S3Store.v ===== *)
(** * The S3 provider of the side-car

    Models [src/galera-images/galera-backup/pkg/storage-provider/s3/provider.go] and the
    places where the handlers of [S3handlers.go] use it.  The SDK is a parameter
    ([S3Sdk]), and so is what it promises ([S3SdkLaws]).

    The theorem at the end is a refinement: the calls of the provider are steps of the
    pod that [Transfer] describes, on the bucket of the request. *)
From S2P Require Import Prelude Timestamps Types BackupTypes Objects Names Kube Ownership PodLib.
From S2P Require Import Storage SideCar Archive Transfer.
Import SideCar.SideCar TarGz Transfer.Transfer.

Module S3Store.

(** The verb [%q] on a string of ASCII characters *)
Definition hex_digit (n : nat) : ascii := ascii_of_nat (if (n <? 10)%nat then 48 + n else 87 + n).

Definition escape (c : ascii) : string :=
  match nat_of_ascii c with
  | 7%nat => "\a" | 8%nat => "\b" | 9%nat => "\t" | 10%nat => "\n"
  | 11%nat => "\v" | 12%nat => "\f" | 13%nat => "\r"
  | (34 | 92)%nat => String "\" (String c "")
  | n => if ((32 <=? n) && (n <? 127))%nat then String c ""
         else "\x" +:+ String (hex_digit (n / 16)) (String (hex_digit (n mod 16)) "")
  end.

Fixpoint escapeAll (s : string) : string :=
  match s with "" => "" | String c s => escape c +:+ escapeAll s end.

Definition Quote (s : string) : string := quoted (escapeAll s).

(** The configuration of a session, as the calls of [aws.NewConfig] set it *)
Record Config := mkConfig {
  StaticCredentials : string * string * string;
  cfg_Endpoint : string;
  cfg_Region : string;
  S3ForcePathStyle : bool;
  DisableSSL : bool }.

(** A stream, an [io.ReadCloser]: what is left to read, an archive or nothing, and
    whether it was closed *)
Record stream := mkStream { unread : tarball; closed : bool }.

Definition Close (body : stream) : stream := mkStream body.(unread) true.

(** The SDK, on the storage in the cloud; [objects] is what the cloud holds, by endpoint,
    bucket and key. *)
Class S3Sdk := {
  session : Type;
  cloud : Type;
  NewSession : Config → session + error;
  CredentialsGet : session → option error;
  Upload : session → string → string → stream → cloud → stream * cloud * option error;
  GetObject : session → string → string → cloud → stream + error;
  configOf : session → Config;
  objects : cloud → string → string → string → option tarball }.

(** What the SDK and the service promise *)
Class S3SdkLaws `{S3Sdk} : Prop := {
  NewSession_config cfg s : NewSession cfg = inl s → configOf s = cfg;
  (* static credentials are refused when one of the two is empty, and only then *)
  CredentialsGet_static s :
    let '(access, secret, _) := (configOf s).(StaticCredentials) in
    CredentialsGet s ≠ None ↔ access = "" ∨ secret = "";
  (* an object is replaced at once, by all that the stream held, or not at all *)
  Upload_whole s bucket key body c body' c' err :
    Upload s bucket key body c = (body', c', err) →
    let at_ c := objects c (configOf s).(cfg_Endpoint) bucket key in
    at_ c' = Some body.(unread) ∨ err ≠ None ∧ at_ c' = at_ c;
  Upload_other s bucket key body c body' c' err endpoint bucket' key' :
    Upload s bucket key body c = (body', c', err) →
    (endpoint, bucket', key') ≠ ((configOf s).(cfg_Endpoint), bucket, key) →
    objects c' endpoint bucket' key' = objects c endpoint bucket' key';
  GetObject_read s bucket key c body :
    GetObject s bucket key c = inl body →
    objects c (configOf s).(cfg_Endpoint) bucket key = Some body.(unread) }.

Section provider.
Context `{Sdk : S3Sdk}.

(** [errors.Wrapf], which returns nil when there is no error *)
Definition Wrapf (err : option error) (message : string) : option error :=
  match err with
  | None => None
  | Some e => Some (errorf (message +:+ ": " +:+ e.(err_msg)))
  end.

Record Provider := mkProvider { settings : S3StorageProvider; s3 : session; s3Uploader : session }.

Definition NewProvider (provider : S3StorageProvider) : Provider + error :=
  match NewSession (mkConfig (provider.(AccessKey), provider.(SecretKey), "") provider.(Endpoint)
                      provider.(Region) provider.(ForcePathStyle) false) with
  | inr err => inr err
  | inl sess =>
      match CredentialsGet sess with
      | Some err => inr err
      | None => inl (mkProvider provider sess sess)
      end
  end.

(** The body is closed whatever happens; the second result is the cloud. *)
Definition Store (p : Provider) (key : string) (body : stream) (c : cloud) : stream * cloud * option error :=
  let '(body, c, err) := Upload p.(s3Uploader) p.(settings).(Bucket) key body c in
  (Close body, c,
   Wrapf err ("error storing backup (provider=" +:+ quoted "S3" +:+ ", endpoint=" +:+
              Quote p.(settings).(Endpoint) +:+ ", bucket=" +:+ Quote p.(settings).(Bucket) +:+
              ", key=" +:+ Quote key +:+ ")")).

Definition Retrieve (p : Provider) (key : string) (c : cloud) : stream + error :=
  match GetObject p.(s3) p.(settings).(Bucket) key c with
  | inr err =>
      inr (errorf ("error retrieving backup (provider='S3', endpoint='" +:+ p.(settings).(Endpoint) +:+
                   "', bucket='" +:+ p.(settings).(Bucket) +:+ "', key='" +:+ key +:+ "'): " +:+ err.(err_msg)))
  | inl obj => inl obj
  end.

(** The error of a call *)
Definition failure {A} (r : A + error) : option error :=
  match r with inl _ => None | inr err => Some err end.

(** The two handlers, with the provider they make; the second up to the request for the
    object *)
Definition handleBackup (doc : S3Document) (srv : server) : server * httpReply :=
  S3Backup (failure (NewProvider (s3provider doc))) doc srv.
Definition handleRestore (doc : S3Document) (srv : server) : server * option httpReply :=
  S3Restore (failure (NewProvider (s3provider doc))) doc srv.

(** ** The provider of a request *)

Context {Laws : S3SdkLaws}.

(** The configuration that the settings of a request ask for *)
Definition requested (provider : S3StorageProvider) : Config :=
  mkConfig (provider.(AccessKey), provider.(SecretKey), "") provider.(Endpoint) provider.(Region)
    provider.(ForcePathStyle) false.

Lemma NewProvider_ok provider p : NewProvider provider = inl p →
  p.(settings) = provider ∧ p.(s3Uploader) = p.(s3) ∧ configOf p.(s3) = requested provider.
Proof using Laws.
  unfold NewProvider. destruct (NewSession _) as [sess|] eqn:E; [|done].
  apply NewSession_config in E. destruct (CredentialsGet sess); [done|]. by intros [= <-].
Qed.

(** Without an access key or a secret key a request is refused, before anything is
    archived or extracted, and the object is failed. *)
Theorem no_keys_refused (doc : S3Document) (srv : server) :
  doc.(doc_accessKey) = "" ∨ doc.(doc_secretKey) = "" →
  let failed := set_state doc.(doc_backupName) StateFailed (set_state doc.(doc_backupName) StateRunning srv) in
  let refusal := reply 404 "failed" "unable to access to s3" in
  handleBackup doc srv = (failed, refusal) ∧ handleRestore doc srv = (failed, Some refusal).
Proof using Laws.
  intros Hk failed refusal. unfold handleBackup, handleRestore, NewProvider.
  destruct (NewSession _) as [sess|] eqn:E; [|done].
  pose proof (CredentialsGet_static sess) as Hg. rewrite (NewSession_config _ _ E) in Hg. cbn in Hg.
  by destruct (CredentialsGet sess); [|destruct Hg as [_ Hg]; destruct (Hg Hk)].
Qed.

(** ** Refinement of the pod *)

(** The bucket of the pod is the one of the request, at its endpoint. *)
Definition serves (provider : S3StorageProvider) (c : cloud) (d : Transfer.store) : Prop :=
  ∀ key, d.(Transfer.bucket) !! key = objects c provider.(Endpoint) provider.(Bucket) key.

Lemma serves_put provider c c' key a d :
  serves provider c d → objects c' provider.(Endpoint) provider.(Bucket) key = Some a →
  (∀ key', key' ≠ key → objects c' provider.(Endpoint) provider.(Bucket) key' =
                         objects c provider.(Endpoint) provider.(Bucket) key') →
  serves provider c' (put_bucket key a d).
Proof.
  intros Hs Ha Ho key'. cbn. destruct (decide (key' = key)) as [->|Hne].
  - by rewrite lookup_insert_eq.
  - by rewrite lookup_insert_ne, Ho.
Qed.

(** C8: what the provider of the side-car does is what the pod of [Transfer] is supposed to
    do.  The provider made for a request talks to the endpoint, the region and with the
    keys of the request.  To store is one upload to the bucket of the request: what is
    in the cloud is what the upload left, the stream is closed in all cases, and an error
    is reported exactly when the upload had one.  So to store the archive, once the
    archiver has closed its pipe, is a step of the goroutine that stores: without error
    the whole object is there, with an error it is there or the bucket is unchanged.  To
    retrieve is one request to the bucket, and its stream or an error exactly when the
    request has one: a step of the restoration, where the stream is the object that the
    bucket holds, and on an error the restoration is failed. *)
Theorem provider_refines (tree : string → node) (doc : S3Document) (p : Provider)
    (rq : gmap string request) (c : cloud) (d : Transfer.store) :
  let provider := s3provider doc in
  let name := doc.(doc_backupName) in
  NewProvider provider = inl p → serves provider c d →
  configOf p.(s3) = requested provider ∧ configOf p.(s3Uploader) = requested provider ∧
  (∀ body,
     let '(body1, c1, err1) := Upload p.(s3Uploader) provider.(Bucket) name body c in
     let '(body', c', err) := Store p name body c in
     body' = mkStream body1.(unread) true ∧ c' = c1 ∧ (err = None ↔ err1 = None)) ∧
  (rq !! name = Some (ToStore doc) → ∀ ok,
     let '(body, c', err) := Store p name (mkStream (fst (archive_of tree doc.(doc_backupDir))) false) c in
     ∃ d', serves provider c' d' ∧
       (d'.(Transfer.bucket) !! name = Some (fst (archive_of tree doc.(doc_backupDir))) ∨ err ≠ None ∧ d' = d) ∧
       job_run tree rq (BackupJob name (ArchDone ok) UpRun) d None
         (BackupJob name (ArchDone ok) (UpReturned (bool_decide (err = None)))) d') ∧
  (let r := Retrieve p name c in
   (∀ body, r = inl body ↔ GetObject p.(s3) provider.(Bucket) name c = inl body) ∧
   ∃ d', serves provider c d' ∧
     job_run tree rq (RestoreJob name ResGet) d (match r with inl _ => None | inr _ => Some StateFailed end)
       (RestoreJob name (fst (S3Restored (failure r) name))) d' ∧
     ∀ body, r = inl body → d'.(Transfer.got) !! name = Some body.(unread)).
Proof using Laws.
  intros provider name Hp Hs. destruct (NewProvider_ok _ _ Hp) as (Es & Eu & Ec).
  assert (Ee : (configOf p.(s3)).(cfg_Endpoint) = provider.(Endpoint)) by by rewrite Ec.
  split; [done|]. split; [by rewrite Eu|]. split; [|split].
  - intros body. unfold Store. rewrite Es. destruct (Upload _ _ _ _ c) as [[body1 c1] err1].
    split_and!; [done..| |]; by destruct err1.
  - intros Hq ok. unfold Store. rewrite Eu, Es.
    destruct (Upload _ _ _ _ c) as [[body c'] err] eqn:E.
    pose proof (Upload_whole _ _ _ _ _ _ _ _ E) as Hw. cbn in Hw. rewrite Ee in Hw.
    assert (Ho : ∀ key', key' ≠ name → objects c' provider.(Endpoint) provider.(Bucket) key' =
                                       objects c provider.(Endpoint) provider.(Bucket) key').
    { intros key' Hne. eapply Upload_other; [exact E|]. rewrite Ee. congruence. }
    destruct Hw as [Ha|[He Ha]].
    + exists (put_bucket name (fst (archive_of tree doc.(doc_backupDir))) d).
      split; [by eapply serves_put|]. split; [left; cbn; apply lookup_insert_eq|]. destruct err; cbn.
      * by apply run_store_lost.
      * by apply run_store_ok.
    + exists d. split.
      * intros key. rewrite (Hs key). destruct (decide (key = name)) as [->|Hne]; [done|]. by rewrite Ho.
      * destruct err; [|done]. split; [by right|]. apply run_store_error.
  - unfold Retrieve. rewrite Es. destruct (GetObject _ _ _ c) as [body|err] eqn:E; cbn; (split; [done|]).
    + exists (put_got name body.(unread) d). split; [exact Hs|]. split.
      * apply run_retrieved. rewrite (Hs name), <- Ee. by apply GetObject_read in E.
      * intros ? [= <-]. apply lookup_insert_eq.
    + exists d. split; [exact Hs|]. split; [apply run_not_retrieved|done].
Qed.
End provider.
End S3Store.
Import S3Store.

(** ** Examples *)

(** A cloud that holds its objects by endpoint, bucket and key *)
Definition example_session (cfg : Config) : Config + error := inl cfg.
Definition example_credentials (cfg : Config) : option error :=
  let '(access, secret, _) := cfg.(StaticCredentials) in
  if bool_decide (access = "" ∨ secret = "") then Some (errorf "EmptyStaticCreds") else None.
Definition example_cloud : Type := gmap (string * string * string) tarball.
#[global] Instance example_sdk : S3Sdk := {|
  session := Config;
  cloud := example_cloud;
  NewSession := example_session;
  CredentialsGet := example_credentials;
  Upload cfg bucket key body c :=
    (mkStream None body.(closed), <[(cfg.(cfg_Endpoint), bucket, key) := body.(unread)]> (c : example_cloud), None);
  GetObject cfg bucket key c :=
    match (c : example_cloud) !! (cfg.(cfg_Endpoint), bucket, key) with
    | Some a => inl (mkStream a false)
    | None => inr (errorf "NoSuchKey")
    end;
  configOf cfg := cfg;
  objects c endpoint bucket key := (c : example_cloud) !! (endpoint, bucket, key) |}.

#[global] Instance example_sdk_laws : S3SdkLaws.
Proof.
  split; cbn.
  - by intros cfg s [= <-].
  - intros cfg. unfold example_credentials. destruct (StaticCredentials cfg) as [[access secret] token].
    case_bool_decide; naive_solver.
  - intros cfg bucket key body c body' c' err [= <- <- <-]. left. apply lookup_insert_eq.
  - intros cfg bucket key body c body' c' err endpoint bucket' key' [= <- <- <-] Hne.
    by apply lookup_insert_ne.
  - intros cfg bucket key c body. by destruct (_ !! _); [intros [= <-]|].
Qed.

Definition example_doc : S3Document := target example_provider backupDir "b".

Lemma provider_refines_witness : ∃ p c',
  NewProvider (s3provider example_doc) = inl p ∧
  snd (fst (Store p "b" (mkStream (fst (archive_of example_tree backupDir)) false) (∅ : example_cloud))) = c' ∧
  ∃ d', serves (s3provider example_doc) c' d' ∧
    job_run example_tree {[ "b" := ToStore example_doc ]} (BackupJob "b" (ArchDone true) UpRun) (mkStore ∅ ∅ ∅) None
      (BackupJob "b" (ArchDone true) (UpReturned true)) d'.
Proof.
  eexists _, _. split; [reflexivity|]. split; [reflexivity|].
  match goal with |- context [Store ?q] => 
    destruct (provider_refines example_tree example_doc q {[ "b" := ToStore example_doc ]} ∅ (mkStore ∅ ∅ ∅))
      as (_ & _ & _ & H & _) end; [reflexivity|done|].
  destruct (H eq_refl true) as (d' & H1 & _ & H2). by exists d'.
Defined.

Lemma no_keys_refused_witness :
  handleBackup (mkS3Document "" "secret" "/var/backup" "b" "http://s3" "bucket" None None) start =
    (set_state "b" StateFailed (set_state "b" StateRunning start),
     reply 404 "failed" "unable to access to s3").
Proof.
  exact (proj1 (no_keys_refused (mkS3Document "" "secret" "/var/backup" "b" "http://s3" "bucket" None None)
    start (or_introl eq_refl))).
Defined.
