(* ===== verification/Server.v ===== *)
(** * The REST server of the side-car

    Models what is between the requests of the operator and the handlers of
    [SideCar]: the documents and their validation
    ([src/galera-images/galera-backup/pkg/models]), the operations with their
    parameters and answers ([pkg/restapi/operations]), the API that routes to the
    handlers ([galera_backup_tool_api.go], [configure_galera_backup_tool.go]), and
    the documents the operator writes and reads.

    The packages of go-openapi are a parameter: how a path is matched, how the
    content of a request is negotiated, and how errors are made and written.  The
    text of a JSON document is left to [encoding/json]; how a document is read into
    a struct is modelled. *)
From S2P Require Import Prelude Timestamps Types BackupTypes Objects Names Kube Ownership Storage SideCar Transfer.

(** ** Documents *)
Module Json.

Inductive json :=
| JNull
| JBool (b : bool)
| JNumber (text : string)
| JString (s : string)
| JArray (l : list json)
| JObject (fields : list (string * json)).

(** The field of a struct that a key sets: the one of that name, or else the first
    one whose name only differs by its case *)
Definition fieldFor (names : list string) (key : string) : option string :=
  if decide (key ∈ names) then Some key
  else List.find (λ name, bool_decide (ToLower name = ToLower key)) names.

(** The keys are read in order; a value of another type is an error, and the
    reading goes on. *)
Definition readKey {A} (conv : json → option A) (onNull : A) (names : list string) (name : string)
    (acc : A * bool) (kv : string * json) : A * bool :=
  if decide (fieldFor names (fst kv) = Some name) then
    match snd kv with
    | JNull => (onNull, snd acc)
    | j => match conv j with Some a => (a, snd acc) | None => (fst acc, true) end
    end
  else acc.

Definition readField {A} (conv : json → option A) (onNull : A) (names : list string) (name : string)
    (fields : list (string * json)) (init : A) : A * bool :=
  fold_left (readKey conv onNull names name) fields (init, false).

Definition asString (j : json) : option string := match j with JString s => Some s | _ => None end.
Definition asBool (j : json) : option bool := match j with JBool b => Some b | _ => None end.

(** A pointer: null makes it nil. *)
Definition readPointer {A} (conv : json → option A) (names : list string) (name : string)
    (fields : list (string * json)) : option A * bool :=
  readField (λ j, Some <$> conv j) None names name fields None.

Definition typeError : error := errorf "json: cannot unmarshal value into Go value".
End Json.
Import Json.

(** ** [pkg/models] *)
Module Models.

Record S3 := mkS3 {
  AccessKey : option string;
  BackupDir : option string;
  BackupName : option string;
  Bucket : option string;
  Endpoint : option string;
  ForcePathStyle : option bool;
  Region : option string;
  SecretKey : option string }.

Record Response := mkResponse { Message : option string; Status : option string }.

Definition S3_names : list string :=
  ["accessKey"; "backupDir"; "backupName"; "bucket"; "endpoint"; "forcePathStyle"; "region"; "secretKey"].

(** [UnmarshalBinary] *)
Definition unmarshalS3 (j : json) : S3 + error :=
  match j with
  | JNull => inl (mkS3 None None None None None None None None)
  | JObject fields =>
      let str name := readPointer asString S3_names name fields in
      let path := readPointer asBool S3_names "forcePathStyle" fields in
      if existsb (λ name, snd (str name))
           ["accessKey"; "backupDir"; "backupName"; "bucket"; "endpoint"; "region"; "secretKey"] || snd path
      then inr typeError
      else inl (mkS3 (fst (str "accessKey")) (fst (str "backupDir")) (fst (str "backupName"))
                     (fst (str "bucket")) (fst (str "endpoint")) (fst path) (fst (str "region"))
                     (fst (str "secretKey")))
  | _ => inr typeError
  end.

Definition pointer (p : option string) : json := match p with Some s => JString s | None => JNull end.

(** [MarshalBinary] *)
Definition marshalResponse (m : Response) : json :=
  JObject [("message", pointer m.(Message)); ("status", pointer m.(Status))].
End Models.

(** The documents of the operator: its request, and what it makes of an answer *)
Definition marshalRequest (s : BackupTypes.S3) : json :=
  JObject ([("accessKey", JString s.(req_AccessKey)); ("secretKey", JString s.(req_SecretKey));
            ("backupDir", JString s.(req_BackupDir)); ("backupName", JString s.(req_BackupName));
            ("endpoint", JString s.(req_Endpoint)); ("bucket", JString s.(req_Bucket))]
           ++ (if decide (s.(req_Region) = "") then [] else [("region", JString s.(req_Region))])
           ++ (if s.(req_ForcePathStyle) then [("forcePathStyle", JBool true)] else [])).

Definition unmarshalReply (j : json) : httpResponse + error :=
  match j with
  | JNull => inl (mkHttpResponse "" "")
  | JObject fields =>
      let keep name := fold_left (λ acc kv,
        if decide (fieldFor ["status"; "message"] (fst kv) = Some name) then
          match snd kv with JString s => (s, snd acc) | JNull => acc | _ => (fst acc, true) end
        else acc) fields ("", false) in
      if snd (keep "status") || snd (keep "message") then inr typeError
      else inl (mkHttpResponse (fst (keep "status")) (fst (keep "message")))
  | _ => inr typeError
  end.

(** A request, with what its body holds: nothing, no JSON text, or a document *)
Inductive content := AtEOF | Malformed (err : error) | Value (j : json).

Record http_request := mkRequest {
  HTTP_Method : string;
  HTTP_Path : string;
  HTTP_Body : option content }.

(** The code and the document of an answer *)
Definition http_answer : Type := Z * option json.

(** What is used of go-openapi *)
Class OpenAPI := {
  Consumer : Type;
  Producer : Type;
  runtime_JSONConsumer : Consumer;
  runtime_JSONProducer : Producer;
  (** [validate.Required], of a pointer that is nil or not *)
  validate_Required : string → string → bool → option error;
  errors_Required : string → string → error;
  errors_NewParseError : string → string → string → error → error;
  errors_CompositeValidationError : list error → error;
  errors_ServeError : error → http_answer;
  middleware_NotImplemented : string → http_answer;
  (** the parameters of a path that matches a template *)
  MatchPath : string → string → option (list (string * list string));
  (** what [BindValidRequest] checks before it binds *)
  Negotiate : http_request → option error;
  (** the answer when no operation matches *)
  NotFound : http_request → http_answer }.

Class OpenAPILaws `{OpenAPI} := {
  validate_Required_nil path where_ : validate_Required path where_ true ≠ None;
  validate_Required_set path where_ : validate_Required path where_ false = None;
  MatchPath_static template path : str_forall (not_char "{") template = true →
    MatchPath template path = if decide (path = template) then Some [] else None;
  (** a template with a parameter, at its end *)
  MatchPath_name prefix path : str_forall (not_char "{") prefix = true →
    HasPrefix path prefix = false → MatchPath (prefix +:+ "{name}") path = None;
  MatchPath_value prefix value : str_forall (not_char "{") prefix = true →
    value ≠ "" → str_forall (λ c, is_digit c || is_lower c || bool_decide (c = "."%char ∨ c = "-"%char)) value = true →
    MatchPath (prefix +:+ "{name}") (prefix +:+ value) = Some [("name", [value])] }.

Section server.
Context `{OpenAPI}.
(** The error of [s3.NewProvider], which makes a session of the S3 client *)
Context (NewProvider : SideCar.S3StorageProvider → option error).

(** ** Validation *)

Definition required {A} (name : string) (p : option A) : option error :=
  validate_Required name "body" (bool_decide (p = None)).

Definition composite (res : list error) : option error :=
  match res with [] => None | _ => Some (errors_CompositeValidationError res) end.

(** [S3.Validate] *)
Definition ValidateS3 (m : Models.S3) : option error :=
  composite (omap id [required "accessKey" m.(Models.AccessKey);
                      required "backupDir" m.(Models.BackupDir);
                      required "backupName" m.(Models.BackupName);
                      required "bucket" m.(Models.Bucket);
                      required "endpoint" m.(Models.Endpoint);
                      required "secretKey" m.(Models.SecretKey)]).

(** [Response.Validate] *)
Definition ValidateResponse (m : Models.Response) : option error :=
  composite (omap id [required "message" m.(Models.Message); required "status" m.(Models.Status)]).

(** ** Parameters of the operations *)

(** [AddS3BackupParams] and [GetS3BackupParams] *)
Record S3Params := mkS3Params { params_S3 : option Models.S3 }.

Inductive consumed (A : Type) := Consumed (a : A) | ConsumeEOF | ConsumeError (err : error).
#[local] Arguments Consumed {A} a.
#[local] Arguments ConsumeEOF {A}.
#[local] Arguments ConsumeError {A} err.

(** The consumer of JSON documents *)
Definition Consume {A} (unmarshal : json → A + error) (body : content) : consumed A :=
  match body with
  | AtEOF => ConsumeEOF
  | Malformed err => ConsumeError err
  | Value j => match unmarshal j with inl a => Consumed a | inr err => ConsumeError err end
  end.

Definition BindS3 (r : http_request) : S3Params * option error :=
  let (res, s3) :=
    match r.(HTTP_Body) with
    | Some body =>
        match Consume Models.unmarshalS3 body with
        | ConsumeEOF => ([errors_Required "s3" "body"], None)
        | ConsumeError err => ([errors_NewParseError "s3" "body" "" err], None)
        | Consumed body =>
            match ValidateS3 body with Some err => ([err], None) | None => ([], Some body) end
        end
    | None => ([errors_Required "s3" "body"], None)
    end in
  (mkS3Params s3, composite res).

Definition BindAddS3Backup : http_request → S3Params * option error := BindS3.
Definition BindGetS3Backup : http_request → S3Params * option error := BindS3.

(** [GetStateByNameParams], from the values of the parameter in the path *)
Definition BindName (route : list (string * list string)) : string * option error :=
  let rawData := match List.find (λ p, bool_decide (fst p = "name")) route with Some p => snd p | None => [] end in
  (default "" (last rawData), None).

(** ** Answers *)

Record responder := mkResponder { statusCode : Z; Payload : option Models.Response }.

Definition NewAddS3BackupOK : responder := mkResponder 200 None.
Definition NewAddS3BackupDefault (code : Z) : responder :=
  mkResponder (if decide (code <= 0) then 500 else code) None.
Definition NewGetS3BackupOK : responder := mkResponder 200 None.
Definition NewGetS3BackupDefault (code : Z) : responder :=
  mkResponder (if decide (code <= 0) then 500 else code) None.
Definition NewGetStateByNameOK : responder := mkResponder 200 None.
Definition NewGetStateByNameDefault (code : Z) : responder :=
  mkResponder (if decide (code <= 0) then 500 else code) None.
Definition NewGetProbeOK : responder := mkResponder 200 None.

Definition WithPayload (payload : Models.Response) (o : responder) : responder :=
  mkResponder o.(statusCode) (Some payload).

Definition WriteResponse (o : responder) : http_answer :=
  (o.(statusCode), Models.marshalResponse <$> o.(Payload)).

Definition answerOf (o : responder) (status message : string) : responder :=
  WithPayload (Models.mkResponse (Some message) (Some status)) o.

(** ** The handlers, on parameters *)

Import SideCar.

(** The provider of a request: its pointers are followed. *)
Definition storageProvider (s3 : Models.S3) : outcome S3StorageProvider :=
  endpoint ← deref s3.(Models.Endpoint);
  bucket ← deref s3.(Models.Bucket);
  accessKey ← deref s3.(Models.AccessKey);
  secretKey ← deref s3.(Models.SecretKey);
  Ok (mkS3StorageProvider
        (match s3.(Models.Region) with None => "us-east-1" | Some region => region end)
        endpoint bucket
        (match s3.(Models.ForcePathStyle) with None => true | Some b => b end)
        accessKey secretKey).

(** [S3Backup].  The goroutine follows the pointer to the directory: a panic
    there ends the program as well. *)
Definition handleS3Backup (params : S3Params) (srv : server) : outcome (server * option responder) :=
  s3 ← deref params.(params_S3);
  s3provider ← storageProvider s3;
  name ← deref s3.(Models.BackupName);
  let srv := set_state name StateRunning srv in
  match NewProvider s3provider with
  | Some _ =>
      Ok (set_state name StateFailed srv,
          Some (answerOf (NewAddS3BackupDefault 404) "failed" "unable to access to s3"))
  | None =>
      _ ← deref s3.(Models.BackupDir);
      Ok (mkServer srv.(StateMap) (srv.(jobs) ++ [BackupJob name ArchRun UpRun]),
          Some (answerOf NewGetS3BackupOK "scheduled" (name +:+ " is scheduled")))
  end.

(** [S3Restore], up to the request for the object *)
Definition handleS3Restore (params : S3Params) (srv : server) : outcome (server * option responder) :=
  s3 ← deref params.(params_S3);
  s3provider ← storageProvider s3;
  name ← deref s3.(Models.BackupName);
  let srv := set_state name StateRunning srv in
  match NewProvider s3provider with
  | Some _ =>
      Ok (set_state name StateFailed srv,
          Some (answerOf (NewAddS3BackupDefault 404) "failed" "unable to access to s3"))
  | None =>
      _ ← deref s3.(Models.BackupDir);
      Ok (mkServer srv.(StateMap) (srv.(jobs) ++ [RestoreJob name ResGet]), None)
  end.

(** The answer of [S3Restore], once [provider.Retrieve] has returned *)
Definition answerS3Restore (err : option error) (name : string) : responder :=
  match err with
  | Some _ => answerOf (NewAddS3BackupDefault 404) "failed" "error with s3 storage during restore"
  | None => answerOf NewGetS3BackupOK "scheduled" (name +:+ " is scheduled")
  end.

Definition handleState (name : string) (srv : server) : responder :=
  let s := stateOf srv.(StateMap) name in
  if decide (s = StateNone)
  then answerOf (NewGetStateByNameDefault 404) StateUnknown (name +:+ " is unknow")
  else answerOf NewGetStateByNameOK s (name +:+ " is " +:+ s).

Definition handleProbe : responder := answerOf NewGetProbeOK "OK" "Running".

(** ** The API *)

Definition S3Handler : Type := S3Params → server → outcome (server * option responder).
Definition StateHandler : Type := string → server → responder.
Definition ProbeHandler : Type := responder.

(** The handlers that are not set yet; they answer that nothing is implemented. *)
Inductive handler (A : Type) := NotImplementedHandler (operation : string) | HandlerFunc (handle : A).
#[local] Arguments NotImplementedHandler {A} operation.
#[local] Arguments HandlerFunc {A} handle.

(** The [http.Handler] of an operation, with its handler, which may be nil *)
Inductive http_handler :=
| NewAddS3Backup (h : option (handler S3Handler))
| NewGetProbe (h : option (handler ProbeHandler))
| NewGetS3Backup (h : option (handler S3Handler))
| NewGetStateByName (h : option (handler StateHandler)).

Abbreviation handler_cache := (gmap string (gmap string http_handler)).

Record GaleraBackupToolAPI := mkAPI {
  handlers : handler_cache;
  defaultConsumes : string;
  defaultProduces : string;
  customConsumers : gmap string Consumer;
  customProducers : gmap string Producer;
  JSONConsumer : option Consumer;
  JSONProducer : option Producer;
  AddS3BackupHandler : option (handler S3Handler);
  GetProbeHandler : option (handler ProbeHandler);
  GetS3BackupHandler : option (handler S3Handler);
  GetStateByNameHandler : option (handler StateHandler) }.

Definition NewGaleraBackupToolAPI : GaleraBackupToolAPI :=
  mkAPI ∅ "application/json" "application/json" ∅ ∅
    (Some runtime_JSONConsumer) (Some runtime_JSONProducer)
    (Some (NotImplementedHandler "operation operations.AddS3Backup has not yet been implemented"))
    (Some (NotImplementedHandler "operation operations.GetProbe has not yet been implemented"))
    (Some (NotImplementedHandler "operation operations.GetS3Backup has not yet been implemented"))
    (Some (NotImplementedHandler "operation operations.GetStateByName has not yet been implemented")).

(** The registrations that are missing *)
Definition unregistered (o : GaleraBackupToolAPI) : list string :=
  (if decide (is_Some o.(JSONConsumer)) then [] else ["JSONConsumer"]) ++
  (if decide (is_Some o.(JSONProducer)) then [] else ["JSONProducer"]) ++
  (if decide (is_Some o.(AddS3BackupHandler)) then [] else ["Operations.AddS3BackupHandler"]) ++
  (if decide (is_Some o.(GetProbeHandler)) then [] else ["Operations.GetProbeHandler"]) ++
  (if decide (is_Some o.(GetS3BackupHandler)) then [] else ["Operations.GetS3BackupHandler"]) ++
  (if decide (is_Some o.(GetStateByNameHandler)) then [] else ["Operations.GetStateByNameHandler"]).

Definition ValidateAPI (o : GaleraBackupToolAPI) : option error :=
  match unregistered o with
  | [] => None
  | l => Some (errorf ("missing registration: " +:+ Join l ", "))
  end.

(** The values for some media types: that of JSON, and those that were registered,
    which have the last word *)
Definition mediaFor {C} (json : C) (custom : gmap string C) (mediaTypes : list string) : gmap string C :=
  fold_left (λ result mt,
    let result := if decide (mt = "application/json") then <["application/json" := json]> result else result in
    match custom !! mt with Some c => <[mt := c]> result | None => result end) mediaTypes ∅.

Definition ConsumersFor (o : GaleraBackupToolAPI) (mediaTypes : list string) : gmap string (option Consumer) :=
  mediaFor o.(JSONConsumer) (Some <$> o.(customConsumers)) mediaTypes.
Definition ProducersFor (o : GaleraBackupToolAPI) (mediaTypes : list string) : gmap string (option Producer) :=
  mediaFor o.(JSONProducer) (Some <$> o.(customProducers)) mediaTypes.

Definition HandlerFor (o : GaleraBackupToolAPI) (method path : string) : option http_handler :=
  match o.(handlers) !! ToUpper method with
  | None => None
  | Some byPath => byPath !! (if decide (path = "/") then "" else path)
  end.

Definition setHandler (method path : string) (h : http_handler) (handlers : handler_cache) : handler_cache :=
  <[method := <[path := h]> (default ∅ (handlers !! method))]> handlers.

Definition initHandlerCache (o : GaleraBackupToolAPI) : GaleraBackupToolAPI :=
  let cache :=
    setHandler "GET" "/state/{name}" (NewGetStateByName o.(GetStateByNameHandler))
      (setHandler "GET" "/s3" (NewGetS3Backup o.(GetS3BackupHandler))
        (setHandler "GET" "/probe" (NewGetProbe o.(GetProbeHandler))
          (setHandler "POST" "/s3" (NewAddS3Backup o.(AddS3BackupHandler)) o.(handlers)))) in
  mkAPI cache o.(defaultConsumes) o.(defaultProduces) o.(customConsumers) o.(customProducers)
    o.(JSONConsumer) o.(JSONProducer) o.(AddS3BackupHandler) o.(GetProbeHandler)
    o.(GetS3BackupHandler) o.(GetStateByNameHandler).

Definition Init (o : GaleraBackupToolAPI) : GaleraBackupToolAPI :=
  if decide (o.(handlers) = ∅) then initHandlerCache o else o.

Definition SetDefaultProduces (mediaType : string) (o : GaleraBackupToolAPI) : GaleraBackupToolAPI :=
  mkAPI o.(handlers) o.(defaultConsumes) mediaType o.(customConsumers) o.(customProducers) o.(JSONConsumer)
    o.(JSONProducer) o.(AddS3BackupHandler) o.(GetProbeHandler) o.(GetS3BackupHandler) o.(GetStateByNameHandler).
Definition SetDefaultConsumes (mediaType : string) (o : GaleraBackupToolAPI) : GaleraBackupToolAPI :=
  mkAPI o.(handlers) mediaType o.(defaultProduces) o.(customConsumers) o.(customProducers) o.(JSONConsumer)
    o.(JSONProducer) o.(AddS3BackupHandler) o.(GetProbeHandler) o.(GetS3BackupHandler) o.(GetStateByNameHandler).
Definition RegisterConsumer (mediaType : string) (consumer : Consumer) (o : GaleraBackupToolAPI) : GaleraBackupToolAPI :=
  mkAPI o.(handlers) o.(defaultConsumes) o.(defaultProduces) (<[mediaType := consumer]> o.(customConsumers))
    o.(customProducers) o.(JSONConsumer) o.(JSONProducer) o.(AddS3BackupHandler) o.(GetProbeHandler)
    o.(GetS3BackupHandler) o.(GetStateByNameHandler).
Definition RegisterProducer (mediaType : string) (producer : Producer) (o : GaleraBackupToolAPI) : GaleraBackupToolAPI :=
  mkAPI o.(handlers) o.(defaultConsumes) o.(defaultProduces) o.(customConsumers)
    (<[mediaType := producer]> o.(customProducers)) o.(JSONConsumer) o.(JSONProducer)
    o.(AddS3BackupHandler) o.(GetProbeHandler) o.(GetS3BackupHandler) o.(GetStateByNameHandler).

(** [configureAPI], up to the handler that the middleware makes of the API *)
Definition configureAPI (api : GaleraBackupToolAPI) : GaleraBackupToolAPI :=
  Init (mkAPI api.(handlers) api.(defaultConsumes) api.(defaultProduces) api.(customConsumers)
    api.(customProducers) (Some runtime_JSONConsumer) (Some runtime_JSONProducer)
    (Some (HandlerFunc handleS3Backup)) (Some (HandlerFunc handleProbe))
    (Some (HandlerFunc handleS3Restore)) (Some (HandlerFunc handleState))).

(** ** Serving *)

(** The API that the side-car serves *)
Definition sidecarAPI : GaleraBackupToolAPI := configureAPI NewGaleraBackupToolAPI.

(** A call of a handler, which may be nil *)
Definition Handle {A} (h : option (handler A)) (srv : server)
    (call : A → outcome (server * option http_answer)) : outcome (server * option http_answer) :=
  match h with
  | None => Panic
  | Some (NotImplementedHandler op) => Ok (srv, Some (middleware_NotImplemented op))
  | Some (HandlerFunc f) => call f
  end.

(** A request that is refused: the answer is the error. *)
Definition refused (err : error) (srv : server) : outcome (server * option http_answer) :=
  Ok (srv, Some (errors_ServeError err)).

(** [BindValidRequest], before the operation binds its parameters *)
Definition BindValidRequest {A} (r : http_request) (bind : http_request → A * option error) (srv : server)
    (k : A → outcome (server * option http_answer)) : outcome (server * option http_answer) :=
  match Negotiate r with
  | Some err => refused err srv
  | None =>
      let (params, err) := bind r in
      match err with Some err => refused err srv | None => k params end
  end.

(** [ServeHTTP] of the operations; without answer while an object is fetched *)
Definition ServeS3 (bind : http_request → S3Params * option error) (h : option (handler S3Handler))
    (r : http_request) (srv : server) : outcome (server * option http_answer) :=
  BindValidRequest r bind srv (λ params,
    Handle h srv (λ handle : S3Handler,
      '(srv, res) ← handle params srv; Ok (srv, fmap (M:=option) WriteResponse res))).

Definition ServeAddS3Backup := ServeS3 BindAddS3Backup.
Definition ServeGetS3Backup := ServeS3 BindGetS3Backup.

Definition ServeGetProbe (h : option (handler ProbeHandler)) (r : http_request) (srv : server)
    : outcome (server * option http_answer) :=
  BindValidRequest r (λ _, (tt, None)) srv (λ _,
    Handle h srv (λ res : ProbeHandler, Ok (srv, Some (WriteResponse res)))).

Definition ServeGetStateByName (h : option (handler StateHandler)) (r : http_request)
    (route : list (string * list string)) (srv : server) : outcome (server * option http_answer) :=
  BindValidRequest r (λ _, BindName route) srv (λ name,
    Handle h srv (λ handle : StateHandler, Ok (srv, Some (WriteResponse (handle name srv))))).

Definition ServeHTTP (h : http_handler) (r : http_request) (route : list (string * list string)) (srv : server)
    : outcome (server * option http_answer) :=
  match h with
  | NewAddS3Backup h => ServeAddS3Backup h r srv
  | NewGetS3Backup h => ServeGetS3Backup h r srv
  | NewGetProbe h => ServeGetProbe h r srv
  | NewGetStateByName h => ServeGetStateByName h r route srv
  end.

(** The operations of the document that describes the API *)
Record spec_operation := mkOperation {
  op_path : string;
  op_method : string;
  op_operationId : string;
  op_consumes : list string;
  op_produces : list string;
  (** name, place, whether it is required *)
  op_parameters : list (string * string * bool) }.

Definition SwaggerJSON : list spec_operation :=
  [mkOperation "/probe" "GET" "getProbe" [] ["application/json"] [];
   mkOperation "/s3" "GET" "getS3Backup" ["application/json"] ["application/json"] [("s3", "body", true)];
   mkOperation "/s3" "POST" "addS3Backup" ["application/json"] ["application/json"] [("s3", "body", true)];
   mkOperation "/state/{name}" "GET" "getStateByName" [] ["application/json"] [("name", "path", true)]].

(** What it requires of the document of a request *)
Definition SwaggerS3_required : list string :=
  ["endpoint"; "bucket"; "accessKey"; "secretKey"; "backupName"; "backupDir"].

(** The operation of a request: the router has those of the document that have
    a handler. *)
Definition lookup_route (api : GaleraBackupToolAPI) (r : http_request)
    : option (http_handler * list (string * list string)) :=
  head (omap (λ op,
    h ← HandlerFor api op.(op_method) op.(op_path);
    if decide (op.(op_method) = r.(HTTP_Method))
    then (λ params, (h, params)) <$> MatchPath op.(op_path) r.(HTTP_Path) else None) SwaggerJSON).

Definition serve (api : GaleraBackupToolAPI) (r : http_request) (srv : server)
    : outcome (server * option http_answer) :=
  match lookup_route api r with
  | Some (h, params) => ServeHTTP h r params srv
  | None => Ok (srv, Some (NotFound r))
  end.

(** ** Validation *)

(** The document of a request that has all that is required *)
Definition document (m : Models.S3) : option S3Document :=
  accessKey ← m.(Models.AccessKey);
  secretKey ← m.(Models.SecretKey);
  backupDir ← m.(Models.BackupDir);
  backupName ← m.(Models.BackupName);
  endpoint ← m.(Models.Endpoint);
  bucket ← m.(Models.Bucket);
  Some (mkS3Document accessKey secretKey backupDir backupName endpoint bucket
          m.(Models.Region) m.(Models.ForcePathStyle)).

Lemma composite_None (l : list (option error)) : composite (omap id l) = None ↔ Forall (λ o, o = None) l.
Proof.
  unfold composite. induction l as [|[e|] l IH]; cbn.
  - by split.
  - split; [done|]. by intros [? _]%Forall_cons.
  - rewrite IH, Forall_cons. naive_solver.
Qed.

Context {Laws : OpenAPILaws}.

Lemma required_None {A} name (p : option A) : required name p = None ↔ is_Some p.
Proof using Laws.
  unfold required. destruct p as [a|].
  - rewrite bool_decide_eq_false_2 by done. rewrite validate_Required_set. split; eauto.
  - rewrite bool_decide_eq_true_2 by done. split; [|by intros []].
    intros E. by destruct (validate_Required_nil name "body").
Qed.

Lemma ValidateS3_document m : ValidateS3 m = None ↔ is_Some (document m).
Proof using Laws.
  unfold ValidateS3. rewrite composite_None, !Forall_cons, Forall_nil, !required_None.
  unfold document. split.
  - intros ([? ->] & [? ->] & [? ->] & [? ->] & [? ->] & [? ->] & _). by eexists.
  - intros [doc E]. repeat apply bind_Some in E as (? & -> & E). by split_and!.
Qed.

(** Whether a request holds a document, and which *)
Definition requested (r : http_request) (m : Models.S3) : Prop :=
  ∃ j, r.(HTTP_Body) = Some (Value j) ∧ Models.unmarshalS3 j = inl m.

Lemma BindS3_bound r params : BindS3 r = (params, None) →
  ∃ m doc, requested r m ∧ document m = Some doc ∧ params = mkS3Params (Some m).
Proof using Laws.
  unfold BindS3. destruct (HTTP_Body r) as [body|] eqn:Eb; [|done].
  destruct body as [|e|j]; cbn [Consume]; [done..|].
  destruct (Models.unmarshalS3 j) as [m|e] eqn:Ej; [|done].
  destruct (ValidateS3 m) as [e|] eqn:Ev; [done|]. intros [= <-].
  apply ValidateS3_document in Ev as [doc Ed]. exists m, doc. split_and!; [by exists j|done..].
Qed.

Lemma BindS3_requested r m doc : requested r m → document m = Some doc →
  BindS3 r = (mkS3Params (Some m), None).
Proof using Laws.
  intros (j & Eb & Ej) Ed. unfold BindS3. rewrite Eb. cbn [Consume]. rewrite Ej.
  by rewrite (proj2 (ValidateS3_document m)) by (by eexists).
Qed.

(** ** The handlers *)

(** What the client of the operator makes of an answer *)
Definition understood (a : http_answer) : httpReply :=
  mkHttpReply (fst a) (match snd a with Some j => unmarshalReply j | None => inr (errorf "unexpected end of JSON input") end).

Lemma understood_answer o status message :
  understood (WriteResponse (answerOf o status message)) = reply o.(statusCode) status message.
Proof. reflexivity. Qed.

Lemma handleS3Backup_spec m doc srv : document m = Some doc →
  ∃ r, handleS3Backup (mkS3Params (Some m)) srv =
         Ok (fst (S3Backup (NewProvider (s3provider doc)) doc srv), Some r) ∧
       understood (WriteResponse r) = snd (S3Backup (NewProvider (s3provider doc)) doc srv).
Proof.
  unfold document. destruct m as [[?|] [?|] [?|] [?|] [?|] fps region [?|]]; cbn; try done.
  intros [= <-]. unfold handleS3Backup, S3Backup, s3provider. cbn.
  destruct (NewProvider _); cbn; by eexists.
Qed.

Lemma handleS3Restore_spec m doc srv : document m = Some doc →
  ∃ r, handleS3Restore (mkS3Params (Some m)) srv =
         Ok (fst (S3Restore (NewProvider (s3provider doc)) doc srv), r) ∧
       understood ∘ WriteResponse <$> r = snd (S3Restore (NewProvider (s3provider doc)) doc srv).
Proof.
  unfold document. destruct m as [[?|] [?|] [?|] [?|] [?|] fps region [?|]]; cbn; try done.
  intros [= <-]. unfold handleS3Restore, S3Restore, s3provider. cbn.
  destruct (NewProvider _); cbn; by eexists.
Qed.

Lemma answerS3Restore_spec err name :
  understood (WriteResponse (answerS3Restore err name)) = snd (S3Restored err name).
Proof. by destruct err. Qed.

Lemma handleState_spec name srv : understood (WriteResponse (handleState name srv)) = State srv.(StateMap) name.
Proof. unfold handleState, State. by case_decide. Qed.

(** ** Routing *)

(** The operations of the document are those of the side-car, each with its
    handler. *)
Definition sidecarHandler (operationId : string) : option http_handler :=
  if decide (operationId = "getProbe") then Some (NewGetProbe (Some (HandlerFunc handleProbe)))
  else if decide (operationId = "getS3Backup") then Some (NewGetS3Backup (Some (HandlerFunc handleS3Restore)))
  else if decide (operationId = "addS3Backup") then Some (NewAddS3Backup (Some (HandlerFunc handleS3Backup)))
  else if decide (operationId = "getStateByName") then Some (NewGetStateByName (Some (HandlerFunc handleState)))
  else None.

Lemma sidecar_handled : Forall (λ op,
  HandlerFor sidecarAPI op.(op_method) op.(op_path) = sidecarHandler op.(op_operationId) ∧
  is_Some (sidecarHandler op.(op_operationId))) SwaggerJSON.
Proof. repeat constructor; by eexists. Qed.

Lemma lookup_operation api r h params : lookup_route api r = Some (h, params) →
  ∃ op, op ∈ SwaggerJSON ∧ op.(op_method) = r.(HTTP_Method) ∧
    HandlerFor api op.(op_method) op.(op_path) = Some h ∧ MatchPath op.(op_path) r.(HTTP_Path) = Some params.
Proof.
  unfold lookup_route. intros E%head_Some_elem_of. apply list_elem_of_omap in E as (op & Hop & E).
  apply bind_Some in E as (h' & Hh & E). case_decide as Hm; [|done].
  destruct (MatchPath _ _) as [ps|] eqn:Ep; [|done]. injection E as -> ->. by exists op.
Qed.

(** The requests the operator makes are routed to their operations. *)
Lemma lookup_first r op l1 l2 h params :
  SwaggerJSON = l1 ++ op :: l2 →
  Forall (λ op', op'.(op_method) ≠ r.(HTTP_Method) ∨ MatchPath op'.(op_path) r.(HTTP_Path) = None) l1 →
  op.(op_method) = r.(HTTP_Method) → HandlerFor sidecarAPI op.(op_method) op.(op_path) = Some h →
  MatchPath op.(op_path) r.(HTTP_Path) = Some params → lookup_route sidecarAPI r = Some (h, params).
Proof.
  intros E Hl Hm Hh Hp. unfold lookup_route. rewrite E. clear E.
  induction Hl as [|op' l1 Hop _ IH]; cbn.
  - rewrite Hh. cbn. case_decide; [|done]. by rewrite Hp.
  - destruct (HandlerFor sidecarAPI op'.(op_method) op'.(op_path)) as [h'|]; [|exact IH]. cbn.
    case_decide; [|exact IH]. destruct Hop as [?| ->]; [done|exact IH].
Qed.

(** C22: whatever the side-car is asked, it answers, or starts to fetch an object,
    without following a nil pointer.  A request starts a backup or a restoration
    only if it has a document with all that is required, and then it is the request
    of [SideCar] for that document, with its answer; otherwise nothing changes. *)
Theorem sidecar_serves (r : http_request) (srv : server) :
  ∃ srv' a, serve sidecarAPI r srv = Ok (srv', a) ∧
    (srv' = srv ∧ is_Some a ∨
     ∃ m doc, requested r m ∧ document m = Some doc ∧
       let err := NewProvider (s3provider doc) in
       (r.(HTTP_Method) = "POST" ∧ srv' = fst (S3Backup err doc srv) ∧
          understood <$> a = Some (snd (S3Backup err doc srv))) ∨
       (r.(HTTP_Method) = "GET" ∧ srv' = fst (S3Restore err doc srv) ∧
          understood <$> a = snd (S3Restore err doc srv))).
Proof using Laws.
  unfold serve. destruct (lookup_route sidecarAPI r) as [[h route]|] eqn:El; [|by eexists _, _; eauto].
  apply lookup_operation in El as (op & Hop & Hm & Hh & Hp).
  pose proof sidecar_handled as Hs. rewrite Forall_forall in Hs. destruct (Hs op Hop) as [Hs' _].
  rewrite Hh in Hs'. unfold ServeHTTP, ServeGetStateByName, ServeGetProbe, ServeAddS3Backup, ServeGetS3Backup,
    ServeS3, BindAddS3Backup, BindGetS3Backup, BindValidRequest.
  unfold SwaggerJSON in Hop. rewrite !elem_of_cons, elem_of_nil in Hop.
  destruct Hop as [->|[->|[->|[->|[]]]]]; cbn in Hs', Hm; injection Hs' as ->;
    (destruct (Negotiate r) as [e|]; [by eexists _, _; eauto|]).
  - by eexists _, _; eauto.
  - destruct (BindS3 r) as [params [e|]] eqn:Eb; [by eexists _, _; eauto|].
    apply BindS3_bound in Eb as (m & doc & Hr & Hd & ->).
    destruct (handleS3Restore_spec m doc srv Hd) as (a & Ea & Eu).
    cbn [Handle]. rewrite Ea. eexists _, _. split; [done|]. right. exists m, doc. split_and!; [done..|].
    right. split_and!; [done..|]. rewrite <- Eu. by destruct a.
  - destruct (BindS3 r) as [params [e|]] eqn:Eb; [by eexists _, _; eauto|].
    apply BindS3_bound in Eb as (m & doc & Hr & Hd & ->).
    destruct (handleS3Backup_spec m doc srv Hd) as (a & Ea & Eu).
    cbn [Handle]. rewrite Ea. eexists _, _. split; [done|]. right. exists m, doc. split_and!; [done..|].
    left. split_and!; [done..|]. by rewrite <- Eu.
  - destruct (BindName route) as [name [e|]]; by eexists _, _; eauto.
Qed.

(** ** The requests of the operator *)

(** The model of a request of the operator, field by field: what is empty or false is
    not written *)
Definition modelOf (s : BackupTypes.S3) : Models.S3 := {|
  Models.AccessKey := Some s.(req_AccessKey);
  Models.BackupDir := Some s.(req_BackupDir);
  Models.BackupName := Some s.(req_BackupName);
  Models.Bucket := Some s.(req_Bucket);
  Models.Endpoint := Some s.(req_Endpoint);
  Models.ForcePathStyle := if s.(req_ForcePathStyle) then Some true else None;
  Models.Region := if decide (s.(req_Region) = "") then None else Some s.(req_Region);
  Models.SecretKey := Some s.(req_SecretKey) |}.

(** The provider that its settings mean *)
Definition providerOf (s : BackupTypes.S3) : S3StorageProvider :=
  mkS3StorageProvider (if decide (s.(req_Region) = "") then "us-east-1" else s.(req_Region))
    s.(req_Endpoint) s.(req_Bucket) true s.(req_AccessKey) s.(req_SecretKey).

(** What the operator writes is what the side-car reads. *)
Lemma unmarshal_request s :
  Models.unmarshalS3 (marshalRequest s) = inl (modelOf s) ∧ document (modelOf s) = Some (marshalS3 s).
Proof.
  unfold marshalRequest, marshalS3, modelOf.
  destruct (decide (s.(req_Region) = "")), s.(req_ForcePathStyle); split; reflexivity.
Qed.

Lemma provider_request s :
  storageProvider (modelOf s) = Ok (providerOf s) ∧ s3provider (marshalS3 s) = providerOf s.
Proof.
  unfold storageProvider, modelOf, providerOf, s3provider, marshalS3. cbn.
  destruct (decide (s.(req_Region) = "")), s.(req_ForcePathStyle); split; reflexivity.
Qed.

Definition operatorRequest (method : string) (s : BackupTypes.S3) : http_request :=
  mkRequest method "/s3" (Some (Value (marshalRequest s))).
Definition stateRequest (key : string) : http_request := mkRequest "GET" ("/state/" +:+ key) None.

Lemma route_s3 method h s :
  (method = "GET" ∧ h = NewGetS3Backup (Some (HandlerFunc handleS3Restore))) ∨
  (method = "POST" ∧ h = NewAddS3Backup (Some (HandlerFunc handleS3Backup))) →
  lookup_route sidecarAPI (operatorRequest method s) = Some (h, []).
Proof using Laws.
  intros [[-> ->]|[-> ->]].
  - eapply (lookup_first _ _ [_] [_; _]); [reflexivity| |reflexivity..|by rewrite MatchPath_static].
    apply Forall_singleton. right. by rewrite MatchPath_static.
  - eapply (lookup_first _ _ [_; _] [_]); [reflexivity| |reflexivity..|by rewrite MatchPath_static].
    by repeat apply Forall_cons_2; [left..|].
Qed.

Lemma route_state key :
  key ≠ "" → str_forall (λ c, is_digit c || is_lower c || bool_decide (c = "."%char ∨ c = "-"%char)) key = true →
  lookup_route sidecarAPI (stateRequest key) =
    Some (NewGetStateByName (Some (HandlerFunc handleState)), [("name", [key])]).
Proof using Laws.
  intros Hn Hk. eapply (lookup_first _ _ [_; _; _] []); [reflexivity| |reflexivity..|].
  - repeat apply Forall_cons_2; [right|right|by left|apply Forall_nil_2]; by rewrite MatchPath_static.
  - by apply (MatchPath_value "/state/" key).
Qed.

(** C17: the side-car serves the operator as [Transfer] supposes.  A request that it
    makes is read as it was written: every field of the model is that of the request, a
    region that is empty and a flag that is false being absent, so that the provider has
    the endpoint, the bucket and the keys of the request, us-east-1 as the default region
    and path style addresses.  For a new object it is handled as [SideCar] says, for that
    document and the error of that provider, and the operator reads the answer of the
    handler; a request for a state is answered with the state of the object, and changes
    nothing.  This is for requests whose media types go-openapi accepts ([Negotiate]), and
    for objects whose name is made of digits, lower case letters, dots and dashes, as the
    names of the operator are: they need no escape in a path. *)
Theorem operator_served (p : S3Provider.Provider) (dir key : string) (w : Transfer.world) :
  (∀ method s, Negotiate (operatorRequest method s) = None) → Negotiate (stateRequest key) = None →
  key ≠ "" → str_forall (λ c, is_digit c || is_lower c || bool_decide (c = "."%char ∨ c = "-"%char)) key = true →
  let s := S3Provider.with_target dir key p.(S3Provider.s3) in
  let url := S3Provider.url p "/s3" in
  let doc := marshalS3 s in
  let err := NewProvider (providerOf p.(S3Provider.s3)) in
  let srv := w.(Transfer.srv) in
  (∀ method, BindS3 (operatorRequest method s) = (mkS3Params (Some (modelOf s)), None)) ∧
  storageProvider (modelOf s) = Ok (providerOf p.(S3Provider.s3)) ∧
  doc.(doc_backupName) = key ∧ doc.(doc_backupDir) = dir ∧
  (srv.(StateMap) !! key = None →
     (∃ a, serve sidecarAPI (operatorRequest "POST" s) srv = Ok (fst (S3Backup err doc srv), Some a) ∧
        understood a = snd (S3Backup err doc srv) ∧
        Transfer.answer p (EvHTTP "POST" url (Some doc) (inl (understood a))) w (Transfer.handle_backup err doc w)) ∧
     (∃ a, serve sidecarAPI (operatorRequest "GET" s) srv = Ok (fst (S3Restore err doc srv), a) ∧
        understood <$> a = snd (S3Restore err doc srv) ∧
        ∀ r, Transfer.answer p (EvHTTP "GET" url (Some doc) r) w (Transfer.handle_restore err doc w))) ∧
  (∀ e, understood (WriteResponse (answerS3Restore e key)) = snd (S3Restored e key)) ∧
  (∃ a, serve sidecarAPI (stateRequest key) srv = Ok (srv, Some a) ∧
     understood a = State srv.(StateMap) key ∧
     Transfer.answer p (EvHTTP "GET" (S3Provider.url p ("/state/" +:+ key)) None (inl (understood a))) w w).
Proof using Laws.
  intros Hneg Hnegs Hn Hk s url doc err srv. destruct (unmarshal_request s) as [Em Ed].
  destruct (provider_request s) as [Ep Es].
  change (providerOf s) with (providerOf p.(S3Provider.s3)) in Ep, Es.
  assert (Hb : ∀ method, BindS3 (operatorRequest method s) = (mkS3Params (Some (modelOf s)), None)).
  { intros method. apply (BindS3_requested _ _ doc); [by eexists|done]. }
  split; [exact Hb|]. split; [exact Ep|]. split; [done|]. split; [done|].
  split; [intros Hfresh; split|split; [intros e; apply answerS3Restore_spec|]].
  - destruct (handleS3Backup_spec _ _ srv Ed) as (a & Ea & Eu). rewrite Es in Ea, Eu.
    exists (WriteResponse a). unfold serve.
    rewrite (route_s3 "POST" _ s (or_intror (conj eq_refl eq_refl))). unfold ServeHTTP, ServeAddS3Backup,
      ServeGetS3Backup, ServeS3, BindValidRequest.
    rewrite Hneg. unfold BindAddS3Backup, BindGetS3Backup. rewrite Hb. cbn [Handle]. rewrite Ea.
    split; [reflexivity|]. split; [exact Eu|]. by apply Transfer.answer_backup.
  - destruct (handleS3Restore_spec _ _ srv Ed) as (a & Ea & Eu). rewrite Es in Ea, Eu.
    exists (WriteResponse <$> a). unfold serve.
    rewrite (route_s3 "GET" _ s (or_introl (conj eq_refl eq_refl))). unfold ServeHTTP, ServeAddS3Backup,
      ServeGetS3Backup, ServeS3, BindValidRequest.
    rewrite Hneg. unfold BindAddS3Backup, BindGetS3Backup. rewrite Hb. cbn [Handle]. rewrite Ea.
    split; [reflexivity|]. split; [etrans; [|exact Eu]; by destruct a|]. intros r. by apply Transfer.answer_restore.
  - eexists. unfold serve. rewrite (route_state key Hn Hk). unfold ServeHTTP, ServeGetStateByName,
      BindValidRequest. rewrite Hnegs. cbn [BindName Handle].
    split; [reflexivity|]. split; [apply handleState_spec|]. cbn. rewrite handleState_spec. apply Transfer.answer_state.
Qed.
End server.

(** ** Examples *)

Definition example_matchPath (template path : string) : option (list (string * list string)) :=
  if str_forall (not_char "{") template then (if decide (path = template) then Some [] else None)
  else
    let prefix := str_take (String.length template - 6) template in
    if HasPrefix path prefix then
      let value := TrimPrefix path prefix in
      if decide (value = "") then None else Some [("name", [value])]
    else None.

Lemma prefix_name prefix :
  str_take (String.length (prefix +:+ "{name}") - 6) (prefix +:+ "{name}") = prefix.
Proof. rewrite str_length_app, Nat.add_sub. apply str_take_app. Qed.

#[export] Instance example_openapi : OpenAPI := {|
  Consumer := unit;
  Producer := unit;
  runtime_JSONConsumer := tt;
  runtime_JSONProducer := tt;
  validate_Required path where_ nil := if nil then Some (errorf (path +:+ " in " +:+ where_ +:+ " is required")) else None;
  errors_Required name where_ := errorf (name +:+ " in " +:+ where_ +:+ " is required");
  errors_NewParseError name where_ value err := err;
  errors_CompositeValidationError errs := match errs with e :: _ => e | [] => errorf "" end;
  errors_ServeError err := (422, None);
  middleware_NotImplemented message := (501, None);
  MatchPath := example_matchPath;
  Negotiate r := None;
  NotFound r := (404, None) |}.

#[export] Instance example_openapi_laws : OpenAPILaws.
Proof.
  split; try done.
  - intros template path Ht. cbn. unfold example_matchPath. by rewrite Ht.
  - intros prefix path Hp Hh. cbn. unfold example_matchPath.
    rewrite str_forall_app, andb_false_r, prefix_name. by rewrite Hh.
  - intros prefix value Hp Hv _. cbn. unfold example_matchPath.
    rewrite str_forall_app, andb_false_r, prefix_name, HasPrefix_app, TrimPrefix_app. by rewrite decide_False.
Qed.

Definition no_session_error (_ : SideCar.S3StorageProvider) : option error := None.

Definition example_key : string := "b.20200102030405.sql.gz".

(** A document without bucket is refused, and nothing starts. *)
Example refused_request :
  serve (sidecarAPI no_session_error)
    (mkRequest "POST" "/s3" (Some (Value (JObject [("backupName", JString "b")])))) SideCar.start
  = Ok (SideCar.start, Some (422, None)).
Proof. vm_compute. reflexivity. Qed.

Lemma sidecar_serves_witness : ∃ srv' a,
  serve (sidecarAPI no_session_error) (mkRequest "GET" "/probe" None) SideCar.start = Ok (srv', a).
Proof.
  destruct (sidecar_serves no_session_error (mkRequest "GET" "/probe" None) SideCar.start) as (srv' & a & E & _).
  by exists srv', a.
Defined.

Lemma operator_served_witness :
  ∃ a, serve (sidecarAPI no_session_error)
      (operatorRequest "POST" (S3Provider.with_target backupDir example_key example_provider.(S3Provider.s3)))
      SideCar.start
    = Ok (SideCar.mkServer (<[example_key := SideCar.StateRunning]> ∅)
            [SideCar.BackupJob example_key SideCar.ArchRun SideCar.UpRun], Some a) ∧
    understood a = SideCar.reply 200 "scheduled" (example_key +:+ " is scheduled").
Proof.
  destruct (operator_served no_session_error example_provider backupDir example_key
    (example_pod_start ∅)) as (_ & _ & _ & _ & H & _).
  - done.
  - done.
  - discriminate.
  - vm_compute. reflexivity.
  - destruct (H eq_refl) as [(a & E & Ea & _) _]. exists a. exact (conj E Ea).
Defined.
