(* ===== verification/Spec.v ===== *)
(** * The document that describes the API of the side-car

    Models [src/galera-images/galera-backup/pkg/restapi/embedded_spec.go]: the two texts of
    the document, as JSON, and what it promises to a client: the operations with their
    paths and methods, the documents they take and the answers they give.  The theorems
    are that the server of [Server] keeps these promises. *)
From S2P Require Import Prelude Timestamps Types BackupTypes Objects Names Kube Ownership Storage SideCar Transfer Server.
Import Json.

Module Spec.

(** ** The texts *)

(** [SwaggerJSON]: the path [/probe] *)
Definition swagger_probe : json :=
  JObject [
    ("get", JObject [
       ("produces", JArray [JString "application/json"]);
       ("summary", JString "Probe path used to monitor the process");
       ("operationId", JString "getProbe");
       ("responses", JObject [
          ("200", JObject [
             ("description", JString "running probe");
             ("schema", JObject [("$ref", JString "#/definitions/Response")])])])])].

(** [SwaggerJSON]: the path [/s3] *)
Definition swagger_s3 : json :=
  JObject [
    ("get", JObject [
       ("description", JString "restore from S3 storage");
       ("consumes", JArray [JString "application/json"]);
       ("produces", JArray [JString "application/json"]);
       ("summary", JString "Copy an existing backup from the provided S3 bucket");
       ("operationId", JString "getS3Backup");
       ("parameters", JArray [JObject [
                  ("description", JString "backup location and credentials");
                  ("name", JString "s3");
                  ("in", JString "body");
                  ("required", JBool true);
                  ("schema", JObject [("$ref", JString "#/definitions/s3")])]]);
       ("responses", JObject [
          ("200", JObject [
             ("description", JString "restore scheduled");
             ("schema", JObject [("$ref", JString "#/definitions/Response")])]);
          ("default", JObject [
             ("description", JString "default ko response");
             ("schema", JObject [("$ref", JString "#/definitions/Response")])])])]);
    ("post", JObject [
       ("description", JString "backup to S3 storage");
       ("consumes", JArray [JString "application/json"]);
       ("produces", JArray [JString "application/json"]);
       ("summary", JString "Add a new backup to the provided S3 bucket");
       ("operationId", JString "addS3Backup");
       ("parameters", JArray [JObject [
                  ("description", JString "backup location and credentials");
                  ("name", JString "s3");
                  ("in", JString "body");
                  ("required", JBool true);
                  ("schema", JObject [("$ref", JString "#/definitions/s3")])]]);
       ("responses", JObject [
          ("200", JObject [
             ("description", JString "backup scheduled");
             ("schema", JObject [("$ref", JString "#/definitions/Response")])]);
          ("default", JObject [
             ("description", JString "default ko response");
             ("schema", JObject [("$ref", JString "#/definitions/Response")])])])])].

(** [SwaggerJSON]: the path [/state/{name}] *)
Definition swagger_state : json :=
  JObject [
    ("get", JObject [
       ("produces", JArray [JString "application/json"]);
       ("summary", JString "Check the state of the provided backup or restore");
       ("operationId", JString "getStateByName");
       ("parameters", JArray [JObject [
                  ("type", JString "string");
                  ("description", JString "Name of a backup or restore operation");
                  ("name", JString "name");
                  ("in", JString "path");
                  ("required", JBool true)]]);
       ("responses", JObject [
          ("200", JObject [
             ("description", JString "running/completed or failed backup/restore");
             ("schema", JObject [("$ref", JString "#/definitions/Response")])]);
          ("default", JObject [
             ("description", JString "unknown state : not managed by this server");
             ("schema", JObject [("$ref", JString "#/definitions/Response")])])])])].

(** [SwaggerJSON]: the definitions *)
Definition swagger_definitions : json :=
  JObject [
    ("Response", JObject [
       ("type", JString "object");
       ("required", JArray [JString "status"; JString "message"]);
       ("properties", JObject [
          ("message", JObject [("type", JString "string")]);
          ("status", JObject [("type", JString "string")])])]);
    ("s3", JObject [
       ("type", JString "object");
       ("required", JArray [JString "endpoint"; JString "bucket"; JString "accessKey"; JString "secretKey";
                           JString "backupName"; JString "backupDir"]);
       ("properties", JObject [
          ("accessKey", JObject [("type", JString "string")]);
          ("backupDir", JObject [("type", JString "string")]);
          ("backupName", JObject [("type", JString "string")]);
          ("bucket", JObject [("type", JString "string"); ("example", JString "galera")]);
          ("endpoint", JObject [
             ("type", JString "string");
             ("example", JString "https://s3.dev.orange:8443")]);
          ("forcePathStyle", JObject [("type", JString "boolean"); ("default", JBool true)]);
          ("region", JObject [
             ("type", JString "string");
             ("default", JString "us-east-1");
             ("example", JString "us-east-1")]);
          ("secretKey", JObject [("type", JString "string")])])])].

(** [SwaggerJSON] *)
Definition SwaggerJSON_document : json :=
  JObject [
    ("schemes", JArray [JString "http"]);
    ("swagger", JString "2.0");
    ("info", JObject [
       ("description", JString ("This is a backup server used for galera-operator project. You can find out more " +:+
          "about galera-operator at [https://github.com/orange-opensource/galera-operator](https://github.com/orange-opensource/galera-operator)"));
       ("title", JString "Galera Backup Tool");
       ("termsOfService", JString "https://github.com/orange-opensource/galera-operator");
       ("license", JObject [
          ("name", JString "Apache 2.0");
          ("url", JString "http://www.apache.org/licenses/LICENSE-2.0.html")]);
       ("version", JString "1.0.0")]);
    ("paths", JObject [("/probe", swagger_probe); ("/s3", swagger_s3); ("/state/{name}", swagger_state)]);
    ("definitions", swagger_definitions);
    ("externalDocs", JObject [
      ("description", JString "Find out more about galera-operator");
      ("url", JString "https://github.com/orange-opensource/galera-operator")])].

(** [FlatSwaggerJSON]: the path [/probe] *)
Definition flat_probe : json :=
  JObject [
    ("get", JObject [
       ("produces", JArray [JString "application/json"]);
       ("summary", JString "Probe path used to monitor the process");
       ("operationId", JString "getProbe");
       ("responses", JObject [
          ("200", JObject [
             ("description", JString "running probe");
             ("schema", JObject [("$ref", JString "#/definitions/Response")])])])])].

(** [FlatSwaggerJSON]: the path [/s3] *)
Definition flat_s3 : json :=
  JObject [
    ("get", JObject [
       ("description", JString "restore from S3 storage");
       ("consumes", JArray [JString "application/json"]);
       ("produces", JArray [JString "application/json"]);
       ("summary", JString "Copy an existing backup from the provided S3 bucket");
       ("operationId", JString "getS3Backup");
       ("parameters", JArray [JObject [
                  ("description", JString "backup location and credentials");
                  ("name", JString "s3");
                  ("in", JString "body");
                  ("required", JBool true);
                  ("schema", JObject [("$ref", JString "#/definitions/s3")])]]);
       ("responses", JObject [
          ("200", JObject [
             ("description", JString "restore scheduled");
             ("schema", JObject [("$ref", JString "#/definitions/Response")])]);
          ("default", JObject [
             ("description", JString "default ko response");
             ("schema", JObject [("$ref", JString "#/definitions/Response")])])])]);
    ("post", JObject [
       ("description", JString "backup to S3 storage");
       ("consumes", JArray [JString "application/json"]);
       ("produces", JArray [JString "application/json"]);
       ("summary", JString "Add a new backup to the provided S3 bucket");
       ("operationId", JString "addS3Backup");
       ("parameters", JArray [JObject [
                  ("description", JString "backup location and credentials");
                  ("name", JString "s3");
                  ("in", JString "body");
                  ("required", JBool true);
                  ("schema", JObject [("$ref", JString "#/definitions/s3")])]]);
       ("responses", JObject [
          ("200", JObject [
             ("description", JString "backup scheduled");
             ("schema", JObject [("$ref", JString "#/definitions/Response")])]);
          ("default", JObject [
             ("description", JString "default ko response");
             ("schema", JObject [("$ref", JString "#/definitions/Response")])])])])].

(** [FlatSwaggerJSON]: the path [/state/{name}] *)
Definition flat_state : json :=
  JObject [
    ("get", JObject [
       ("produces", JArray [JString "application/json"]);
       ("summary", JString "Check the state of the provided backup or restore");
       ("operationId", JString "getStateByName");
       ("parameters", JArray [JObject [
                  ("type", JString "string");
                  ("description", JString "Name of a backup or restore operation");
                  ("name", JString "name");
                  ("in", JString "path");
                  ("required", JBool true)]]);
       ("responses", JObject [
          ("200", JObject [
             ("description", JString "running/completed or failed backup/restore");
             ("schema", JObject [("$ref", JString "#/definitions/Response")])]);
          ("default", JObject [
             ("description", JString "unknown state : not managed by this server");
             ("schema", JObject [("$ref", JString "#/definitions/Response")])])])])].

(** [FlatSwaggerJSON]: the definitions *)
Definition flat_definitions : json :=
  JObject [
    ("Response", JObject [
       ("type", JString "object");
       ("required", JArray [JString "status"; JString "message"]);
       ("properties", JObject [
          ("message", JObject [("type", JString "string")]);
          ("status", JObject [("type", JString "string")])])]);
    ("s3", JObject [
       ("type", JString "object");
       ("required", JArray [JString "endpoint"; JString "bucket"; JString "accessKey"; JString "secretKey";
                           JString "backupName"; JString "backupDir"]);
       ("properties", JObject [
          ("accessKey", JObject [("type", JString "string")]);
          ("backupDir", JObject [("type", JString "string")]);
          ("backupName", JObject [("type", JString "string")]);
          ("bucket", JObject [("type", JString "string"); ("example", JString "galera")]);
          ("endpoint", JObject [
             ("type", JString "string");
             ("example", JString "https://s3.dev.orange:8443")]);
          ("forcePathStyle", JObject [("type", JString "boolean"); ("default", JBool true)]);
          ("region", JObject [
             ("type", JString "string");
             ("default", JString "us-east-1");
             ("example", JString "us-east-1")]);
          ("secretKey", JObject [("type", JString "string")])])])].

(** [FlatSwaggerJSON] *)
Definition FlatSwaggerJSON_document : json :=
  JObject [
    ("schemes", JArray [JString "http"]);
    ("swagger", JString "2.0");
    ("info", JObject [
       ("description", JString ("This is a backup server used for galera-operator project. You can find out more " +:+
          "about galera-operator at [https://github.com/orange-opensource/galera-operator](https://github.com/orange-opensource/galera-operator)"));
       ("title", JString "Galera Backup Tool");
       ("termsOfService", JString "https://github.com/orange-opensource/galera-operator");
       ("license", JObject [
          ("name", JString "Apache 2.0");
          ("url", JString "http://www.apache.org/licenses/LICENSE-2.0.html")]);
       ("version", JString "1.0.0")]);
    ("paths", JObject [("/probe", flat_probe); ("/s3", flat_s3); ("/state/{name}", flat_state)]);
    ("definitions", flat_definitions);
    ("externalDocs", JObject [
      ("description", JString "Find out more about galera-operator");
      ("url", JString "https://github.com/orange-opensource/galera-operator")])].

(** ** Reading them *)

Definition member (name : string) (fields : list (string * json)) : option json :=
  snd <$> List.find (λ f, bool_decide (fst f = name)) fields.

Definition field (name : string) (j : json) : option json :=
  match j with JObject fields => member name fields | _ => None end.

Definition fields_of (j : json) : list (string * json) :=
  match j with JObject fields => fields | _ => [] end.

Definition items (j : json) : list json := match j with JArray l => l | _ => [] end.

Definition text (name : string) (j : json) : string :=
  match field name j with Some (JString s) => s | _ => "" end.

Definition texts (name : string) (j : json) : list string :=
  omap asString (items (default JNull (field name j))).

(** The operations, by path and method *)
Definition parameter_of (j : json) : string * string * bool :=
  (text "name" j, text "in" j, match field "required" j with Some (JBool b) => b | _ => false end).

Definition operation_of (path method : string) (j : json) : spec_operation :=
  mkOperation path (ToUpper method) (text "operationId" j) (texts "consumes" j) (texts "produces" j)
    (parameter_of <$> items (default JNull (field "parameters" j))).

Definition operations (doc : json) : list spec_operation :=
  flat_map (λ p, (λ m, operation_of (fst p) (fst m) (snd m)) <$> fields_of (snd p))
    (fields_of (default JNull (field "paths" doc))).

(** A schema, or the definition that it refers to *)
Definition resolve (doc schema : json) : json :=
  match field "$ref" schema with
  | Some (JString ref) =>
      default JNull (definitions ← field "definitions" doc; field (TrimPrefix ref "#/definitions/") definitions)
  | _ => schema
  end.

Definition has_type (type : string) (j : json) : bool :=
  match j with
  | JString _ => bool_decide (type = "string")
  | JBool _ => bool_decide (type = "boolean")
  | JObject _ => bool_decide (type = "object")
  | _ => false
  end.

(** The schemas of the document are objects of scalars: the fields that are required are
    there, and each field has the type of its property. *)
Definition conforms (schema j : json) : bool :=
  has_type (text "type" schema) j &&
  forallb (λ name, bool_decide (is_Some (field name j))) (texts "required" schema) &&
  forallb (λ p, match field (fst p) j with Some v => has_type (text "type" (snd p)) v | None => true end)
    (fields_of (default JNull (field "properties" schema))).

(** An operation of the document, by its identifier *)
Definition find_operation (doc : json) (id : string) : option json :=
  List.find (λ m, bool_decide (text "operationId" m = id))
    (flat_map (λ p, snd <$> fields_of (snd p)) (fields_of (default JNull (field "paths" doc)))).

(** The schema of the document that an operation takes *)
Definition request_schema (doc : json) (id : string) : json :=
  default JNull (op ← find_operation doc id; parameters ← field "parameters" op;
                 parameter ← head (items parameters); schema ← field "schema" parameter;
                 Some (resolve doc schema)).

(** The schema of an answer: the one for its code, or else the default one *)
Definition answer_schema (doc : json) (id code : string) : option json :=
  op ← find_operation doc id;
  responses ← field "responses" op;
  response ← match field code responses with Some r => Some r | None => field "default" responses end;
  schema ← field "schema" response;
  Some (resolve doc schema).

(** An answer that the document describes; the codes that the handlers give are written
    with the digits of the document. *)
Definition code_text (code : Z) : string :=
  if decide (code = 200) then "200" else if decide (code = 404) then "404" else "".

Definition described (doc : json) (id : string) (answer : http_answer) : bool :=
  match answer_schema doc id (code_text (fst answer)), snd answer with
  | Some schema, Some j => conforms schema j
  | _, _ => false
  end.

(** ** A document that conforms is read as it is *)

(** The names of a document are those of the fields, and not variants of them. *)
Definition exact (names : list string) (fields : list (string * json)) : Prop :=
  NoDup (fst <$> fields) ∧ ∀ key name, key ∈ fst <$> fields → fieldFor names key = Some name → key = name.

Lemma member_notin name fields : name ∉ fst <$> fields → member name fields = None.
Proof.
  unfold member. induction fields as [|[k v] fields IH]; cbn; [done|]. intros Hn.
  rewrite bool_decide_eq_false_2 by set_solver. apply IH. set_solver.
Qed.

Lemma exact_key names name key fields :
  exact names fields → key ∈ fst <$> fields → name ∈ names → fieldFor names key = Some name ↔ key = name.
Proof.
  intros [_ He] Hk Hn. split; [by apply He|]. intros ->. unfold fieldFor. by rewrite decide_True.
Qed.

Lemma exact_cons names f fields : exact names (f :: fields) → exact names fields ∧ fst f ∉ fst <$> fields.
Proof.
  intros [Hd He]. cbn in Hd. apply NoDup_cons in Hd as [Hn Hd]. split; [|done].
  split; [done|]. intros key name Hk. apply He. set_solver.
Qed.

Lemma readField_notin {A} (conv : json → option A) (onNull : A) names name fields acc :
  exact names fields → name ∈ names → name ∉ fst <$> fields →
  fold_left (readKey conv onNull names name) fields acc = acc.
Proof.
  intros Hx Hin. revert acc. induction fields as [|[k v] fields IH]; intros acc Hn; [done|].
  cbn. unfold readKey at 2. cbn. rewrite decide_False.
  - apply IH; [by eapply exact_cons|set_solver].
  - rewrite (exact_key names name k _ Hx) by set_solver. set_solver.
Qed.

Lemma readField_member {A} (conv : json → option A) (onNull : A) names name fields init :
  exact names fields → name ∈ names →
  (∀ v, member name fields = Some v → v ≠ JNull ∧ is_Some (conv v)) →
  readField conv onNull names name fields init =
    (default init (v ← member name fields; conv v), false).
Proof.
  intros Hx Hin. unfold readField. induction fields as [|[k v] fields IH]; intros Hv; [done|].
  destruct (exact_cons _ _ _ Hx) as [Hx' Hk].
  cbn [fold_left]. unfold member in Hv |- *. cbn in Hv |- *.
  pose proof (exact_key names name k _ Hx ltac:(set_solver) Hin) as Hf.
  case_bool_decide as Hkn.
  - subst k. destruct (Hv v eq_refl) as [Hnull [a Ea]].
    assert (readKey conv onNull names name (init, false) (name, v) = (a, false)) as ->.
    { unfold readKey. cbn. rewrite decide_True by (by apply Hf). destruct v; by rewrite ?Ea. }
    rewrite readField_notin by done. cbn. by rewrite Ea.
  - unfold readKey at 2. cbn. rewrite decide_False by (by rewrite Hf). by apply IH.
Qed.

(** ** What the document promises *)

(** Membership in a list of names *)
Ltac in_list := apply (bool_decide_unpack _); vm_compute; exact I.

Section served.
Context `{OpenAPI} (NewProvider : SideCar.S3StorageProvider → option error).

(** The documents that a request may carry, the four operations, and the answers *)
Definition s3_schema : json := request_schema SwaggerJSON_document "addS3Backup".

Lemma conforms_S3 fields : conforms s3_schema (JObject fields) = true →
  Forall (λ name, is_Some (member name fields))
    ["endpoint"; "bucket"; "accessKey"; "secretKey"; "backupName"; "backupDir"] ∧
  Forall (λ name, ∀ v, member name fields = Some v → ∃ s, v = JString s)
    ["accessKey"; "backupDir"; "backupName"; "bucket"; "endpoint"; "region"; "secretKey"] ∧
  (∀ v, member "forcePathStyle" fields = Some v → ∃ b, v = JBool b).
Proof.
  assert (has_string : ∀ name, match field name (JObject fields) with
      | Some v => has_type "string" v | None => true end = true →
    ∀ v, member name fields = Some v → ∃ s, v = JString s).
  { intros name. cbn. intros E v Ev. rewrite Ev in E. destruct v; cbn in E; try done. eauto. }
  unfold conforms. intros [[_ Hr]%andb_true_iff Hp]%andb_true_iff.
  change (texts "required" s3_schema)
    with ["endpoint"; "bucket"; "accessKey"; "secretKey"; "backupName"; "backupDir"] in Hr.
  split; [|split].
  - apply Forall_forall. intros name Hn. rewrite forallb_forall in Hr.
    specialize (Hr name ltac:(by apply list_elem_of_In)). by apply bool_decide_eq_true in Hr.
  - cbn -[field] in Hp. repeat apply andb_true_iff in Hp as [? Hp]. repeat constructor; by apply has_string.
  - cbn -[field] in Hp. repeat apply andb_true_iff in Hp as [? Hp]. intros v Ev. cbn in *.
    rewrite Ev in *. destruct v; try done. eauto.
Qed.
Definition string_of (name : string) (fields : list (string * json)) : option string :=
  v ← member name fields; asString v.
Definition bool_of (name : string) (fields : list (string * json)) : option bool :=
  v ← member name fields; asBool v.

Lemma readPointer_member {A} (conv : json → option A) names name fields :
  exact names fields → name ∈ names → conv JNull = None →
  (∀ v, member name fields = Some v → is_Some (conv v)) →
  readPointer conv names name fields = (v ← member name fields; conv v, false).
Proof.
  intros Hx Hin Hnull Hv. unfold readPointer. rewrite readField_member; [|done|done|].
  - f_equal. destruct (member name fields) as [v|]; [|done]. cbn. by destruct (conv v).
  - intros v E. destruct (Hv v E) as [a Ea]. split; [congruence|]. rewrite Ea. eauto.
Qed.

Lemma unmarshal_conforms fields : exact Models.S3_names fields → conforms s3_schema (JObject fields) = true →
  Models.unmarshalS3 (JObject fields) =
    inl (Models.mkS3 (string_of "accessKey" fields) (string_of "backupDir" fields) (string_of "backupName" fields)
           (string_of "bucket" fields) (string_of "endpoint" fields) (bool_of "forcePathStyle" fields)
           (string_of "region" fields) (string_of "secretKey" fields)).
Proof.
  intros Hx (_ & Hs & Hb)%conforms_S3. rewrite Forall_forall in Hs.
  assert (E : ∀ name, name ∈ ["accessKey"; "backupDir"; "backupName"; "bucket"; "endpoint"; "region"; "secretKey"] →
    readPointer asString Models.S3_names name fields = (string_of name fields, false)).
  { intros name Hn. apply readPointer_member; [done|unfold Models.S3_names; clear -Hn; set_solver|done|].
    intros v Ev. destruct (Hs name Hn v Ev) as [t ->]. by exists t. }
  assert (Eb : readPointer asBool Models.S3_names "forcePathStyle" fields = (bool_of "forcePathStyle" fields, false)).
  { apply readPointer_member; [done|in_list|done|].
    intros v Ev. destruct (Hb v Ev) as [b ->]. by exists b. }
  cbn -[readPointer]. rewrite Eb, !E by in_list. reflexivity.
Qed.

Context {Laws : OpenAPILaws}.

Lemma conforms_valid fields : exact Models.S3_names fields → conforms s3_schema (JObject fields) = true →
  ∃ m doc, Models.unmarshalS3 (JObject fields) = inl m ∧ ValidateS3 m = None ∧ document m = Some doc ∧
    member "backupName" fields = Some (JString doc.(doc_backupName)) ∧
    member "backupDir" fields = Some (JString doc.(doc_backupDir)).
Proof using Laws.
  intros Hx Hc. rewrite (unmarshal_conforms fields Hx Hc). destruct (conforms_S3 fields Hc) as (Hr & Hs & _).
  assert (Hstr : ∀ name,
    name ∈ ["endpoint"; "bucket"; "accessKey"; "secretKey"; "backupName"; "backupDir"] →
    ∃ t, member name fields = Some (JString t) ∧ string_of name fields = Some t).
  { intros name Hn. rewrite Forall_forall in Hr, Hs. destruct (Hr name Hn) as [v Ev].
    destruct (Hs name ltac:(clear -Hn; set_solver) v Ev) as [t ->]. exists t. unfold string_of. by rewrite Ev. }
  destruct (Hstr "endpoint" ltac:(in_list)) as (t1 & _ & E1).
  destruct (Hstr "bucket" ltac:(in_list)) as (t2 & _ & E2).
  destruct (Hstr "accessKey" ltac:(in_list)) as (t3 & _ & E3).
  destruct (Hstr "secretKey" ltac:(in_list)) as (t4 & _ & E4).
  destruct (Hstr "backupName" ltac:(in_list)) as (t5 & M5 & E5).
  destruct (Hstr "backupDir" ltac:(in_list)) as (t6 & M6 & E6).
  rewrite E1, E2, E3, E4, E5, E6.
  eexists _, _. split; [reflexivity|].
  rewrite ValidateS3_document. cbn. split_and!; eauto.
Qed.

(** The answer of a handler that a document describes, if the handler gives one *)
Definition kept (id : string) (answer : outcome (SideCar.server * option responder)) : Prop :=
  match answer with
  | Ok (_, Some r) => described SwaggerJSON_document id (WriteResponse r) = true
  | _ => True
  end.

(** The side-car keeps what its published document promises.  The two texts of the document
    say the same; the operations that they list are the ones that are routed, and each of them
    has a handler.  Every document that conforms to the schema of a request, and whose keys
    are the names of its fields, is accepted, whatever else it holds, and read as it is
    written.  Every answer that a handler gives, of success or of failure, has a code and a
    body that the document describes for its operation. *)
Theorem document_kept :
  operations SwaggerJSON_document = SwaggerJSON ∧ FlatSwaggerJSON_document = SwaggerJSON_document ∧
  Forall (λ op, is_Some (HandlerFor (sidecarAPI NewProvider) op.(op_method) op.(op_path)))
    (operations FlatSwaggerJSON_document) ∧
  request_schema SwaggerJSON_document "getS3Backup" = s3_schema ∧
  (∀ method path fields, exact Models.S3_names fields → conforms s3_schema (JObject fields) = true →
     ∃ m doc, BindS3 (mkRequest method path (Some (Value (JObject fields)))) = (mkS3Params (Some m), None) ∧
       document m = Some doc ∧ member "backupName" fields = Some (JString doc.(doc_backupName)) ∧
       member "backupDir" fields = Some (JString doc.(doc_backupDir))) ∧
  (∀ params srv, kept "addS3Backup" (handleS3Backup NewProvider params srv) ∧
     kept "getS3Backup" (handleS3Restore NewProvider params srv)) ∧
  (∀ err name, kept "getS3Backup" (Ok (SideCar.start, Some (answerS3Restore err name)))) ∧
  (∀ name srv, kept "getStateByName" (Ok (srv, Some (handleState name srv)))) ∧
  kept "getProbe" (Ok (SideCar.start, Some handleProbe)).
Proof using Laws.
  split_and!.
  - reflexivity.
  - reflexivity.
  - repeat constructor; eexists; reflexivity.
  - reflexivity.
  - intros method path fields Hx Hc. destruct (conforms_valid fields Hx Hc) as (m & doc & E1 & E2 & E3 & E4).
    exists m, doc. split; [|done]. unfold BindS3. cbn -[Models.unmarshalS3]. rewrite E1, E2. reflexivity.
  - intros params srv. unfold handleS3Backup, handleS3Restore. destruct (params_S3 params) as [m|]; [|done]. cbn.
    destruct (storageProvider m) as [p| | |]; try done. cbn.
    destruct (Models.BackupName m) as [name|]; [|done]. cbn.
    destruct (NewProvider p); cbn; [by split|]. by destruct (Models.BackupDir m).
  - by intros [err|] name.
  - intros name srv. unfold handleState. by case_decide.
  - reflexivity.
Qed.
End served.
End Spec.

Import Spec.

(** ** Examples *)

Definition example_fields : list (string * json) :=
  [("endpoint", JString "http://s3"); ("bucket", JString "b"); ("accessKey", JString "k");
   ("secretKey", JString "s"); ("backupName", JString "n"); ("backupDir", JString "/var/backup");
   ("comment", JNumber "1")].

Lemma document_kept_witness : ∃ m,
  BindS3 (mkRequest "POST" "/s3" (Some (Value (JObject example_fields)))) = (mkS3Params (Some m), None).
Proof.
  destruct (document_kept no_session_error) as (_ & _ & _ & _ & H & _).
  destruct (H "POST" "/s3" example_fields) as (m & doc & E & _).
  - split; [apply (bool_decide_unpack _); vm_compute; exact I|].
    assert (H0 : forallb (λ key, match fieldFor Models.S3_names key with Some n => bool_decide (key = n) | None => true end)
      (example_fields.*1) = true) by (vm_compute; reflexivity).
    intros key name Hk E. rewrite forallb_forall in H0.
    specialize (H0 key ltac:(by apply list_elem_of_In)). cbv beta in H0. rewrite E in H0.
    by apply bool_decide_eq_true in H0.
  - vm_compute. reflexivity.
  - by exists m.
Defined.
