(* ===== verification/Operations.v ===== *)
(** * The operations of the side-car: their answers and their URLs

    Models the rest of what go-swagger generates for each operation in
    [src/galera-images/galera-backup/pkg/restapi/operations]: the answers
    ([*_responses.go]), which write a code and a document, and the builders of URLs
    ([*_urlbuilder.go]), which no program of the repository calls.

    The theorems are that what an answer writes is the answer that [Server] gives to a
    request, and that a URL that is built for an operation is the one that the operator
    asks and is routed to that operation.

    The last part is the rest of [galera_backup_tool_api.go] and of
    [configure_galera_backup_tool.go]: the document, the context, the formats and the
    middleware of the API, with the handler that it serves. *)
From S2P Require Import Prelude Timestamps Types BackupTypes Objects Names Kube Ownership Storage SideCar Transfer Server.
From S2P Require Import Archive.
Import Json.

(** ** Writing an answer *)

(** An [http.ResponseWriter]: the code, once it is written, and the document *)
Record writer := mkWriter { written_code : option Z; written_body : option json }.

Definition fresh_writer : writer := mkWriter None None.

(** [WriteHeader] panics on a code that is not of three digits, and does nothing the second
    time. *)
Definition WriteHeader (code : Z) (rw : writer) : outcome writer :=
  if decide (100 <= code <= 999) then
    Ok (match rw.(written_code) with
        | Some _ => rw
        | None => mkWriter (Some code) rw.(written_body)
        end)
  else Panic.

(** The body of each [WriteResponse]: an error of the producer is a panic. *)
Definition writeAnswer (produce : json → option error) (code : Z) (payload : option Models.Response) (rw : writer)
    : outcome writer :=
  rw ← WriteHeader code rw;
  match payload with
  | None => Ok rw
  | Some payload =>
      let body := Models.marshalResponse payload in
      match produce body with
      | Some _ => Panic
      | None => Ok (mkWriter rw.(written_code) (Some body))
      end
  end.

(** [add_s3_backup_responses.go]: [AddS3BackupOK] *)
Module AddS3BackupOK.
Definition Code : Z := 200.
Record t := mk { Payload : option Models.Response }.
Definition New : t := mk None.
Definition WithPayload (payload : option Models.Response) (o : t) : t := mk payload.
Definition SetPayload (payload : option Models.Response) (o : t) : t := mk payload.
Definition WriteResponse (produce : json → option error) (o : t) (rw : writer) : outcome writer :=
  writeAnswer produce 200 o.(Payload) rw.
End AddS3BackupOK.

(** [add_s3_backup_responses.go]: [AddS3BackupDefault] *)
Module AddS3BackupDefault.
Record t := mk { statusCode : Z; Payload : option Models.Response }.
Definition New (code : Z) : t := mk (if decide (code <= 0) then 500 else code) None.
Definition WithStatusCode (code : Z) (o : t) : t := mk code o.(Payload).
Definition SetStatusCode (code : Z) (o : t) : t := mk code o.(Payload).
Definition WithPayload (payload : option Models.Response) (o : t) : t := mk o.(statusCode) payload.
Definition SetPayload (payload : option Models.Response) (o : t) : t := mk o.(statusCode) payload.
Definition WriteResponse (produce : json → option error) (o : t) (rw : writer) : outcome writer :=
  writeAnswer produce o.(statusCode) o.(Payload) rw.
End AddS3BackupDefault.

(** [get_s3_backup_responses.go]: [GetS3BackupOK] *)
Module GetS3BackupOK.
Definition Code : Z := 200.
Record t := mk { Payload : option Models.Response }.
Definition New : t := mk None.
Definition WithPayload (payload : option Models.Response) (o : t) : t := mk payload.
Definition SetPayload (payload : option Models.Response) (o : t) : t := mk payload.
Definition WriteResponse (produce : json → option error) (o : t) (rw : writer) : outcome writer :=
  writeAnswer produce 200 o.(Payload) rw.
End GetS3BackupOK.

(** [get_s3_backup_responses.go]: [GetS3BackupDefault] *)
Module GetS3BackupDefault.
Record t := mk { statusCode : Z; Payload : option Models.Response }.
Definition New (code : Z) : t := mk (if decide (code <= 0) then 500 else code) None.
Definition WithStatusCode (code : Z) (o : t) : t := mk code o.(Payload).
Definition SetStatusCode (code : Z) (o : t) : t := mk code o.(Payload).
Definition WithPayload (payload : option Models.Response) (o : t) : t := mk o.(statusCode) payload.
Definition SetPayload (payload : option Models.Response) (o : t) : t := mk o.(statusCode) payload.
Definition WriteResponse (produce : json → option error) (o : t) (rw : writer) : outcome writer :=
  writeAnswer produce o.(statusCode) o.(Payload) rw.
End GetS3BackupDefault.

(** [get_state_by_name_responses.go]: [GetStateByNameOK] *)
Module GetStateByNameOK.
Definition Code : Z := 200.
Record t := mk { Payload : option Models.Response }.
Definition New : t := mk None.
Definition WithPayload (payload : option Models.Response) (o : t) : t := mk payload.
Definition SetPayload (payload : option Models.Response) (o : t) : t := mk payload.
Definition WriteResponse (produce : json → option error) (o : t) (rw : writer) : outcome writer :=
  writeAnswer produce 200 o.(Payload) rw.
End GetStateByNameOK.

(** [get_state_by_name_responses.go]: [GetStateByNameDefault] *)
Module GetStateByNameDefault.
Record t := mk { statusCode : Z; Payload : option Models.Response }.
Definition New (code : Z) : t := mk (if decide (code <= 0) then 500 else code) None.
Definition WithStatusCode (code : Z) (o : t) : t := mk code o.(Payload).
Definition SetStatusCode (code : Z) (o : t) : t := mk code o.(Payload).
Definition WithPayload (payload : option Models.Response) (o : t) : t := mk o.(statusCode) payload.
Definition SetPayload (payload : option Models.Response) (o : t) : t := mk o.(statusCode) payload.
Definition WriteResponse (produce : json → option error) (o : t) (rw : writer) : outcome writer :=
  writeAnswer produce o.(statusCode) o.(Payload) rw.
End GetStateByNameDefault.

(** [get_probe_responses.go]: [GetProbeOK] *)
Module GetProbeOK.
Definition Code : Z := 200.
Record t := mk { Payload : option Models.Response }.
Definition New : t := mk None.
Definition WithPayload (payload : option Models.Response) (o : t) : t := mk payload.
Definition SetPayload (payload : option Models.Response) (o : t) : t := mk payload.
Definition WriteResponse (produce : json → option error) (o : t) (rw : writer) : outcome writer :=
  writeAnswer produce 200 o.(Payload) rw.
End GetProbeOK.

(** ** Building a URL *)

(** The parts of a [url.URL] that are used *)
Record URL := mkURL { Scheme : string; Host : string; UrlPath : string }.

(** What [net/url] leaves as it is, in a path and in a host; the other bytes are written in
    hexadecimal. *)
Definition unreserved (c : ascii) : bool :=
  is_upper c || is_lower c || is_digit c || bool_decide (c ∈ ["-"; "_"; "."; "~"]%char).

Definition in_path (c : ascii) : bool :=
  unreserved c || bool_decide (c ∈ ["$"; "&"; "+"; ","; "/"; ":"; ";"; "="; "@"]%char).

Definition in_host (c : ascii) : bool :=
  unreserved c ||
  bool_decide (c ∈ ["!"; "$"; "&"; "'"; "("; ")"; "*"; "+"; ","; ";"; "="; ":"; "["; "]"; "<"; ">"; ascii_of_nat 34]%char).

Definition upperhex (n : nat) : ascii := ascii_of_nat (if (n <? 10)%nat then 48 + n else 55 + n).

Fixpoint percent (kept : ascii → bool) (s : string) : string :=
  match s with
  | "" => ""
  | String c s' =>
      if kept c then String c (percent kept s')
      else String "%" (String (upperhex (nat_of_ascii c / 16)) (String (upperhex (nat_of_ascii c mod 16)) (percent kept s')))
  end.

(** [url.EscapedPath] *)
Definition EscapedPath (u : URL) : string :=
  if decide (u.(UrlPath) = "*") then "*" else percent in_path u.(UrlPath).

(** The first name of a path has a colon. *)
Fixpoint colon_first (s : string) : bool :=
  match s with
  | "" => false
  | String c s' => if decide (c = ":"%char) then true else if decide (c = "/"%char) then false else colon_first s'
  end.

(** [url.String] *)
Definition URL_String (u : URL) : string :=
  let scheme := if decide (u.(Scheme) = "") then "" else u.(Scheme) +:+ ":" in
  let authority :=
    if decide (u.(Scheme) = "" ∧ u.(Host) = "") then ""
    else (if decide (u.(Host) = "" ∧ u.(UrlPath) = "") then "" else "//") +:+ percent in_host u.(Host) in
  let path := EscapedPath u in
  let slash := if decide (path ≠ "" ∧ HasPrefix path "/" = false ∧ u.(Host) ≠ "") then "/" else "" in
  let before := scheme +:+ authority +:+ slash in
  before +:+ (if decide (before = "" ∧ colon_first path = true) then "./" else "") +:+ path.

(** [strings.Replace] of a text that is not empty, everywhere *)
Fixpoint replaceAll (skip : nat) (s old new : string) : string :=
  match s with
  | "" => ""
  | String c s' =>
      match skip with
      | S k => replaceAll k s' old new
      | O => if HasPrefix s old then new +:+ replaceAll (String.length old - 1) s' old new
             else String c (replaceAll 0 s' old new)
      end
  end.

(** The rest of [Must], [String] and [BuildFull], which the four builders share *)
Definition must (r : option URL * option error) : outcome URL :=
  match r with
  | (_, Some _) => Panic
  | (None, None) => Panic
  | (Some u, None) => Ok u
  end.

Definition full (name scheme host : string) (build : option URL * option error) : option URL * option error :=
  if decide (scheme = "") then (None, Some (errorf ("scheme is required for a full url on " +:+ name)))
  else if decide (host = "") then (None, Some (errorf ("host is required for a full url on " +:+ name)))
  else
    match build with
    | (Some base, None) => (Some (mkURL scheme host base.(UrlPath)), None)
    | (_, err) => (None, err)
    end.

(** [add_s3_backup_urlbuilder.go] *)
Module AddS3BackupURL.
Record t := mk { basePath : string }.
Definition SetBasePath (bp : string) (o : t) : t := mk bp.
Definition WithBasePath (bp : string) (o : t) : t := SetBasePath bp o.
Definition Build (o : t) : option URL * option error :=
  (Some (mkURL "" "" (Path.Join o.(basePath) "/s3")), None).
Definition Must (r : option URL * option error) : outcome URL := must r.
Definition String_ (o : t) : outcome string := u ← Must (Build o); Ok (URL_String u).
Definition BuildFull (scheme host : string) (o : t) : option URL * option error :=
  full "AddS3BackupURL" scheme host (Build o).
Definition StringFull (scheme host : string) (o : t) : outcome string := 
  u ← Must (BuildFull scheme host o); Ok (URL_String u).
End AddS3BackupURL.

(** [get_s3_backup_urlbuilder.go] *)
Module GetS3BackupURL.
Record t := mk { basePath : string }.
Definition SetBasePath (bp : string) (o : t) : t := mk bp.
Definition WithBasePath (bp : string) (o : t) : t := SetBasePath bp o.
Definition Build (o : t) : option URL * option error :=
  (Some (mkURL "" "" (Path.Join o.(basePath) "/s3")), None).
Definition Must (r : option URL * option error) : outcome URL := must r.
Definition String_ (o : t) : outcome string := u ← Must (Build o); Ok (URL_String u).
Definition BuildFull (scheme host : string) (o : t) : option URL * option error :=
  full "GetS3BackupURL" scheme host (Build o).
Definition StringFull (scheme host : string) (o : t) : outcome string := 
  u ← Must (BuildFull scheme host o); Ok (URL_String u).
End GetS3BackupURL.

(** [get_probe_urlbuilder.go] *)
Module GetProbeURL.
Record t := mk { basePath : string }.
Definition SetBasePath (bp : string) (o : t) : t := mk bp.
Definition WithBasePath (bp : string) (o : t) : t := SetBasePath bp o.
Definition Build (o : t) : option URL * option error :=
  (Some (mkURL "" "" (Path.Join o.(basePath) "/probe")), None).
Definition Must (r : option URL * option error) : outcome URL := must r.
Definition String_ (o : t) : outcome string := u ← Must (Build o); Ok (URL_String u).
Definition BuildFull (scheme host : string) (o : t) : option URL * option error :=
  full "GetProbeURL" scheme host (Build o).
Definition StringFull (scheme host : string) (o : t) : outcome string := 
  u ← Must (BuildFull scheme host o); Ok (URL_String u).
End GetProbeURL.

(** [get_state_by_name_urlbuilder.go] *)
Module GetStateByNameURL.
Record t := mk { Name : string; basePath : string }.
Definition SetBasePath (bp : string) (o : t) : t := mk o.(Name) bp.
Definition WithBasePath (bp : string) (o : t) : t := SetBasePath bp o.
Definition Build (o : t) : option URL * option error :=
  if decide (o.(Name) = "") then (None, Some (errorf "name is required on GetStateByNameURL"))
  else (Some (mkURL "" "" (Path.Join o.(basePath) (replaceAll 0 "/state/{name}" "{name}" o.(Name)))), None).
Definition Must (r : option URL * option error) : outcome URL := must r.
Definition String_ (o : t) : outcome string := u ← Must (Build o); Ok (URL_String u).
Definition BuildFull (scheme host : string) (o : t) : option URL * option error :=
  full "GetStateByNameURL" scheme host (Build o).
Definition StringFull (scheme host : string) (o : t) : outcome string := 
  u ← Must (BuildFull scheme host o); Ok (URL_String u).
End GetStateByNameURL.

(** ** Answers *)

(** What was written, as an answer *)
Definition writes (o : outcome writer) (a : http_answer) : Prop :=
  ∃ rw, o = Ok rw ∧ rw.(written_code) = Some (fst a) ∧ rw.(written_body) = snd a.

Definition producing (j : json) : option error := None.

Lemma writeAnswer_writes code payload : 100 <= code <= 999 →
  writes (writeAnswer producing code payload fresh_writer) (code, Models.marshalResponse <$> payload).
Proof.
  intros Hc. unfold writeAnswer, WriteHeader. rewrite decide_True by done.
  by destruct payload; eexists.
Qed.

Lemma writeAnswer_fails code p e : writeAnswer (λ _, Some e) code (Some p) fresh_writer = Panic.
Proof. unfold writeAnswer, WriteHeader. by case_decide. Qed.

(** What each answer writes is the answer of [Server].  A default answer that was made with
    no code has the code 500, and one with a code that HTTP does not have is a panic, as is
    a document that cannot be written. *)
Theorem answers_written (p : Models.Response) (code : Z) :
  writes (AddS3BackupOK.WriteResponse producing (AddS3BackupOK.WithPayload (Some p) AddS3BackupOK.New) fresh_writer)
    (WriteResponse (WithPayload p NewAddS3BackupOK)) ∧
  writes (GetS3BackupOK.WriteResponse producing (GetS3BackupOK.WithPayload (Some p) GetS3BackupOK.New) fresh_writer)
    (WriteResponse (WithPayload p NewGetS3BackupOK)) ∧
  writes (GetStateByNameOK.WriteResponse producing (GetStateByNameOK.WithPayload (Some p) GetStateByNameOK.New) fresh_writer)
    (WriteResponse (WithPayload p NewGetStateByNameOK)) ∧
  writes (GetProbeOK.WriteResponse producing (GetProbeOK.WithPayload (Some p) GetProbeOK.New) fresh_writer)
    (WriteResponse (WithPayload p NewGetProbeOK)) ∧
  let add produce := AddS3BackupDefault.WriteResponse produce
    (AddS3BackupDefault.WithPayload (Some p) (AddS3BackupDefault.New code)) fresh_writer in
  let get produce := GetS3BackupDefault.WriteResponse produce
    (GetS3BackupDefault.WithPayload (Some p) (GetS3BackupDefault.New code)) fresh_writer in
  let state produce := GetStateByNameDefault.WriteResponse produce
    (GetStateByNameDefault.WithPayload (Some p) (GetStateByNameDefault.New code)) fresh_writer in
  (if decide (0 < code < 100 ∨ 999 < code)
   then add producing = Panic ∧ get producing = Panic ∧ state producing = Panic
   else writes (add producing) (WriteResponse (WithPayload p (NewAddS3BackupDefault code))) ∧
        writes (get producing) (WriteResponse (WithPayload p (NewGetS3BackupDefault code))) ∧
        writes (state producing) (WriteResponse (WithPayload p (NewGetStateByNameDefault code)))) ∧
  (∀ e, add (λ _, Some e) = Panic ∧ get (λ _, Some e) = Panic ∧ state (λ _, Some e) = Panic).
Proof.
  split_and!; try by apply writeAnswer_writes.
  intros add get state. split.
  - case_decide as Hc.
    + assert (Hp : ∀ payload, writeAnswer producing (if decide (code <= 0) then 500 else code) payload fresh_writer = Panic).
      { intros payload. unfold writeAnswer, WriteHeader. rewrite (decide_False (P := code <= 0)) by lia.
        by rewrite decide_False by lia. }
      split_and!; apply Hp.
    + assert (Hw : 100 <= (if decide (code <= 0) then 500 else code) <= 999) by (case_decide; lia).
      split_and!; by apply writeAnswer_writes.
  - intros e. split_and!; apply writeAnswer_fails.
Qed.

(** ** URLs *)

Definition plain_name (name : string) : Prop :=
  str_forall (λ c, is_digit c || is_lower c || bool_decide (c = "."%char ∨ c = "-"%char)) name = true ∧
  name ∉ [""; "."; ".."].

Lemma plain_char c : is_digit c || is_lower c || bool_decide (c = "."%char ∨ c = "-"%char) = true →
  in_path c = true ∧ not_char "/" c = true ∧ in_host c = true.
Proof. revert c. intros [[] [] [] [] [] [] [] []]; by vm_compute. Qed.

Lemma percent_kept kept s : str_forall kept s = true → percent kept s = s.
Proof. induction s as [|c s IH]; cbn; [done|]. intros [-> Hs]%andb_true_iff. by rewrite IH. Qed.

(** A path without a base, and the URL of a host *)
Lemma Join_root (names : list string) : Forall (λ n, proper n = true) names →
  Path.Join "" (abs names) = abs names.
Proof. intros H. unfold Path.Join. rewrite decide_True by done. rewrite decide_False by done. by apply Clean_abs. Qed.

Lemma URL_String_full host path : host ≠ "" → str_forall in_host host = true →
  HasPrefix path "/" = true → str_forall in_path path = true →
  URL_String (mkURL "http" host path) = "http://" +:+ host +:+ path.
Proof.
  intros Hh Hk Hp Hi. unfold URL_String, EscapedPath. cbn [Scheme Host UrlPath].
  rewrite (decide_False (P := path = "*")) by (by intros ->). rewrite !percent_kept by done.
  assert (Hs : "http" ≠ "") by done. rewrite Hp.
  destruct (decide ("http" = "")) as [?|_]; [done|].
  destruct (decide ("http" = "" ∧ host = "")) as [[? _]|_]; [done|].
  destruct (decide (host = "" ∧ path = "")) as [[? _]|_]; [done|].
  destruct (decide (path ≠ "" ∧ true = false ∧ host ≠ "")) as [(_ & ? & _)|_]; [done|].
  destruct (decide (_ ∧ colon_first path = true)) as [[? _]|_]; [done|].
  by rewrite str_app_nil_r.
Qed.

Lemma URL_String_path path : HasPrefix path "/" = true → str_forall in_path path = true →
  URL_String (mkURL "" "" path) = path.
Proof.
  intros Hp Hi. unfold URL_String, EscapedPath. cbn [Scheme Host UrlPath].
  rewrite (decide_False (P := path = "*")) by (by intros ->). rewrite !percent_kept by done.
  assert (Hc : colon_first path = false).
  { destruct path as [|c path]; [done|]. cbn in Hp. apply andb_true_iff in Hp as [Hc _].
    apply bool_decide_eq_true in Hc. by subst c. }
  rewrite Hp, Hc. destruct (decide ("" = "")) as [_|Hn]; [|done].
  destruct (decide ("" = "" ∧ "" = "")) as [_|Hn]; [|by destruct Hn].
  destruct (decide (path ≠ "" ∧ true = false ∧ "" ≠ "")) as [(_ & ? & _)|_]; [done|].
  destruct (decide (_ ∧ false = true)) as [[_ ?]|_]; done.
Qed.

Lemma replaceAll_before c old p s new : str_forall (not_char c) p = true →
  replaceAll 0 (p +:+ s) (String c old) new = p +:+ replaceAll 0 s (String c old) new.
Proof.
  induction p as [|x p IH]; [done|]. cbn -[HasPrefix]. unfold not_char at 1.
  rewrite andb_true_iff, negb_true_iff, bool_decide_eq_false. intros [Hx Hp].
  assert (HasPrefix (String x (p +:+ s)) (String c old) = false) as ->.
  { cbn. rewrite bool_decide_eq_false_2; [done|congruence]. }
  by rewrite IH.
Qed.

Lemma replaceAll_skip u old new : replaceAll (String.length u) u old new = "".
Proof. induction u as [|c u IH]; [done|exact IH]. Qed.

Lemma replaceAll_here c u new : replaceAll 0 (String c u) (String c u) new = new.
Proof.
  cbn -[HasPrefix]. pose proof (HasPrefix_app (String c u) "") as E. rewrite str_app_nil_r in E. rewrite E.
  by rewrite Nat.sub_0_r, replaceAll_skip, str_app_nil_r.
Qed.

Lemma state_template name : replaceAll 0 "/state/{name}" "{name}" name = "/state/" +:+ name.
Proof.
  change "/state/{name}" with ("/state/" +:+ "{name}").
  rewrite (replaceAll_before "{" "name}" "/state/") by done. by rewrite replaceAll_here.
Qed.

Lemma state_abs name : plain_name name → "/state/" +:+ name = abs ["state"; name] ∧ proper name = true.
Proof.
  intros [Hn Hd]. split; [done|]. unfold proper. rewrite andb_true_iff, bool_decide_eq_true. split; [|done].
  eapply str_forall_impl; [|exact Hn]. intros c Hc. by apply plain_char.
Qed.

Lemma state_path name : plain_name name →
  GetStateByNameURL.Build (GetStateByNameURL.mk name "") = (Some (mkURL "" "" ("/state/" +:+ name)), None).
Proof.
  intros Hn. unfold GetStateByNameURL.Build. cbn [GetStateByNameURL.Name GetStateByNameURL.basePath].
  rewrite decide_False by (destruct Hn; set_solver). rewrite state_template.
  destruct (state_abs name Hn) as [-> Hp]. rewrite Join_root; [done|]. by repeat constructor.
Qed.

(** The URLs that the builders make for the pod of the operator are the ones that the
    operator asks, and the path of a state is routed to the operation with the name, for the
    names that backups have.  A name is needed; and since a path is cleaned, the URL that is
    built for a name of two dots is that of the root, which no operation has. *)
Theorem operation_urls `{OpenAPILaws} (p : S3Provider.Provider) (name : string) :
  let host := p.(S3Provider.backupPod).(pod_Status).(pst_PodIP) +:+ ":8080" in
  str_forall in_host host = true → plain_name name →
  AddS3BackupURL.StringFull "http" host (AddS3BackupURL.mk "") = Ok (S3Provider.url p "/s3") ∧
  GetS3BackupURL.StringFull "http" host (GetS3BackupURL.mk "") = Ok (S3Provider.url p "/s3") ∧
  GetStateByNameURL.StringFull "http" host (GetStateByNameURL.mk name "") = Ok (S3Provider.url p ("/state/" +:+ name)) ∧
  GetStateByNameURL.String_ (GetStateByNameURL.mk name "") = Ok ("/state/" +:+ name) ∧
  MatchPath "/state/{name}" ("/state/" +:+ name) = Some [("name", [name])] ∧
  GetStateByNameURL.String_ (GetStateByNameURL.mk "" "") = Panic ∧
  GetStateByNameURL.String_ (GetStateByNameURL.mk ".." "") = Ok "/".
Proof.
  intros host Hh Hn. pose proof (state_path name Hn) as Hs.
  assert (Hne : host ≠ "") by (unfold host; by destruct (pst_PodIP _)).
  assert (Hu : ∀ path, S3Provider.url p path = "http://" +:+ host +:+ path)
    by (intros; unfold S3Provider.url, host; by rewrite str_app_assoc).
  assert (Hp : str_forall in_path ("/state/" +:+ name) = true).
  { rewrite str_forall_app. destruct Hn as [Hn _]. cbn. eapply str_forall_impl; [|exact Hn].
    intros c Hc. by apply plain_char. }
  rewrite !Hu. split_and!.
  - unfold AddS3BackupURL.StringFull, AddS3BackupURL.BuildFull, full. rewrite !decide_False by done.
    change (AddS3BackupURL.Build _) with (Some (mkURL "" "" "/s3"), @None error). cbn [must AddS3BackupURL.Must UrlPath].
    cbn -[URL_String]. by rewrite URL_String_full.
  - unfold GetS3BackupURL.StringFull, GetS3BackupURL.BuildFull, full. rewrite !decide_False by done.
    change (GetS3BackupURL.Build _) with (Some (mkURL "" "" "/s3"), @None error).
    cbn -[URL_String]. by rewrite URL_String_full.
  - unfold GetStateByNameURL.StringFull, GetStateByNameURL.BuildFull, full. rewrite !decide_False by done.
    rewrite Hs. cbn -[URL_String String.append]. by rewrite URL_String_full.
  - unfold GetStateByNameURL.String_. rewrite Hs. cbn -[URL_String String.append]. by rewrite URL_String_path.
  - apply (MatchPath_value "/state/" name); [done|destruct Hn; set_solver|by destruct Hn].
  - reflexivity.
  - vm_compute. reflexivity.
Qed.

(** ** The API and its context *)

Section api.
Context `{OpenAPI}.
Context (NewProvider : SideCar.S3StorageProvider → option error).
(** The formats of go-openapi and the handlers of net/http; [APIHandler] is the handler that
    a context makes of its document, of the API and of a middleware. *)
Context {Format Registry Handler : Type} (Add : string → Format → Registry → Registry) (APIHandler : option json → GaleraBackupToolAPI → (Handler → Handler) → Handler).

(** The fields of the API that the answers of [Server] do not depend on: the document, the
    context, which keeps the document it was made with, and the custom middleware *)
Record api := mkApi {
  generated : GaleraBackupToolAPI;
  spec : option json;
  context : option (option json);
  formats : Registry;
  ServeError : option (error → http_answer);
  Middleware : option ((Handler → Handler) → Handler) }.

Definition SetSpec (doc : option json) (o : api) : api :=
  mkApi o.(generated) doc o.(context) o.(formats) o.(ServeError) o.(Middleware).
Definition DefaultProduces (o : api) : string := o.(generated).(defaultProduces).
Definition DefaultConsumes (o : api) : string := o.(generated).(defaultConsumes).
Definition Formats (o : api) : Registry := o.(formats).
Definition RegisterFormat (name : string) (f : Format) (o : api) : api :=
  mkApi o.(generated) o.(spec) o.(context) (Add name f o.(formats)) o.(ServeError) o.(Middleware).

(** The errors of every operation are answered alike, and nothing is authenticated. *)
Definition ServeErrorFor (operationID : string) (o : api) : option (error → http_answer) := o.(ServeError).
Definition AuthenticatorsFor (schemes : gmap string json) (o : api) : gmap string unit := ∅.
Definition Authorizer (o : api) : option unit := None.

(** [Context] *)
Definition contextOf (o : api) : api :=
  match o.(context) with
  | Some _ => o
  | None => mkApi o.(generated) o.(spec) (Some o.(spec)) o.(formats) o.(ServeError) o.(Middleware)
  end.

(** [Init], with the context that [initHandlerCache] asks for *)
Definition InitAll (o : api) : api :=
  if decide (o.(generated).(handlers) = ∅) then
    let o := contextOf o in
    mkApi (initHandlerCache o.(generated)) o.(spec) o.(context) o.(formats) o.(ServeError) o.(Middleware)
  else o.

Definition Serve (builder : Handler → Handler) (o : api) : outcome (api * Handler) :=
  let o := InitAll o in
  match o.(Middleware), o.(context) with
  | Some middleware, _ => Ok (o, middleware builder)
  | None, Some doc => Ok (o, APIHandler doc o.(generated) builder)
  | None, None => Panic
  end.

Definition setupMiddlewares (handler : Handler) : Handler := handler.
Definition setupGlobalMiddleware (handler : Handler) : Handler := handler.

(** [configureAPI], with the handler that it gives *)
Definition configureHandler (o : api) : outcome (api * Handler) :=
  let g := o.(generated) in
  let g := mkAPI g.(handlers) g.(defaultConsumes) g.(defaultProduces) g.(customConsumers)
    g.(customProducers) (Some runtime_JSONConsumer) (Some runtime_JSONProducer)
    (Some (HandlerFunc _ (handleS3Backup NewProvider))) (Some (HandlerFunc _ handleProbe))
    (Some (HandlerFunc _ (handleS3Restore NewProvider))) (Some (HandlerFunc _ handleState)) in
  '(o, h) ← Serve setupMiddlewares (mkApi g o.(spec) o.(context) o.(formats) (Some errors_ServeError) o.(Middleware));
  Ok (o, setupGlobalMiddleware h).

(** The API that [NewGaleraBackupToolAPI] makes of a document *)
Definition NewApi (doc : option json) (registry : Registry) : api :=
  mkApi NewGaleraBackupToolAPI doc None registry (Some errors_ServeError) None.

(** An API whose operations are routed has a context. *)
Definition settled (o : api) : Prop := o.(generated).(handlers) ≠ ∅ → is_Some o.(context).

Lemma initHandlerCache_some g : (initHandlerCache g).(handlers) ≠ ∅.
Proof.
  unfold initHandlerCache, setHandler. cbn [handlers].
  intros E. apply (f_equal (lookup "GET")) in E. by rewrite lookup_insert_eq, lookup_empty in E.
Qed.

Lemma InitAll_routed o : (InitAll o).(generated).(handlers) ≠ ∅.
Proof. unfold InitAll. case_decide; [|done]. apply initHandlerCache_some. Qed.

Lemma InitAll_idemp o : InitAll (InitAll o) = InitAll o.
Proof. unfold InitAll at 1. rewrite decide_False; [done|apply InitAll_routed]. Qed.

Lemma contextOf_some o : is_Some (contextOf o).(context).
Proof. unfold contextOf. destruct (context o) as [d|] eqn:E; [rewrite E|cbn]; eauto. Qed.

Lemma InitAll_context o : settled o → is_Some (InitAll o).(context).
Proof. unfold InitAll. intros Ho. case_decide; [apply contextOf_some|by apply Ho]. Qed.

(** The setters keep an API that was not served, or was, such that [Serve] does not fail and
    can be asked again, with the same handler.  The handler publishes the document that the
    API had when it was first served: one that is set later is not published.  The side-car
    serves the API of [Server], with the document it was made with and no other. *)
Theorem served_document (o : api) :
  settled o →
  (∀ doc name f, settled (SetSpec doc o) ∧ settled (RegisterFormat name f o) ∧ settled (contextOf o)) ∧
  (∀ builder, ∃ o' h, Serve builder o = Ok (o', h) ∧ settled o' ∧ Serve builder o' = Ok (o', h) ∧
     (∀ doc, ∃ o'', Serve builder (SetSpec doc o') = Ok (o'', h))) ∧
  (∀ doc registry, ∃ o',
     configureHandler (NewApi doc registry) =
       Ok (o', APIHandler doc (sidecarAPI NewProvider) setupMiddlewares) ∧
     ∀ id, ServeErrorFor id o' = Some errors_ServeError).
Proof.
  intros Ho. split_and!.
  - intros doc name f. split_and!; [done|done|]. intros _. apply contextOf_some.
  - intros builder. destruct (InitAll_context o Ho) as [d Ed]. 
    assert (Hs : ∀ doc, InitAll (SetSpec doc (InitAll o)) = SetSpec doc (InitAll o)).
    { intros doc. unfold InitAll at 1. rewrite decide_False; [done|]. cbn. apply InitAll_routed. }
    set (h := match Middleware (InitAll o) with
              | Some m => m builder
              | None => APIHandler d (generated (InitAll o)) builder
              end).
    exists (InitAll o), h. unfold Serve. rewrite InitAll_idemp, Ed. unfold h.
    split_and!; [by destruct (Middleware _)|by unfold settled; rewrite Ed; eauto|by destruct (Middleware _)|].
    intros doc. exists (SetSpec doc (InitAll o)). rewrite Hs. cbn. rewrite Ed. by destruct (Middleware _).
  - intros doc registry. unfold configureHandler, Serve, InitAll. cbn [generated NewApi handlers NewGaleraBackupToolAPI].
    rewrite !decide_True by done. cbn -[initHandlerCache]. eexists. split; [|intros id].
    + unfold sidecarAPI, configureAPI, Init. cbn [handlers NewGaleraBackupToolAPI]. by rewrite decide_True.
    + reflexivity.
Qed.
End api.

(** ** Examples *)

Example state_url_example :
  GetStateByNameURL.StringFull "http" "10.0.0.3:8080" (GetStateByNameURL.mk "b.20200102030405.sql.gz" "") =
    Ok "http://10.0.0.3:8080/state/b.20200102030405.sql.gz".
Proof. vm_compute. reflexivity. Qed.

Example base_path : GetProbeURL.StringFull "https" "h" (GetProbeURL.WithBasePath "/v1/" (GetProbeURL.mk "")) =
  Ok "https://h/v1/probe".
Proof. vm_compute. reflexivity. Qed.

Example escaped_name : GetStateByNameURL.String_ (GetStateByNameURL.mk "a b?" "") = Ok "/state/a%20b%3F".
Proof. vm_compute. reflexivity. Qed.
