(* ===== verification/HttpServer.v ===== *)
(** * The HTTP server of the side-car

    Models [src/galera-images/galera-backup/pkg/restapi/server.go] and the [main] of
    the side-car ([cmd/galera-backup-tool-server/main.go]): the options, the sockets
    on which the server listens, the servers of net/http that it starts, and how they
    are shut down.

    The sockets, the certificates and the parser of options are a parameter.  Once
    started, the process is a transition system: the servers, the goroutine that gets
    the signals and the one that shuts down interleave.  Logs are left out. *)
From S2P Require Import Prelude Timestamps Types BackupTypes Objects Names Kube Ownership PodLib.
From S2P Require Import Storage SideCar Server.

(** ** Libraries *)

Definition Second : Z := 1000000000.
Definition Minute : Z := 60 * Second.

(** A socket that is bound: its address, the limit of connections, and the TLS
    configuration that wraps it *)
Record listener := mkListener { l_Addr : string; l_limit : option Z; l_tls : bool }.

Class Net := {
  (** the address that a call of [net.Listen] gets, after some calls *)
  net_Listen : list (string * string) → string → string → string + error;
  SplitHostPort : string → (string * Z) + error }.

Class Tls := {
  Certificate : Type;
  CertPool : Type;
  LoadX509KeyPair : string → string → Certificate + error;
  ReadFile : string → string + error;
  (** the pool with the certificates of a text; nothing when it has none *)
  AppendCertsFromPEM : string → option CertPool }.

(** [net.JoinHostPort] *)
Definition JoinHostPort (host port : string) : string :=
  if str_forall (not_char ":") host then host +:+ ":" +:+ port
  else "[" +:+ host +:+ "]:" +:+ port.

Section http_server.
Context `{openapi : OpenAPI} `{net : Net} `{tls : Tls}.
Context (NewProvider : SideCar.S3StorageProvider → option error).

(** ** [Server] *)

(** The options of the server for HTTP, and the same for HTTPS *)
Record endpoint := mkEndpoint {
  Host : string;
  Port : Z;
  ListenLimit : Z;
  KeepAlive : Z;
  ReadTimeout : Z;
  WriteTimeout : Z;
  ServerL : option listener }.

Abbreviation API := GaleraBackupToolAPI.

(** The handler is that of an API. *)
Record Server := mkServer {
  EnabledListeners : list string;
  CleanupTimeout : Z;
  GracefulTimeout : Z;
  MaxHeaderSize : Z;
  SocketPath : string;
  domainSocketL : option listener;
  http : endpoint;
  https : endpoint;
  TLSCertificate : string;
  TLSCertificateKey : string;
  TLSCACertificate : string;
  api : option API;
  handler : option API;
  hasListeners : bool }.

Definition with_domainSocketL (l : option listener) (s : Server) : Server :=
  mkServer s.(EnabledListeners) s.(CleanupTimeout) s.(GracefulTimeout) s.(MaxHeaderSize) s.(SocketPath) l
    s.(http) s.(https) s.(TLSCertificate) s.(TLSCertificateKey) s.(TLSCACertificate) s.(api) s.(handler) s.(hasListeners).
Definition with_http (e : endpoint) (s : Server) : Server :=
  mkServer s.(EnabledListeners) s.(CleanupTimeout) s.(GracefulTimeout) s.(MaxHeaderSize) s.(SocketPath) s.(domainSocketL)
    e s.(https) s.(TLSCertificate) s.(TLSCertificateKey) s.(TLSCACertificate) s.(api) s.(handler) s.(hasListeners).
Definition with_https (e : endpoint) (s : Server) : Server :=
  mkServer s.(EnabledListeners) s.(CleanupTimeout) s.(GracefulTimeout) s.(MaxHeaderSize) s.(SocketPath) s.(domainSocketL)
    s.(http) e s.(TLSCertificate) s.(TLSCertificateKey) s.(TLSCACertificate) s.(api) s.(handler) s.(hasListeners).
Definition with_api (a h : option API) (s : Server) : Server :=
  mkServer s.(EnabledListeners) s.(CleanupTimeout) s.(GracefulTimeout) s.(MaxHeaderSize) s.(SocketPath) s.(domainSocketL)
    s.(http) s.(https) s.(TLSCertificate) s.(TLSCertificateKey) s.(TLSCACertificate) a h s.(hasListeners).
Definition with_hasListeners (b : bool) (s : Server) : Server :=
  mkServer s.(EnabledListeners) s.(CleanupTimeout) s.(GracefulTimeout) s.(MaxHeaderSize) s.(SocketPath) s.(domainSocketL)
    s.(http) s.(https) s.(TLSCertificate) s.(TLSCertificateKey) s.(TLSCACertificate) s.(api) s.(handler) b.
Definition with_ServerL (l : option listener) (e : endpoint) : endpoint :=
  mkEndpoint e.(Host) e.(Port) e.(ListenLimit) e.(KeepAlive) e.(ReadTimeout) e.(WriteTimeout) l.
Definition bind_endpoint (host : string) (port : Z) (l : listener) (e : endpoint) : endpoint :=
  mkEndpoint host port e.(ListenLimit) e.(KeepAlive) e.(ReadTimeout) e.(WriteTimeout) (Some l).

Definition no_endpoint : endpoint := mkEndpoint "" 0 0 0 0 0 None.

(** A new server; its channels are in the process, below. *)
Definition NewServer (api : option API) : Server :=
  mkServer [] 0 0 0 "" None no_endpoint no_endpoint "" "" "" api None false.

(** [configureAPI] changes the API that it is given, and returns its handler. *)
Definition ConfigureAPI (s : Server) : Server :=
  match s.(api) with
  | Some a => let a := configureAPI NewProvider a in with_api (Some a) (Some a) s
  | None => s
  end.

Definition SetAPI (api : option API) (s : Server) : Server :=
  match api with
  | None => with_api None None s
  | Some a => let a := configureAPI NewProvider a in with_api (Some a) (Some a) s
  end.

Definition GetHandler (s : Server) : option API := s.(handler).
Definition SetHandler (h : option API) (s : Server) : Server := with_api s.(api) h s.

(** ** Listening *)

Definition schemeHTTP : string := "http".
Definition schemeHTTPS : string := "https".
Definition schemeUnix : string := "unix".
Definition defaultSchemes : list string := [schemeHTTP].

Definition schemes (s : Server) : list string :=
  match s.(EnabledListeners) with [] => defaultSchemes | l => l end.

Definition hasScheme (s : Server) (scheme : string) : bool := bool_decide (scheme ∈ schemes s).

(** The options of HTTPS that were not set are those of HTTP. *)
Definition inherit (http https : endpoint) : endpoint :=
  mkEndpoint
    (if decide (https.(Host) = "") then http.(Host) else https.(Host))
    https.(Port)
    (if decide (https.(ListenLimit) = 0) then http.(ListenLimit) else https.(ListenLimit))
    (if decide (https.(KeepAlive) = 0) then http.(KeepAlive) else https.(KeepAlive))
    (if decide (https.(ReadTimeout) = 0) then http.(ReadTimeout) else https.(ReadTimeout))
    (if decide (https.(WriteTimeout) = 0) then http.(WriteTimeout) else https.(WriteTimeout))
    https.(ServerL).

(** What [net.Listen] was asked for *)
Definition calls : Type := list (string * string).

(** [net.Listen] on the host and the port of some options, which become those of
    the socket *)
Definition listenTCP (e : endpoint) (c : calls) : endpoint * calls * option error :=
  let addr := JoinHostPort e.(Host) (pretty e.(Port)) in
  let c' := c ++ [("tcp", addr)] in
  match net_Listen c "tcp" addr with
  | inr err => (e, c', Some err)
  | inl bound =>
      match SplitHostPort bound with
      | inr err => (e, c', Some err)
      | inl (h, p) => (bind_endpoint h p (mkListener bound None false) e, c', None)
      end
  end.

Definition listenUnix (s : Server) (c : calls) : Server * calls * option error :=
  let c' := c ++ [("unix", s.(SocketPath))] in
  match net_Listen c "unix" s.(SocketPath) with
  | inr err => (s, c', Some err)
  | inl bound => (with_domainSocketL (Some (mkListener bound None false)) s, c', None)
  end.

(** A step that is run if a scheme is enabled, and if there was no error before *)
Definition when (b : bool) (f : Server → calls → Server * calls * option error)
    (st : Server * calls * option error) : Server * calls * option error :=
  match st with
  | (s, c, Some err) => st
  | (s, c, None) => if b then f s c else st
  end.

Definition Listen (s : Server) (c : calls) : Server * calls * option error :=
  if s.(hasListeners) then (s, c, None)
  else
    let s := if hasScheme s schemeHTTPS then with_https (inherit s.(http) s.(https)) s else s in
    when true (λ s c, (with_hasListeners true s, c, None))
      (when (hasScheme s schemeHTTPS) (λ s c, let '(e, c, err) := listenTCP s.(https) c in (with_https e s, c, err))
        (when (hasScheme s schemeHTTP) (λ s c, let '(e, c, err) := listenTCP s.(http) c in (with_http e s, c, err))
          (when (hasScheme s schemeUnix) listenUnix (s, c, None)))).

(** [UnixListener], [HTTPListener] and [TLSListener] *)
Definition listenerOf (get : Server → option listener) (s : Server) (c : calls)
    : Server * calls * (option listener + error) :=
  match Listen s c with
  | (s, c, Some err) => (s, c, inr err)
  | (s, c, None) => (s, c, inl (get s))
  end.
Definition UnixListener := listenerOf domainSocketL.
Definition HTTPListener := listenerOf (λ s, s.(http).(ServerL)).
Definition TLSListener := listenerOf (λ s, s.(https).(ServerL)).

(** ** Serving *)

Record tls_config := mkTlsConfig {
  PreferServerCipherSuites : bool;
  CurvePreferences : list string;
  NextProtos : list string;
  MinVersion : string;
  CipherSuites : list string;
  Certificates : list Certificate;
  ClientCAs : option CertPool;
  RequireAndVerifyClientCert : bool }.

(** [http.Server] *)
Record http_Server := mkHttpServer {
  MaxHeaderBytes : Z;
  h_ReadTimeout : Z;
  h_WriteTimeout : Z;
  IdleTimeout : Z;
  keepAlives : bool;
  Handler : option API;
  TLSConfig : option tls_config }.

(** How the preparation of the servers ends: with those that were started, each with its
    scheme and its socket, and an error; with the end of the program ([Fatalf]); or
    with a nil pointer that is followed. *)
Inductive served :=
| Serving (running : list (string * http_Server * listener))
| Refused (running : list (string * http_Server * listener)) (err : error)
| FatalServe
| PanicServe.

Definition idle (s : Server) : Z := if 0 <? s.(CleanupTimeout) then s.(CleanupTimeout) else 0.

Definition unixServer (s : Server) : http_Server :=
  mkHttpServer s.(MaxHeaderSize) 0 0 (idle s) true s.(handler) None.

Definition tcpServer (s : Server) (e : endpoint) (cfg : option tls_config) : http_Server :=
  mkHttpServer s.(MaxHeaderSize) e.(ReadTimeout) e.(WriteTimeout) (idle s) (0 <? e.(KeepAlive)) s.(handler) cfg.

(** [netutil.LimitListener] *)
Definition limited (e : endpoint) (l : listener) : listener :=
  if 0 <? e.(ListenLimit) then mkListener l.(l_Addr) (Some e.(ListenLimit)) l.(l_tls) else l.

Definition baseConfig : tls_config :=
  mkTlsConfig true ["CurveP256"] ["h2"; "http/1.1"] "VersionTLS12"
    ["TLS_ECDHE_ECDSA_WITH_AES_256_GCM_SHA384"; "TLS_ECDHE_RSA_WITH_AES_256_GCM_SHA384";
     "TLS_ECDHE_ECDSA_WITH_AES_128_GCM_SHA256"; "TLS_ECDHE_RSA_WITH_AES_128_GCM_SHA256";
     "TLS_ECDHE_ECDSA_WITH_CHACHA20_POLY1305"; "TLS_ECDHE_RSA_WITH_CHACHA20_POLY1305"]
    [] None false.

Definition with_Certificates (l : list Certificate) (c : tls_config) : tls_config :=
  mkTlsConfig c.(PreferServerCipherSuites) c.(CurvePreferences) c.(NextProtos) c.(MinVersion) c.(CipherSuites)
    l c.(ClientCAs) c.(RequireAndVerifyClientCert).
Definition with_ClientCAs (p : CertPool) (c : tls_config) : tls_config :=
  mkTlsConfig c.(PreferServerCipherSuites) c.(CurvePreferences) c.(NextProtos) c.(MinVersion) c.(CipherSuites)
    c.(Certificates) (Some p) true.

(** The TLS configuration; nothing when no certificate was given, which is fatal *)
Definition tlsConfig (s : Server) : option tls_config + error :=
  let certificates :=
    if decide (s.(TLSCertificate) ≠ "" ∧ s.(TLSCertificateKey) ≠ "") then
      match LoadX509KeyPair s.(TLSCertificate) s.(TLSCertificateKey) with
      | inl c => inl [c]
      | inr err => inr err
      end
    else inl [] in
  match certificates with
  | inr err => inr err
  | inl certs =>
      let cfg := with_Certificates certs baseConfig in
      let withCA :=
        if decide (s.(TLSCACertificate) = "") then inl cfg
        else match ReadFile s.(TLSCACertificate) with
             | inr err => inr err
             | inl caCert =>
                 match AppendCertsFromPEM caCert with
                 | None => inr (errorf "cannot parse CA certificate")
                 | Some pool => inl (with_ClientCAs pool cfg)
                 end
             end in
      match withCA with
      | inr err => inr err
      | inl cfg => inl (match cfg.(Certificates) with [] => None | _ => Some cfg end)
      end
  end.

(** The start of the server of a scheme, after those of [running]; a limited socket
    replaces the one of the server. *)
Definition startUnix (st : Server * served) : Server * served :=
  match st with
  | (s, Serving running) =>
      if hasScheme s schemeUnix then
        match s.(domainSocketL) with
        | None => (s, PanicServe)
        | Some l => (s, Serving (running ++ [(schemeUnix, unixServer s, l)]))
        end
      else st
  | _ => st
  end.

Definition startHTTP (st : Server * served) : Server * served :=
  match st with
  | (s, Serving running) =>
      if hasScheme s schemeHTTP then
        match s.(http).(ServerL) with
        | None => (s, PanicServe)
        | Some l =>
            let l := limited s.(http) l in
            (with_http (with_ServerL (Some l) s.(http)) s,
             Serving (running ++ [(schemeHTTP, tcpServer s s.(http) None, l)]))
        end
      else st
  | _ => st
  end.

Definition startHTTPS (st : Server * served) : Server * served :=
  match st with
  | (s, Serving running) =>
      if hasScheme s schemeHTTPS then
        let l := limited s.(https) <$> s.(https).(ServerL) in
        let s := with_https (with_ServerL l s.(https)) s in
        match tlsConfig s with
        | inr err => (s, Refused running err)
        | inl None => (s, FatalServe)
        | inl (Some cfg) =>
            match l with
            | None => (s, PanicServe)
            | Some l =>
                (s, Serving (running ++ [(schemeHTTPS, tcpServer s s.(https) (Some cfg),
                                          mkListener l.(l_Addr) l.(l_limit) true)]))
            end
        end
      else st
  | _ => st
  end.

(** [Serve], up to its waiting for the servers *)
Definition Serve (s : Server) (c : calls) : Server * calls * served :=
  let '(s, c, err) := if s.(hasListeners) then (s, c, None) else Listen s c in
  match err with
  | Some err => (s, c, Refused [] err)
  | None =>
      let go s := let '(s, st) := startHTTPS (startHTTP (startUnix (s, Serving []))) in (s, c, st) in
      match s.(handler), s.(api) with
      | Some _, _ => go s
      | None, None => (s, c, Refused [] (errorf "can't create the default handler, as no api is set"))
      | None, Some a => go (with_api (Some (Init a)) (Some (Init a)) s)
      end
  end.

(** ** Options *)

(** The options that the struct tags declare *)
Inductive option_value :=
| Oscheme (v : string)
| Ocleanup_timeout (d : Z)
| Ograceful_timeout (d : Z)
| Omax_header_size (n : Z)
| Osocket_path (v : string)
| Ohost (v : string)
| Oport (n : Z)
| Olisten_limit (n : Z)
| Okeep_alive (d : Z)
| Oread_timeout (d : Z)
| Owrite_timeout (d : Z)
| Otls_host (v : string)
| Otls_port (n : Z)
| Otls_certificate (v : string)
| Otls_key (v : string)
| Otls_ca (v : string)
| Otls_listen_limit (n : Z)
| Otls_keep_alive (d : Z)
| Otls_read_timeout (d : Z)
| Otls_write_timeout (d : Z).

Definition on_endpoint (o : option_value) (e : endpoint) : endpoint :=
  match o with
  | Ohost v | Otls_host v => mkEndpoint v e.(Port) e.(ListenLimit) e.(KeepAlive) e.(ReadTimeout) e.(WriteTimeout) e.(ServerL)
  | Oport n | Otls_port n => mkEndpoint e.(Host) n e.(ListenLimit) e.(KeepAlive) e.(ReadTimeout) e.(WriteTimeout) e.(ServerL)
  | Olisten_limit n | Otls_listen_limit n => mkEndpoint e.(Host) e.(Port) n e.(KeepAlive) e.(ReadTimeout) e.(WriteTimeout) e.(ServerL)
  | Okeep_alive d | Otls_keep_alive d => mkEndpoint e.(Host) e.(Port) e.(ListenLimit) d e.(ReadTimeout) e.(WriteTimeout) e.(ServerL)
  | Oread_timeout d | Otls_read_timeout d => mkEndpoint e.(Host) e.(Port) e.(ListenLimit) e.(KeepAlive) d e.(WriteTimeout) e.(ServerL)
  | Owrite_timeout d | Otls_write_timeout d => mkEndpoint e.(Host) e.(Port) e.(ListenLimit) e.(KeepAlive) e.(ReadTimeout) d e.(ServerL)
  | _ => e
  end.

Definition set_option (o : option_value) (s : Server) : Server :=
  let make listeners cleanup graceful header path cert key ca :=
    mkServer listeners cleanup graceful header path s.(domainSocketL) s.(http) s.(https) cert key ca
      s.(api) s.(handler) s.(hasListeners) in
  let '(mkServer l cu gr hd p _ _ _ ce ke ca _ _ _) := s in
  match o with
  | Oscheme v => make (l ++ [v]) cu gr hd p ce ke ca
  | Ocleanup_timeout d => make l d gr hd p ce ke ca
  | Ograceful_timeout d => make l cu d hd p ce ke ca
  | Omax_header_size n => make l cu gr n p ce ke ca
  | Osocket_path v => make l cu gr hd v ce ke ca
  | Otls_certificate v => make l cu gr hd p v ke ca
  | Otls_key v => make l cu gr hd p ce v ca
  | Otls_ca v => make l cu gr hd p ce ke v
  | Ohost _ | Oport _ | Olisten_limit _ | Okeep_alive _ | Oread_timeout _ | Owrite_timeout _ =>
      with_http (on_endpoint o s.(http)) s
  | _ => with_https (on_endpoint o s.(https)) s
  end.

(** The defaults of the tags; [header] is the number that 1MiB is read as. *)
Definition tag_defaults (header : Z) : list option_value :=
  [Ocleanup_timeout (10 * Second); Ograceful_timeout (15 * Second); Omax_header_size header;
   Osocket_path "/var/run/galera-backup-tool.sock"; Ohost "localhost"; Okeep_alive (3 * Minute);
   Oread_timeout (30 * Second); Owrite_timeout (60 * Second)].

(** The variables of the environment that the tags name *)
Definition tag_env : list string :=
  ["HOST"; "PORT"; "TLS_HOST"; "TLS_PORT"; "TLS_CERTIFICATE"; "TLS_PRIVATE_KEY"; "TLS_CA_CERTIFICATE"].

Definition set_options (l : list option_value) (s : Server) : Server := fold_left (λ s o, set_option o s) l s.

(** ** What is prepared *)

(** Once it listens, the server has a socket for each scheme that is enabled. *)
Definition listening (s : Server) : Prop :=
  s.(hasListeners) = true →
  (hasScheme s schemeUnix = true → is_Some s.(domainSocketL)) ∧
  (hasScheme s schemeHTTP = true → is_Some s.(http).(ServerL)) ∧
  (hasScheme s schemeHTTPS = true → is_Some s.(https).(ServerL)).

(** Two servers with the same options, but for what listening changes *)
Definition same_options (s s' : Server) : Prop :=
  s'.(EnabledListeners) = s.(EnabledListeners) ∧ s'.(api) = s.(api) ∧ s'.(handler) = s.(handler).

Lemma same_schemes s s' scheme : same_options s s' → hasScheme s' scheme = hasScheme s scheme.
Proof. intros (E & _). unfold hasScheme, schemes. by rewrite E. Qed.

(** A step of [Listen], when it goes on without error *)
Lemma when_None b f st s' c' : when b f st = (s', c', None) →
  ∃ s c, st = (s, c, None) ∧ if b then f s c = (s', c', None) else (s, c) = (s', c').
Proof.
  destruct st as [[s c] [err|]]; [done|]. cbn. intros E. exists s, c. split; [done|].
  destruct b; [done|congruence].
Qed.

Lemma listenTCP_None e c e' c' : listenTCP e c = (e', c', None) →
  ∃ bound h p, net_Listen c "tcp" (JoinHostPort e.(Host) (pretty e.(Port))) = inl bound ∧
    SplitHostPort bound = inl (h, p) ∧ e' = bind_endpoint h p (mkListener bound None false) e ∧
    c' = c ++ [("tcp", JoinHostPort e.(Host) (pretty e.(Port)))].
Proof.
  unfold listenTCP. destruct (net_Listen _ _ _) as [bound|] eqn:El; [|done].
  destruct (SplitHostPort bound) as [[h p]|] eqn:Es; [|done]. intros [= <- <-]. eauto 10.
Qed.

Lemma listenUnix_None s c s' c' : listenUnix s c = (s', c', None) →
  ∃ bound, net_Listen c "unix" s.(SocketPath) = inl bound ∧
    s' = with_domainSocketL (Some (mkListener bound None false)) s ∧ c' = c ++ [("unix", s.(SocketPath))].
Proof.
  unfold listenUnix. destruct (net_Listen _ _ _) as [bound|]; [|done]. intros [= <- <-]. eauto.
Qed.

(** [Listen] without error: a socket for each scheme that is enabled *)
Lemma Listen_listening s c s' c' : listening s → Listen s c = (s', c', None) →
  listening s' ∧ s'.(hasListeners) = true ∧ same_options s s'.
Proof.
  intros Hl. unfold Listen. destruct (hasListeners s) eqn:Eh.
  { intros [= <- <-]. by split_and!. }
  set (s0 := if hasScheme s schemeHTTPS then _ else s). intros E.
  assert (H0 : same_options s s0) by (subst s0; by destruct (hasScheme s schemeHTTPS)).
  apply when_None in E as (s3 & c3 & E & [= <- <-]).
  apply when_None in E as (s2 & c2 & E & E3).
  apply when_None in E as (s1 & c1 & E & E2).
  apply when_None in E as (? & ? & [= <- <-] & E1).
  assert (H1 : same_options s s1 ∧ (hasScheme s schemeUnix = true → is_Some s1.(domainSocketL))).
  { rewrite (same_schemes s s0) in E1 by done. destruct (hasScheme s schemeUnix).
    - apply listenUnix_None in E1 as (b & _ & -> & _). split; [done|]. eauto.
    - injection E1 as <- <-. by split. }
  destruct H1 as [H1 Hu].
  assert (H2 : same_options s s2 ∧ s2.(domainSocketL) = s1.(domainSocketL) ∧
    (hasScheme s schemeHTTP = true → is_Some s2.(http).(ServerL))).
  { rewrite (same_schemes s s0) in E2 by done. destruct (hasScheme s schemeHTTP).
    - destruct (listenTCP (http s1) c1) as [[e c'1] err] eqn:El. injection E2 as <- <- ->.
      apply listenTCP_None in El as (? & ? & ? & _ & _ & -> & _). split_and!; [done..|]. intros _. by eexists.
    - injection E2 as <- <-. by split_and!. }
  destruct H2 as (H2 & Ed & Hh).
  assert (H3 : same_options s s3 ∧ s3.(domainSocketL) = s2.(domainSocketL) ∧ s3.(http) = s2.(http) ∧
    (hasScheme s schemeHTTPS = true → is_Some s3.(https).(ServerL))).
  { rewrite (same_schemes s s0) in E3 by done. destruct (hasScheme s schemeHTTPS).
    - destruct (listenTCP (https s2) c2) as [[e c'2] err] eqn:El. injection E3 as <- <- ->.
      apply listenTCP_None in El as (? & ? & ? & _ & _ & -> & _). split_and!; [done..|]. intros _. by eexists.
    - injection E3 as <- <-. by split_and!. }
  destruct H3 as (H3 & Ed' & Eh' & Hs). split_and!; [|done|done].
  intros _. rewrite !(same_schemes s _ _ (H3 : same_options s (with_hasListeners true s3))). cbn.
  rewrite Ed', Ed, Eh'. by split_and!.
Qed.

(** Serving without options on the schemes: HTTP only *)
Lemma default_schemes s : s.(EnabledListeners) = [] →
  hasScheme s schemeUnix = false ∧ hasScheme s schemeHTTP = true ∧ hasScheme s schemeHTTPS = false.
Proof. intros E. unfold hasScheme, schemes. by rewrite E. Qed.

Lemma Serve_default s c h : s.(EnabledListeners) = [] → s.(hasListeners) = false → s.(handler) = Some h →
  Serve s c =
    match listenTCP s.(http) c with
    | (e, c, Some err) => (with_http e s, c, Refused [] err)
    | (e, c, None) =>
        let s := with_hasListeners true (with_http e s) in
        match e.(ServerL) with
        | Some l => (with_http (with_ServerL (Some (limited e l)) e) s, c,
                     Serving [(schemeHTTP, tcpServer s e None, limited e l)])
        | None => (s, c, PanicServe)
        end
    end.
Proof.
  intros El Eh Eh'. unfold Serve, Listen. rewrite Eh.
  assert (Hs : ∀ s', s'.(EnabledListeners) = [] → hasScheme s' schemeUnix = false ∧ hasScheme s' schemeHTTP = true ∧
    hasScheme s' schemeHTTPS = false) by apply default_schemes.
  destruct (Hs s El) as (E1 & E2 & E3). rewrite E3, E1, E2. cbn [when].
  destruct (listenTCP (http s) c) as [[e c'] [err|]]; cbn [when]; [done|].
  rewrite E3. cbn [when]. change (handler (with_hasListeners true (with_http e s))) with (handler s). rewrite Eh'.
  unfold startUnix. destruct (Hs (with_hasListeners true (with_http e s)) El) as (-> & _ & _).
  unfold startHTTP. destruct (Hs (with_hasListeners true (with_http e s)) El) as (_ & -> & _). cbn [http with_hasListeners with_http].
  destruct (ServerL e) as [l|]; [|done]. cbn [startHTTPS].
  by destruct (Hs (with_http (with_ServerL (Some (limited e l)) e) (with_hasListeners true (with_http e s))) El) as (_ & _ & ->).
Qed.

(** The schemes in the order in which their servers are started *)
Definition started_schemes (s : Server) : list string :=
  List.filter (hasScheme s) [schemeUnix; schemeHTTP; schemeHTTPS].

(** The servers that were started serve the handler of the server. *)
Definition all_serve (h : option API) (running : list (string * http_Server * listener)) : Prop :=
  Forall (λ r, (snd (fst r)).(Handler) = h) running.

Definition scheme_of (r : string * http_Server * listener) : string := fst (fst r).

(** What holds while the servers are started, from [s0], for the schemes [names] *)
Record prepared (s0 : Server) (names : list string) (st : Server * served) : Prop := {
  pr_options : same_options s0 (fst st);
  pr_listeners : (fst st).(hasListeners) = true;
  pr_listening : listening (fst st);
  pr_no_panic : snd st ≠ PanicServe;
  pr_running : ∀ running, snd st = Serving running →
    scheme_of <$> running = names ∧ all_serve s0.(handler) running }.

Lemma prepared_start s : s.(hasListeners) = true → listening s → prepared s [] (s, Serving []).
Proof.
  intros Hb Hl. split; try done. intros running E. injection E as <-. split; [done|by apply Forall_nil].
Qed.

(** One more server *)
Lemma prepared_more s0 names s running s' scheme srv l :
  prepared s0 names (s, Serving running) → same_options s s' → s'.(hasListeners) = true → listening s' →
  srv.(Handler) = s.(handler) → prepared s0 (names ++ [scheme]) (s', Serving (running ++ [(scheme, srv, l)])).
Proof.
  intros [(O1 & O2 & O3) Hb Hl _ Hr] (P1 & P2 & P3) Hb' Hl' Eh. destruct (Hr _ eq_refl) as [Hn Ha].
  split; cbn in *; try done; [unfold same_options; split_and!; congruence|]. intros r [= <-]. split.
  - by rewrite fmap_app, Hn.
  - apply Forall_app. split; [done|]. repeat constructor. cbn. congruence.
Qed.

(** An end without servers *)
Lemma prepared_end s0 names names' s running s' st :
  prepared s0 names (s, Serving running) → same_options s s' → s'.(hasListeners) = true → listening s' →
  st ≠ PanicServe → (∀ r, st ≠ Serving r) → prepared s0 names' (s', st).
Proof.
  intros [(O1 & O2 & O3) _ _ _ _] (P1 & P2 & P3) Hb Hl Hp Hs.
  split; cbn in *; try done; [unfold same_options; split_and!; congruence|]. intros r E. by destruct (Hs r).
Qed.

Lemma prepared_over s0 names names' st :
  prepared s0 names st → (∀ r, snd st ≠ Serving r) → prepared s0 names' st.
Proof. intros [Ho Hb Hl Hp _] Hs. split; try done. intros r E. by destruct (Hs r). Qed.

Definition added (s : Server) (scheme : string) : list string := if hasScheme s scheme then [scheme] else [].

Lemma startUnix_prepared s0 names st :
  prepared s0 names st → prepared s0 (names ++ added s0 schemeUnix) (startUnix st).
Proof.
  destruct st as [s [running|running err| |]]; cbn [startUnix]; intros Hp;
    try by (eapply prepared_over; [exact Hp|]).
  pose proof Hp as [Ho Hb Hl _ Hr]. cbn in Ho, Hb, Hl. unfold added. rewrite <- (same_schemes s0 s) by done.
  destruct (hasScheme s schemeUnix) eqn:Es; [|by rewrite app_nil_r].
  destruct (Hl Hb) as (Hu & _). destruct (Hu Es) as [l ->]. by eapply prepared_more.
Qed.

Lemma startHTTP_prepared s0 names st :
  prepared s0 names st → prepared s0 (names ++ added s0 schemeHTTP) (startHTTP st).
Proof.
  destruct st as [s [running|running err| |]]; cbn [startHTTP]; intros Hp;
    try by (eapply prepared_over; [exact Hp|]).
  pose proof Hp as [Ho Hb Hl _ Hr]. cbn in Ho, Hb, Hl. unfold added. rewrite <- (same_schemes s0 s) by done.
  destruct (hasScheme s schemeHTTP) eqn:Es; [|by rewrite app_nil_r].
  destruct (Hl Hb) as (Hu & Hh & Hs). destruct (Hh Es) as [l ->].
  eapply prepared_more; done.
Qed.

Lemma startHTTPS_prepared s0 names st :
  prepared s0 names st → prepared s0 (names ++ added s0 schemeHTTPS) (startHTTPS st).
Proof.
  destruct st as [s [running|running err| |]]; cbn [startHTTPS]; intros Hp;
    try by (eapply prepared_over; [exact Hp|]).
  pose proof Hp as [Ho Hb Hl _ Hr]. cbn in Ho, Hb, Hl. unfold added. rewrite <- (same_schemes s0 s) by done.
  destruct (hasScheme s schemeHTTPS) eqn:Es; [|by rewrite app_nil_r].
  destruct (Hl Hb) as (Hu & Hh & Hs). destruct (Hs Es) as [l ->]. cbn [fmap option_fmap option_map].
  set (s' := with_https _ s).
  assert (Hl' : listening s') by (intros _; split_and!; try done; intros _; by eexists).
  destruct (tlsConfig s') as [[cfg|]|err].
  - by eapply prepared_more.
  - by eapply prepared_end.
  - by eapply prepared_end.
Qed.

Lemma started_prepared s : s.(hasListeners) = true → listening s →
  prepared s (started_schemes s) (startHTTPS (startHTTP (startUnix (s, Serving [])))).
Proof.
  intros Hb Hl.
  replace (started_schemes s) with ((([] ++ added s schemeUnix) ++ added s schemeHTTP) ++ added s schemeHTTPS).
  - by apply startHTTPS_prepared, startHTTP_prepared, startUnix_prepared, prepared_start.
  - unfold started_schemes, added. cbn [List.filter].
    by destruct (hasScheme s schemeUnix), (hasScheme s schemeHTTP), (hasScheme s schemeHTTPS).
Qed.

(** Serving: whatever the options, no nil socket is used; the servers that are started
    are those of the schemes that are enabled, in order, and they all serve the
    handler of the API. *)
Theorem Serve_prepared s c s' c' st : listening s → Serve s c = (s', c', st) →
  st ≠ PanicServe ∧ ∀ running, st = Serving running →
    listening s' ∧ s'.(hasListeners) = true ∧ is_Some s'.(handler) ∧
    scheme_of <$> running = started_schemes s ∧ all_serve s'.(handler) running.
Proof.
  intros Hl. unfold Serve.
  assert (E : ∃ s1 c1 err, (if hasListeners s then (s, c, None) else Listen s c) = (s1, c1, err) ∧
    (err = None → listening s1 ∧ s1.(hasListeners) = true ∧ same_options s s1)).
  { destruct (hasListeners s) eqn:Eh; [by exists s, c, None|].
    destruct (Listen s c) as [[s1 c1] err] eqn:El. exists s1, c1, err. split; [done|].
    intros ->. by eapply (Listen_listening s c). }
  destruct E as (s1 & c1 & [err|] & -> & H1); [by intros [= <- <- <-]|].
  destruct (H1 eq_refl) as (Hl1 & Hb1 & Ho1).
  assert (Hgo : ∀ s2, s2.(hasListeners) = true → listening s2 → s2.(EnabledListeners) = s.(EnabledListeners) →
     is_Some s2.(handler) →
     (let '(s, st) := startHTTPS (startHTTP (startUnix (s2, Serving []))) in (s, c1, st)) = (s', c', st) →
     st ≠ PanicServe ∧ ∀ running, st = Serving running →
       listening s' ∧ s'.(hasListeners) = true ∧ is_Some s'.(handler) ∧
       scheme_of <$> running = started_schemes s ∧ all_serve s'.(handler) running).
  { intros s2 Hb2 Hl2 Eo Hh2. pose proof (started_prepared s2 Hb2 Hl2) as Hp.
    destruct (startHTTPS _) as [s3 st3]. intros [= <- <- <-]. destruct Hp as [(_ & _ & Oh) Hb3 Hl3 Hp Hr].
    cbn in *. split; [done|]. intros running Er. rewrite Oh. destruct (Hr _ Er) as [Hn Ha].
    split_and!; try done. rewrite Hn. unfold started_schemes, hasScheme, schemes. by rewrite Eo. }
  destruct (handler s1) as [h|] eqn:Eh.
  - intros E. apply (Hgo s1); [done..|apply Ho1|by rewrite Eh|exact E].
  - destruct (api s1) as [a|]; [|by intros [= <- <- <-]].
    intros E. eapply Hgo; [| | | |exact E]; [done..|apply Ho1|by eexists].
Qed.

(** ** The command of the side-car *)

(** The end of a command, or the servers it waits for, with the server and the
    sockets that were asked for *)
Inductive command :=
| Exits (code : Z)
| Runs (s : Server) (c : calls) (running : list (string * http_Server * listener)).

Section main.
(** The parser of options: the server with its options, or an error, which may be
    that the help was asked for; and the errors of the reading of the document of
    the API and of the declaration of groups of options *)
Context (ParseFlags : list string → (string → option string) → Server → Server + bool).
Context (loads_Embedded AddGroup : option error).

Definition main (args : list string) (getenv : string → option string) : command :=
  match loads_Embedded with
  | Some _ => Exits 1
  | None =>
      let s := NewServer (Some NewGaleraBackupToolAPI) in
      match AddGroup with
      | Some _ => Exits 1
      | None =>
          match ParseFlags args getenv s with
          | inr help => Exits (if help then 0 else 1)
          | inl s =>
              match Serve (ConfigureAPI s) [] with
              | (s, c, Serving running) => Runs s c running
              | (_, _, Refused _ _) | (_, _, FatalServe) => Exits 1
              | (_, _, PanicServe) => Exits 2
              end
          end
      end
  end.
End main.
End http_server.

(** An option as it is written in arguments, when its value is a text or the number of
    a port *)
Definition number_text (n : Z) : option string := if decide (0 < n < 65536) then Some (pretty n) else None.

Definition option_text (o : option_value) : option string :=
  match o with
  | Oscheme v => Some ("--scheme=" +:+ v)
  | Osocket_path v => Some ("--socket-path=" +:+ v)
  | Ohost v => Some ("--host=" +:+ v)
  | Oport n => String.append "--port=" <$> number_text n
  | Otls_host v => Some ("--tls-host=" +:+ v)
  | Otls_port n => String.append "--tls-port=" <$> number_text n
  | Otls_certificate v => Some ("--tls-certificate=" +:+ v)
  | Otls_key v => Some ("--tls-key=" +:+ v)
  | Otls_ca v => Some ("--tls-ca=" +:+ v)
  | _ => None
  end.

(** ** The process *)
Module Process.

(** The goroutine that serves a socket, and the one that [handleShutdown] starts for its
    server: its result is sent on a channel without buffer, where it may be received. *)
Inductive loop := Running | Stopped.

#[global] Instance loop_eq_dec : EqDecision loop.
Proof. solve_decision. Defined.

Inductive shut := NotAsked | InShutdown | Result (success : bool) | Received (success : bool).
Record http_run := mkRun { serving : loop; closing : shut }.

(** [handleInterrupt]: it waits for a signal, or is about to call [Shutdown]. *)
Inductive interrupts := Waiting | Stopping.

(** [handleShutdown]: it waits for the channel to be closed, it receives the results
    that are left, or it is over. *)
Inductive shutdowns := WaitClosed | Collect (left : nat) (success : bool) | Over.

(** The process: a signal in the channel, which holds one; the fields [interrupted] and
    [shuttingDown] of the server; how often the channel [shutdown] was closed; the
    goroutines; how often the two hooks of the API were called; how it exited. *)
Record process := mkProcess {
  pending : bool;
  interrupted : bool;
  shuttingDown : bool;
  closes : nat;
  onInterrupt : interrupts;
  servers : list http_run;
  onShutdown : shutdowns;
  preShutdowns : nat;
  postShutdowns : nat;
  exited : option Z }.

(** [Shutdown]: the channel is closed by the first call only. *)
Definition Shutdown (p : process) : process :=
  if p.(shuttingDown) then p
  else mkProcess p.(pending) p.(interrupted) true (S p.(closes)) p.(onInterrupt) p.(servers) p.(onShutdown)
         p.(preShutdowns) p.(postShutdowns) p.(exited).

Definition with_pending (b : bool) (p : process) : process :=
  mkProcess b p.(interrupted) p.(shuttingDown) p.(closes) p.(onInterrupt) p.(servers) p.(onShutdown)
    p.(preShutdowns) p.(postShutdowns) p.(exited).
Definition with_interrupted (i : interrupts) (p : process) : process :=
  mkProcess p.(pending) true p.(shuttingDown) p.(closes) i p.(servers) p.(onShutdown)
    p.(preShutdowns) p.(postShutdowns) p.(exited).
Definition with_servers (l : list http_run) (p : process) : process :=
  mkProcess p.(pending) p.(interrupted) p.(shuttingDown) p.(closes) p.(onInterrupt) l p.(onShutdown)
    p.(preShutdowns) p.(postShutdowns) p.(exited).
Definition with_onShutdown (o : shutdowns) (pre post : nat) (p : process) : process :=
  mkProcess p.(pending) p.(interrupted) p.(shuttingDown) p.(closes) p.(onInterrupt) p.(servers) o
    pre post p.(exited).
Definition exit (code : Z) (p : process) : process :=
  mkProcess p.(pending) p.(interrupted) p.(shuttingDown) p.(closes) p.(onInterrupt) p.(servers) p.(onShutdown)
    p.(preShutdowns) p.(postShutdowns) (Some code).

(** The goroutines that [handleShutdown] starts, one per server *)
Definition ask (r : http_run) : http_run := mkRun r.(serving) InShutdown.

(** What the goroutines do.  A server that is asked to shut down stops serving, and its
    [Shutdown] returns, at the latest when the grace period ends: nil when its requests
    are over.  [success && <-shutdownChan] receives nothing after a failure.  [main]
    returns when [Serve] does, once the goroutines of the wait group are over; its
    deferred call is another [Shutdown]. *)
Inductive step : process → process → Prop :=
| step_interrupt p : p.(exited) = None → p.(pending) = true → p.(onInterrupt) = Waiting → p.(interrupted) = false →
    step p (with_interrupted Stopping (with_pending false p))
| step_again p : p.(exited) = None → p.(pending) = true → p.(onInterrupt) = Waiting → p.(interrupted) = true →
    step p (with_pending false p)
| step_shutdown p : p.(exited) = None → p.(onInterrupt) = Stopping →
    step p (with_interrupted Waiting (Shutdown p))
| step_closed p : p.(exited) = None → p.(onShutdown) = WaitClosed → (0 < p.(closes))%nat →
    step p (with_servers (ask <$> p.(servers))
              (with_onShutdown (Collect (length p.(servers)) true) (S p.(preShutdowns)) p.(postShutdowns) p))
| step_stop i c p : p.(exited) = None → p.(servers) !! i = Some (mkRun Running c) → c ≠ NotAsked →
    step p (with_servers (<[i := mkRun Stopped c]> p.(servers)) p)
| step_result i l ok p : p.(exited) = None → p.(servers) !! i = Some (mkRun l InShutdown) →
    step p (with_servers (<[i := mkRun l (Result ok)]> p.(servers)) p)
| step_receive i l ok n p : p.(exited) = None → p.(onShutdown) = Collect (S n) true →
    p.(servers) !! i = Some (mkRun l (Result ok)) →
    step p (with_servers (<[i := mkRun l (Received ok)]> p.(servers))
              (with_onShutdown (Collect n ok) p.(preShutdowns) p.(postShutdowns) p))
| step_skip n p : p.(exited) = None → p.(onShutdown) = Collect (S n) false →
    step p (with_onShutdown (Collect n false) p.(preShutdowns) p.(postShutdowns) p)
| step_hook ok p : p.(exited) = None → p.(onShutdown) = Collect 0 ok →
    step p (with_onShutdown Over p.(preShutdowns) (if ok then S p.(postShutdowns) else p.(postShutdowns)) p)
| step_main p : p.(exited) = None → p.(onShutdown) = Over → Forall (λ r, r.(serving) = Stopped) p.(servers) →
    step p (exit 0 (Shutdown p)).

(** What comes from outside: a signal, which is lost if there is one in the channel, and
    a server that fails, which is fatal *)
Inductive outside : process → process → Prop :=
| out_signal p : p.(exited) = None → outside p (with_pending true p)
| out_failure i c p : p.(exited) = None → p.(servers) !! i = Some (mkRun Running c) → outside p (exit 1 p).

Definition any_step (p p' : process) : Prop := step p p' ∨ outside p p'.

(** When [Serve] waits, with [n] servers *)
Definition start (n : nat) : process :=
  mkProcess false false false 0 Waiting (replicate n (mkRun Running NotAsked)) WaitClosed 0 0 None.

Definition reachable (n : nat) (p : process) : Prop := rtc any_step (start n) p.

(** How many steps the goroutines still make *)
Definition shut_measure (c : shut) : nat :=
  match c with NotAsked => 2 | InShutdown => 2 | Result _ => 1 | Received _ => 0 end.
Definition run_measure (r : http_run) : nat :=
  (match r.(serving) with Running => 1 | Stopped => 0 end) + shut_measure r.(closing).
Definition measure (p : process) : nat :=
  ((if p.(pending) then 2 else 0) + (match p.(onInterrupt) with Waiting => 0 | Stopping => 1 end)
   + sum_list_with run_measure p.(servers)
   + (match p.(onShutdown) with WaitClosed => length p.(servers) + 2 | Collect n _ => n + 1 | Over => 0 end)
   + (match p.(exited) with None => 1 | Some _ => 0 end))%nat.

(** ** Invariant *)

(** The results that are not received yet *)
Definition to_receive (r : http_run) : nat :=
  match r.(closing) with Received _ => 0 | _ => 1 end.
Definition received_false (r : http_run) : bool :=
  match r.(closing) with Received false => true | _ => false end.

Record inv (n : nat) (p : process) : Prop := {
  inv_length : length p.(servers) = n;
  inv_closes : p.(closes) = if p.(shuttingDown) then 1%nat else 0%nat;
  inv_interrupted : p.(interrupted) = true ↔ p.(shuttingDown) = true ∨ p.(onInterrupt) = Stopping;
  inv_asked : p.(onShutdown) ≠ WaitClosed → p.(shuttingDown) = true ∧ p.(preShutdowns) = 1%nat ∧
    Forall (λ r, r.(closing) ≠ NotAsked) p.(servers);
  inv_serving : p.(onShutdown) = WaitClosed → p.(preShutdowns) = 0%nat ∧ p.(postShutdowns) = 0%nat ∧
    Forall (λ r, r = mkRun Running NotAsked) p.(servers);
  inv_collect_ok : ∀ k, p.(onShutdown) = Collect k true →
    p.(postShutdowns) = 0%nat ∧ sum_list_with to_receive p.(servers) = k ∧
    Forall (λ r, received_false r = false) p.(servers);
  inv_collect_failed : ∀ k, p.(onShutdown) = Collect k false →
    p.(postShutdowns) = 0%nat ∧ Exists (λ r, received_false r = true) p.(servers);
  inv_over : p.(onShutdown) = Over →
    (p.(postShutdowns) = 1%nat ∧ Forall (λ r, r.(closing) = Received true) p.(servers)) ∨
    (p.(postShutdowns) = 0%nat ∧ Exists (λ r, received_false r = true) p.(servers));
  inv_exited : ∀ code, p.(exited) = Some code → (code = 0 ∨ code = 1) ∧
    (code = 0 → p.(onShutdown) = Over ∧ Forall (λ r, r.(serving) = Stopped) p.(servers)) }.

Lemma sum_insert {A} (f : A → nat) (l : list A) i x y : l !! i = Some y →
  (sum_list_with f (<[i := x]> l) + f y = sum_list_with f l + f x)%nat.
Proof.
  intros E. rewrite <- (take_drop_middle l i y E) at 2.
  rewrite insert_take_drop by (eapply lookup_lt_Some, E).
  rewrite !sum_list_with_app. cbn. lia.
Qed.

Lemma Exists_insert {A} (P : A → Prop) (l : list A) i x y : l !! i = Some y → (P y → P x) →
  Exists P l → Exists P (<[i := x]> l).
Proof.
  intros E Hp. rewrite !Exists_exists. intros (z & Hz & Pz).
  apply list_elem_of_lookup in Hz as [j Ej]. destruct (decide (i = j)) as [->|Hn].
  - exists x. split; [|naive_solver]. apply (list_elem_of_lookup_2 _ j).
    rewrite list_lookup_insert_eq; [done|]. eapply lookup_lt_Some, E.
  - exists z. split; [|done]. apply (list_elem_of_lookup_2 _ j). by rewrite list_lookup_insert_ne.
Qed.

Lemma Forall_at {A} (P : A → Prop) (l : list A) i x : Forall P l → l !! i = Some x → P x.
Proof. intros Hf E. eapply Forall_lookup_1; eauto. Qed.

(** One server changes, not what was received from it. *)
Lemma inv_server n p i y x : inv n p → p.(exited) = None → p.(servers) !! i = Some y → p.(onShutdown) ≠ WaitClosed →
  x.(closing) ≠ NotAsked → to_receive y = to_receive x → received_false y = received_false x →
  (∀ ok, y.(closing) = Received ok → x.(closing) = Received ok) →
  inv n (with_servers (<[i := x]> p.(servers)) p).
Proof.
  intros [] Hex Ei Hw Ha Ht Hf Hr. split; cbn; try done.
  - by rewrite length_insert.
  - intros _. destruct (inv_asked0 Hw) as (? & ? & ?). split_and!; try done. by apply Forall_insert.
  - intros k E. destruct (inv_collect_ok0 k E) as (? & Hs & Hn). split_and!; [done| |].
    + pose proof (sum_insert to_receive _ _ x _ Ei). lia.
    + apply Forall_insert; [done|]. rewrite <- Hf. exact (Forall_at _ _ _ _ Hn Ei).
  - intros k E. destruct (inv_collect_failed0 k E) as (? & He). split; [done|].
    eapply Exists_insert; [done| |done]. by rewrite Hf.
  - intros E. destruct (inv_over0 E) as [(? & Hall)|(? & He)]; [left|right]; (split; [done|]).
    + apply Forall_insert; [done|]. apply Hr. exact (Forall_at _ _ _ _ Hall Ei).
    + eapply Exists_insert; [done| |done]. by rewrite Hf.
  - intros code E. congruence.
Qed.

Lemma server_inv_start n : inv n (start n).
Proof.
  split; cbn; try done.
  - apply length_replicate.
  - split; [done|]. by intros [].
  - intros _. split_and!; try done. by apply Forall_replicate.
Qed.

Lemma sum_ask (l : list http_run) : sum_list_with to_receive (ask <$> l) = length l.
Proof. induction l as [|r l IH]; cbn; [done|by rewrite IH]. Qed.

(** Asking the servers to shut down *)
Lemma server_inv_closed n p : inv n p → p.(exited) = None → p.(onShutdown) = WaitClosed → (0 < p.(closes))%nat →
  inv n (with_servers (ask <$> p.(servers))
    (with_onShutdown (Collect (length p.(servers)) true) (S p.(preShutdowns)) p.(postShutdowns) p)).
Proof.
  intros [] Hex Hw Hc. destruct (inv_serving0 Hw) as (Epre & Epost & Hs).
  assert (Hd : p.(shuttingDown) = true) by (destruct (shuttingDown p); [done|lia]).
  split; cbn; try done.
  - by rewrite length_fmap.
  - intros _. split_and!; [done|lia|]. apply Forall_fmap, Forall_true. by intros [].
  - intros k [= <-]. split_and!; [done|apply sum_ask|]. apply Forall_fmap, Forall_true. by intros [].
  - intros code E. congruence.
Qed.

(** Receiving a result *)
Lemma server_inv_receive n p i l ok k : inv n p → p.(exited) = None → p.(onShutdown) = Collect (S k) true →
  p.(servers) !! i = Some (mkRun l (Result ok)) →
  inv n (with_servers (<[i := mkRun l (Received ok)]> p.(servers))
           (with_onShutdown (Collect k ok) p.(preShutdowns) p.(postShutdowns) p)).
Proof.
  intros [] Hex Ec Ei. destruct (inv_collect_ok0 _ Ec) as (Epost & Hsum & Hf).
  destruct inv_asked0 as (Hd & Hpre & Ha); [by rewrite Ec|].
  split; cbn; try done.
  - by rewrite length_insert.
  - intros _. split_and!; try done. by apply Forall_insert.
  - intros k' [= <- ->]. split_and!; [done| |].
    + pose proof (sum_insert to_receive _ _ (mkRun l (Received true)) _ Ei) as E. cbn in E. lia.
    + by apply Forall_insert.
  - intros k' [= <- ->]. split; [done|]. apply Exists_exists. exists (mkRun l (Received false)). split; [|done].
    apply (list_elem_of_lookup_2 _ i). rewrite list_lookup_insert_eq; [done|]. eapply lookup_lt_Some, Ei.
  - intros code E. congruence.
Qed.

(** The end of [handleShutdown] *)
Lemma server_inv_hook n p ok : inv n p → p.(exited) = None → p.(onShutdown) = Collect 0 ok →
  inv n (with_onShutdown Over p.(preShutdowns) (if ok then S p.(postShutdowns) else p.(postShutdowns)) p).
Proof.
  intros [] Hex Ec. destruct inv_asked0 as (Hd & Hpre & Ha); [by rewrite Ec|].
  split; cbn; try done.
  - intros _. destruct ok; [left|right].
    + destruct (inv_collect_ok0 _ Ec) as (Epost & Hsum & Hf). split; [by rewrite Epost|].
      clear -Hsum Hf. induction Hf as [|[r [| |b|[]]] l Hr _ IH]; cbn in *; try done; try lia.
      apply Forall_cons. split; [done|]. by apply IH.
    + by eapply inv_collect_failed0.
  - intros code E. congruence.
Qed.

Lemma server_inv_step n p p' : inv n p → any_step p p' → inv n p'.
Proof.
  intros Hi [Hs|Hs]; pose proof Hi as [].
  - destruct Hs as [p Hex Ep Ew En|p Hex Ep Ew En|p Hex Ew|p Hex Ew Hc|i c p Hex Ei Hc|i l ok p Hex Ei
      |i l ok k p Hex Ec Ei|k p Hex Ec|ok p Hex Ec|p Hex Eo Hst].
    + split; cbn; try done. split; [by right|done].
    + split; cbn; try done.
    + unfold Shutdown. destruct (shuttingDown p) eqn:Ed; split; cbn; try done.
      all: try (rewrite Ed; done). all: try (by split; [by left|]); try (by rewrite inv_closes0).
      * intros Hn. by destruct (inv_asked0 Hn) as (? & ? & ?).
    + by apply server_inv_closed.
    + apply (inv_server n p i (mkRun Running c)); try done.
      intros E. destruct (inv_serving0 E) as (_ & _ & Hall). pose proof (Forall_at _ _ _ _ Hall Ei). naive_solver.
    + apply (inv_server n p i (mkRun l InShutdown)); try done.
      intros E. destruct (inv_serving0 E) as (_ & _ & Hall). pose proof (Forall_at _ _ _ _ Hall Ei). naive_solver.
    + by apply server_inv_receive.
    + destruct inv_asked0 as (Hd & Hpre & Ha); [by rewrite Ec|]. destruct (inv_collect_failed0 _ Ec) as [Ep Hf].
      split; cbn; try done. intros code E. congruence.
    + by apply server_inv_hook.
    + destruct inv_asked0 as (Hd & Hpre & Ha); [by rewrite Eo|]. unfold Shutdown. rewrite Hd.
      split; cbn; try done. intros code [= <-]. split; [by left|done].
  - destruct Hs as [p Hex|i c p Hex Ei]; split; cbn; try done.
    intros code [= <-]. split; [by right|done].
Qed.

Lemma server_reachable_inv n p : reachable n p → inv n p.
Proof. intros Hr. eapply (rtc_ind_r (inv n)); [apply server_inv_start| |exact Hr]. eauto using server_inv_step. Qed.

(** ** Progress *)

(** Whether the process was asked to stop *)
Definition stopping (p : process) : Prop := p.(pending) = true ∨ p.(interrupted) = true.

Lemma measure_ask (l : list http_run) : Forall (λ r, r = mkRun Running NotAsked) l →
  sum_list_with run_measure (ask <$> l) = sum_list_with run_measure l.
Proof. induction 1 as [|r l -> _ IH]; cbn; [done|by rewrite IH]. Qed.

Lemma step_measure n p p' : inv n p → step p p' → (measure p' < measure p)%nat.
Proof.
  intros Hi Hs. destruct Hs as [p Hex Ep Ew En|p Hex Ep Ew En|p Hex Ew|p Hex Ew Hc|i c p Hex Ei Hc|i l ok p Hex Ei
      |i l ok k p Hex Ec Ei|k p Hex Ec|ok p Hex Ec|p Hex Eo Hst];
    unfold measure; cbn [with_interrupted with_pending with_servers with_onShutdown exit pending interrupted
      shuttingDown closes onInterrupt servers onShutdown exited]; rewrite ?length_insert, ?length_fmap, ?Ep, ?Ew, ?Ec, ?Hex;
    try lia.
  - unfold Shutdown. destruct (shuttingDown p); cbn; rewrite ?Hex; lia.
  - rewrite measure_ask; [lia|]. by apply (inv_serving n p Hi).
  - pose proof (sum_insert run_measure _ _ (mkRun Stopped c) _ Ei) as E. cbn in E. lia.
  - pose proof (sum_insert run_measure _ _ (mkRun l (Result ok)) _ Ei) as E. cbn in E. lia.
  - pose proof (sum_insert run_measure _ _ (mkRun l (Received ok)) _ Ei) as E. cbn in E. lia.
  - unfold Shutdown. destruct (shuttingDown p); cbn; rewrite Eo; lia.
Qed.

(** A server whose result is not received *)
Lemma to_receive_some (l : list http_run) k : sum_list_with to_receive l = S k →
  ∃ i r, l !! i = Some r ∧ to_receive r = 1%nat.
Proof.
  induction l as [|r l IH]; cbn; [done|]. intros E.
  destruct (to_receive r) as [|n] eqn:Er.
  - destruct (IH E) as (i & r' & ? & ?). by exists (S i), r'.
  - exists 0%nat, r. split; [done|]. unfold to_receive in *. by destruct (closing r).
Qed.

(** A goroutine may go on as long as the process that was asked to stop did not. *)
Lemma stopping_step n p : inv n p → stopping p → p.(exited) = None → ∃ p', step p p'.
Proof.
  intros Hi Hst Hex. pose proof Hi as [].
  destruct (onInterrupt p) eqn:Ew; [|eexists; by apply step_shutdown].
  destruct (pending p) eqn:Ep.
  { destruct (interrupted p) eqn:En; eexists; [by apply step_again|by apply step_interrupt]. }
  assert (Hd : p.(shuttingDown) = true).
  { destruct Hst as [?|Hs]; [congruence|]. apply inv_interrupted0 in Hs as [?|?]; [done|congruence]. }
  destruct (onShutdown p) as [|[|k] [|]|] eqn:Eo; try (eexists; (by apply step_hook) || (by eapply step_skip)).
  - eexists. apply step_closed; [done..|]. rewrite inv_closes0, Hd. lia.
  - destruct (inv_collect_ok0 _ eq_refl) as (_ & Hsum & _).
    destruct (to_receive_some _ _ Hsum) as (i & [l c] & Ei & Er).
    destruct inv_asked0 as (_ & _ & Ha); [done|]. pose proof (Forall_at _ _ _ _ Ha Ei) as Hc. cbn in Hc.
    destruct c as [| |ok|]; [done| | |done].
    + eexists. by apply (step_result i l true).
    + eexists. by eapply step_receive.
  - destruct (decide (Forall (λ r, r.(serving) = Stopped) p.(servers))) as [Ha|Ha].
    + eexists. by apply step_main.
    + apply not_Forall_Exists in Ha; [|apply _]. apply Exists_exists in Ha as ([[] c] & Hr & Hn); [|by destruct Hn].
      apply list_elem_of_lookup in Hr as [i Ei]. destruct inv_asked0 as (_ & _ & Hall); [done|].
      eexists. eapply step_stop; [done|exact Ei|]. exact (Forall_at _ _ _ _ Hall Ei).
Qed.

(** A step keeps what was asked, and only ends the process with code 0. *)
Lemma step_stopping p p' : step p p' → stopping p → stopping p' ∧ (p'.(exited) = None ∨ p'.(exited) = Some 0).
Proof.
  unfold stopping. intros Hs Hst.
  destruct Hs; cbn; unfold Shutdown; try destruct (shuttingDown p); cbn; auto.
Qed.

Lemma steps_bounded n p : inv n p → stopping p → ∀ k p', nsteps step k p p' →
  p.(exited) = None ∨ p.(exited) = Some 0 →
  (k + measure p' ≤ measure p)%nat ∧ ((∀ p'', ¬ step p' p'') → p'.(exited) = Some 0).
Proof.
  intros Hi Hst k p' Hk. revert Hi Hst. induction Hk as [p|k p p1 p' Hs _ IH]; intros Hi Hst Hex.
  - split; [lia|]. intros Hn. destruct Hex as [Hex|?]; [|done].
    destruct (stopping_step n p Hi Hst Hex) as [p1 H1]. by destruct (Hn p1).
  - destruct (step_stopping p p1 Hs Hst) as [Hst1 Hex1].
    destruct (IH (server_inv_step n p p1 Hi (or_introl Hs)) Hst1 Hex1) as [Hm Hn].
    split; [|done]. pose proof (step_measure n p p1 Hi Hs). lia.
Qed.

(** C25: the side-car serves until it is told to stop, and then it stops.  Without signal
    or failure of a socket, its servers go on; once there is a signal, whatever the
    interleaving, its goroutines make a bounded number of steps, and the process has
    then exited with code 0: nothing waits for ever.  The servers are asked to shut
    down once, the channel is closed once, each hook is called at most once, and the
    second one only when every server has finished its requests; with one server, as
    by default, the process does not exit before its [Shutdown] has returned. *)
Theorem server_stops n p : reachable n p →
  (p.(closes) <= 1)%nat ∧ (p.(preShutdowns) <= 1)%nat ∧ (p.(postShutdowns) <= 1)%nat ∧
  (p.(postShutdowns) = 1%nat → Forall (λ r, r.(closing) = Received true) p.(servers)) ∧
  (p.(pending) = false → p.(interrupted) = false →
     p.(exited) ≠ Some 0 ∧ Forall (λ r, r = mkRun Running NotAsked) p.(servers)) ∧
  (stopping p → p.(exited) = None → ∀ k p', nsteps step k p p' →
     (k ≤ measure p)%nat ∧ ((∀ p'', ¬ step p' p'') → p'.(exited) = Some 0)) ∧
  (p.(exited) = Some 0 → p.(interrupted) = true ∧ Forall (λ r, r.(serving) = Stopped) p.(servers) ∧
     (n = 1%nat → ∃ ok, p.(servers) = [mkRun Stopped (Received ok)])).
Proof.
  intros Hr. pose proof (server_reachable_inv n p Hr) as Hi. pose proof Hi as [].
  assert (Hover : p.(onShutdown) = Over → n = 1%nat → ∃ l ok, p.(servers) = [mkRun l (Received ok)]).
  { intros Eo ->. destruct p.(servers) as [|[l c] [|? ?]] eqn:Es; try done. exists l.
    destruct (inv_over0 Eo) as [[_ Ha]|[_ He]].
    - apply Forall_cons in Ha as [Ec _]. cbn in Ec. subst c. by exists true.
    - apply Exists_cons in He as [Ec|He]; [|by inversion He]. destruct c as [| | |[]]; try done. by exists false. }
  assert (Hwait : p.(interrupted) = false → p.(onShutdown) = WaitClosed).
  { intros En. destruct (onShutdown p) eqn:Eo; [done|exfalso..].
    all: destruct inv_asked0 as (Hd & _); [done|]; assert (p.(interrupted) = true) by (apply inv_interrupted0; by left);
      congruence. }
  split_and!.
  - rewrite inv_closes0. destruct (shuttingDown p); lia.
  - destruct (onShutdown p) eqn:Eo; [destruct inv_serving0 as (-> & _); [done|lia]|..];
      destruct inv_asked0 as (_ & -> & _); done.
  - destruct (onShutdown p) as [|k []|] eqn:Eo.
    + destruct inv_serving0 as (_ & -> & _); [done|lia].
    + destruct (inv_collect_ok0 k) as (-> & _); [done|lia].
    + destruct (inv_collect_failed0 k) as (-> & _); [done|lia].
    + destruct inv_over0 as [[-> _]|[-> _]]; [done|lia..].
  - intros E1. destruct (onShutdown p) as [|k []|] eqn:Eo.
    + destruct inv_serving0 as (_ & ? & _); [done|congruence].
    + destruct (inv_collect_ok0 k) as (? & _); [done|congruence].
    + destruct (inv_collect_failed0 k) as (? & _); [done|congruence].
    + destruct inv_over0 as [[_ ?]|[? _]]; [done|done|congruence].
  - intros Ep En. specialize (Hwait En). split; [|by apply inv_serving0].
    intros Ex. destruct (inv_exited0 0 Ex) as (_ & Hx). destruct (Hx eq_refl). congruence.
  - intros Hst Hex k p' Hk.
    destruct (steps_bounded n p Hi Hst k p' Hk (or_introl Hex)) as [Hm Hn]. split; [lia|done].
  - intros Ex. destruct (inv_exited0 0 Ex) as (_ & Hx). destruct (Hx eq_refl) as [Eo Hall].
    split_and!; [|done|].
    + destruct inv_asked0 as (Hd & _); [by rewrite Eo|]. apply inv_interrupted0. by left.
    + intros En. destruct (Hover Eo En) as (l & ok & Es). exists ok. rewrite Es in *.
      apply Forall_cons in Hall as [El _]. cbn in El. by subst l.
Qed.

(** ** Two servers *)

(** The process after a signal, until the servers were asked *)
Definition asked (n : nat) : process :=
  mkProcess false true true 1 Waiting (ask <$> replicate n (mkRun Running NotAsked)) (Collect n true) 1 0 None.

Lemma reachable_asked n : reachable n (asked n).
Proof.
  unfold reachable.
  eapply rtc_l; [right; by apply out_signal|]. eapply rtc_l; [left; by apply step_interrupt|].
  eapply rtc_l; [left; by apply step_shutdown|]. eapply rtc_l; [left; apply step_closed; cbn; (done || lia)|].
  cbn. rewrite length_replicate. apply rtc_refl.
Qed.

(** When the first result is a failure, the others are not waited for: the process
    may exit, with code 0, while the other server still finishes its requests. *)
Lemma shutdown_abandoned : ∃ p, reachable 2 p ∧ p.(exited) = Some 0 ∧
  p.(servers) = [mkRun Stopped (Received false); mkRun Stopped InShutdown].
Proof.
  eexists. split; [|split].
  - unfold reachable. etrans; [apply reachable_asked|].
    eapply rtc_l; [left; by apply (step_result 0 Running false)|].
    eapply rtc_l; [left; by eapply (step_receive 0)|].
    eapply rtc_l; [left; by eapply (step_stop 0)|].
    eapply rtc_l; [left; by eapply (step_stop 1)|].
    eapply rtc_l; [left; by eapply step_skip|].
    eapply rtc_l; [left; by eapply step_hook|].
    apply rtc_once. left. apply step_main; [done..|]. by repeat constructor.
  - done.
  - done.
Qed.

Lemma server_stops_witness : reachable 1 (asked 1) ∧ ((asked 1).(closes) <= 1)%nat.
Proof.
  split; [apply reachable_asked|]. exact (proj1 (server_stops 1 (asked 1) (reachable_asked 1))).
Defined.
End Process.

(** ** The side-car that the operator starts *)

(** What Kubernetes makes of an argument of a container, from its variables and the
    address of its pod *)
Class Kubelet := container_arg : list EnvVar → string → string → string.

Class KubeletLaws `{Kubelet} := {
  container_arg_text env ip arg : str_forall (not_char "$") arg = true → container_arg env ip arg = arg;
  container_arg_variable env ip arg name : str_forall (not_char "$") arg = true →
    mkEnvVar name "" (Some "status.podIP") ∈ env →
    container_arg env ip (arg +:+ "$(" +:+ name +:+ ")") = arg +:+ ip }.

(** The address of a socket is the one that was asked for, when it is a port of an
    address; it is read back. *)
Definition ipv4 (ip : string) : bool :=
  str_forall (λ c, is_digit c || bool_decide (c = "."%char)) ip && bool_decide (ip ≠ "").

Class NetLaws `{Net} := {
  net_Listen_address c host port bound : ipv4 host = true → 0 < port < 65536 →
    net_Listen c "tcp" (host +:+ ":" +:+ pretty port) = inl bound → bound = host +:+ ":" +:+ pretty port;
  SplitHostPort_join host port : ipv4 host = true → 0 < port < 65536 →
    SplitHostPort (host +:+ ":" +:+ pretty port) = inl (host, port) }.

(** The parser of options sets the options that the arguments give, after those of
    the tags, when the environment gives none. *)
Definition ParsesFlags `{OpenAPI} (header : Z)
    (ParseFlags : list string → (string → option string) → Server → Server + bool) : Prop :=
  ∀ l args getenv s, Forall2 (λ o arg, option_text o = Some arg) l args →
    Forall (λ v, getenv v = None) tag_env →
    ParseFlags args getenv s = inl (set_options (tag_defaults header ++ l) s).

Lemma ipv4_no_colon ip : ipv4 ip = true → str_forall (not_char ":") ip = true.
Proof.
  unfold ipv4. intros [Hip _]%andb_true_iff. revert Hip. induction ip as [|c ip IH]; cbn; [done|].
  intros [Hc Hip]%andb_true_iff. rewrite IH, andb_true_r by done. unfold not_char.
  apply negb_true_iff, bool_decide_eq_false. intros ->. by vm_compute in Hc.
Qed.

Section sidecar.
Context `{openapi : OpenAPI} `{net : Net} `{net_laws : !NetLaws} `{tls : Tls} `{kubelet : Kubelet}
  `{kubelet_laws : !KubeletLaws}.
Context (NewProvider : SideCar.S3StorageProvider → option error).
Context (header : Z) (ParseFlags : list string → (string → option string) → Server → Server + bool).
Context (parses : ParsesFlags header ParseFlags).

(** The arguments that the side-car of a pod gets *)
Definition sidecar_args (image role ip : string) : list string :=
  let c := backupContainer image role in container_arg c.(c_Env) ip <$> c.(c_Args).

Lemma sidecar_args_options image role ip :
  Forall2 (λ o arg, option_text o = Some arg) [Oport BackupAPIPort; Ohost ip] (sidecar_args image role ip).
Proof using kubelet_laws.
  unfold sidecar_args, backupContainer. cbn [c_Env c_Args fmap list_fmap].
  rewrite container_arg_text by done.
  change "--host=$(POD_IP)" with ("--host=" +:+ "$(" +:+ "POD_IP" +:+ ")").
  rewrite container_arg_variable; [by repeat constructor|done|].
  apply list_elem_of_singleton. reflexivity.
Qed.

(** The server with the options of the operator *)
Definition sidecar_options (ip : string) : Server :=
  set_options (tag_defaults header ++ [Oport BackupAPIPort; Ohost ip]) (NewServer (Some NewGaleraBackupToolAPI)).

Lemma sidecar_parsed image role ip getenv : Forall (λ v, getenv v = None) tag_env →
  ParseFlags (sidecar_args image role ip) getenv (NewServer (Some NewGaleraBackupToolAPI)) = inl (sidecar_options ip).
Proof using kubelet_laws parses. intros Henv. apply parses; [apply sidecar_args_options|done]. Qed.

Lemma sidecar_configured ip (s : Server) : s = ConfigureAPI NewProvider (sidecar_options ip) →
  s.(EnabledListeners) = [] ∧ s.(hasListeners) = false ∧ s.(handler) = Some (sidecarAPI NewProvider) ∧
  s.(http) = mkEndpoint ip 8080 0 (3 * Minute) (30 * Second) (60 * Second) None.
Proof. intros ->. by split_and!. Qed.

Lemma sidecar_socket ip : ipv4 ip = true →
  JoinHostPort ip (pretty 8080) = ip +:+ ":8080" ∧ SplitHostPort (ip +:+ ":8080") = inl (ip, 8080) ∧
  ∀ bound, net_Listen [] "tcp" (ip +:+ ":8080") = inl bound → bound = ip +:+ ":8080".
Proof using net_laws.
  intros Hip. split_and!.
  - unfold JoinHostPort. by rewrite ipv4_no_colon.
  - exact (SplitHostPort_join ip 8080 Hip ltac:(lia)).
  - intros bound. exact (net_Listen_address [] ip 8080 bound Hip ltac:(lia)).
Qed.

(** C24: the side-car that the operator puts in a pod is where the operator looks for it:
    on an IPv4 address, with the arguments of the container that the operator builds,
    the command of the side-car exits with code 1 or serves, on one socket of HTTP at
    the address of the pod and the port 8080, the API of [Server]; the URLs that the
    operator posts to and polls, and the probe of the container, are those of this
    socket. *)
Theorem sidecar_listens image role ip (getenv : string → option string) (p : S3Provider.Provider) :
  ipv4 ip = true → Forall (λ v, getenv v = None) tag_env →
  p.(S3Provider.backupPod).(pod_Status).(pst_PodIP) = ip →
  match main NewProvider ParseFlags None None (sidecar_args image role ip) getenv with
  | Exits code => code = 1 ∧ ∃ err, net_Listen [] "tcp" (ip +:+ ":8080") = inr err
  | Runs s c running => ∃ srv l, running = [(schemeHTTP, srv, l)] ∧ c = [("tcp", l.(l_Addr))] ∧
      srv.(Handler) = Some (sidecarAPI NewProvider) ∧ srv.(h_WriteTimeout) = 60 * Second ∧ l.(l_limit) = None ∧
      (∀ path, S3Provider.url p path = "http://" +:+ l.(l_Addr) +:+ path) ∧
      ∃ port, (backupContainer image role).(c_LivenessProbe) = Some (ProbeHTTPGet "/probe" port 5) ∧
        l.(l_Addr) = ip +:+ ":" +:+ pretty port
  end.
Proof using net_laws kubelet_laws parses.
  intros Hip Henv Ep. destruct (sidecar_socket ip Hip) as (Ej & Es & Hbound). unfold main.
  rewrite sidecar_parsed by done. destruct (sidecar_configured ip _ eq_refl) as (E1 & E2 & E3 & E4).
  revert E1 E2 E3 E4. generalize (ConfigureAPI NewProvider (sidecar_options ip)) as s. intros s E1 E2 E3 E4.
  rewrite (Serve_default s [] _ E1 E2 E3), E4.
  unfold listenTCP. cbn [Host Port]. rewrite Ej.
  destruct (net_Listen [] "tcp" (ip +:+ ":8080")) as [bound|err] eqn:El.
  2: { split; [done|]. by exists err. }
  rewrite (Hbound bound eq_refl), Es. cbn [bind_endpoint ServerL].
  exists (tcpServer (with_hasListeners true (with_http (bind_endpoint ip 8080 (mkListener (ip +:+ ":8080") None false)
    (mkEndpoint ip 8080 0 (3 * Minute) (30 * Second) (60 * Second) None)) s))
    (bind_endpoint ip 8080 (mkListener (ip +:+ ":8080") None false)
      (mkEndpoint ip 8080 0 (3 * Minute) (30 * Second) (60 * Second) None)) None).
  exists (mkListener (ip +:+ ":8080") None false). split_and!; try done.
  - intros path. unfold S3Provider.url. rewrite Ep. cbn [l_Addr]. by rewrite str_app_assoc.
  - by exists 8080.
Qed.
End sidecar.

(** On an IPv6 address, the socket is not where the operator looks for the side-car:
    its URLs have no brackets around the address. *)
Lemma ipv6_missed (p : S3Provider.Provider) path :
  str_forall (not_char ":") p.(S3Provider.backupPod).(pod_Status).(pst_PodIP) = false →
  S3Provider.url p path ≠
    "http://" +:+ JoinHostPort p.(S3Provider.backupPod).(pod_Status).(pst_PodIP) "8080" +:+ path.
Proof.
  intros Hip. unfold S3Provider.url, JoinHostPort. rewrite Hip. cbn.
  intros [= E]. apply (f_equal String.length) in E. rewrite !str_length_app in E. cbn in E.
  rewrite ?str_length_app in E. cbn in E. lia.
Qed.

(** ** Examples *)

Fixpoint before_colon (s : string) : string :=
  match s with
  | "" => ""
  | String c s' => if decide (c = ":"%char) then "" else String c (before_colon s')
  end.

Fixpoint after_colon (s : string) : string :=
  match s with
  | "" => ""
  | String c s' => if decide (c = ":"%char) then s' else after_colon s'
  end.

(** The port of a text *)
Definition read_port (text : string) : option Z := List.find (λ n, bool_decide (pretty n = text)) (seqZ 1 65535).

Lemma read_port_pretty port : 0 < port < 65536 → read_port (pretty port) = Some port.
Proof.
  intros Hp. unfold read_port. destruct (List.find _ _) as [n|] eqn:E.
  - apply find_some in E as [_ E%bool_decide_eq_true]. f_equal. by apply (inj pretty).
  - assert (Hin : In port (seqZ 1 65535)) by (apply list_elem_of_In, elem_of_seqZ; lia).
    pose proof (find_none _ _ E port Hin) as En. cbn in En. by rewrite bool_decide_eq_true_2 in En.
Qed.

Lemma colon_split host s : str_forall (not_char ":") host = true →
  before_colon (host +:+ ":" +:+ s) = host ∧ after_colon (host +:+ ":" +:+ s) = s.
Proof.
  induction host as [|c host IH]; cbn; [by split|]. unfold not_char at 1.
  intros [Hc%negb_true_iff%bool_decide_eq_false Hh]%andb_true_iff. rewrite !decide_False by done.
  destruct (IH Hh) as [E1 E2]. cbn in E1, E2. by rewrite E1, E2.
Qed.

#[export] Instance example_net : Net := {|
  net_Listen c network addr := if decide ((network, addr) ∈ c) then inr (errorf "address already in use") else inl addr;
  SplitHostPort addr := match read_port (after_colon addr) with
    | Some n => inl (before_colon addr, n)
    | None => inr (errorf "invalid port")
    end |}.

#[export] Instance example_net_laws : NetLaws.
Proof.
  split.
  - intros c host port bound _ _. cbn. case_decide; [done|]. by intros [= <-].
  - intros host port Hh Hp. unfold SplitHostPort, example_net.
    destruct (colon_split host (pretty port) (ipv4_no_colon host Hh)) as [-> ->]. by rewrite read_port_pretty.
Qed.

#[export] Instance example_tls : Tls := {|
  Certificate := unit;
  CertPool := unit;
  LoadX509KeyPair cert key := inl tt;
  ReadFile name := inr (errorf "no such file or directory");
  AppendCertsFromPEM text := None |}.

(** An argument with a variable at its end *)
Fixpoint expand (env : list EnvVar) (ip arg : string) : string :=
  match arg with
  | "" => ""
  | String c rest =>
      if decide (Exists (λ v, arg = "$(" +:+ v.(env_Name) +:+ ")" ∧ v.(env_ValueFrom) = Some "status.podIP") env)
      then ip else String c (expand env ip rest)
  end.

#[export] Instance example_kubelet : Kubelet := expand.

#[export] Instance example_kubelet_laws : KubeletLaws.
Proof.
  assert (Hno : ∀ (env : list EnvVar) c s, c ≠ "$"%char →
    ¬ Exists (λ v, String c s = "$(" +:+ v.(env_Name) +:+ ")" ∧ v.(env_ValueFrom) = Some "status.podIP") env).
  { intros env c s Hc. rewrite Exists_exists. intros (v & _ & E & _). cbn in E. congruence. }
  split; unfold container_arg, example_kubelet.
  - intros env ip arg. induction arg as [|c arg IH]; cbn [expand str_forall]; [done|]. unfold not_char at 1.
    intros [Hc%negb_true_iff%bool_decide_eq_false Ha]%andb_true_iff. rewrite decide_False by auto. by rewrite IH.
  - intros env ip arg name Ha Hin. induction arg as [|c arg IH].
    + cbn. rewrite decide_True; [done|]. apply Exists_exists. by exists (mkEnvVar name "" (Some "status.podIP")).
    + cbn [str_forall] in Ha. unfold not_char at 1 in Ha.
      apply andb_true_iff in Ha as [Hc%negb_true_iff%bool_decide_eq_false Ha].
      change (String c arg +:+ ?x) with (String c (arg +:+ x)). cbn [expand].
      rewrite decide_False by auto. by rewrite IH.
Qed.

(** A parser that reads the arguments of [option_text] *)
Definition option_table : list (string * (string → option option_value)) :=
  [("--scheme=", λ v, Some (Oscheme v)); ("--socket-path=", λ v, Some (Osocket_path v));
   ("--host=", λ v, Some (Ohost v)); ("--port=", λ v, Oport <$> read_port v);
   ("--tls-host=", λ v, Some (Otls_host v)); ("--tls-port=", λ v, Otls_port <$> read_port v);
   ("--tls-certificate=", λ v, Some (Otls_certificate v)); ("--tls-key=", λ v, Some (Otls_key v));
   ("--tls-ca=", λ v, Some (Otls_ca v))].

Fixpoint read_in (table : list (string * (string → option option_value))) (arg : string) : option option_value :=
  match table with
  | [] => None
  | (p, f) :: table' => if HasPrefix arg p then f (TrimPrefix arg p) else read_in table' arg
  end.

Definition read_option : string → option option_value := read_in option_table.

Definition example_flags (args : list string) (getenv : string → option string) (s : Server) : Server + bool :=
  match mapM read_option args with
  | Some l => inl (set_options (tag_defaults 1000000 ++ l) s)
  | None => inr false
  end.

Lemma read_in_here p f table v : read_in ((p, f) :: table) (p +:+ v) = f v.
Proof. cbn [read_in]. by rewrite HasPrefix_app, TrimPrefix_app. Qed.

Lemma read_in_skip p f table arg : HasPrefix arg p = false → read_in ((p, f) :: table) arg = read_in table arg.
Proof. cbn [read_in]. by intros ->. Qed.

Lemma read_option_text o arg : option_text o = Some arg → read_option arg = Some o.
Proof.
  assert (Ht : ∀ n text, number_text n = Some text → read_port text = Some n).
  { unfold number_text. intros n text. case_decide; [|done]. intros [= <-]. by apply read_port_pretty. }
  unfold read_option, option_table.
  destruct o; cbn [option_text]; intros E; try discriminate E;
    try (apply fmap_Some in E as (text & Etext%Ht & ->)); try (apply (inj Some) in E as <-);
    repeat (rewrite read_in_skip by reflexivity); rewrite read_in_here; by rewrite ?Etext.
Qed.

Lemma example_parses : ParsesFlags 1000000 example_flags.
Proof.
  intros l args getenv s Hargs _. unfold example_flags.
  assert (E : mapM read_option args = Some l).
  { apply mapM_Some. induction Hargs; constructor; auto using read_option_text. }
  by rewrite E.
Qed.

Definition example_ip : string := example_provider.(S3Provider.backupPod).(pod_Status).(pst_PodIP).

Lemma sidecar_listens_witness : ∃ s c running,
  main no_session_error example_flags None None (sidecar_args "galera-backup" Types.Backup example_ip) (λ _, None)
    = Runs s c running.
Proof.
  pose proof (sidecar_listens no_session_error 1000000 example_flags example_parses "galera-backup" Types.Backup example_ip
    (λ _, None) example_provider ltac:(vm_compute; reflexivity) ltac:(repeat constructor) eq_refl) as Hm.
  destruct (main _ _ _ _ _ _) as [code|s c running].
  - exfalso. destruct Hm as (_ & err & E). discriminate E.
  - by exists s, c, running.
Defined.
