(* ===== verification/Clients.v ===== *)
(** * The clients, informers and listers of the custom resources

    Models the generated code of [src/pkg/client]: the requests of the typed clients
    ([clientset/versioned/typed]), the factory of informers
    ([informers/externalversions]) and the listers ([listers]), for the four
    resources of the operator, and their registration
    ([pkg/apis/apigalera/v1beta2/register.go]).  The code is the same text for each
    resource: here it is a definition on the description of the resource.

    The REST client, the informers and the indexers of client-go are a parameter;
    locks are left out: a method of the factory is one step. *)
From S2P Require Import Prelude.

(** ** Registration *)

Definition GroupName : string := "sql.databases".
Definition GroupVersion : string := GroupName +:+ "/v1beta2".

(** The types that [addKnownTypes] registers, in its order *)
Definition addKnownTypes : list string :=
  ["Galera"; "GaleraList"; "GaleraBackup"; "GaleraBackupList"; "UpgradeConfig"; "UpgradeRuleList";
   "UpgradeRule"; "UpgradeRuleList"].

(** ** Resources *)

Inductive kind := Galera | GaleraBackup | UpgradeConfig | UpgradeRule.

#[global] Instance kind_eq_dec : EqDecision kind.
Proof. solve_decision. Defined.

Definition kinds : list kind := [Galera; GaleraBackup; UpgradeConfig; UpgradeRule].

(** The name of a resource in requests *)
Definition plural (k : kind) : string :=
  match k with
  | Galera => "galeras"
  | GaleraBackup => "galerabackups"
  | UpgradeConfig => "upgradeconfigs"
  | UpgradeRule => "upgraderules"
  end.

(** Its name in the errors of a lister *)
Definition singular (k : kind) : string :=
  match k with
  | Galera => "galera"
  | GaleraBackup => "galerabackup"
  | UpgradeConfig => "upgradeconfig"
  | UpgradeRule => "upgraderule"
  end.

(** ** Requests *)

(** A 64-bit integer *)
Definition i64 (z : Z) : Z := (z + 9223372036854775808) mod 18446744073709551616 - 9223372036854775808.

(** [time.Second], in nanoseconds *)
Definition Second : Z := 1000000000.

Record ListOptions := mkListOptions {
  LabelSelector : string;
  FieldSelector : string;
  ResourceVersion : string;
  TimeoutSeconds : option Z;
  Watching : bool }.

Inductive verb := Get_ | Post | Put | Delete_ | Patch_ (patchType : string).

(** The body of a request: an object, which has a name, options, or a patch *)
Inductive payload (A : Type) := Object (a : A) | DeleteOptions (options : string) | PatchData (data : string)
| Scale (scale : string).
Arguments Object {A} a.
Arguments DeleteOptions {A} options.
Arguments PatchData {A} data.
Arguments Scale {A} scale.

Record rest_request (A : Type) := mkRestRequest {
  rq_verb : verb;
  rq_ns : string;
  rq_resource : string;
  rq_name : option string;
  rq_subresource : list string;
  rq_params : option (string + ListOptions);
  rq_timeout : Z;
  rq_body : option (payload A) }.
Arguments mkRestRequest {A} _ _ _ _ _ _ _ _.
Arguments rq_verb {A} _.
Arguments rq_ns {A} _.
Arguments rq_resource {A} _.
Arguments rq_name {A} _.
Arguments rq_subresource {A} _.
Arguments rq_params {A} _.
Arguments rq_timeout {A} _.
Arguments rq_body {A} _.

(** A timeout of some seconds; the product of 64-bit integers wraps around. *)
Definition timeoutOf (opts : ListOptions) : Z :=
  match opts.(TimeoutSeconds) with None => 0 | Some s => i64 (s * Second) end.

(** ** Typed clients *)
Module Typed.
Section typed.
Context {A : Type} (nameOf : A → string).

(** The client of a resource in a namespace *)
Record client := mkClient { ns : string; resource : kind }.

Definition Get (c : client) (name options : string) : rest_request A :=
  mkRestRequest Get_ c.(ns) (plural c.(resource)) (Some name) [] (Some (inl options)) 0 None.

Definition List (c : client) (opts : ListOptions) : rest_request A :=
  mkRestRequest Get_ c.(ns) (plural c.(resource)) None [] (Some (inr opts)) (timeoutOf opts) None.

Definition Watch (c : client) (opts : ListOptions) : rest_request A :=
  mkRestRequest Get_ c.(ns) (plural c.(resource)) None []
    (Some (inr (mkListOptions opts.(LabelSelector) opts.(FieldSelector) opts.(ResourceVersion)
                  opts.(TimeoutSeconds) true)))
    (timeoutOf opts) None.

Definition Create (c : client) (a : A) : rest_request A :=
  mkRestRequest Post c.(ns) (plural c.(resource)) None [] None 0 (Some (Object a)).

Definition Update (c : client) (a : A) : rest_request A :=
  mkRestRequest Put c.(ns) (plural c.(resource)) (Some (nameOf a)) [] None 0 (Some (Object a)).

Definition Delete (c : client) (name options : string) : rest_request A :=
  mkRestRequest Delete_ c.(ns) (plural c.(resource)) (Some name) [] None 0 (Some (DeleteOptions options)).

Definition DeleteCollection (c : client) (options : string) (listOptions : ListOptions) : rest_request A :=
  mkRestRequest Delete_ c.(ns) (plural c.(resource)) None [] (Some (inr listOptions)) (timeoutOf listOptions)
    (Some (DeleteOptions options)).

Definition Patch (c : client) (name patchType data : string) (subresources : list string) : rest_request A :=
  mkRestRequest (Patch_ patchType) c.(ns) (plural c.(resource)) (Some name) subresources None 0
    (Some (PatchData data)).

(** The methods that only some resources have *)
Definition UpdateStatus (c : client) (a : A) : option (rest_request A) :=
  match c.(resource) with
  | Galera | GaleraBackup =>
      Some (mkRestRequest Put c.(ns) (plural c.(resource)) (Some (nameOf a)) ["status"] None 0 (Some (Object a)))
  | _ => None
  end.

Definition GetScale (c : client) (name options : string) : option (rest_request A) :=
  match c.(resource) with
  | Galera => Some (mkRestRequest Get_ c.(ns) (plural c.(resource)) (Some name) ["scale"] (Some (inl options)) 0 None)
  | _ => None
  end.

Definition UpdateScale (c : client) (name scale : string) : option (rest_request A) :=
  match c.(resource) with
  | Galera => Some (mkRestRequest Put c.(ns) (plural c.(resource)) (Some name) ["scale"] None 0 (Some (Scale scale)))
  | _ => None
  end.
(** The interface of a client, with the methods that only some resources have *)
Record Interface := mkInterface {
  i_Create : A → rest_request A;
  i_Update : A → rest_request A;
  i_UpdateStatus : A → option (rest_request A);
  i_Delete : string → string → rest_request A;
  i_DeleteCollection : string → ListOptions → rest_request A;
  i_Get : string → string → rest_request A;
  i_List : ListOptions → rest_request A;
  i_Watch : ListOptions → rest_request A;
  i_Patch : string → string → string → list string → rest_request A;
  i_GetScale : string → string → option (rest_request A);
  i_UpdateScale : string → string → option (rest_request A) }.

Definition methods (c : client) : Interface :=
  mkInterface (Create c) (Update c) (UpdateStatus c) (Delete c) (DeleteCollection c) (Get c) (List c) (Watch c)
    (Patch c) (GetScale c) (UpdateScale c).

(** The clients of each resource *)
Definition newGaleras (namespace : string) : Interface := methods (mkClient namespace Galera).
Definition newGaleraBackups (namespace : string) : Interface := methods (mkClient namespace GaleraBackup).
Definition newUpgradeConfigs (namespace : string) : Interface := methods (mkClient namespace UpgradeConfig).
Definition newUpgradeRules (namespace : string) : Interface := methods (mkClient namespace UpgradeRule).
End typed.

(** The methods of [SqlV1beta2Client] *)
Definition Galeras (namespace : string) : client := mkClient namespace Galera.
Definition GaleraBackups (namespace : string) : client := mkClient namespace GaleraBackup.
Definition UpgradeConfigs (namespace : string) : client := mkClient namespace UpgradeConfig.
Definition UpgradeRules (namespace : string) : client := mkClient namespace UpgradeRule.
End Typed.

(** ** Informers *)

#[global] Instance kind_countable : Countable kind.
Proof.
  apply (inj_countable' (λ k, match k with Galera => 0 | GaleraBackup => 1 | UpgradeConfig => 2 | UpgradeRule => 3 end)%nat
    (λ n, match n with 0 => Galera | 1 => GaleraBackup | 2 => UpgradeConfig | _ => UpgradeRule end)%nat).
  by intros [].
Defined.

Module Informers.

Definition TweakListOptionsFunc : Type := ListOptions → ListOptions.

(** A shared informer: how it lists and watches, for which type, how often it
    lists again, by what it indexes *)
Record informer := mkInformer {
  inf_kind : kind;
  inf_namespace : string;
  inf_tweak : option TweakListOptionsFunc;
  inf_resync : Z;
  inf_indexers : list string }.

Definition tweaked (tweak : option TweakListOptionsFunc) (options : ListOptions) : ListOptions :=
  match tweak with Some f => f options | None => options end.

(** The functions of its [ListWatch] *)
Definition ListFunc {A} (i : informer) (options : ListOptions) : rest_request A :=
  Typed.List (Typed.mkClient i.(inf_namespace) i.(inf_kind)) (tweaked i.(inf_tweak) options).
Definition WatchFunc {A} (i : informer) (options : ListOptions) : rest_request A :=
  Typed.Watch (Typed.mkClient i.(inf_namespace) i.(inf_kind)) (tweaked i.(inf_tweak) options).

Definition NamespaceIndex : string := "namespace".

(** [NewFilteredGaleraInformer] and those of the other resources *)
Definition NewFilteredInformer (k : kind) (namespace : string) (resyncPeriod : Z) (indexers : list string)
    (tweak : option TweakListOptionsFunc) : informer :=
  mkInformer k namespace tweak resyncPeriod indexers.

Definition NewFilteredGaleraInformer := NewFilteredInformer Galera.
Definition NewFilteredGaleraBackupInformer := NewFilteredInformer GaleraBackup.
Definition NewFilteredUpgradeConfigInformer := NewFilteredInformer UpgradeConfig.
Definition NewFilteredUpgradeRuleInformer := NewFilteredInformer UpgradeRule.

(** [sharedInformerFactory] *)
Record factory := mkFactory {
  namespace : string;
  tweakListOptions : option TweakListOptionsFunc;
  defaultResync : Z;
  customResync : gmap kind Z;
  informers : gmap kind informer;
  startedInformers : gset kind }.

(** The options of a factory *)
Definition WithCustomResyncConfig (resyncConfig : list (kind * Z)) (f : factory) : factory :=
  mkFactory f.(namespace) f.(tweakListOptions) f.(defaultResync)
    (fold_left (λ m kv, <[fst kv := snd kv]> m) resyncConfig f.(customResync)) f.(informers) f.(startedInformers).
Definition WithTweakListOptions (tweak : TweakListOptionsFunc) (f : factory) : factory :=
  mkFactory f.(namespace) (Some tweak) f.(defaultResync) f.(customResync) f.(informers) f.(startedInformers).
Definition WithNamespace (ns : string) (f : factory) : factory :=
  mkFactory ns f.(tweakListOptions) f.(defaultResync) f.(customResync) f.(informers) f.(startedInformers).

Definition NamespaceAll : string := "".

Definition NewSharedInformerFactoryWithOptions (defaultResync : Z) (options : list (factory → factory)) : factory :=
  fold_left (λ f opt, opt f) options (mkFactory NamespaceAll None defaultResync ∅ ∅ ∅).
Definition NewSharedInformerFactory (defaultResync : Z) : factory :=
  NewSharedInformerFactoryWithOptions defaultResync [].
Definition NewFilteredSharedInformerFactory (defaultResync : Z) (ns : string) (tweak : TweakListOptionsFunc) : factory :=
  NewSharedInformerFactoryWithOptions defaultResync [WithNamespace ns; WithTweakListOptions tweak].

(** [InformerFor]: the informer of a type, which is made the first time *)
Definition InformerFor (k : kind) (newFunc : Z → informer) (f : factory) : informer * factory :=
  match f.(informers) !! k with
  | Some i => (i, f)
  | None =>
      let resyncPeriod := match f.(customResync) !! k with Some r => r | None => f.(defaultResync) end in
      let i := newFunc resyncPeriod in
      (i, mkFactory f.(namespace) f.(tweakListOptions) f.(defaultResync) f.(customResync)
            (<[k := i]> f.(informers)) f.(startedInformers))
  end.

(** [f.Sql().V1beta2().Galeras()], and those of the other resources: the
    namespace and the filter of the factory *)
Record version := mkVersion { v_kind : kind; v_namespace : string; v_tweak : option TweakListOptionsFunc }.
Definition Sql (f : factory) (k : kind) : version := mkVersion k f.(namespace) f.(tweakListOptions).

Definition defaultInformer (v : version) (resyncPeriod : Z) : informer :=
  match v.(v_kind) with
  | Galera => NewFilteredGaleraInformer
  | GaleraBackup => NewFilteredGaleraBackupInformer
  | UpgradeConfig => NewFilteredUpgradeConfigInformer
  | UpgradeRule => NewFilteredUpgradeRuleInformer
  end v.(v_namespace) resyncPeriod [NamespaceIndex] v.(v_tweak).

Definition Informer (v : version) (f : factory) : informer * factory :=
  InformerFor v.(v_kind) (defaultInformer v) f.

(** [Start]: the informers that were requested and do not run yet *)
Definition Start (f : factory) : list kind * factory :=
  let starting := filter (λ k, k ∉ f.(startedInformers)) (map_to_list f.(informers)).*1 in
  (starting, mkFactory f.(namespace) f.(tweakListOptions) f.(defaultResync) f.(customResync) f.(informers)
               (f.(startedInformers) ∪ list_to_set starting)).

(** [WaitForCacheSync]: what it waits for *)
Definition startedOf (f : factory) : list kind :=
  filter (λ k, k ∈ f.(startedInformers)) (map_to_list f.(informers)).*1.

(** [ForResource], of a resource of a group and version *)
Definition ForResource (groupVersion resource : string) (f : factory) : (informer * factory) + error :=
  if decide (groupVersion = GroupVersion) then
    match List.find (λ k, bool_decide (plural k = resource)) kinds with
    | Some k => inl (Informer (Sql f k) f)
    | None => inr (errorf ("no informer found for " +:+ groupVersion +:+ " " +:+ resource))
    end
  else inr (errorf ("no informer found for " +:+ groupVersion +:+ " " +:+ resource)).

(** ** Invariant of a factory *)

(** The informers of a factory list and watch in its namespace, with its filter,
    each for its own type, and only those that were requested run. *)
Record wf (f : factory) : Prop := {
  wf_informers : ∀ k i, f.(informers) !! k = Some i →
    i.(inf_kind) = k ∧ i.(inf_namespace) = f.(namespace) ∧ i.(inf_tweak) = f.(tweakListOptions);
  wf_started : ∀ k, k ∈ f.(startedInformers) → is_Some (f.(informers) !! k) }.

(** What may be done with a factory, with the goroutines it starts *)
Inductive step : factory → list kind → factory → Prop :=
| step_Informer k f : step f [] (snd (Informer (Sql f k) f))
| step_Start f : step f (fst (Start f)) (snd (Start f)).

Inductive steps : factory → list kind → factory → Prop :=
| steps_refl f : steps f [] f
| steps_l f1 l1 f2 l2 f3 : step f1 l1 f2 → steps f2 l2 f3 → steps f1 (l1 ++ l2) f3.

Lemma wf_InformerFor f k : wf f → wf (snd (Informer (Sql f k) f)).
Proof.
  intros [Hi Hs]. unfold Informer, InformerFor. cbn [v_kind Sql].
  destruct (informers f !! k) as [i|] eqn:E; cbn; [by split|]. split; cbn.
  - intros k' i'. destruct (decide (k' = k)) as [->|Hne].
    + rewrite lookup_insert_eq. intros [= <-]. by destruct k.
    + rewrite lookup_insert_ne by done. apply Hi.
  - intros k' Hk'. destruct (decide (k' = k)) as [->|Hne].
    + rewrite lookup_insert_eq. eauto.
    + rewrite lookup_insert_ne by done. by apply Hs.
Qed.

Lemma elem_of_requested (f : factory) k : k ∈ (map_to_list f.(informers)).*1 ↔ is_Some (f.(informers) !! k).
Proof.
  rewrite list_elem_of_fmap. split.
  - intros ([k' i] & -> & H%elem_of_map_to_list). by eexists.
  - intros [i H]. exists (k, i). by rewrite elem_of_map_to_list.
Qed.

Lemma wf_Start f : wf f → wf (snd (Start f)).
Proof.
  intros [Hi Hs]. split; cbn; [exact Hi|]. intros k. rewrite elem_of_union, elem_of_list_to_set, list_elem_of_filter.
  intros [Hk|[_ Hk]]; [by apply Hs|by apply elem_of_requested].
Qed.

Lemma wf_step f l f' : wf f → step f l f' → wf f'.
Proof. intros Hf Hs. destruct Hs; [by apply wf_InformerFor|by apply wf_Start]. Qed.

Lemma wf_factory defaultResync options :
  Forall (λ opt, ∀ f : factory, f.(informers) = ∅ → f.(startedInformers) = ∅ →
    informers (opt f) = ∅ ∧ startedInformers (opt f) = ∅) options →
  wf (NewSharedInformerFactoryWithOptions defaultResync options).
Proof.
  intros Ho. unfold NewSharedInformerFactoryWithOptions. set (f := mkFactory _ _ _ _ _ _).
  assert (Hf : informers f = ∅ ∧ startedInformers f = ∅) by done. clearbody f.
  revert f Hf. induction Ho as [|opt options Hopt _ IH]; intros f [H1 H2]; cbn.
  - split; rewrite ?H1, ?H2; set_solver.
  - apply IH. by apply Hopt.
Qed.

(** A step does not stop or forget an informer, and starts only new ones. *)
Lemma step_started f l f' : wf f → step f l f' →
  NoDup l ∧ (∀ k, k ∈ l → k ∉ f.(startedInformers)) ∧
  f'.(startedInformers) = f.(startedInformers) ∪ list_to_set l ∧
  (∀ k i, f.(informers) !! k = Some i → f'.(informers) !! k = Some i).
Proof.
  intros Hf [k g|g]; cbn.
  - split_and!; [constructor|set_solver| |]; unfold Informer, InformerFor; cbn [v_kind Sql];
      destruct (informers g !! k) as [i|] eqn:E; cbn; [set_solver..|done|].
    intros k' i' E'. rewrite lookup_insert_ne; [done|congruence].
  - split_and!; [apply NoDup_filter, NoDup_fst_map_to_list| |done|done].
    intros k. rewrite list_elem_of_filter. tauto.
Qed.

(** An informer is made once for a type, lists and watches in the namespace of
    the factory, and is started at most once, however the factory is used; once
    [Start] has returned all those that were requested before run. *)
Theorem factory_starts (f f' : factory) (l : list kind) :
  wf f → steps f l f' →
  NoDup l ∧ (∀ k, k ∈ l → k ∉ f.(startedInformers)) ∧
  (∀ k, k ∈ (snd (Start f')).(startedInformers) ↔ is_Some (f'.(informers) !! k)) ∧
  (∀ k i, f.(informers) !! k = Some i → fst (Informer (Sql f' k) f') = i) ∧
  (∀ k i opts, f'.(informers) !! k = Some i →
     (ListFunc (A:=unit) i opts).(rq_ns) = f'.(namespace) ∧ (WatchFunc (A:=unit) i opts).(rq_ns) = f'.(namespace) ∧
     (ListFunc (A:=unit) i opts).(rq_resource) = plural k).
Proof.
  intros Hf Hs.
  assert (H : wf f' ∧ NoDup l ∧ (∀ k, k ∈ l → k ∉ f.(startedInformers)) ∧
    f'.(startedInformers) = f.(startedInformers) ∪ list_to_set l ∧
    (∀ k i, f.(informers) !! k = Some i → f'.(informers) !! k = Some i)).
  { revert Hf. induction Hs as [f|f1 l1 f2 l2 f3 Hst _ IH]; intros Hf.
    - split_and!; [done|constructor|set_solver|set_solver|done].
    - destruct (step_started _ _ _ Hf Hst) as (Hn1 & Hd1 & E1 & Hi1).
      destruct (IH (wf_step _ _ _ Hf Hst)) as (Hw & Hn2 & Hd2 & E2 & Hi2).
      assert (Hnew : ∀ k, k ∈ l2 → k ∉ f1.(startedInformers) ∧ k ∉ l1).
      { intros k Hk. pose proof (Hd2 k Hk) as Hk'.
        rewrite E1, elem_of_union, elem_of_list_to_set in Hk'. tauto. }
      split_and!; [done| | | |eauto].
      + apply NoDup_app. split_and!; [done| |done]. intros k Hk1 Hk2. by apply (Hnew k Hk2).
      + intros k [Hk|Hk]%elem_of_app; [by apply Hd1|by apply Hnew].
      + by rewrite E2, E1, list_to_set_app_L, (assoc_L (∪)). }
  destruct H as (Hw & Hn & Hd & E & Hi). split_and!; [done|done| | |].
  - intros k. cbn. rewrite elem_of_union, elem_of_list_to_set, list_elem_of_filter, elem_of_requested.
    split; [intros [?|[_ ?]]; [by apply Hw|done]|]. intros H. destruct (decide (k ∈ startedInformers f')); tauto.
  - intros k i Hk. unfold Informer, InformerFor. cbn [v_kind Sql]. by rewrite (Hi _ _ Hk).
  - intros k i opts Hk. destruct (wf_informers _ Hw _ _ Hk) as (Ek & En & _). cbn. by rewrite Ek, En.
Qed.
End Informers.

(** ** Listers *)

(** An indexer of client-go: it gives the object of a key, and the objects with
    labels that a selector takes, all or those of a namespace. *)
Class Indexer (A : Type) := {
  indexer : Type;
  GetByKey : indexer → string → (option A) + error;
  ListAll : indexer → (gmap string string → bool) → list A + error;
  ListAllByNamespace : indexer → string → (gmap string string → bool) → list A + error }.

(** The indexer holds objects that have a namespace, a name and labels, each under
    its key. *)
Class IndexerLaws (A : Type) `{Indexer A} (nsOf nameOf : A → string) (labelsOf : A → gmap string string) := {
  objects : indexer → list A;
  objects_keys i : NoDup ((λ a, nsOf a +:+ "/" +:+ nameOf a) <$> objects i);
  GetByKey_spec i key : GetByKey i key =
    inl (List.find (λ a, bool_decide (nsOf a +:+ "/" +:+ nameOf a = key)) (objects i));
  ListAll_spec i sel : ∃ l, ListAll i sel = inl l ∧ l ≡ₚ filter (λ a, sel (labelsOf a) = true) (objects i);
  ListAllByNamespace_spec i ns sel : ∃ l, ListAllByNamespace i ns sel = inl l ∧
    l ≡ₚ filter (λ a, (ns = Informers.NamespaceAll ∨ nsOf a = ns) ∧ sel (labelsOf a) = true) (objects i) }.

Module Listers.
Section lister.
Context {A : Type} `{Indexer A} (k : kind).

(** [galeraLister] and the others *)
Definition List (i : indexer) (selector : gmap string string → bool) : list A + error := ListAll i selector.

(** [galeraNamespaceLister] *)
Definition NamespaceList (i : indexer) (ns : string) (selector : gmap string string → bool) : list A + error :=
  ListAllByNamespace i ns selector.

Definition Get (i : indexer) (ns name : string) : A + error :=
  match GetByKey i (ns +:+ "/" +:+ name) with
  | inr err => inr err
  | inl None => inr (mkError NotFound (singular k +:+ "." +:+ GroupName +:+ " " +:+ name +:+ " not found"))
  | inl (Some obj) => inl obj
  end.

(** [NewGaleraLister] and the others *)
Record Lister := mkLister {
  l_List : (gmap string string → bool) → list A + error;
  l_NamespaceList : string → (gmap string string → bool) → list A + error;
  l_Get : string → string → A + error }.
Definition NewLister (i : indexer) : Lister := mkLister (List i) (NamespaceList i) (Get i).

Context {nsOf nameOf : A → string} {labelsOf : A → gmap string string} {Laws : IndexerLaws A nsOf nameOf labelsOf}.

(** A name of an object or of a namespace has no slash. *)
Definition key_name (s : string) : Prop := str_forall (not_char "/") s = true.

Lemma key_inj ns name ns' name' : key_name ns → key_name ns' →
  ns +:+ "/" +:+ name = ns' +:+ "/" +:+ name' → ns = ns' ∧ name = name'.
Proof.
  revert ns'. induction ns as [|c ns IH]; intros [|c' ns']; cbn; unfold key_name; cbn.
  - intros _ _ [= ->]. done.
  - intros _ [Hc _]%andb_true_iff [= <- _]. done.
  - intros [Hc _]%andb_true_iff _ [= -> _]. done.
  - intros [_ H1]%andb_true_iff [_ H2]%andb_true_iff [= -> E].
    by destruct (IH ns' H1 H2 E) as [-> ->].
Qed.

(** A lister of a namespace and the lister of all see the same objects: what
    [Get] finds is what [List] lists, an object that is not there is a NotFound
    error, and no call fails in another way. *)
Lemma lister_agrees (i : indexer) (ns name : string) : key_name ns →
  (∀ a, a ∈ objects (IndexerLaws:=Laws) i → key_name (nsOf a)) → ns ≠ Informers.NamespaceAll →
  ∃ l, NamespaceList i ns (λ _, true) = inl l ∧
    match Get i ns name with
    | inl a => a ∈ l ∧ nsOf a = ns ∧ nameOf a = name
    | inr e => err_kind e = NotFound ∧ ∀ a, a ∈ l → nameOf a ≠ name
    end.
Proof.
  intros Hns Hkeys Hall. destruct (ListAllByNamespace_spec (IndexerLaws:=Laws) i ns (λ _, true)) as (l & El & Hl).
  exists l. split; [exact El|].
  assert (Hin : ∀ a, a ∈ l ↔ a ∈ objects (IndexerLaws:=Laws) i ∧ nsOf a = ns).
  { intros a. rewrite Hl, list_elem_of_filter. naive_solver. }
  unfold Get. rewrite (GetByKey_spec (IndexerLaws:=Laws)).
  destruct (List.find _ _) as [a|] eqn:E.
  - apply List.find_some in E as [Ha Hk]. apply bool_decide_eq_true in Hk. apply list_elem_of_In in Ha.
    apply key_inj in Hk as [Ens En]; [|by apply Hkeys|done]. split; [by apply Hin|done].
  - split; [done|]. intros a [Ha%list_elem_of_In Ens]%Hin En.
    pose proof (List.find_none _ _ E a Ha) as Hk. apply bool_decide_eq_false in Hk.
    apply Hk. by rewrite Ens, En.
Qed.
End lister.

Definition NewGaleraLister {A} `{Indexer A} := NewLister Galera (A:=A).
Definition NewGaleraBackupLister {A} `{Indexer A} := NewLister GaleraBackup (A:=A).
Definition NewUpgradeConfigLister {A} `{Indexer A} := NewLister UpgradeConfig (A:=A).
Definition NewUpgradeRuleLister {A} `{Indexer A} := NewLister UpgradeRule (A:=A).
End Listers.

(** ** Examples *)

(** The type of the lists of upgrade configurations is not registered; that of
    the lists of rules is registered twice. *)
Example lists_registered :
  ("UpgradeConfigList" ∈ addKnownTypes → False) ∧
  length (filter (λ t, t = "UpgradeRuleList") addKnownTypes) = 2%nat.
Proof. split; [set_solver|reflexivity]. Qed.

Definition example_factory : Informers.factory :=
  Informers.NewSharedInformerFactoryWithOptions (30 * Second) [Informers.WithNamespace "ns"].

Lemma example_factory_wf : Informers.wf example_factory.
Proof. apply Informers.wf_factory. by repeat constructor. Qed.

Lemma factory_starts_witness :
  let f := snd (Informers.Informer (Informers.Sql example_factory Galera) example_factory) in
  (snd (Informers.Start f)).(Informers.startedInformers) = {[Galera]} ∧
  (∀ k, k ∈ (snd (Informers.Start f)).(Informers.startedInformers) ↔ is_Some (f.(Informers.informers) !! k)).
Proof.
  intros f. split; [reflexivity|].
  refine (proj1 (proj2 (proj2 (Informers.factory_starts example_factory f [] example_factory_wf _)))).
  exact (Informers.steps_l _ [] _ [] _ (Informers.step_Informer Galera example_factory) (Informers.steps_refl f)).
Defined.
