(* ===== verification/ClientSet.v ===== *)
(** * How the clients of the custom resources are made

    Models [src/pkg/client/clientset/versioned/clientset.go] and
    [typed/apigalera/v1beta2/apigalera_client.go]: the clients made from a configuration,
    which is copied, completed and shared with the client for discovery; and the group, the
    informers and the listers of the factory ([informers/externalversions/apigalera]) that
    [Clients] starts from.  The constructors of client-go are a parameter. *)
From S2P Require Import Prelude Clients.

Module ClientSet.

(** What is used of a [rest.Config]; a rate limiter is a pointer. *)
Record config := mkConfig {
  Host : string;
  APIPath : string;
  ConfigGroupVersion : option string;
  NegotiatedSerializer : option string;
  UserAgent : string;
  QPS : Z;
  Burst : Z;
  RateLimiter : option nat }.

Section clients.
(** A REST client and a discovery client, the constructors of client-go, and the name of
    this program; [limiter] is the address of a new rate limiter. *)
Context {rest discovery : Type}.
Context (RESTClientFor : config → rest + error) (NewDiscoveryClientForConfig : config → discovery + error).
Context (DiscoveryOf : rest → discovery) (DefaultKubernetesUserAgent : string) (limiter : Z → Z → nat).

(** ** The typed client *)

(** The group and version of the resources, the path of the API, the codecs, and the name of
    the program if there is none; it never fails. *)
Definition setConfigDefaults (c : config) : config :=
  mkConfig c.(Host) "/apis" (Some GroupVersion) (Some "scheme.Codecs.WithoutConversion") 
    (if decide (c.(UserAgent) = "") then DefaultKubernetesUserAgent else c.(UserAgent))
    c.(QPS) c.(Burst) c.(RateLimiter).

Record SqlV1beta2Client := mkSqlV1beta2Client { restClient : rest }.

Definition SqlNewForConfig (c : config) : SqlV1beta2Client + error :=
  match RESTClientFor (setConfigDefaults c) with
  | inl client => inl (mkSqlV1beta2Client client)
  | inr err => inr err
  end.

Definition SqlNewForConfigOrDie (c : config) : outcome SqlV1beta2Client :=
  match SqlNewForConfig c with inl client => Ok client | inr _ => Panic end.

Definition SqlNew (c : rest) : SqlV1beta2Client := mkSqlV1beta2Client c.

Definition RESTClient (c : option SqlV1beta2Client) : option rest := restClient <$> c.

(** ** The set of clients *)

Record Clientset := mkClientset { DiscoveryClient : discovery; sqlV1beta2 : SqlV1beta2Client }.

Definition SqlV1beta2 (c : Clientset) : SqlV1beta2Client := c.(sqlV1beta2).
Definition Discovery (c : option Clientset) : option discovery := DiscoveryClient <$> c.

(** The copy of the configuration, with one rate limiter for the two clients *)
Definition withLimiter (c : config) : config :=
  if decide (c.(RateLimiter) = None ∧ 0 < c.(QPS))
  then mkConfig c.(Host) c.(APIPath) c.(ConfigGroupVersion) c.(NegotiatedSerializer) c.(UserAgent) c.(QPS) c.(Burst)
         (Some (limiter c.(QPS) c.(Burst)))
  else c.

Definition NewForConfig (c : config) : Clientset + error :=
  let configShallowCopy := withLimiter c in
  match SqlNewForConfig configShallowCopy with
  | inr err => inr err
  | inl sql =>
      match NewDiscoveryClientForConfig configShallowCopy with
      | inr err => inr err
      | inl d => inl (mkClientset d sql)
      end
  end.

Definition NewForConfigOrDie (c : config) : outcome Clientset :=
  sql ← SqlNewForConfigOrDie c;
  match NewDiscoveryClientForConfig c with
  | inl d => Ok (mkClientset d sql)
  | inr _ => Panic
  end.

Definition New (c : rest) : Clientset := mkClientset (DiscoveryOf c) (SqlNew c).

(** What a set of clients is made with: both clients have the host of the configuration and
    the same rate limiter, the one of the configuration or else a new one when a rate is
    asked for; the typed client speaks to the group of the resources, under the name of the
    configuration if it has one.  Nothing is made when one of the two constructors fails.
    [NewForConfigOrDie] makes the same clients from a configuration that has its limiter,
    but when it has none it shares no limiter between the two. *)
Theorem clients_configured (c : config) :
  (∀ cs, NewForConfig c = inl cs →
     ∃ cr cd, RESTClientFor cr = inl (restClient (SqlV1beta2 cs)) ∧
       NewDiscoveryClientForConfig cd = inl (DiscoveryClient cs) ∧
       cr.(Host) = c.(Host) ∧ cd.(Host) = c.(Host) ∧ cr.(RateLimiter) = cd.(RateLimiter) ∧
       cr.(APIPath) = "/apis" ∧ cr.(ConfigGroupVersion) = Some "sql.databases/v1beta2" ∧
       cr.(UserAgent) = (if decide (c.(UserAgent) = "") then DefaultKubernetesUserAgent else c.(UserAgent)) ∧
       cr.(RateLimiter) = (match c.(RateLimiter) with
                           | Some r => Some r
                           | None => if decide (0 < c.(QPS)) then Some (limiter c.(QPS) c.(Burst)) else None
                           end)) ∧
  (∀ err, RESTClientFor (setConfigDefaults (withLimiter c)) = inr err → NewForConfig c = inr err) ∧
  (c.(RateLimiter) ≠ None ∨ c.(QPS) <= 0 →
     NewForConfigOrDie c = match NewForConfig c with inl cs => Ok cs | inr _ => Panic end).
Proof.
  assert (Hw : withLimiter c = c ∨ c.(RateLimiter) = None ∧ 0 < c.(QPS))
    by (unfold withLimiter; case_decide; [by right|by left]).
  split_and!.
  - intros cs. unfold NewForConfig, SqlNewForConfig.
    destruct (RESTClientFor _) as [r|] eqn:Er; [|done]. destruct (NewDiscoveryClientForConfig _) as [d|] eqn:Ed; [|done].
    intros [= <-]. exists (setConfigDefaults (withLimiter c)), (withLimiter c). cbn. split_and!; try done.
    all: unfold withLimiter; repeat case_decide; destruct (RateLimiter c) eqn:El; cbn; try done; try tauto.
    all: naive_solver.
  - intros err E. unfold NewForConfig, SqlNewForConfig. by rewrite E.
  - intros Hc. destruct Hw as [Ew|[? ?]]; [|by destruct Hc; [done|lia]].
    unfold NewForConfigOrDie, NewForConfig, SqlNewForConfigOrDie. rewrite Ew.
    destruct (SqlNewForConfig c); cbn; [|done]. by destruct (NewDiscoveryClientForConfig c).
Qed.
End clients.

(** ** The group of the factory *)

Import Informers.

(** [group] and [version]: the factory, with its namespace and its filter *)
Record group := mkGroup { grp_namespace : string; grp_tweak : option TweakListOptionsFunc }.

Definition NewGroup (namespace : string) (tweak : option TweakListOptionsFunc) : group := mkGroup namespace tweak.

Definition V1beta2 (g : group) (k : kind) : version := mkVersion k g.(grp_namespace) g.(grp_tweak).

(** The four informers of the version *)
Definition Galeras (g : group) : version := V1beta2 g Galera.
Definition GaleraBackups (g : group) : version := V1beta2 g GaleraBackup.
Definition UpgradeConfigs (g : group) : version := V1beta2 g UpgradeConfig.
Definition UpgradeRules (g : group) : version := V1beta2 g UpgradeRule.

(** An informer that no factory has, without filter *)
Definition NewGaleraInformer (namespace : string) (resyncPeriod : Z) (indexers : list string) : informer :=
  NewFilteredGaleraInformer namespace resyncPeriod indexers None.
Definition NewGaleraBackupInformer (namespace : string) (resyncPeriod : Z) (indexers : list string) : informer :=
  NewFilteredGaleraBackupInformer namespace resyncPeriod indexers None.
Definition NewUpgradeConfigInformer (namespace : string) (resyncPeriod : Z) (indexers : list string) : informer :=
  NewFilteredUpgradeConfigInformer namespace resyncPeriod indexers None.
Definition NewUpgradeRuleInformer (namespace : string) (resyncPeriod : Z) (indexers : list string) : informer :=
  NewFilteredUpgradeRuleInformer namespace resyncPeriod indexers None.

(** [defaultInformer] and [Informer] of each resource *)
Definition galeraDefault (g : group) (resyncPeriod : Z) : informer :=
  NewFilteredGaleraInformer g.(grp_namespace) resyncPeriod [NamespaceIndex] g.(grp_tweak).
Definition galeraInformer (g : group) (f : factory) : informer * factory := InformerFor Galera (galeraDefault g) f.
Definition galeraBackupDefault (g : group) (resyncPeriod : Z) : informer :=
  NewFilteredGaleraBackupInformer g.(grp_namespace) resyncPeriod [NamespaceIndex] g.(grp_tweak).
Definition galeraBackupInformer (g : group) (f : factory) : informer * factory :=
  InformerFor GaleraBackup (galeraBackupDefault g) f.
Definition upgradeConfigDefault (g : group) (resyncPeriod : Z) : informer :=
  NewFilteredUpgradeConfigInformer g.(grp_namespace) resyncPeriod [NamespaceIndex] g.(grp_tweak).
Definition upgradeConfigInformer (g : group) (f : factory) : informer * factory :=
  InformerFor UpgradeConfig (upgradeConfigDefault g) f.
Definition upgradeRuleDefault (g : group) (resyncPeriod : Z) : informer :=
  NewFilteredUpgradeRuleInformer g.(grp_namespace) resyncPeriod [NamespaceIndex] g.(grp_tweak).
Definition upgradeRuleInformer (g : group) (f : factory) : informer * factory :=
  InformerFor UpgradeRule (upgradeRuleDefault g) f.

(** The informers of the group are those that [Clients] requests from the factory, so that
    a factory that is well formed stays so, and asking twice gives the same informer.  One
    that no factory has lists and watches the same resource, without filter. *)
Theorem group_informers (f : factory) :
  wf f →
  let g := NewGroup f.(namespace) f.(tweakListOptions) in
  Forall (λ ki : kind * (group → factory → informer * factory),
    let (k, get) := ki in
    get g f = Informer (Sql f k) f ∧ wf (snd (get g f)) ∧
    fst (get g (snd (get g f))) = fst (get g f))
    [(Galera, galeraInformer); (GaleraBackup, galeraBackupInformer); (UpgradeConfig, upgradeConfigInformer);
     (UpgradeRule, upgradeRuleInformer)] ∧
  V1beta2 g = Sql f ∧
  (∀ ns r ix, Forall (λ i : kind * informer, i.2.(inf_kind) = i.1 ∧ i.2.(inf_namespace) = ns ∧ i.2.(inf_tweak) = None)
     [(Galera, NewGaleraInformer ns r ix); (GaleraBackup, NewGaleraBackupInformer ns r ix);
      (UpgradeConfig, NewUpgradeConfigInformer ns r ix); (UpgradeRule, NewUpgradeRuleInformer ns r ix)]).
Proof.
  intros Hf g. split_and!; [|done|by repeat constructor].
  assert (H : ∀ k new, (∀ r, new r = defaultInformer (Sql f k) r) →
    let get f := InformerFor k new f in
    get f = Informer (Sql f k) f ∧ wf (snd (get f)) ∧ fst (get (snd (get f))) = fst (get f)).
  { intros k new Hn get. assert (E : get f = Informer (Sql f k) f).
    { unfold get, Informer, InformerFor. cbn [v_kind Sql]. destruct (informers f !! k); [done|]. by rewrite !Hn. }
    split; [exact E|]. split; [rewrite E; by apply wf_InformerFor|].
    unfold get, InformerFor. destruct (informers f !! k) as [i|] eqn:Ek; cbn; [by rewrite Ek|]. by rewrite lookup_insert_eq. }
  repeat apply Forall_cons_2; try apply Forall_nil_2; by apply H.
Qed.
End ClientSet.
