(* ===== verification/Fakes.v ===== *)
(** * The fake clients

    Models [src/pkg/client/clientset/versioned/fake] and
    [typed/apigalera/v1beta2/fake]: the clients that the tests of the controllers use in
    place of those of [Clients].  A fake gives each call, as an action, to a recorder of
    client-go, which answers from a tracker of objects: that recorder is a parameter.

    The theorems are that a fake means the same as the client it replaces: the action of a
    call is the one that the request of the real client stands for, without the options that
    the tracker has no use for; and that a list only holds what the selector selects. *)
From S2P Require Import Prelude Clients.

Module Fake.

(** ** Actions *)

(** A [GroupVersionResource] or a [GroupVersionKind] *)
Record gv := mkGV { gv_Group : string; gv_Version : string; gv_Name : string }.

Definition galerasResource : gv := mkGV "sql.databases" "v1beta2" "galeras".
Definition galerasKind : gv := mkGV "sql.databases" "v1beta2" "Galera".
Definition galerabackupsResource : gv := mkGV "sql.databases" "v1beta2" "galerabackups".
Definition galerabackupsKind : gv := mkGV "sql.databases" "v1beta2" "GaleraBackup".
Definition upgradeconfigsResource : gv := mkGV "sql.databases" "v1beta2" "upgradeconfigs".
Definition upgradeconfigsKind : gv := mkGV "sql.databases" "v1beta2" "UpgradeConfig".
Definition upgraderulesResource : gv := mkGV "sql.databases" "v1beta2" "upgraderules".
Definition upgraderulesKind : gv := mkGV "sql.databases" "v1beta2" "UpgradeRule".

(** A runtime object: a resource, a list with its metadata, a scale *)
Inductive robject (A : Type) := RObject (a : A) | RList (meta : string) (items : list A) | RScale (scale : string).
Arguments RObject {A} a.
Arguments RList {A} meta items.
Arguments RScale {A} scale.

(** The actions, as the calls that make them *)
Inductive action (A : Type) :=
| NewGetAction (resource : gv) (ns name : string)
| NewGetSubresourceAction (resource : gv) (ns subresource name : string)
| NewListAction (resource kind : gv) (ns : string) (opts : ListOptions)
| NewWatchAction (resource : gv) (ns : string) (opts : ListOptions)
| NewCreateAction (resource : gv) (ns : string) (object : robject A)
| NewUpdateAction (resource : gv) (ns : string) (object : robject A)
| NewUpdateSubresourceAction (resource : gv) (subresource ns : string) (object : robject A)
| NewDeleteAction (resource : gv) (ns name : string)
| NewDeleteCollectionAction (resource : gv) (ns : string) (opts : ListOptions)
| NewPatchSubresourceAction (resource : gv) (ns name patchType data : string) (subresources : list string).
Arguments NewGetAction {A} _ _ _.
Arguments NewGetSubresourceAction {A} _ _ _ _.
Arguments NewListAction {A} _ _ _ _.
Arguments NewWatchAction {A} _ _ _.
Arguments NewCreateAction {A} _ _ _.
Arguments NewUpdateAction {A} _ _ _.
Arguments NewUpdateSubresourceAction {A} _ _ _ _.
Arguments NewDeleteAction {A} _ _ _.
Arguments NewDeleteCollectionAction {A} _ _ _.
Arguments NewPatchSubresourceAction {A} _ _ _ _ _ _.

(** What is used of [testing.Fake]: its state has the actions so far and the objects. *)
Class Testing (A : Type) := {
  state : Type;
  watcher : Type;
  Invokes : action A → robject A → state → option (robject A) * option error * state;
  InvokesWatch : action A → state → (watcher + error) * state;
  (** the selector on labels of some options, or nil, and how it matches *)
  ExtractFromListOptions : ListOptions → option (gmap string string → bool) }.

Section fake.
Context {A : Type} `{Testing A} (empty : A) (labelsOf : A → gmap string string).

(** ** The clients *)

(** The fake of a resource in a namespace, with its variables *)
Record client := mkClient { ns : string; resource : kind }.

Definition resourceOf (c : client) : gv :=
  match c.(resource) with
  | Galera => galerasResource
  | GaleraBackup => galerabackupsResource
  | UpgradeConfig => upgradeconfigsResource
  | UpgradeRule => upgraderulesResource
  end.
Definition kindOf (c : client) : gv :=
  match c.(resource) with
  | Galera => galerasKind
  | GaleraBackup => galerabackupsKind
  | UpgradeConfig => upgradeconfigsKind
  | UpgradeRule => upgraderulesKind
  end.

(** A result with an error, either of which may be nil, and the state *)
Definition result (B : Type) : Type := option B * option error * state.

(** The object of an answer, if it is not nil; a panic when it is of another type *)
Definition asserted {B} (conv : robject A → option B) (r : option (robject A) * option error * state)
    : outcome (result B) :=
  let '(obj, err, s) := r in
  match obj with
  | None => Ok (None, err, s)
  | Some obj => match conv obj with Some b => Ok (Some b, err, s) | None => Panic end
  end.

Definition asResource (o : robject A) : option A := match o with RObject a => Some a | _ => None end.
Definition asScale (o : robject A) : option string := match o with RScale s => Some s | _ => None end.
Definition asList (o : robject A) : option (string * list A) :=
  match o with RList meta items => Some (meta, items) | _ => None end.

Definition Get (c : client) (name options : string) (s : state) : outcome (result A) :=
  asserted asResource (Invokes (NewGetAction (resourceOf c) c.(ns) name) (RObject empty) s).

(** The items are filtered by the labels again; nothing else is kept of the list but its
    metadata. *)
Definition List (c : client) (opts : ListOptions) (s : state) : outcome (result (string * list A)) :=
  '(l, err, s) ← asserted asList (Invokes (NewListAction (resourceOf c) (kindOf c) c.(ns) opts) (RList "" []) s);
  match l with
  | None => Ok (None, err, s)
  | Some (meta, items) =>
      let label := default (λ _, true) (ExtractFromListOptions opts) in
      Ok (Some (meta, List.filter (λ item, label (labelsOf item)) items), err, s)
  end.

Definition Watch (c : client) (opts : ListOptions) (s : state) : (watcher + error) * state :=
  InvokesWatch (NewWatchAction (resourceOf c) c.(ns) opts) s.

Definition Create (c : client) (a : A) (s : state) : outcome (result A) :=
  asserted asResource (Invokes (NewCreateAction (resourceOf c) c.(ns) (RObject a)) (RObject empty) s).

Definition Update (c : client) (a : A) (s : state) : outcome (result A) :=
  asserted asResource (Invokes (NewUpdateAction (resourceOf c) c.(ns) (RObject a)) (RObject empty) s).

Definition Delete (c : client) (name options : string) (s : state) : option error * state :=
  let '(_, err, s) := Invokes (NewDeleteAction (resourceOf c) c.(ns) name) (RObject empty) s in (err, s).

Definition DeleteCollection (c : client) (options : string) (listOptions : ListOptions) (s : state)
    : option error * state :=
  let '(_, err, s) := Invokes (NewDeleteCollectionAction (resourceOf c) c.(ns) listOptions) (RList "" []) s in (err, s).

Definition Patch (c : client) (name patchType data : string) (subresources : list string) (s : state)
    : outcome (result A) :=
  asserted asResource
    (Invokes (NewPatchSubresourceAction (resourceOf c) c.(ns) name patchType data subresources) (RObject empty) s).

(** The methods that only some resources have *)
Definition UpdateStatus (c : client) (a : A) : option (state → outcome (result A)) :=
  match c.(resource) with
  | Galera | GaleraBackup => Some (λ s,
      asserted asResource (Invokes (NewUpdateSubresourceAction (resourceOf c) "status" c.(ns) (RObject a))
                             (RObject empty) s))
  | _ => None
  end.

Definition GetScale (c : client) (name options : string) : option (state → outcome (result string)) :=
  match c.(resource) with
  | Galera => Some (λ s,
      asserted asScale (Invokes (NewGetSubresourceAction (resourceOf c) c.(ns) "scale" name) (RScale "") s))
  | _ => None
  end.

Definition UpdateScale (c : client) (name scale : string) : option (state → outcome (result string)) :=
  match c.(resource) with
  | Galera => Some (λ s,
      asserted asScale (Invokes (NewUpdateSubresourceAction (resourceOf c) "scale" c.(ns) (RScale scale)) (RScale "") s))
  | _ => None
  end.

(** The interface of a fake *)
Record Interface := mkInterface {
  i_Create : A → state → outcome (result A);
  i_Update : A → state → outcome (result A);
  i_UpdateStatus : A → option (state → outcome (result A));
  i_Delete : string → string → state → option error * state;
  i_DeleteCollection : string → ListOptions → state → option error * state;
  i_Get : string → string → state → outcome (result A);
  i_List : ListOptions → state → outcome (result (string * list A));
  i_Watch : ListOptions → state → (watcher + error) * state;
  i_Patch : string → string → string → list string → state → outcome (result A);
  i_GetScale : string → string → option (state → outcome (result string));
  i_UpdateScale : string → string → option (state → outcome (result string)) }.

Definition methods (c : client) : Interface :=
  mkInterface (Create c) (Update c) (UpdateStatus c) (Delete c) (DeleteCollection c) (Get c) (List c) (Watch c)
    (Patch c) (GetScale c) (UpdateScale c).

(** The fake of each resource *)
Definition FakeGaleras (ns : string) : Interface := methods (mkClient ns Galera).
Definition FakeGaleraBackups (ns : string) : Interface := methods (mkClient ns GaleraBackup).
Definition FakeUpgradeConfigs (ns : string) : Interface := methods (mkClient ns UpgradeConfig).
Definition FakeUpgradeRules (ns : string) : Interface := methods (mkClient ns UpgradeRule).

(** The methods of [FakeSqlV1beta2] *)
Definition Galeras (namespace : string) : Interface := FakeGaleras namespace.
Definition GaleraBackups (namespace : string) : Interface := FakeGaleraBackups namespace.
Definition UpgradeConfigs (namespace : string) : Interface := FakeUpgradeConfigs namespace.
Definition UpgradeRules (namespace : string) : Interface := FakeUpgradeRules namespace.

(** [NewSimpleClientset]: the tracker with the objects, in their order; it panics on the
    first one that cannot be added. *)
Fixpoint NewSimpleClientset (Add : robject A → state → state + error) (objects : list (robject A)) (s : state)
    : outcome state :=
  match objects with
  | [] => Ok s
  | obj :: objects =>
      match Add obj s with
      | inr _ => Panic
      | inl s => NewSimpleClientset Add objects s
      end
  end.

(** ** What a fake stands for *)

(** The action that a request of a real client stands for: the verb, the resource, the
    namespace, the name or the selectors, the subresource and the object; not the options of
    a call, which the tracker has no use for *)
Definition stands (k : kind) (rq : rest_request A) : option (action A) :=
  let c := mkClient rq.(rq_ns) k in
  let r := resourceOf c in
  if decide (rq.(rq_resource) ≠ r.(gv_Name)) then None else
  match rq.(rq_verb), rq.(rq_name), rq.(rq_subresource), rq.(rq_params), rq.(rq_body) with
  | Get_, Some name, [], _, _ => Some (NewGetAction r c.(ns) name)
  | Get_, Some name, [sub], _, _ => Some (NewGetSubresourceAction r c.(ns) sub name)
  | Get_, None, _, Some (inr opts), _ =>
      if opts.(Watching) then Some (NewWatchAction r c.(ns) opts) else Some (NewListAction r (kindOf c) c.(ns) opts)
  | Post, None, _, _, Some (Object a) => Some (NewCreateAction r c.(ns) (RObject a))
  | Put, Some _, [], _, Some (Object a) => Some (NewUpdateAction r c.(ns) (RObject a))
  | Put, Some _, [sub], _, Some (Object a) => Some (NewUpdateSubresourceAction r sub c.(ns) (RObject a))
  | Put, Some _, [sub], _, Some (Scale scale) => Some (NewUpdateSubresourceAction r sub c.(ns) (RScale scale))
  | Delete_, Some name, _, _, _ => Some (NewDeleteAction r c.(ns) name)
  | Delete_, None, _, Some (inr opts), _ => Some (NewDeleteCollectionAction r c.(ns) opts)
  | Patch_ patchType, Some name, subs, _, Some (PatchData data) =>
      Some (NewPatchSubresourceAction r c.(ns) name patchType data subs)
  | _, _, _, _, _ => None
  end.

(** The call of a fake, if the resource has the method, is the one of an action, for some
    object of the default type and some reading of the answer. *)
Definition invoked {B} (a : option (action A)) (call : state → outcome (result B)) : Prop :=
  ∃ act default_ conv, a = Some act ∧
    ∀ s, call s = asserted conv (Invokes act default_ s).

Definition invoked_opt {B} (rq : option (rest_request A)) (k : kind) (call : option (state → outcome (result B))) : Prop :=
  match rq, call with
  | Some rq, Some call => invoked (stands k rq) call
  | None, None => True
  | _, _ => False
  end.

Lemma resource_name (c : client) : plural c.(resource) = (resourceOf c).(gv_Name).
Proof. by destruct c as [? []]. Qed.

(** A fake means the same as the client it replaces: both have the same methods, and each call
    of the fake is the action that the request of the real client stands for.  A watch is
    asked for with the options as they are, a list is one action whose items are then those
    that the selector on labels selects, with the metadata and the error that the recorder
    gave, and a deletion reports the error of its action. *)
Theorem fake_stands (nameOf : A → string) (k : kind) (namespace : string) :
  let c := mkClient namespace k in
  let real := Typed.mkClient namespace k in
  (∀ a, invoked (stands k (Typed.Create real a)) (Create c a)) ∧
  (∀ a, invoked (stands k (Typed.Update nameOf real a)) (Update c a)) ∧
  (∀ name options, invoked (stands k (Typed.Get real name options)) (Get c name options)) ∧
  (∀ name pt data subs, invoked (stands k (Typed.Patch real name pt data subs)) (Patch c name pt data subs)) ∧
  (∀ a, invoked_opt (Typed.UpdateStatus nameOf real a) k (UpdateStatus c a)) ∧
  (∀ name options, invoked_opt (Typed.GetScale real name options) k (GetScale c name options)) ∧
  (∀ name scale, invoked_opt (Typed.UpdateScale real name scale) k (UpdateScale c name scale)) ∧
  (∀ opts, stands k (Typed.Watch real opts) =
     Some (NewWatchAction (resourceOf c) namespace
             (mkListOptions opts.(LabelSelector) opts.(FieldSelector) opts.(ResourceVersion) opts.(TimeoutSeconds) true)) ∧
     ∀ s, Watch c opts s = InvokesWatch (NewWatchAction (resourceOf c) namespace opts) s) ∧
  (∀ name options s, ∃ act, stands k (Typed.Delete real name options) = Some act ∧
     let '(_, err, s') := Invokes act (RObject empty) s in Delete c name options s = (err, s')) ∧
  (∀ options opts s, ∃ act, stands k (Typed.DeleteCollection real options opts) = Some act ∧
     let '(_, err, s') := Invokes act (RList "" []) s in DeleteCollection c options opts s = (err, s')) ∧
  (∀ opts s, opts.(Watching) = false → ∃ act, stands k (Typed.List real opts) = Some act ∧
     match Invokes act (RList "" []) s with
     | (Some (RList meta items), err, s') => ∃ selected, List c opts s = Ok (Some (meta, selected), err, s') ∧
         ∀ a, a ∈ selected ↔ a ∈ items ∧ ∀ label, ExtractFromListOptions opts = Some label → label (labelsOf a) = true
     | (None, err, s') => List c opts s = Ok (None, err, s')
     | _ => List c opts s = Panic
     end).
Proof.
  intros c real.
  assert (Hd : ∀ r (B : Type) (x y : B), (if decide (plural k ≠ (resourceOf (mkClient r k)).(gv_Name)) then x else y) = y).
  { intros r B x y. apply decide_False. intros n. exact (n (resource_name (mkClient r k))). }
  split_and!.
  - intros a. eexists _, _, _. split; [|reflexivity]. apply Hd.
  - intros a. eexists _, _, _. split; [|reflexivity]. apply Hd.
  - intros name options. eexists _, _, _. split; [|reflexivity]. apply Hd.
  - intros name pt data subs. eexists _, _, _. split; [|reflexivity]. apply Hd.
  - intros a. by destruct k; try exact I; eexists _, _, _.
  - intros name options. by destruct k; try exact I; eexists _, _, _.
  - intros name scale. by destruct k; try exact I; eexists _, _, _.
  - intros opts. split; [apply Hd|done].
  - intros name options s. eexists. split; [apply Hd|]. unfold Delete. by destruct (Invokes _ _ s) as [[??]?].
  - intros options opts s. eexists. split; [apply Hd|]. unfold DeleteCollection.
    by destruct (Invokes _ _ s) as [[??]?].
  - intros opts s Hw. eexists. split; [unfold stands; cbn; rewrite Hd, Hw; reflexivity|].
    unfold List. cbn. destruct (Invokes _ _ s) as [[[[a|meta items|scale]|] err] s']; try done. cbn.
    eexists. split; [reflexivity|]. intros a. rewrite !list_elem_of_In, filter_In.
    destruct (ExtractFromListOptions opts) as [label|]; cbn; naive_solver.
Qed.
End fake.
End Fake.

Import Fake.

(** ** Examples *)

(** A recorder that answers each list with two objects and keeps its actions *)
#[local] Instance example_testing : Testing string := {|
  state := list (action string);
  watcher := unit;
  Invokes a o s :=
    (match o with RList _ _ => Some (RList "12" ["a"; "b"]) | _ => Some o end, None, s ++ [a]);
  InvokesWatch a s := (inl tt, s ++ [a]);
  ExtractFromListOptions opts :=
    if decide (opts.(LabelSelector) = "") then None
    else Some (λ labels, bool_decide (labels !! "app" = Some opts.(LabelSelector))) |}.

Example fake_list :
  i_List (FakeGaleras "" (λ a, {[ "app" := a ]}) "ns") (mkListOptions "b" "" "" None false) [] =
    Ok (Some ("12", ["b"]), None, [NewListAction galerasResource galerasKind "ns" (mkListOptions "b" "" "" None false)]).
Proof. vm_compute. reflexivity. Qed.
