(* ===== verification/Command.v ===== *)
(** * The command of the operator

    Models [src/cmd/galera-operator/main.go]: the flags, what the command checks
    before it starts, how it builds the informers and the two controllers, and how
    these start and stop; with the constructors [NewGaleraController] and
    [NewGaleraBackupController], their [Run], and the signals and the probe of
    [pkg/utils].

    The process is a transition system: its goroutines, those of the informers
    and the workers of the controllers interleave, with the goroutines that these leave
    behind.  What an informer, a worker and such a goroutine do is in other files; here
    a step says that a cache has synced, that a worker takes an item or has handled it,
    that a goroutine starts or ends, and that one of them ends the process: by
    [Fatalf], which [fatal] records in the other files, or by a panic. *)
From S2P Require Import Prelude GoFlag Clients.

Module Command.

(** ** Informers

    Those of the custom resources, and those of Kubernetes, which client-go provides *)

Inductive kube := Pods | Services | PersistentVolumeClaims | StorageClasses | ControllerRevisions
| PodDisruptionBudgets | Secrets | ConfigMaps.
Inductive source := Own (k : kind) | Kube (k : kube).

#[global] Instance kube_eq_dec : EqDecision kube.
Proof. solve_decision. Defined.
#[global] Instance source_eq_dec : EqDecision source.
Proof. solve_decision. Defined.

(** ** The controllers

    The informers are passed to the constructors; a lister or an event handler
    needs the informer, which is then requested from its factory. *)

(** [ResourceEventHandlerFuncs], by the names of its functions, and the period after
    which the objects are handed over again *)
Record handlers := mkHandlers { AddFunc : string; UpdateFunc : string; DeleteFunc : string; resyncEvery : option Z }.

(** What [NewDefaultGaleraControl] gets from [NewGaleraController]: the listers of
    its controls *)
Record galera_control := mkGaleraControl {
  podControl : source * source;
  serviceControl : source;
  pdbControl : source;
  secretControl : source;
  storageControl : source;
  upgradeConfigControl : source * source * source;
  upgradeConfigName : string;
  upgradeConfigNamespace : string;
  restoreControl : source * source * source;
  statusUpdater : source;
  controllerHistory : source;
  bootstrapImage : string;
  backupImage : string }.

Record GaleraController := mkGaleraController {
  gc_clusterWide : bool;
  gc_control : galera_control;
  podListerSynced : source;
  galeraListerSynced : source;
  claimListerSynced : source;
  revListerSynced : source;
  serviceListerSynced : source;
  pdbListerSynced : source;
  secretListerSynced : source;
  scListerSynced : source;
  upgradeConfigListerSynced : source;
  upgradeRuleListerSynced : source;
  cmListerSynced : source;
  podLister : source;
  claimLister : source;
  galeraLister : source;
  gc_handlers : list (source * handlers);
  gc_events : string }.

(** A period of some seconds; the product of 64-bit integers wraps around. *)
Definition seconds (period : Z) : Z := i64 (period * Second).

Definition NewGaleraController
    (galeraInformer podInformer serviceInformer claimInformer scInformer revInformer pdbInformer
     secretInformer upgradeConfigInformer upgradeRuleInformer cmInformer : source)
    (bootstrapImage backupImage upgradeConfig : string) (clusterWide : bool) (namespace : string)
    (resyncPeriod : Z) : GaleraController :=
  mkGaleraController clusterWide
    (mkGaleraControl (podInformer, claimInformer) serviceInformer pdbInformer secretInformer scInformer
       (upgradeConfigInformer, upgradeRuleInformer, cmInformer) upgradeConfig namespace
       (podInformer, claimInformer, secretInformer) galeraInformer revInformer bootstrapImage backupImage)
    podInformer galeraInformer claimInformer revInformer serviceInformer pdbInformer secretInformer
    scInformer upgradeConfigInformer upgradeRuleInformer cmInformer
    podInformer claimInformer galeraInformer
    [(podInformer, mkHandlers "addPod" "updatePod" "deletePod" None);
     (claimInformer, mkHandlers "addClaim" "updateClaim" "deleteClaim" None);
     (galeraInformer, mkHandlers "enqueueGalera" "enqueueGalera" "enqueueGalera" (Some (seconds resyncPeriod)))]
    namespace.

(** The caches that the workers read: those of the listers of the controller and of
    its controls *)
Definition gc_reads (gc : GaleraController) : list source :=
  let c := gc.(gc_control) in
  [gc.(podLister); gc.(claimLister); gc.(galeraLister); fst c.(podControl); snd c.(podControl);
   c.(serviceControl); c.(pdbControl); c.(secretControl); c.(storageControl);
   fst (fst c.(upgradeConfigControl)); snd (fst c.(upgradeConfigControl)); snd c.(upgradeConfigControl);
   fst (fst c.(restoreControl)); snd (fst c.(restoreControl)); snd c.(restoreControl);
   c.(statusUpdater); c.(controllerHistory)].

(** The caches that [Run] waits for, in its order *)
Definition gc_awaits (gc : GaleraController) : list source :=
  [gc.(podListerSynced); gc.(galeraListerSynced); gc.(claimListerSynced); gc.(revListerSynced);
   gc.(serviceListerSynced); gc.(pdbListerSynced); gc.(secretListerSynced); gc.(scListerSynced);
   gc.(upgradeConfigListerSynced); gc.(upgradeRuleListerSynced); gc.(cmListerSynced)].

(** The informers that its constructor requests *)
Definition gc_requests (gc : GaleraController) : list source :=
  gc_reads gc ++ gc_awaits gc ++ (fst <$> gc.(gc_handlers)).

Record GaleraBackupController := mkGaleraBackupController {
  gbc_clusterWide : bool;
  (** the listers of backups, pods and secrets, and those of the two status updaters *)
  gbc_control : source * source * source * source * source;
  gbc_galeraLister : source;
  gbc_galeraListerSynced : source;
  gbc_galeraBackupLister : source;
  gbc_galeraBackupListerSynced : source;
  gbc_podListerSynced : source;
  gbc_secretListerSynced : source;
  gbc_handlers : list (source * handlers);
  gbc_events : string }.

Definition NewGaleraBackupController
    (galeraBackupInformer galeraInformer podInformer secretInformer : source)
    (clusterWide : bool) (namespace : string) (resyncPeriod : Z) : GaleraBackupController :=
  mkGaleraBackupController clusterWide
    (galeraBackupInformer, podInformer, secretInformer, galeraBackupInformer, galeraInformer)
    galeraInformer galeraInformer galeraBackupInformer galeraBackupInformer podInformer secretInformer
    [(galeraBackupInformer, mkHandlers "enqueueGaleraBackup" "enqueueGaleraBackup" "enqueueGaleraBackup"
                              (Some (seconds resyncPeriod)))]
    namespace.

Definition gbc_reads (gbc : GaleraBackupController) : list source :=
  let '(backups, pods, secrets, backupStatus, galeraStatus) := gbc.(gbc_control) in
  [gbc.(gbc_galeraLister); gbc.(gbc_galeraBackupLister); backups; pods; secrets; backupStatus; galeraStatus].

Definition gbc_awaits (gbc : GaleraBackupController) : list source :=
  [gbc.(gbc_galeraListerSynced); gbc.(gbc_galeraBackupListerSynced); gbc.(gbc_podListerSynced);
   gbc.(gbc_secretListerSynced)].

Definition gbc_requests (gbc : GaleraBackupController) : list source :=
  gbc_reads gbc ++ gbc_awaits gbc ++ (fst <$> gbc.(gbc_handlers)).

(** ** [main], up to the start of the informers *)

Record config := mkConfig {
  listenAddr : string;
  clusterWide : bool;
  cf_bootstrapImage : string;
  cf_backupImage : string;
  upgradeConfig : string;
  resyncPeriod : Z;
  runThread : Z;
  backupThread : Z;
  printVersion : bool }.

(** The flags with their defaults *)
Definition formal : gmap string value := list_to_map
  [("listen-address", VString ":8080"); ("cluster-wide", VBool false); ("resync", VInt 30);
   ("run-thread", VInt 2); ("backup-thread", VInt 2); ("bootstrap", VString "sebs42/galera-bootstrap:0.4");
   ("backup", VString "sebs42/galera-backup:0.4"); ("upgrade-config", VString ""); ("version", VBool false)].

Definition configOf (flags : gmap string value) : config :=
  mkConfig (getString "listen-address" flags) (getBool "cluster-wide" flags) (getString "bootstrap" flags)
    (getString "backup" flags) (getString "upgrade-config" flags) (getInt "resync" flags)
    (getInt "run-thread" flags) (getInt "backup-thread" flags) (getBool "version" flags).

Definition EnvOperatorPodName : string := "MY_POD_NAME".
Definition EnvOperatorPodNamespace : string := "MY_POD_NAMESPACE".

(** The operator that runs: the factories of informers, that of client-go by its
    namespace and its period, and the controllers with the number of their workers *)
Record operator := mkOperator {
  kubeNamespace : string;
  kubeResync : Z;
  own : Informers.factory;
  galeraCtl : GaleraController;
  galeraThreads : Z;
  backupCtl : GaleraBackupController;
  backupThreads : Z }.

Inductive outcome := Exited (code : Z) | Started (op : operator).

(** The informers of custom resources that were requested from a factory *)
Definition request (f : Informers.factory) (sources : list source) : Informers.factory :=
  fold_left (λ f s, match s with
    | Own k => snd (Informers.Informer (Informers.Sql f k) f)
    | Kube _ => f
    end) sources f.

Definition build (cf : config) (namespace : string) : operator :=
  let operatedNamespace := if cf.(clusterWide) then Informers.NamespaceAll else namespace in
  let f := Informers.NewSharedInformerFactoryWithOptions (seconds cf.(resyncPeriod))
             [Informers.WithNamespace operatedNamespace] in
  let gc := NewGaleraController (Own Galera) (Kube Pods) (Kube Services) (Kube PersistentVolumeClaims)
      (Kube StorageClasses) (Kube ControllerRevisions) (Kube PodDisruptionBudgets) (Kube Secrets)
      (Own UpgradeConfig) (Own UpgradeRule) (Kube ConfigMaps)
      cf.(cf_bootstrapImage) cf.(cf_backupImage) cf.(upgradeConfig) cf.(clusterWide) namespace cf.(resyncPeriod) in
  let gbc := NewGaleraBackupController (Own GaleraBackup) (Own Galera) (Kube Pods) (Kube Secrets)
      cf.(clusterWide) namespace cf.(resyncPeriod) in
  mkOperator operatedNamespace (seconds cf.(resyncPeriod))
    (request (request f (gc_requests gc)) (gbc_requests gbc)) gc cf.(runThread) gbc cf.(backupThread).

(** The errors of the configuration and of the two clients, in this order *)
Definition main (args : list string) (getenv : string → string) (clients : list (option error)) : outcome :=
  match Parse args formal with
  | inr _ => Exited 2
  | inl (flags, _) =>
      let cf := configOf flags in
      if cf.(printVersion) then Exited 0
      else if decide (getenv EnvOperatorPodNamespace = "") then Exited 1
      else if decide (getenv EnvOperatorPodName = "") then Exited 1
      else if existsb (λ e, bool_decide (is_Some e)) clients then Exited 1
      else Started (build cf (getenv EnvOperatorPodNamespace))
  end.

(** ** The process *)

(** [Run]: waiting for the caches; its workers run; returned, with the queue shut down *)
Inductive run_state := Waiting | Running | Returned.

(** A worker: waiting for an item, handling one, or over *)
Inductive worker := Idle | Busy | Over.

Record controller := mkController { state : run_state; workers : list worker }.

(** The two controllers *)
Inductive which := TheGalera | TheBackup.

#[global] Instance which_eq_dec : EqDecision which.
Proof. solve_decision. Defined.

(** The goroutines that a reconciliation leaves behind: a restoration, the copy of a
    backup, and the goroutines that a restoration starts in turn, to copy and to
    delete *)
Inductive job := Restoration | BackupCopy | RestoreCopy | Deletion.

(** How the process ends: [main] returns, the second signal, [Fatalf], or a panic
    that is not recovered *)
Inductive ending := MainReturned | SecondSignal | Fatal | Panicked.

Definition exit_code (e : ending) : Z :=
  match e with MainReturned => 0 | SecondSignal => 1 | Fatal => 1 | Panicked => 2 end.

(** The process: how many signals it got, whether its context is cancelled, which
    factories were started (that of client-go, that of the operator), which caches
    have synced, the controllers, the goroutines that they left behind, the probe, and
    how it exited *)
Record process := mkProcess {
  signals : nat;
  cancelled : bool;
  startedKube : bool;
  startedOwn : bool;
  synced : list source;
  galera : controller;
  backup : controller;
  jobs : list job;
  ready : bool;
  exited : option ending }.

Section process.
Context (op : operator).

Definition awaits (c : which) : list source :=
  match c with TheGalera => gc_awaits op.(galeraCtl) | TheBackup => gbc_awaits op.(backupCtl) end.
Definition reads (c : which) : list source :=
  match c with TheGalera => gc_reads op.(galeraCtl) | TheBackup => gbc_reads op.(backupCtl) end.
Definition threads (c : which) : Z :=
  match c with TheGalera => op.(galeraThreads) | TheBackup => op.(backupThreads) end.

(** Whether the informer of a cache runs: it was requested, and its factory started *)
Definition runs (p : process) (s : source) : Prop :=
  match s with
  | Own k => p.(startedOwn) = true ∧ is_Some (op.(own).(Informers.informers) !! k)
  | Kube _ => p.(startedKube) = true ∧ s ∈ gc_requests op.(galeraCtl) ++ gbc_requests op.(backupCtl)
  end.

Definition get (c : which) (p : process) : controller := match c with TheGalera => p.(galera) | TheBackup => p.(backup) end.
Definition set (c : which) (ctl : controller) (p : process) : process :=
  match c with
  | TheGalera => mkProcess p.(signals) p.(cancelled) p.(startedKube) p.(startedOwn) p.(synced) ctl p.(backup) p.(jobs) p.(ready) p.(exited)
  | TheBackup => mkProcess p.(signals) p.(cancelled) p.(startedKube) p.(startedOwn) p.(synced) p.(galera) ctl p.(jobs) p.(ready) p.(exited)
  end.

Definition sync (s : source) (p : process) : process :=
  mkProcess p.(signals) p.(cancelled) p.(startedKube) p.(startedOwn) (s :: p.(synced)) p.(galera) p.(backup) p.(jobs) p.(ready) p.(exited).
Definition start_kube (p : process) : process :=
  mkProcess p.(signals) p.(cancelled) true p.(startedOwn) p.(synced) p.(galera) p.(backup) p.(jobs) p.(ready) p.(exited).
Definition start_own (p : process) : process :=
  mkProcess p.(signals) p.(cancelled) p.(startedKube) true p.(synced) p.(galera) p.(backup) p.(jobs) p.(ready) p.(exited).
Definition signalled (p : process) : process :=
  mkProcess (S p.(signals)) true p.(startedKube) p.(startedOwn) p.(synced) p.(galera) p.(backup) p.(jobs) p.(ready) p.(exited).
Definition work (js : list job) (p : process) : process :=
  mkProcess p.(signals) p.(cancelled) p.(startedKube) p.(startedOwn) p.(synced) p.(galera) p.(backup) js p.(ready) p.(exited).
Definition exit (e : ending) (p : process) : process :=
  mkProcess p.(signals) p.(cancelled) p.(startedKube) p.(startedOwn) p.(synced) p.(galera) p.(backup) p.(jobs) p.(ready) (Some e).

(** Who may start a goroutine: a worker that handles a Galera starts a restoration,
    one that handles a backup the copy of the backup, and a restoration the
    goroutines that copy and delete *)
Definition starts (p : process) (j : job) : Prop :=
  match j with
  | Restoration => Busy ∈ p.(galera).(workers)
  | BackupCopy => Busy ∈ p.(backup).(workers)
  | RestoreCopy | Deletion => Restoration ∈ p.(jobs)
  end.

(** Where [Fatalf] is called: by a restoration, and by a worker that handles a backup *)
Definition may_fatal (p : process) : Prop :=
  Restoration ∈ p.(jobs) ∨ Busy ∈ p.(backup).(workers).

(** What may panic: whatever handles something.  [HandleCrash], which [Until] defers,
    panics again. *)
Definition may_panic (p : process) : Prop :=
  p.(jobs) ≠ [] ∨ Busy ∈ p.(galera).(workers) ∨ Busy ∈ p.(backup).(workers).

(** What the goroutines do, until the process has exited: [Start] of the factories;
    an informer, until the context is cancelled; [WaitForCacheSync] and the rest of
    [Run]; the workers, which end once the queue is shut down; the goroutines that
    they start, which nothing waits for; the goroutine of the signals, which exits at
    the second one; [main], which waits for the context and then for both [Run]; and
    what ends the process at once, [Fatalf] and a panic. *)
Inductive step : process → process → Prop :=
| step_start_kube p : p.(exited) = None → step p (start_kube p)
| step_start_own p : p.(exited) = None → step p (start_own p)
| step_sync s p : p.(exited) = None → p.(cancelled) = false → runs p s → step p (sync s p)
| step_run c p : p.(exited) = None → (get c p).(state) = Waiting → Forall (λ s, s ∈ p.(synced)) (awaits c) →
    step p (set c (mkController Running (replicate (Z.to_nat (threads c)) Idle)) p)
| step_give_up c p : p.(exited) = None → (get c p).(state) = Waiting → p.(cancelled) = true →
    step p (set c (mkController Returned []) p)
| step_stop c p : p.(exited) = None → (get c p).(state) = Running → p.(cancelled) = true →
    step p (set c (mkController Returned (get c p).(workers)) p)
| step_take c w1 w2 p : p.(exited) = None → (get c p).(workers) = w1 ++ Idle :: w2 →
    step p (set c (mkController (get c p).(state) (w1 ++ Busy :: w2)) p)
| step_handled c w1 w2 p : p.(exited) = None → (get c p).(workers) = w1 ++ Busy :: w2 →
    step p (set c (mkController (get c p).(state) (w1 ++ Idle :: w2)) p)
| step_over c w1 w2 p : p.(exited) = None → (get c p).(workers) = w1 ++ Idle :: w2 → (get c p).(state) = Returned →
    step p (set c (mkController Returned (w1 ++ Over :: w2)) p)
| step_signal p : p.(exited) = None → p.(signals) = 0%nat → step p (signalled p)
| step_second_signal p : p.(exited) = None → p.(signals) = 1%nat → step p (exit SecondSignal (signalled p))
| step_main p : p.(exited) = None → p.(cancelled) = true → p.(galera).(state) = Returned → p.(backup).(state) = Returned →
    step p (exit MainReturned p)
| step_go j p : p.(exited) = None → starts p j → step p (work (j :: p.(jobs)) p)
| step_done j j1 j2 p : p.(exited) = None → p.(jobs) = j1 ++ j :: j2 → step p (work (j1 ++ j2) p)
| step_fatal p : p.(exited) = None → may_fatal p → step p (exit Fatal p)
| step_panic p : p.(exited) = None → may_panic p → step p (exit Panicked p).

(** [SetReady], and the code that the probe answers *)
Definition SetReady (p : process) : process :=
  mkProcess p.(signals) p.(cancelled) p.(startedKube) p.(startedOwn) p.(synced) p.(galera) p.(backup) p.(jobs) true p.(exited).
Definition ReadyHandler (p : process) : Z := if p.(ready) then 200 else 500.

(** The probe is ready from the start: [SetReady] comes before the controllers. *)
Definition start : process :=
  SetReady (mkProcess 0 false false false [] (mkController Waiting []) (mkController Waiting []) [] false None).

Definition reachable (p : process) : Prop := rtc step start p.

(** The probe says nothing of the caches: it answers that the operator is ready before they
    have synced, and until the process exits. *)
Lemma probe_ready p : reachable p → ReadyHandler p = 200.
Proof.
  unfold reachable, ReadyHandler. intros Hp. enough (p.(ready) = true) as -> by done.
  remember start as p0 eqn:E. assert (p0.(ready) = true) as H0 by by rewrite E. clear E.
  induction Hp as [|p1 p2 p3 Hs _ IH]; [done|]. apply IH.
  destruct Hs; cbn; try done; by destruct c.
Qed.

(** ** Invariant *)

(** How a process that has exited got there *)
Definition ended (p : process) (e : ending) : Prop :=
  match e with
  | MainReturned => (0 < p.(signals))%nat ∧ p.(galera).(state) = Returned ∧ p.(backup).(state) = Returned
  | SecondSignal => p.(signals) = 2%nat
  | Fatal => may_fatal p
  | Panicked => may_panic p
  end.

Record inv (p : process) : Prop := {
  inv_workers : ∀ c, (get c p).(workers) ≠ [] → Forall (λ s, s ∈ p.(synced)) (awaits c);
  inv_running : ∀ c, (get c p).(state) = Running → Forall (λ s, s ∈ p.(synced)) (awaits c);
  inv_waiting : ∀ c, (get c p).(state) = Waiting → (get c p).(workers) = [];
  inv_returned : ∀ c, (get c p).(state) = Returned → p.(cancelled) = true;
  inv_cancelled : p.(cancelled) = true ↔ (0 < p.(signals))%nat;
  inv_exited : ∀ e, p.(exited) = Some e → ended p e }.

Lemma get_set c c' ctl p : get c (set c' ctl p) = if decide (c = c') then ctl else get c p.
Proof. by destruct c, c'. Qed.

Lemma set_fields c ctl p :
  (set c ctl p).(synced) = p.(synced) ∧ (set c ctl p).(cancelled) = p.(cancelled) ∧
  (set c ctl p).(signals) = p.(signals) ∧ (set c ctl p).(exited) = p.(exited).
Proof. by destruct c. Qed.

(** A step of a controller, in a process that has not exited *)
Lemma inv_set c ctl p : inv p → p.(exited) = None →
  (ctl.(workers) ≠ [] → Forall (λ s, s ∈ p.(synced)) (awaits c)) →
  (ctl.(state) = Running → Forall (λ s, s ∈ p.(synced)) (awaits c)) →
  (ctl.(state) = Waiting → ctl.(workers) = []) → (ctl.(state) = Returned → p.(cancelled) = true) →
  inv (set c ctl p).
Proof.
  intros [Hw Hr Hwait Hret Hc He] Hex H1 H2 H3 H4. destruct (set_fields c ctl p) as (E1 & E2 & E3 & E4).
  split; rewrite ?E1, ?E2, ?E3, ?E4; try done; try (by intros e E; congruence).
  all: intros c'; rewrite get_set; case_decide as E; [by subst c'|first [apply Hw|apply Hr|apply Hwait|apply Hret]].
Qed.

Lemma inv_start : inv start.
Proof. split; cbn; try done; try (by intros []); try (by split; [done|lia]). Qed.

Lemma inv_step p p' : inv p → step p p' → inv p'.
Proof.
  intros Hi Hs. pose proof Hi as [Hw Hr Hwait Hret Hc He].
  destruct Hs as [p Hex|p Hex|s p Hex Hn Hrun|c p Hex Est Hsync|c p Hex Est Hcan|c p Hex Est Hcan
    |c w1 w2 p Hex Ew|c w1 w2 p Hex Ew|c w1 w2 p Hex Ew Est|p Hex Hsig|p Hex Hsig|p Hex Hcan Hg Hb|j p Hex Hj|j j1 j2 p Hex Hj|p Hex Hf|p Hex Hf].
  - by split.
  - by split.
  - assert (Hget : ∀ c, get c (sync s p) = get c p) by (by intros []).
    assert (Hmono : ∀ l, Forall (λ s, s ∈ p.(synced)) l → Forall (λ s', s' ∈ s :: p.(synced)) l)
      by (intros l Hl; eapply Forall_impl; [exact Hl|]; intros; by apply elem_of_cons; right).
    split; try done; intros c'; rewrite Hget; eauto.
  - apply inv_set; try done.
  - apply inv_set; try done.
  - apply inv_set; try done. cbn. by apply Hw.
  - apply inv_set; try done; cbn.
    + intros _. apply Hw. rewrite Ew. by destruct w1.
    + apply Hr.
    + intros E. apply Hwait in E. rewrite Ew in E. by destruct w1.
    + apply Hret.
  - apply inv_set; try done; cbn.
    + intros _. apply Hw. rewrite Ew. by destruct w1.
    + apply Hr.
    + intros E. apply Hwait in E. rewrite Ew in E. by destruct w1.
    + apply Hret.
  - apply inv_set; try done; cbn.
    + intros _. apply Hw. rewrite Ew. by destruct w1.
    + intros _. by eapply Hret.
  - split; try done; cbn; [split; [lia|done]|]. intros e E. congruence.
  - split; try done; cbn; [split; [lia|done]|]. intros e [= <-]. cbn. by rewrite Hsig.
  - split; try done; cbn. intros e [= <-]. split; [by apply Hc|done].
  - split; try done; cbn. intros e E. congruence.
  - split; try done; cbn. intros e E. congruence.
  - split; try done; cbn. by intros e [= <-].
  - split; try done; cbn. by intros e [= <-].
Qed.

Lemma reachable_inv p : reachable p → inv p.
Proof. intros Hr. eapply (rtc_ind_r inv); [exact inv_start| |exact Hr]. eauto using inv_step. Qed.
End process.

(** ** The operator that [main] starts *)

(** The caches that the workers of a controller read are among those it waits for,
    and the informers of these are all requested. *)
Lemma build_awaits cf ns c :
  (∀ s, s ∈ reads (build cf ns) c → s ∈ awaits (build cf ns) c) ∧
  (∀ s, s ∈ awaits (build cf ns) c → s ∈ gc_requests (build cf ns).(galeraCtl) ++ gbc_requests (build cf ns).(backupCtl)).
Proof. destruct c; split; apply Forall_forall; by apply (bool_decide_unpack (Forall _ _)). Qed.

Lemma request_keeps sources f k :
  is_Some (f.(Informers.informers) !! k) → is_Some ((request f sources).(Informers.informers) !! k).
Proof.
  revert f. induction sources as [|[k'|k'] sources IH]; intros f Hk; cbn; [done| |by apply IH].
  apply IH. unfold Informers.Informer, Informers.InformerFor. cbn.
  destruct (Informers.informers f !! k') eqn:E; [done|]. cbn.
  destruct (decide (k = k')) as [->|]; [rewrite lookup_insert_eq; eauto|by rewrite lookup_insert_ne].
Qed.

Lemma request_requested sources f k :
  Own k ∈ sources → is_Some ((request f sources).(Informers.informers) !! k).
Proof.
  revert f. induction sources as [|s sources IH]; intros f; [by intros []%not_elem_of_nil|].
  intros [<-|Hin]%elem_of_cons; cbn; [|by apply IH].
  apply request_keeps. unfold Informers.Informer, Informers.InformerFor. cbn.
  destruct (Informers.informers f !! k) eqn:E; cbn; [eauto|rewrite lookup_insert_eq; eauto].
Qed.

Lemma build_requested cf ns k : is_Some ((build cf ns).(own).(Informers.informers) !! k).
Proof.
  unfold build. cbn [own]. set (f := Informers.NewSharedInformerFactoryWithOptions _ _). clearbody f.
  destruct (decide (k = GaleraBackup)) as [->|Hk].
  - apply request_requested. by apply (bool_decide_unpack (Own GaleraBackup ∈ _)).
  - apply request_keeps, request_requested. destruct k; [|done|..]; by apply (bool_decide_unpack (_ ∈ _)).
Qed.

Lemma request_namespace sources f : (request f sources).(Informers.namespace) = f.(Informers.namespace).
Proof.
  revert f. induction sources as [|[k|k] sources IH]; intros f; cbn; [done| |apply IH]. unfold request in IH. rewrite IH.
  unfold Informers.Informer, Informers.InformerFor. by destruct (_ !! _).
Qed.

Lemma build_namespace cf ns :
  (build cf ns).(own).(Informers.namespace) = if cf.(clusterWide) then Informers.NamespaceAll else ns.
Proof. unfold build. cbn [own]. by rewrite !request_namespace. Qed.

Lemma build_clusterWide cf ns : gc_clusterWide (build cf ns).(galeraCtl) = cf.(clusterWide).
Proof. reflexivity. Qed.

Lemma build_wf cf ns : Informers.wf (build cf ns).(own).
Proof.
  unfold build. cbn [own]. set (f := Informers.NewSharedInformerFactoryWithOptions _ _).
  assert (Hf : Informers.wf f) by (apply Informers.wf_factory; by repeat constructor). clearbody f.
  assert (Hr : ∀ l g, Informers.wf g → Informers.wf (request g l)).
  { induction l as [|[k|k] l IH]; intros g Hg; cbn; [done| |by apply IH]. by apply IH, Informers.wf_InformerFor. }
  by apply Hr, Hr.
Qed.

(** ** Progress *)
Section progress.
Context (op : operator).

(** The caches whose informers run may all sync. *)
Lemma sync_all l p : p.(exited) = None → p.(cancelled) = false → Forall (runs op p) l →
  ∃ p', rtc (step op) p p' ∧ p'.(exited) = None ∧ p'.(cancelled) = false ∧
    (∀ c, get c p' = get c p) ∧ Forall (λ s, s ∈ p'.(synced)) l.
Proof.
  intros He Hc Hl.
  assert (H : ∃ p', rtc (step op) p p' ∧ p'.(exited) = None ∧ p'.(cancelled) = false ∧ (∀ c, get c p' = get c p) ∧
    (∀ s, runs op p s → runs op p' s) ∧ Forall (λ s, s ∈ p'.(synced)) l).
  { induction Hl as [|s l Hs _ (p' & Hr & He' & Hc' & Hg & Hrun & IH)]; [by exists p|].
    exists (sync s p'). split_and!; try done.
    - eapply rtc_r; [exact Hr|]. apply step_sync; auto.
    - apply Forall_cons. split; [apply elem_of_cons; by left|].
      eapply Forall_impl; [exact IH|]. intros s' Hs'. apply elem_of_cons. by right. }
  destruct H as (p' & Hr & He' & Hc' & Hg & _ & Hs). by exists p'.
Qed.

(** A controller whose caches have synced runs. *)
Lemma run_one c p : p.(exited) = None → (get c p).(state) ≠ Returned → Forall (λ s, s ∈ p.(synced)) (awaits op c) →
  ∃ p', rtc (step op) p p' ∧ p'.(exited) = None ∧ (get c p').(state) = Running ∧ p'.(synced) = p.(synced) ∧
    (∀ c', c' ≠ c → get c' p' = get c' p) ∧
    ((get c p).(state) = Waiting → (get c p').(workers) = replicate (Z.to_nat (threads op c)) Idle).
Proof.
  intros He Hs Ha. destruct (state (get c p)) eqn:Es; [| |done].
  - exists (set c (mkController Running (replicate (Z.to_nat (threads op c)) Idle)) p).
    destruct (set_fields c (mkController Running (replicate (Z.to_nat (threads op c)) Idle)) p) as (E1 & _ & _ & E4).
    rewrite E1, E4, get_set, decide_True by done. split_and!; try done.
    + apply rtc_once. by apply step_run.
    + intros c' Hc. by rewrite get_set, decide_False.
  - exists p. split_and!; try done.
Qed.

(** A controller stops once the context is cancelled. *)
Lemma stop_one c p : p.(exited) = None → p.(cancelled) = true →
  ∃ p', rtc (step op) p p' ∧ p'.(exited) = None ∧ p'.(cancelled) = true ∧ (get c p').(state) = Returned ∧
    (∀ c', c' ≠ c → get c' p' = get c' p) ∧ p'.(jobs) = p.(jobs) ∧
    ((get c p).(state) = Running → (get c p').(workers) = (get c p).(workers)).
Proof.
  intros He Hc. destruct (state (get c p)) eqn:Es.
  - exists (set c (mkController Returned []) p). destruct (set_fields c (mkController Returned []) p) as (_ & E2 & _ & E4).
    rewrite E2, E4, get_set, decide_True by done. split_and!; try done.
    + apply rtc_once. by apply step_give_up.
    + intros c' Hne. by rewrite get_set, decide_False.
    + by destruct c.
  - exists (set c (mkController Returned (get c p).(workers)) p).
    destruct (set_fields c (mkController Returned (get c p).(workers)) p) as (_ & E2 & _ & E4).
    rewrite E2, E4, get_set, decide_True by done. split_and!; try done.
    + apply rtc_once. by apply step_stop.
    + intros c' Hne. by rewrite get_set, decide_False.
    + by destruct c.
  - exists p. by split_and!.
Qed.

Lemma stop_both p : p.(exited) = None → p.(cancelled) = true →
  ∃ p', rtc (step op) p p' ∧ p'.(exited) = Some MainReturned ∧
    ((get TheGalera p).(state) = Running → (get TheGalera p').(workers) = (get TheGalera p).(workers)) ∧
    p'.(jobs) = p.(jobs).
Proof.
  intros He Hc.
  destruct (stop_one TheGalera p He Hc) as (p1 & R1 & He1 & Hc1 & S1 & O1 & J1 & W1).
  destruct (stop_one TheBackup p1 He1 Hc1) as (p2 & R2 & He2 & Hc2 & S2 & O2 & J2 & _).
  assert (Eg : get TheGalera p2 = get TheGalera p1) by (by apply O2).
  exists (exit MainReturned p2). split_and!; [|done| |by rewrite <- J1, <- J2].
  - etrans; [exact R1|]. eapply rtc_r; [exact R2|]. apply step_main; try done.
    change (state (get TheGalera p2) = Returned). by rewrite Eg.
  - intros Hr. change (workers (get TheGalera p2) = workers (get TheGalera p)). rewrite Eg. auto.
Qed.

Lemma started p : p.(exited) = None → ∃ p', rtc (step op) p p' ∧ p'.(exited) = None ∧ p'.(cancelled) = p.(cancelled) ∧
  p'.(startedKube) = true ∧ p'.(startedOwn) = true ∧ (∀ c, get c p' = get c p).
Proof.
  intros He. exists (start_own (start_kube p)). split_and!; try done.
  eapply rtc_l; [by apply step_start_kube|]. apply rtc_once. by apply step_start_own.
Qed.
End progress.

(** From any state without signal, both controllers may run. *)
Lemma both_run cf ns p : reachable (build cf ns) p → p.(exited) = None → p.(signals) = 0%nat →
  ∃ p', rtc (step (build cf ns)) p p' ∧ p'.(exited) = None ∧ ∀ c, (get c p').(state) = Running ∧
    ((get c p).(state) = Waiting →
     (get c p').(workers) = replicate (Z.to_nat (threads (build cf ns) c)) Idle).
Proof.
  intros Hr He Hsig. pose proof (reachable_inv _ _ Hr) as Hi.
  assert (Hc : p.(cancelled) = false).
  { destruct (cancelled p) eqn:E; [|done]. apply (inv_cancelled _ _ Hi) in E. lia. }
  assert (Hs : ∀ c, (get c p).(state) ≠ Returned).
  { intros c E. apply (inv_returned _ _ Hi) in E. congruence. }
  set (op := build cf ns) in *.
  destruct (started op p He) as (p1 & R1 & He1 & Hc1 & Hk & Ho & Hg1).
  assert (Hruns : ∀ c s, s ∈ awaits op c → runs op p1 s).
  { intros c [k|k] Hin; [exact (conj Ho (build_requested cf ns k))|].
    exact (conj Hk (proj2 (build_awaits cf ns c) _ Hin)). }
  destruct (sync_all op (awaits op TheGalera ++ awaits op TheBackup) p1) as (p2 & R2 & He2 & _ & Hg2 & Hsync).
  { done. } { congruence. }
  { apply Forall_app; split; apply Forall_forall; eauto. }
  apply Forall_app in Hsync as [HsG HsB].
  destruct (run_one op TheGalera p2) as (p3 & R3 & He3 & S3 & Y3 & O3 & W3); [done|rewrite Hg2, Hg1; apply Hs|done|].
  destruct (run_one op TheBackup p3) as (p4 & R4 & He4 & S4 & Y4 & O4 & W4).
  { done. } { rewrite O3, Hg2, Hg1 by done. apply Hs. } { by rewrite Y3. }
  exists p4. split; [by repeat (etrans; [eassumption|])|]. split; [done|].
  intros [].
  - rewrite O4 by done. split; [done|]. rewrite <- Hg1, <- Hg2. exact W3.
  - split; [done|]. rewrite <- Hg1, <- Hg2, <- (O3 TheBackup) by done. exact W4.
Qed.

(** The process may end while a worker is busy and while a restoration goes on, if the
    controller has workers. *)
Lemma busy_exit cf ns : 0 < cf.(runThread) →
  ∃ p, reachable (build cf ns) p ∧ p.(exited) = Some MainReturned ∧
       Busy ∈ (get TheGalera p).(workers) ∧ Restoration ∈ p.(jobs).
Proof.
  intros Hn. set (op := build cf ns).
  destruct (both_run cf ns start (rtc_refl _ _) eq_refl eq_refl) as (p1 & R1 & He1 & S1). fold op in R1.
  destruct (S1 TheGalera) as [Sg W1]. specialize (W1 eq_refl).
  destruct (Z.to_nat (threads op TheGalera)) as [|k] eqn:Ek.
  { change (Z.to_nat cf.(runThread) = 0%nat) in Ek. lia. }
  fold op in W1. rewrite Ek in W1.
  set (p2 := set TheGalera (mkController (get TheGalera p1).(state) ([] ++ Busy :: replicate k Idle)) p1).
  set (p3 := work (Restoration :: p2.(jobs)) p2).
  assert (Hbusy : Busy ∈ (get TheGalera p3).(workers)) by apply list_elem_of_here.
  assert (R3 : rtc (step op) p1 p3).
  { assert (R2 : step op p1 p2) by (by apply step_take). eapply rtc_l; [exact R2|].
    apply rtc_once. apply step_go; [done|]. exact Hbusy. }
  assert (Hr3 : reachable op p3) by (unfold reachable; by etrans).
  assert (H4 : ∃ p4, rtc (step op) p3 p4 ∧ p4.(exited) = None ∧ p4.(cancelled) = true ∧
    get TheGalera p4 = get TheGalera p3 ∧ p4.(jobs) = p3.(jobs)).
  { destruct (signals p3) eqn:E.
    - exists (signalled p3). split_and!; try done. apply rtc_once. by apply step_signal.
    - exists p3. split_and!; try done. apply (inv_cancelled _ _ (reachable_inv op p3 Hr3)). lia. }
  destruct H4 as (p4 & R4 & He4 & Hc4 & Hg4 & Hj4).
  destruct (stop_both op p4 He4 Hc4) as (p5 & R5 & He5 & W5 & J5).
  exists p5. split_and!; [|done| |].
  - unfold reachable. etrans; [exact Hr3|]. by etrans.
  - rewrite W5; rewrite Hg4; [exact Hbusy|exact Sg].
  - rewrite J5, Hj4. apply list_elem_of_here.
Qed.

(** ** What [main] starts *)

Lemma main_build args getenv clients op : main args getenv clients = Started op →
  ∃ flags rest, Parse args formal = inl (flags, rest) ∧ (configOf flags).(printVersion) = false ∧
    getenv EnvOperatorPodNamespace ≠ "" ∧ getenv EnvOperatorPodName ≠ "" ∧ Forall (λ e, e = None) clients ∧
    op = build (configOf flags) (getenv EnvOperatorPodNamespace).
Proof.
  unfold main. destruct (Parse args formal) as [[flags rest]|]; [|done].
  destruct (printVersion (configOf flags)) eqn:Ev; [done|]. repeat case_decide; try done.
  destruct (existsb _ clients) eqn:Ec; [done|]. intros [= <-]. exists flags, rest. split_and!; try done.
  apply Forall_forall. intros [e|] Hin%list_elem_of_In; [|done]. exfalso.
  assert (Ht : existsb (λ e, bool_decide (is_Some e)) clients = true).
  { apply existsb_exists. exists (Some e). split; [done|]. by apply bool_decide_eq_true. }
  congruence.
Qed.

(** C13: the operator starts without deadlock and works on caches that have synced:
    whatever the interleaving, no worker of a controller exists before every cache
    that it reads has synced; as long as the process runs and there was no signal,
    both controllers may still come to run, since [main] has requested and started
    each informer they wait for; and from any state the process may end well.  It
    exits with code 0 only after a signal and once both [Run] have returned; with code
    1 at the second signal, or when a restoration or a worker that handles a backup
    calls [Fatalf]; with code 2 when a worker or a goroutine that one left behind
    panics: what one cluster asks may end the operator of all.  [main] waits neither
    for the workers nor for the goroutines: a reconciliation and a restoration may be
    cut off. *)
Theorem operator_runs (args : list string) (getenv : string → string) (clients : list (option error)) (op : operator) :
  main args getenv clients = Started op →
  (∀ p, reachable op p →
     (∀ c s, (get c p).(workers) ≠ [] → s ∈ reads op c → s ∈ p.(synced)) ∧
     (∀ e, p.(exited) = Some e →
        match exit_code e with
        | 0 => (0 < p.(signals))%nat ∧ p.(galera).(state) = Returned ∧ p.(backup).(state) = Returned
        | 1 => p.(signals) = 2%nat ∨ Restoration ∈ p.(jobs) ∨ Busy ∈ p.(backup).(workers)
        | _ => exit_code e = 2 ∧ may_panic p
        end) ∧
     (p.(exited) = None → p.(signals) = 0%nat →
        ∃ p', rtc (step op) p p' ∧ p'.(exited) = None ∧ ∀ c, (get c p').(state) = Running) ∧
     (p.(exited) = None → ∃ p', rtc (step op) p p' ∧ p'.(exited) = Some MainReturned)) ∧
  (0 < op.(galeraThreads) →
     ∃ p, reachable op p ∧ p.(exited) = Some MainReturned ∧ Busy ∈ p.(galera).(workers) ∧ Restoration ∈ p.(jobs)).
Proof.
  intros (flags & rest & _ & _ & _ & _ & _ & ->)%main_build.
  set (ns := getenv EnvOperatorPodNamespace). set (cf := configOf flags). split; [|apply busy_exit].
  intros p Hr. pose proof (reachable_inv _ _ Hr) as Hi. split_and!.
  - intros c s Hw Hs. pose proof (inv_workers _ _ Hi c Hw) as Ha. rewrite Forall_forall in Ha.
    by apply Ha, (proj1 (build_awaits cf ns c)).
  - intros e He. pose proof (inv_exited _ _ Hi _ He) as H0. destruct e; cbn in *; auto.
  - intros He Hs. destruct (both_run cf ns p Hr He Hs) as (p' & R & He' & Hrun). exists p'.
    split_and!; [done..|]. apply Hrun.
  - intros He. destruct (cancelled p) eqn:Ec.
    + destruct (stop_both (build cf ns) p He Ec) as (p' & R & He' & _). by exists p'.
    + destruct (stop_both (build cf ns) (signalled p) He eq_refl) as (p' & R & He' & _). exists p'. split; [|done].
      eapply rtc_l; [|exact R]. apply step_signal; [done|].
      destruct (signals p) eqn:E; [done|]. assert (cancelled p = true); [|congruence].
      apply (inv_cancelled _ _ Hi). lia.
Qed.

(** What [main] starts follows its flags: both controllers have the same scope;
    without [cluster-wide] every informer lists and watches in the namespace of the
    operator only, else in all; each control reads the cache of its resource; and a
    missing variable, a client that cannot be made or an invalid flag ends the command
    before anything is started. *)
Theorem operator_scope (args : list string) (getenv : string → string) (clients : list (option error)) (op : operator) :
  main args getenv clients = Started op →
  let ns := getenv EnvOperatorPodNamespace in
  let wide := gc_clusterWide op.(galeraCtl) in
  ns ≠ "" ∧ getenv EnvOperatorPodName ≠ "" ∧ Forall (λ e, e = None) clients ∧
  gbc_clusterWide op.(backupCtl) = wide ∧ op.(kubeNamespace) = (if wide then "" else ns) ∧
  (∀ k i opts, op.(own).(Informers.informers) !! k = Some i →
     (Informers.ListFunc (A:=unit) i opts).(rq_ns) = (if wide then "" else ns) ∧
     (Informers.WatchFunc (A:=unit) i opts).(rq_ns) = (if wide then "" else ns) ∧
     (Informers.ListFunc (A:=unit) i opts).(rq_resource) = plural k) ∧
  op.(galeraCtl).(gc_control).(serviceControl) = Kube Services ∧
  op.(galeraCtl).(gc_control).(pdbControl) = Kube PodDisruptionBudgets ∧
  op.(galeraCtl).(gc_control).(podControl) = (Kube Pods, Kube PersistentVolumeClaims) ∧
  op.(galeraCtl).(gc_control).(upgradeConfigControl) = (Own UpgradeConfig, Own UpgradeRule, Kube ConfigMaps) ∧
  op.(galeraCtl).(gc_control).(controllerHistory) = Kube ControllerRevisions ∧
  op.(galeraCtl).(gc_control).(secretControl) = Kube Secrets.
Proof.
  intros (flags & rest & _ & _ & Hns & Hname & Hcl & ->)%main_build. intros ns wide.
  split_and!; [exact Hns|exact Hname|exact Hcl|reflexivity|reflexivity| |reflexivity..].
  intros k i opts Hk. pose proof (build_wf (configOf flags) ns) as Hw.
  destruct (Informers.wf_informers _ Hw k i Hk) as (Ek & En & _). cbn [Informers.ListFunc Informers.WatchFunc].
  unfold Informers.ListFunc, Informers.WatchFunc. cbn [Typed.List Typed.Watch rq_ns rq_resource Typed.ns Typed.resource].
  rewrite Ek, En, build_namespace. unfold wide. rewrite build_clusterWide.
  split_and!; reflexivity.
Qed.
End Command.

Import Command.

(** ** Examples *)

(** The arguments and the variables of the manifest of the operator *)
Definition example_args : list string := ["-resync=30"; "-run-thread=2"; "--backup-thread"; "2"].
Definition example_env (name : string) : string :=
  if decide (name = EnvOperatorPodNamespace) then "galera" else if decide (name = EnvOperatorPodName) then "op-0" else "".

Definition example_operator : operator :=
  build (mkConfig ":8080" false "sebs42/galera-bootstrap:0.4" "sebs42/galera-backup:0.4" "" 30 2 2 false) "galera".

Lemma example_main : main example_args example_env [None; None; None] = Started example_operator.
Proof. reflexivity. Qed.

Example main_exits :
  main ["-version"] example_env [] = Exited 0 ∧ main ["-resync"] example_env [] = Exited 2 ∧
  main ["-cluster-wide=maybe"] example_env [] = Exited 2 ∧ main [] (λ _, "") [] = Exited 1.
Proof. split_and!; reflexivity. Qed.

Lemma operator_runs_witness :
  ∃ p, reachable example_operator p ∧ p.(exited) = Some MainReturned ∧ Busy ∈ p.(galera).(workers) ∧ Restoration ∈ p.(jobs).
Proof.
  exact (proj2 (operator_runs example_args example_env [None; None; None] example_operator example_main) eq_refl).
Defined.

Lemma operator_scope_witness : example_operator.(kubeNamespace) = "galera".
Proof.
  exact (proj1 (proj2 (proj2 (proj2 (proj2
    (operator_scope example_args example_env [None; None; None] example_operator example_main)))))).
Defined.
